(* ===== verification/_CoqProject ===== *)
-Q . S2P
Prelude.v
Float64.v
Sha256.v
Gas.v
GasFacts.v
Json.v
Database.v
P256.v
Crypto.v
Transaction.v
Wallet.v
WalletFacts.v
Merkle.v
Account.v
Utxo.v
UtxoSync.v
UtxoFacts.v
UtxoSyncFacts.v
UtxoSelect.v
UtxoWitness.v
Mempool.v
MempoolFacts.v
Trie.v
TrieFacts.v
Stake.v
StakeFacts.v
Block.v
BlockJson.v
BlockFacts.v
Chain.v
ChainFacts.v
ChainStore.v
ChainStoreFacts.v
Validator.v
Consensus.v
ValidatorFacts.v
ConsensusFacts.v
Mining.v
MiningFacts.v
RawSocket.v
RawSocketFacts.v
Sync.v
SyncFacts.v
Peers.v
PeersFacts.v
P2p.v
P2pFacts.v
Rpc.v
RpcFacts.v
RpcTxFacts.v
Subscriptions.v
SubscriptionsFacts.v
Server.v
ServerHandlers.v
ServerFacts.v
ServerHandlersFacts.v
ValidatorApi.v
ValidatorApiFacts.v
WalletApi.v
WalletApiFacts.v
NetworkApi.v
NetworkApiFacts.v
Bootnode.v
BootnodeFacts.v
UtxoProof.v
P2pPeers.v
P2pPeersFacts.v
Cli.v
CliFacts.v
