(* ===== verification/Prelude.v ===== *)
(** * A verification library for the hybrid PoW/PoS blockchain node

    The node ([src/blockchain/], Go) keeps a chain of blocks, the set of unspent
    outputs (UTXOs) that the chain leaves behind, account states, a mempool of
    pending transactions and a pool of stakes. A miner assembles a block from the
    mempool, searches a nonce, and asks the validators with the highest stakes to
    confirm it; a block that is accepted extends the chain, updates the UTXO pool
    and is stored in LevelDB. Nodes exchange blocks, mempools, stakes and chunks
    of the UTXO set.

    ** How the code is modelled

    Go functions are Rocq functions on records with the fields of the Go structs;
    a method takes its receiver and returns it changed. A call returns ([Done]),
    panics ([Panic]) or waits for ever on a mutex its own goroutine holds
    ([Deadlock]); [(T, error)] is [result T] or a pair with [error]. A [uint64] is
    a [Z] with its wrap-around [u64], a [float64] a binary64 number of the standard
    library ([Float64]), a [map] a [gmap]; the order in which the runtime ranges
    over a map is an argument, a [range_order], that the theorems only ask to be a
    permutation ([fair]). Time and random draws are arguments. Log output is left
    out, and so is the text of error messages beyond their fixed part.

    Code that is not in the repository is an interface with laws: goleveldb is
    [Class KV] (instance [mem_kv]), the curve arithmetic behind [crypto/ecdsa]
    [Class ECDSA] (instance [toy_ecdsa]), and what Go leaves open about
    converting floats to integers [Class GoImpl] (instance [amd64_impl]).

    ** Files

    - [Prelude]: outcomes, errors, mutexes, machine integers, strings, map orders,
      sorting, generic lemmas and hints.
    - [Float64], [Sha256], [Json], [Merkle], [P256]: the parts of Go's standard
      library that the node's results depend on, executable.
    - [Gas], [GasFacts]: [gas/*.go], [gas_conversion.go].
    - [Database]: [db/interface.go], [db/leveldb.go].
    - [Crypto], [Wallet], [WalletFacts]: [crypto.go], [multi_sig_utils.go],
      [wallet.go], [hd_wallet.go], [multi_sig_wallet.go], [wallet_utils.go].
    - [Transaction]: [transaction.go]. [Account]: [account_state.go].
    - [Utxo], [UtxoSync] and [UtxoFacts], [UtxoSyncFacts], [UtxoSelect],
      [UtxoWitness]: [utxo.go]: the pool ([UTXOPool]) with the database and the
      account manager it shares ([World]); chunks, deltas and block processing.
      [UtxoProof]: its proofs of chunks.
    - [Mempool], [MempoolFacts]: [mempool.go].
    - [Trie], [TrieFacts]: [patricia_trie.go].
    - [Stake], [StakeFacts]: [stake_pool.go].
    - [Block], [BlockFacts]: [block.go] and the block hash of [blockchain.go];
      [BlockJson]: the JSON documents of blocks and of what they hold.
    - [Chain], [ChainFacts]: [blockchain.go]; [ChainStore], [ChainStoreFacts]: its
      lookups, [store.go] and [state.go].
    - [Validator], [ValidatorFacts]: [validator.go] ([Module Val]), [slashing.go]
      ([Slashing]), [rewards.go] ([Reward]), [validator_selection.go] ([Selector]).
    - [Consensus], [ConsensusFacts]: [consensus.go].
    - [Mining], [MiningFacts]: the mining round of [blockchain.go], where chain,
      mempool, stakes and UTXO pools meet, and the validator's checks.
    - [RawSocket], [RawSocketFacts]: [sync/raw_socket.go]; [Sync], [SyncFacts]:
      [sync/service.go], [sync/converters.go], [sync/types.go].
    - [Peers], [PeersFacts]: [peer_manager.go] ([Module PeerManager]) and
      [validator_protocol.go] ([ValidatorProtocol]).
    - [P2p], [P2pFacts]: the handlers of [p2p.go] ([Module Node]) and [SignBlock].
      [P2pPeers], [P2pPeersFacts]: connections, discovery and the broadcast and
      synchronisation of chains ([Module Peering]).
    - [Bootnode], [BootnodeFacts]: [bootnode.go] ([Modules PeerStore], [RateLimiter],
      [BootstrapNode]).
    - [Cli], [CliFacts]: [src/main.go]: the start of a node ([Module Startup]), the
      registration of a validator ([Registration]) and the shell ([Shell]).
    - [Rpc], [RpcFacts], [RpcTxFacts]: the query and transaction interfaces,
      [src/RPC/api/blockchain.go] ([Module BlockchainAPI]) and
      [src/RPC/api/transaction.go] ([TransactionAPI]).
    - [Subscriptions], [Server], [ServerHandlers] and [SubscriptionsFacts],
      [ServerFacts], [ServerHandlersFacts]: [src/RPC/server.go]: the subscription
      manager ([Module Manager]), its methods ([Events]), registration and dispatch
      by HTTP and WebSocket ([Dispatch]), the routine that announces blocks and
      transactions ([Monitor]) and the server's own handlers ([Handlers]).
    - [ValidatorApi], [WalletApi], [NetworkApi] and their [Facts]:
      [src/RPC/api/validator.go], [wallet.go] and [network.go].

    ** What the theorems show

    - UTXO pool: what [AddUTXO] does to the set, that a block is its transactions
      one by one, that the stored root is the root of the set in every reachable
      pool, that spent outputs stay spent, that the Merkle loop computes a
      reference tree in any map order, that chunks, deltas and snapshots rebuild
      the sender's set; input selection and balances.
    - Transactions, wallets, accounts: a signed transaction verifies, key bytes and
      addresses round-trip, nonces persist, multi-signature execution.
    - Mempool and trie: admission keeps the mempool bounded, sorted and free of
      duplicates; what an accepted transaction satisfies; a block's trie holds
      exactly its transactions and its caches are never stale.
    - Stake: accounting over any history whose deposits fit in 64 bits, the lock
      period, the merge as a join, the stake-weighted draw and the highest stakes.
    - Blocks and chain: what an assembled block commits to, that it validates once
      mined, what the hash binds; the chain only grows by linked blocks and a fork
      is adopted only for more work; the reward schedule.
    - Validators and consensus: penalties, status, selection by weight, the quorum.
    - Mining: what a successful round does to chain, mempool and outputs, and what a
      failed one leaves behind.
    - Network: with writes that fail and deadlines that pass at any moment, frames
      arrive in order and only those of failed writes are missing until a frame is
      cut, a damaged one is dropped, and what arrives stands behind its checksum in
      the bytes written; streamed blocks arrive as they were, peers are ranked by score and scores stay in range, blocks
      from peers keep the chain linked, and a mined block of which no transaction
      spends an output of the block brings a replica to the miner's outputs and root; what a signed validation vouches for.
    - Interfaces: a page of a history is that page of the address's transactions,
      ranges, block times, supply and rich list are what they should be, a
      transaction reported as sent is on its way and signed, unless it was given whole
      and declares itself a coinbase or a reward, and the watch over it ends with the
      right verdict; which requests never end. What the interface signs, the node and
      the interface find valid; stake is added only for a transaction that is signed or
      declares itself one of those.
    - Server: the subscription manager refines a single map of subscriptions; in
      every state that requests, connections, announcements and clean-ups in any
      order lead to, connections are served their own subscriptions only, within
      the limit; every new block is announced once and in order, as long as no id in
      the mempool is shorter than ten characters; HTTP and WebSocket give the same
      responses to the same decoded request.
    - Bootstrap node: how many messages of a peer get through in a minute, that the
      file of the peer store survives a restart, which peers are introduced, and whom
      the heartbeats remove.
    - Start and shell: whose state a miner takes over and what it has then, what a
      payment that was reported as sent satisfies, and when a validator is registered.
    - Theorems without a claim number record where the code does not do what it
      means to (calls that block for ever, checks that compare a value with itself,
      results that depend on the order of a map).

    ** Bounds and fuel

    [Blk.mine] takes as many nonces as its fuel; [mine_first] shows that it finds
    the first solving nonce whenever there is one in that range, and the theorems
    on mined blocks hold for every fuel. A trie is 32 levels deep, the length of a
    digest, so its traversals recurse on that depth. The quorum in floating point
    equals the exact two thirds for up to 200 votes, which is checked by
    computation; the two reward schedules are compared over the first thousand
    halvings (the reward is constant after 33). Amounts are exact below [2^53].
    Loops over heights run over [uint64] and may wrap around: they take fuel and
    return [None] when it is used up. The theorems that such a request is answered
    say how much is enough (one turn for each block looked at), and the ones that
    it is not hold for every fuel.

    ** Not modelled

    libp2p itself: the host, streams, dialling, the DHT and NAT traversal
    ([nat_traversal.go]), which appear as arguments of the operations that use them;
    gRPC and its generated code; the HTTP server's routing, health and metrics pages;
    flags, configuration and wallet files, and the wiring of the parts when a node
    starts ([main.go], [config.go]), which carry data between the operations modelled
    here. A handler takes its message as the decoder delivers it
    and returns what it writes. Goroutines are modelled as the sequence of their
    calls, with mutexes where one call takes the same one twice; the server's
    connections, announcements and clean-ups are steps that interleave in any order. *)

From stdpp Require Import base gmap strings list pretty sorting.
From Stdlib Require Import ZArith Lia.

#[global] Open Scope Z_scope.

Declare Scope go_scope.
Delimit Scope go_scope with go.

(** ** Outcomes of a call

    A Go call returns, panics (nil dereference, index out of range, division
    by zero) or blocks for ever on a mutex that its own goroutine holds. *)
Inductive outcome (A : Type) : Type :=
  | Done (a : A)
  | Panic (why : string)
  | Deadlock.
Arguments Done {A} a.
Arguments Panic {A} why.
Arguments Deadlock {A}.

Definition obind {A B} (m : outcome A) (k : A → outcome B) : outcome B :=
  match m with
  | Done a => k a
  | Panic w => Panic w
  | Deadlock => Deadlock
  end.

Notation "'let!' x := m 'in' k" := (obind m (λ x, k))
  (at level 10, x pattern, m at level 100, k at level 200) : go_scope.
#[global] Open Scope go_scope.

(** A Go [error] is nil ([None]) or carries its message. *)
Abbreviation error := (option string).

(** A pair [(T, error)] in the usual Go discipline: the value on a nil error,
    else the message. *)
Inductive result (A : Type) : Type :=
  | Ok (a : A)
  | Err (msg : string).
Arguments Ok {A} a.
Arguments Err {A} msg.

Definition isOk {A} (r : result A) : bool :=
  match r with Ok _ => true | Err _ => false end.

(** ** Mutexes

    The state of a [sync.RWMutex] seen by the one goroutine whose call is
    evaluated. A [Lock] or [RLock] on a mutex that the same goroutine already
    holds for writing never returns; a nested [RLock] is granted (no other
    goroutine is waiting for the lock in a sequential evaluation). *)
Inductive mutex : Type := Unlocked | RLocked (readers : nat) | Locked.

#[global] Instance mutex_eq_dec : EqDecision mutex.
Proof. solve_decision. Defined.

Definition mutex_Lock (m : mutex) : outcome mutex :=
  match m with Unlocked => Done Locked | _ => Deadlock end.

Definition mutex_RLock (m : mutex) : outcome mutex :=
  match m with
  | Unlocked => Done (RLocked 0)
  | RLocked n => Done (RLocked (S n))
  | Locked => Deadlock
  end.

(** ** Machine integers

    A [uint64] is a [Z] in [0, 2^64), an [int]/[int64] a [Z] in
    [-2^63, 2^63); arithmetic wraps. *)
Definition u64 (z : Z) : Z := z mod 2 ^ 64.
Definition u32 (z : Z) : Z := z mod 2 ^ 32.
Definition i64 (z : Z) : Z := (z + 2 ^ 63) mod 2 ^ 64 - 2 ^ 63.

Definition is_u64 (z : Z) : Prop := 0 ≤ z < 2 ^ 64.
Definition is_u32 (z : Z) : Prop := 0 ≤ z < 2 ^ 32.
Definition is_i64 (z : Z) : Prop := - 2 ^ 63 ≤ z < 2 ^ 63.

#[global] Instance is_u64_dec z : Decision (is_u64 z).
Proof. unfold is_u64. apply _. Defined.

(** ** Formatting: the verbs the source uses *)

(** [%d] *)
Definition fmt_d (z : Z) : string := pretty z.

(** [strings.Repeat] *)
Fixpoint string_repeat (c : string) (n : nat) : string :=
  match n with O => "" | S n => c +:+ string_repeat c n end.

(** [%020d] and the like: zero padding to a width, for non-negative numbers. *)
Definition fmt_d_pad (width : nat) (z : Z) : string :=
  string_repeat "0" (width - String.length (fmt_d z)) +:+ fmt_d z.

(** [%v] of a [[]byte]. *)
Fixpoint join (sep : string) (l : list string) : string :=
  match l with
  | [] => ""
  | [x] => x
  | x :: l => x +:+ sep +:+ join sep l
  end.
Definition fmt_v_bytes (bs : list Z) : string := "[" +:+ join " " (fmt_d <$> bs) +:+ "]".

(** [strings.HasPrefix] *)
Definition has_prefix (s p : string) : bool := String.prefix p s.

(** Equality of Go strings as a boolean. *)
Definition str_eqb (a b : string) : bool := String.eqb a b.

(** ** Time

    An instant is its number of nanoseconds since the Unix epoch; [time.Time{}]
    is the first of January of the year 1. [time.Since] saturates at the range
    of a [Duration]. One call of an operation reads the clock once in the
    model, also where the code calls [time.Now] several times. *)
Definition zero_time : Z := - 62135596800 * 10 ^ 9.
Definition time_since (now t : Z) : Z := Z.max (- 2 ^ 63) (Z.min (2 ^ 63 - 1) (now - t)).
Definition unix (t : Z) : Z := t / 10 ^ 9.
Definition hour_ns : Z := 3600 * 10 ^ 9.

(** ** Iteration over Go maps

    The order of a [range] loop over a map is chosen by the runtime. A
    [range_order] turns the keys of a map into the order of one loop; the
    theorems quantify over every order that is a permutation. *)
Definition range_order := list string → list string.
Definition fair (ro : range_order) : Prop := ∀ ks, ro ks ≡ₚ ks.

Definition map_keys {V} (m : gmap string V) : list string := (map_to_list m).*1.

(** The entries visited by [for k, v := range m], in the order [ro]. *)
Definition range {V} (ro : range_order) (m : gmap string V) : list (string * V) :=
  omap (λ k, (k,.) <$> m !! k) (ro (map_keys m)).

(** [sort.Strings] *)
Definition sort_strings (l : list string) : list string := merge_sort String.le l.

(** ** Stable sorting by a strict comparison ([sort.SliceStable]) *)
Section stable_sort.
Context {A : Type} (lt : A → A → bool).

Fixpoint sort_insert (x : A) (l : list A) : list A :=
  match l with
  | [] => [x]
  | y :: l' => if lt x y then x :: l else y :: sort_insert x l'
  end.

Definition stable_sort (l : list A) : list A := foldl (flip sort_insert) [] l.
End stable_sort.

(** ** Lemmas shared by the components *)

Create HintDb go.
Create Rewrite HintDb go_rw.

Lemma u64_range z : is_u64 (u64 z).
Proof. unfold is_u64, u64. apply Z.mod_pos_bound. lia. Qed.

Lemma u64_small z : is_u64 z → u64 z = z.
Proof. unfold is_u64, u64. intros. by apply Z.mod_small. Qed.

Lemma u64_idemp z : u64 (u64 z) = u64 z.
Proof. apply u64_small, u64_range. Qed.

Lemma i64_small z : is_i64 z → i64 z = z.
Proof. unfold is_i64, i64. intros. rewrite Z.mod_small; lia. Qed.

Lemma i64_range z : is_i64 (i64 z).
Proof. unfold is_i64, i64. pose proof (Z.mod_pos_bound (z + 2^63) (2^64)). lia. Qed.

#[export] Hint Resolve u64_range i64_range : go.
#[export] Hint Rewrite u64_idemp : go_rw.

Lemma obind_Done_inv {A B} (m : outcome A) (k : A → outcome B) b :
  obind m k = Done b → ∃ a, m = Done a ∧ k a = Done b.
Proof. destruct m; simpl; naive_solver. Qed.

(** Did a call return? *)
Definition is_Done {A} (m : outcome A) : bool :=
  match m with Done _ => true | _ => false end.

Lemma is_Done_inv {A} (m : outcome A) : is_Done m = true → ∃ a, m = Done a.
Proof. destruct m; naive_solver. Qed.

(** A call returns, with a value of which [P] holds. *)
Definition returns {A} (m : outcome A) (P : A → Prop) : Prop := ∃ a, m = Done a ∧ P a.

Lemma returns_Done {A} (a : A) (P : A → Prop) : P a → returns (Done a) P.
Proof. by exists a. Qed.

Lemma returns_bind {A B} (m : outcome A) (k : A → outcome B) (P : A → Prop) (Q : B → Prop) :
  returns m P → (∀ a, P a → returns (k a) Q) → returns (obind m k) Q.
Proof. intros (a & -> & Ha) Hk. by apply Hk. Qed.

Lemma returns_foldl {A B} (f : outcome A → B → outcome A) (P : A → Prop) (l : list B) :
  (∀ m b, returns m P → returns (f m b) P) → ∀ m, returns m P → returns (foldl f m l) P.
Proof. intros Hf. induction l as [|b l IH]; intros m Hm; [done|]. by apply IH, Hf. Qed.

(** Splits an equation [obind m k = Done b] (and nested ones) into the calls
    that returned. *)
Ltac go_inv :=
  repeat match goal with
  | H : obind _ _ = Done _ |- _ =>
      let a := fresh "a" in let E := fresh "E" in
      apply obind_Done_inv in H as (a & E & H)
  | H : Done _ = Done _ |- _ => inversion H; subst; clear H
  | H : Panic _ = Done _ |- _ => discriminate H
  | H : Deadlock = Done _ |- _ => discriminate H
  | H : Ok _ = Ok _ |- _ => inversion H; subst; clear H
  | H : Err _ = Ok _ |- _ => discriminate H
  | H : Ok _ = Err _ |- _ => discriminate H
  end.

(** Case analysis on the innermost scrutinee of the goal or of a hypothesis. *)
Ltac go_case :=
  match goal with
  | |- context [match ?x with _ => _ end] =>
      lazymatch x with context [match _ with _ => _ end] => fail | _ => destruct x eqn:? end
  | H : context [match ?x with _ => _ end] |- _ =>
      lazymatch x with context [match _ with _ => _ end] => fail | _ => destruct x eqn:? end
  end.

Lemma str_eqb_eq a b : str_eqb a b = true ↔ a = b.
Proof. apply String.eqb_eq. Qed.
Lemma str_eqb_neq a b : str_eqb a b = false ↔ a ≠ b.
Proof. apply String.eqb_neq. Qed.
Lemma str_eqb_refl a : str_eqb a a = true.
Proof. apply String.eqb_refl. Qed.
#[export] Hint Rewrite str_eqb_refl : go_rw.

(** *** Stable sort *)
Section stable_sort_facts.
Context {A : Type} (lt : A → A → bool).
(** [x] may stand before [y]. *)
Definition sort_rel (x y : A) : Prop := lt y x = false.

Lemma sort_insert_perm x l : sort_insert lt x l ≡ₚ x :: l.
Proof.
  induction l as [|y l IH]; simpl; [done|]. case_match; [done|].
  rewrite IH. apply Permutation_swap.
Qed.

Lemma stable_sort_perm_acc l acc : foldl (flip (sort_insert lt)) acc l ≡ₚ acc ++ l.
Proof.
  revert acc. induction l as [|x l IH]; intros acc; simpl; [by rewrite app_nil_r|].
  rewrite IH. unfold flip. rewrite sort_insert_perm. simpl.
  by rewrite Permutation_middle.
Qed.

Lemma stable_sort_perm l : stable_sort lt l ≡ₚ l.
Proof. apply stable_sort_perm_acc. Qed.

Lemma length_stable_sort l : length (stable_sort lt l) = length l.
Proof. by rewrite stable_sort_perm. Qed.

(** Transitivity may hold only for some elements (numbers that are not NaN). *)
Context (P : A → Prop).
Context (Hasym : ∀ x y, lt x y = true → lt y x = false).
Context (Htrans : ∀ x y z, P x → P y → P z → sort_rel x y → sort_rel y z → sort_rel x z).

Lemma sort_insert_sorted x l : P x → Forall P l →
  StronglySorted sort_rel l → StronglySorted sort_rel (sort_insert lt x l).
Proof.
  intros Px Pl Hs. induction Hs as [|y l Hl IH Hy]; simpl; [by repeat constructor|].
  apply Forall_cons in Pl as [Py Pl]. case_match eqn:Hlt.
  - constructor; [by constructor|]. assert (sort_rel x y) by (by apply Hasym).
    constructor; [done|]. apply Forall_forall. intros z Hz.
    rewrite Forall_forall in Hy, Pl. eapply (Htrans x y z); eauto.
  - constructor; [by apply IH|]. rewrite sort_insert_perm. by constructor.
Qed.

Lemma stable_sort_sorted l : Forall P l → StronglySorted sort_rel (stable_sort lt l).
Proof.
  intros Hl. unfold stable_sort.
  assert (StronglySorted sort_rel ([] : list A)) as H by constructor.
  assert (Forall P ([] : list A)) as H0 by constructor.
  revert H H0. generalize ([] : list A).
  induction Hl as [|x l Px Pl IH]; intros acc Hacc Pacc; simpl; [done|].
  apply IH; [by apply sort_insert_sorted|]. unfold flip. rewrite sort_insert_perm. by constructor.
Qed.

(** Inserting an element that may stand after everything leaves it last. *)
Lemma sort_insert_last x l : Forall (λ y, sort_rel y x) l → sort_insert lt x l = l ++ [x].
Proof.
  induction 1 as [|y l Hy _ IH]; simpl; [done|].
  unfold sort_rel in Hy. by rewrite Hy, IH.
Qed.

(** A sorted list is left as it is: the sort is idempotent. *)
Lemma stable_sort_id l : StronglySorted sort_rel l → stable_sort lt l = l.
Proof.
  intros Hl. unfold stable_sort.
  assert (∀ acc, StronglySorted sort_rel (acc ++ l) →
    foldl (flip (sort_insert lt)) acc l = acc ++ l) as Hgen; [|by apply (Hgen [])].
  clear Hl. induction l as [|x l IH]; intros acc Hs; simpl; [by rewrite app_nil_r|].
  cbn [flip]. rewrite sort_insert_last.
  - rewrite IH; rewrite <-(assoc_L (++)); done.
  - rewrite Forall_forall. intros y Hy.
    eapply StronglySorted_app_1_elem_of; [done|done|]. apply elem_of_cons. by left.
Qed.
End stable_sort_facts.

(** *** Strings *)
Lemma sapp_assoc (a b c : string) : a +:+ b +:+ c = (a +:+ b) +:+ c.
Proof. induction a as [|x a IH]; [done|]. exact (f_equal (String x) IH). Qed.

Lemma substring_app_r s t n : String.substring (String.length s) n (s +:+ t) = String.substring 0 n t.
Proof. induction s as [|c s IH]; simpl; [done|]. exact IH. Qed.

Lemma substring_app_l s t : String.substring 0 (String.length s) (s +:+ t) = s.
Proof. induction s as [|c s IH]; simpl; [by destruct t|]. by rewrite IH. Qed.

Lemma substring_all s : String.substring 0 (String.length s) s = s.
Proof. induction s as [|c s IH]; simpl; [done|]. by rewrite IH. Qed.

Lemma slength_app s t : String.length (s +:+ t) = (String.length s + String.length t)%nat.
Proof. induction s; simpl; [done|]. by f_equal. Qed.

Lemma sapp_inj_l (a b c : string) : a +:+ b = a +:+ c → b = c.
Proof. induction a as [|x a IH]; [done|]. intros [= H]. by apply IH. Qed.

Lemma sapp_inj_r (a b c : string) : a +:+ c = b +:+ c → a = b.
Proof.
  revert b. induction a as [|x a IH]; intros [|y b] E; [done| | |].
  - apply (f_equal String.length) in E. rewrite !slength_app in E. cbn in E. lia.
  - apply (f_equal String.length) in E. rewrite !slength_app in E. cbn in E. lia.
  - injection E as -> E. f_equal. by apply IH.
Qed.

(** A string without a given character. *)
Fixpoint no_char (c : Ascii.ascii) (s : string) : bool :=
  match s with
  | EmptyString => true
  | String d s => negb (Ascii.eqb d c) && no_char c s
  end.

Lemma no_char_app c a b : no_char c (a +:+ b) = no_char c a && no_char c b.
Proof. induction a as [|d a IH]; [done|]. change (String d a +:+ b) with (String d (a +:+ b)). cbn [no_char]. by rewrite IH, andb_assoc. Qed.

Lemma no_char_pretty_N c (n : N) : (∀ d, Ascii.eqb (pretty_N_char d) c = false) → no_char c (pretty n) = true.
Proof.
  intros Hc. assert (∀ x s, no_char c s = true → no_char c (pretty_N_go x s) = true) as Hgo.
  { intros x. induction (N.lt_wf_0 x) as [x _ IH]; intros s Hs.
    destruct (decide (x = 0)%N) as [->|Hx]; [by rewrite pretty_N_go_0|].
    rewrite pretty_N_go_step by lia. apply IH; [apply N.div_lt; lia|]. cbn. by rewrite Hs, Hc. }
  unfold pretty, pretty_N. case_decide; [|by apply Hgo]. cbn.
  rewrite andb_true_r. apply negb_true_iff, (Hc 0%N).
Qed.

(** A separator that one side does not contain splits a string in one way. *)
Lemma split_first c a b x y : no_char c a = true → no_char c b = true →
  a +:+ String c x = b +:+ String c y → a = b ∧ x = y.
Proof.
  revert b. induction a as [|d a IH]; intros [|e b] Ha Hb E; cbn in *.
  - by injection E.
  - injection E as <- _. by rewrite Ascii.eqb_refl in Hb.
  - injection E as -> _. by rewrite Ascii.eqb_refl in Ha.
  - apply andb_true_iff in Ha as [_ Ha]. apply andb_true_iff in Hb as [_ Hb].
    injection E as <- E. by destruct (IH b Ha Hb E) as [-> ->].
Qed.

Lemma split_last c a b x y : no_char c x = true → no_char c y = true →
  a +:+ String c x = b +:+ String c y → a = b ∧ x = y.
Proof.
  assert (∀ p q, no_char c (p +:+ String c q) = false) as Hno.
  { intros p q. rewrite no_char_app. cbn. rewrite Ascii.eqb_refl. apply andb_false_r. }
  revert b. induction a as [|d a IH]; intros [|e b] Hx Hy E; cbn in *.
  - by injection E.
  - injection E as _ ->. by rewrite Hno in Hx.
  - injection E as _ <-. by rewrite Hno in Hy.
  - injection E as <- E. by destruct (IH b Hx Hy E) as [-> ->].
Qed.

(** *** Range loops

    A loop visits the entries of the map, in some order. *)
(** Filters that keep everything, nothing, and fewer than another one. *)
Lemma filter_none {A} (P : A → Prop) `{!∀ x, Decision (P x)} l : Forall P l → filter P l = l.
Proof. induction 1 as [|x l Hx _ IH]; [done|]. rewrite filter_cons, IH. by case_decide. Qed.

Lemma filter_unmatched {A} (P : A → Prop) `{!∀ x, Decision (P x)} l : Forall (λ x, ¬ P x) l → filter P l = [].
Proof. induction 1 as [|x l Hx _ IH]; [done|]. rewrite filter_cons, IH. by case_decide. Qed.

Lemma length_filter_mono {A} (P Q : A → Prop) `{!∀ x, Decision (P x), !∀ x, Decision (Q x)} l : (∀ x, P x → Q x) →
  (length (filter P l) ≤ length (filter Q l))%nat.
Proof.
  intros HPQ. induction l as [|x l IH]; [done|]. rewrite !filter_cons. repeat case_decide; cbn; try lia. naive_solver.
Qed.

Lemma range_perm {V} (ro : range_order) (m : gmap string V) :
  fair ro → range ro m ≡ₚ map_to_list m.
Proof.
  intros Hro. unfold range. rewrite (Hro (map_keys m)). unfold map_keys.
  assert (∀ l : list (string * V), (∀ e, e ∈ l → m !! e.1 = Some e.2) →
    omap (λ k, (k,.) <$> m !! k) l.*1 = l) as Hl.
  { induction l as [|[k v] l IH]; intros Hin; [done|]. cbn.
    pose proof (Hin (k, v) ltac:(apply elem_of_cons; by left)) as Hk. simpl in Hk.
    rewrite Hk. cbn. f_equal. apply IH.
    intros e He. apply Hin, elem_of_cons. by right. }
  rewrite Hl; [done|]. intros [k v] He. by apply elem_of_map_to_list in He.
Qed.

Lemma count_foldl {A} (f : A → bool) l n :
  foldl (λ n e, if f e then n + 1 else n) n l = n + Z.of_nat (length (filter f l)).
Proof.
  revert n. induction l as [|a l IH]; intros n; simpl; [lia|].
  rewrite IH. destruct (f a) eqn:Hf.
  - rewrite filter_cons_True by (by rewrite Hf). simpl. lia.
  - rewrite filter_cons_False by (rewrite Hf; intros []). lia.
Qed.
