(* ===== verification/Float64.v ===== *)
(** * IEEE-754 binary64

    Go's [float64] as the executable [spec_float] of the standard library at
    precision 53 and maximal exponent 1024: the arithmetic, comparison,
    conversion and formatting operations the node uses, that comparisons of
    numbers that are not NaN form a strict weak order, and that integers below
    [2^53] are represented, compared, added, subtracted and multiplied
    exactly. *)

From stdpp Require Import base gmap strings list pretty sorting.
From Stdlib Require Import ZArith Lia.
From Stdlib Require Import SpecFloat.
From S2P Require Import Prelude.

Abbreviation float64 := spec_float.

#[global] Instance float64_eq_dec : EqDecision float64.
Proof. solve_decision. Defined.

#[global] Instance float64_inhabited : Inhabited float64 := populate (S754_zero false).

(** ** Operations *)
Definition f64_add : float64 → float64 → float64 := SFadd 53 1024.
Definition f64_sub : float64 → float64 → float64 := SFsub 53 1024.
Definition f64_mul : float64 → float64 → float64 := SFmul 53 1024.
Definition f64_div : float64 → float64 → float64 := SFdiv 53 1024.
Definition f64_opp : float64 → float64 := SFopp.
Definition f64_lt (x y : float64) : bool := SFltb x y.
Definition f64_le (x y : float64) : bool := SFleb x y.
Definition f64_gt (x y : float64) : bool := SFltb y x.
Definition f64_ge (x y : float64) : bool := SFleb y x.
Definition f64_eq (x y : float64) : bool := SFeqb x y.

Definition f64_zero : float64 := S754_zero false.

(** The conversion [float64(n)] of an integer: round to nearest even. *)
Definition f64_of_Z (n : Z) : float64 := binary_normalize 53 1024 n 0 false.

(** A decimal constant [n/d] of the source ([n], [d] below [2^53]): one
    correctly rounded division of two exact integers. *)
Definition f64_ratio (n d : Z) : float64 := f64_div (f64_of_Z n) (f64_of_Z d).

Definition f64_is_nan (x : float64) : bool :=
  match x with S754_nan => true | _ => false end.
Definition f64_is_finite (x : float64) : bool :=
  match x with S754_zero _ | S754_finite _ _ _ => true | _ => false end.

(** [math.Min] and [math.Max] *)
Definition f64_min (x y : float64) : float64 :=
  match x, y with
  | S754_infinity true, _ | _, S754_infinity true => S754_infinity true
  | S754_nan, _ | _, S754_nan => S754_nan
  | S754_zero sx, S754_zero _ => if sx then x else y
  | _, _ => if f64_lt x y then x else y
  end.
Definition f64_max (x y : float64) : float64 :=
  match x, y with
  | S754_infinity false, _ | _, S754_infinity false => S754_infinity false
  | S754_nan, _ | _, S754_nan => S754_nan
  | S754_zero sx, S754_zero _ => if sx then y else x
  | _, _ => if f64_gt x y then x else y
  end.

(** Truncation towards zero; [None] for an infinity or a NaN. *)
Definition f64_trunc (x : float64) : option Z :=
  match x with
  | S754_zero _ => Some 0
  | S754_finite s m e =>
      let v := if 0 <=? e then Zpos m * 2 ^ e else Zpos m / 2 ^ (- e) in
      Some (if s then - v else v)
  | _ => None
  end.

(** The conversion [uint64(x)] (and [int(x)]) of a value the target type
    cannot represent is left to the implementation by the language. *)
Class GoImpl := {
  conv_u64_oob : float64 → Z;
  conv_u64_oob_range : ∀ x, is_u64 (conv_u64_oob x);
}.

Definition f64_to_u64 `{GoImpl} (x : float64) : Z :=
  match f64_trunc x with
  | Some v => if (0 <=? v) && (v <? 2 ^ 64) then v else conv_u64_oob x
  | None => conv_u64_oob x
  end.

(** The instance used to evaluate examples: amd64 yields [2^63] on the
    "integer indefinite" cases. *)
#[global] Program Instance amd64_impl : GoImpl | 10 :=
  {| conv_u64_oob _ := 2 ^ 63 |}.
Next Obligation. unfold is_u64. lia. Qed.

(** ** Formatting

    [%.<p>f]: the exact binary value rounded half to even at [p] decimals. *)
Definition round_half_even (n d : Z) : Z :=
  let q := n / d in
  let r := n mod d in
  match 2 * r ?= d with
  | Lt => q
  | Gt => q + 1
  | Eq => if Z.even q then q else q + 1
  end.

Definition f64_scaled (p : nat) (m : positive) (e : Z) : Z :=
  if 0 <=? e then Zpos m * 2 ^ e * 10 ^ Z.of_nat p
  else round_half_even (Zpos m * 10 ^ Z.of_nat p) (2 ^ (- e)).

Definition fmt_fixed (p : nat) (v : Z) : string :=
  fmt_d (v / 10 ^ Z.of_nat p) +:+ "." +:+ fmt_d_pad p (v mod 10 ^ Z.of_nat p).

Definition fmt_f (p : nat) (x : float64) : string :=
  match x with
  | S754_nan => "NaN"
  | S754_infinity s => if s then "-Inf" else "+Inf"
  | S754_zero s => (if s then "-" else "") +:+ fmt_fixed p 0
  | S754_finite s m e => (if s then "-" else "") +:+ fmt_fixed p (f64_scaled p m e)
  end.

(** [Duration.Minutes()] and [Duration.Hours()] *)
Definition f64_duration (unit d : Z) : float64 :=
  f64_add (f64_of_Z (Z.quot d unit)) (f64_div (f64_of_Z (Z.rem d unit)) (f64_of_Z unit)).
Definition duration_minutes : Z → float64 := f64_duration (60 * 10 ^ 9).
Definition duration_hours : Z → float64 := f64_duration hour_ns.

(** The sum of a Go loop [s := 0.0; for ... { s += x }]. *)
Definition f64_sum (l : list float64) : float64 := foldl f64_add f64_zero l.

(** ** Comparison is a strict weak order away from NaN *)

(** The position of a number on the line: class, exponent, mantissa. *)
Definition f64_key (x : float64) : Z * Z * Z :=
  match x with
  | S754_infinity true => (-2, 0, 0)
  | S754_finite true m e => (-1, - e, - Zpos m)
  | S754_zero _ | S754_nan => (0, 0, 0)
  | S754_finite false m e => (1, e, Zpos m)
  | S754_infinity false => (2, 0, 0)
  end.

Definition key_lt (a b : Z * Z * Z) : Prop :=
  a.1.1 < b.1.1 ∨ a.1.1 = b.1.1 ∧ (a.1.2 < b.1.2 ∨ a.1.2 = b.1.2 ∧ a.2 < b.2).

(** The exact value [n * 2^e] is the canonical mantissa and exponent [M, E]. *)
Definition canon (n e : Z) (M : positive) (E : Z) : Prop :=
  2 ^ 52 ≤ Zpos M < 2 ^ 53 ∧ -1074 ≤ E ≤ 971 ∧ -1074 ≤ e ∧
  Zpos M * 2 ^ (E + 1074) = n * 2 ^ (e + 1074).

Lemma SFcompare_key x y c :
  f64_is_nan x = false → f64_is_nan y = false →
  SFcompare x y = Some c →
  match c with
  | Lt => key_lt (f64_key x) (f64_key y)
  | Eq => f64_key x = f64_key y
  | Gt => key_lt (f64_key y) (f64_key x)
  end.
Proof.
  assert (∀ p q, (p ?= q)%positive = match Zpos p ?= Zpos q with c => c end) as Hp by done.
  unfold key_lt.
  destruct x as [sx|sx| |sx mx ex], y as [sy|sy| |sy my ey]; simpl; try discriminate;
    intros _ _ [= <-]; destruct sx; try destruct sy; simpl; try lia; try done.
  - destruct (Z.compare_spec ex ey); simpl; try lia. subst.
    fold (Pos.compare mx my). destruct (Pos.compare_spec mx my); simpl; try lia. by subst.
  - destruct (Z.compare_spec ex ey); simpl; try lia. subst.
    fold (Pos.compare mx my). destruct (Pos.compare_spec mx my); simpl; try lia. by subst.
Qed.

Lemma SFcompare_total x y :
  f64_is_nan x = false → f64_is_nan y = false → ∃ c, SFcompare x y = Some c.
Proof. destruct x as [[]|[]| |[]], y as [[]|[]| |[]]; simpl; eauto; discriminate. Qed.

Lemma f64_lt_key x y :
  f64_is_nan x = false → f64_is_nan y = false →
  f64_lt x y = true ↔ key_lt (f64_key x) (f64_key y).
Proof.
  intros Hx Hy. unfold f64_lt, SFltb.
  destruct (SFcompare_total x y Hx Hy) as [c Hc]. rewrite Hc.
  pose proof (SFcompare_key _ _ _ Hx Hy Hc) as Hk. unfold key_lt in *.
  destruct c; split; intros; simpl in *; try done; try rewrite Hk in *; lia.
Qed.

Lemma f64_le_key x y :
  f64_is_nan x = false → f64_is_nan y = false →
  f64_le x y = true ↔ ¬ key_lt (f64_key y) (f64_key x).
Proof.
  intros Hx Hy. unfold f64_le, SFleb.
  destruct (SFcompare_total x y Hx Hy) as [c Hc]. rewrite Hc.
  pose proof (SFcompare_key _ _ _ Hx Hy Hc) as Hk. unfold key_lt in *.
  destruct c; split; intros; simpl in *; try done; try rewrite Hk in *; lia.
Qed.

Lemma f64_lt_not_nan x y : f64_lt x y = true → f64_is_nan x = false ∧ f64_is_nan y = false.
Proof. destruct x, y; done. Qed.

Lemma f64_lt_asym x y : f64_lt x y = true → f64_lt y x = false.
Proof.
  intros H. destruct (f64_lt_not_nan _ _ H) as [Hx Hy].
  apply not_true_is_false. rewrite f64_lt_key by done. apply f64_lt_key in H; [|done..].
  unfold key_lt in *. lia.
Qed.

(** Not being below is transitive on numbers that are not NaN. *)
Lemma f64_nlt_trans x y z :
  f64_is_nan x = false → f64_is_nan y = false → f64_is_nan z = false →
  f64_lt y x = false → f64_lt z y = false → f64_lt z x = false.
Proof.
  intros Hx Hy Hz. rewrite <-!not_true_iff_false.
  rewrite !f64_lt_key by done. unfold key_lt. lia.
Qed.

(** [<=] is the negation of [>] away from NaN. *)
Lemma f64_le_nlt x y :
  f64_is_nan x = false → f64_is_nan y = false → f64_le x y = negb (f64_lt y x).
Proof.
  intros Hx Hy. apply eq_true_iff_eq. rewrite negb_true_iff, <-not_true_iff_false.
  by rewrite f64_le_key, f64_lt_key.
Qed.

Lemma f64_le_refl x : f64_is_nan x = false → f64_le x x = true.
Proof. intros. apply f64_le_key; [done..|]. unfold key_lt. lia. Qed.

Lemma f64_le_trans x y z : f64_le x y = true → f64_le y z = true → f64_le x z = true.
Proof.
  intros H1 H2.
  assert (f64_is_nan x = false ∧ f64_is_nan y = false) as [Hx Hy] by (by destruct x, y).
  assert (f64_is_nan z = false) as Hz by (by destruct y, z).
  rewrite !f64_le_key in * by done. unfold key_lt in *. lia.
Qed.

(** ** Exact integers *)

Lemma digits2_pos_log2 p : Zpos (digits2_pos p) = Z.log2 (Zpos p) + 1.
Proof.
  induction p as [p IH|p IH|]; [| |done].
  - change (digits2_pos p~1) with (Pos.succ (digits2_pos p)).
    rewrite Pos2Z.inj_succ, IH, Pos2Z.inj_xI, Z.log2_succ_double; lia.
  - change (digits2_pos p~0) with (Pos.succ (digits2_pos p)).
    rewrite Pos2Z.inj_succ, IH, Pos2Z.inj_xO, Z.log2_double; lia.
Qed.

Lemma iter_xO p k : Zpos (Pos.iter xO p k) = Zpos p * 2 ^ Zpos k.
Proof.
  induction k as [|k IH] using Pos.peano_ind; [cbn; lia|].
  rewrite Pos.iter_succ, Pos2Z.inj_xO, IH, Pos2Z.inj_succ, Z.pow_succ_r by lia. lia.
Qed.

Lemma iter_pos_iter {A} (f : A → A) p x : iter_pos f p x = Pos.iter f x p.
Proof.
  revert x. induction p as [p IH|p IH|]; intros x; cbn [iter_pos Pos.iter]; [| |done].
  - rewrite !IH. by rewrite <-!Pos.iter_swap.
  - by rewrite !IH.
Qed.

(** Shifting out zeros is exact. *)
Lemma shr_exact m k :
  iter_pos shr_1 k {| shr_m := Zpos m * 2 ^ Zpos k; shr_r := false; shr_s := false |}
  = {| shr_m := Zpos m; shr_r := false; shr_s := false |}.
Proof.
  rewrite iter_pos_iter. revert m.
  induction k as [|k IH] using Pos.peano_ind; intros m.
  - simpl. by rewrite Pos.mul_comm.
  - rewrite Pos.iter_succ, Pos2Z.inj_succ, Z.pow_succ_r by lia.
    replace (Zpos m * (2 * 2 ^ Zpos k)) with (Zpos m~0 * 2 ^ Zpos k) by lia.
    by rewrite IH.
Qed.

Lemma canon_pos n e M E : canon n e M E → 0 < n.
Proof.
  intros (? & ? & ? & Heq). pose proof (Z.pow_pos_nonneg 2 (e + 1074)).
  pose proof (Z.pow_pos_nonneg 2 (E + 1074)). nia.
Qed.

Lemma canon_log2 n e M E : canon n e M E → Z.log2 n + e = E + 52.
Proof.
  intros Hc. pose proof (canon_pos _ _ _ _ Hc). destruct Hc as (HM & HE & He & Heq).
  apply (f_equal Z.log2) in Heq. rewrite !Z.log2_mul_pow2 in Heq by lia.
  assert (Z.log2 (Zpos M) = 52); [|lia]. apply Z.log2_unique; lia.
Qed.

Lemma canon_unique n e M E M' E' : canon n e M E → canon n e M' E' → M = M' ∧ E = E'.
Proof.
  intros H1 H2. pose proof (canon_log2 _ _ _ _ H1). pose proof (canon_log2 _ _ _ _ H2).
  assert (E = E') as -> by lia. split; [|done].
  destruct H1 as (_ & ? & _ & H1), H2 as (_ & _ & _ & H2).
  pose proof (Z.pow_pos_nonneg 2 (E' + 1074)). nia.
Qed.

Lemma canon_exists n : 0 < n < 2 ^ 53 → ∃ M E, canon n 0 M E.
Proof.
  intros Hn. pose proof (Z.log2_spec n ltac:(lia)) as [Hlo Hhi].
  assert (0 ≤ Z.log2 n ≤ 52) as Hl.
  { split; [apply Z.log2_nonneg|]. assert (Z.log2 n < 53); [|lia]. apply Z.log2_lt_pow2; lia. }
  exists (Z.to_pos (n * 2 ^ (52 - Z.log2 n))), (Z.log2 n - 52).
  assert (0 < n * 2 ^ (52 - Z.log2 n)) by (pose proof (Z.pow_pos_nonneg 2 (52 - Z.log2 n)); nia).
  unfold canon. rewrite !Z2Pos.id by done. repeat split; try lia.
  - replace (2 ^ 52) with (2 ^ Z.log2 n * 2 ^ (52 - Z.log2 n)) by (rewrite <-Z.pow_add_r; f_equal; lia).
    apply Z.mul_le_mono_nonneg_r; lia.
  - replace (2 ^ 53) with (2 ^ Z.succ (Z.log2 n) * 2 ^ (52 - Z.log2 n))
      by (rewrite <-Z.pow_add_r; f_equal; lia).
    apply Z.mul_lt_mono_pos_r; lia.
  - rewrite <-Z.mul_assoc, <-Z.pow_add_r by lia. do 2 f_equal. lia.
Qed.

Lemma fexp_canon n e M E : canon n e M E → fexp 53 1024 (Z.log2 n + 1 + e) = E.
Proof.
  intros Hc. pose proof (canon_log2 _ _ _ _ Hc). destruct Hc as (_ & HE & _).
  unfold fexp, emin. lia.
Qed.

Lemma canon_self n e M E : canon n e M E → canon (Zpos M) E M E.
Proof. intros (? & ? & ? & ?). repeat split; lia. Qed.

Lemma shr_fexp_canon m e M E :
  canon (Zpos m) e M E → e ≤ E →
  shr_fexp 53 1024 (Zpos m) e loc_Exact
  = ({| shr_m := Zpos M; shr_r := false; shr_s := false |}, E).
Proof.
  intros Hc HeE. unfold shr_fexp. cbn [Zdigits2 shr_record_of_loc].
  rewrite digits2_pos_log2, (fexp_canon _ _ _ _ Hc).
  destruct Hc as (_ & ? & ? & Heq). unfold shr.
  destruct (E - e) as [|k|k] eqn:Hk; [..|lia].
  - assert (E = e) as -> by lia. pose proof (Z.pow_pos_nonneg 2 (e + 1074)).
    repeat f_equal. nia.
  - assert (Zpos m = Zpos M * 2 ^ Zpos k) as ->.
    { replace (E + 1074) with (Zpos k + (e + 1074)) in Heq by lia.
      rewrite Z.pow_add_r, Z.mul_assoc in Heq by lia.
      pose proof (Z.pow_pos_nonneg 2 (e + 1074)). nia. }
    rewrite shr_exact. f_equal. lia.
Qed.

Lemma binary_round_aux_canon s m e M E :
  canon (Zpos m) e M E → e ≤ E →
  binary_round_aux 53 1024 s (Zpos m) e loc_Exact = S754_finite s M E.
Proof.
  intros Hc HeE. unfold binary_round_aux. rewrite (shr_fexp_canon _ _ _ _ Hc HeE). cbn.
  rewrite (shr_fexp_canon M E M E) by (eauto using canon_self; lia). cbn -[Z.leb].
  destruct Hc as (_ & ? & _). by destruct (Z.leb_spec E (1024 - 53)); [|lia].
Qed.

Lemma binary_round_canon s m e M E :
  canon (Zpos m) e M E → binary_round 53 1024 s m e = S754_finite s M E.
Proof.
  intros Hc. unfold binary_round, shl_align.
  rewrite digits2_pos_log2, (fexp_canon _ _ _ _ Hc).
  destruct (E - e) as [|k|k] eqn:Hk.
  - apply binary_round_aux_canon; [done|lia].
  - apply binary_round_aux_canon; [done|lia].
  - apply binary_round_aux_canon; [|lia]. destruct Hc as (? & ? & ? & Heq).
    repeat split; try lia. rewrite iter_xO, Heq, <-Z.mul_assoc, <-Z.pow_add_r by lia.
    do 2 f_equal. lia.
Qed.

Lemma f64_of_Z_pos n : 0 < n < 2 ^ 53 →
  ∃ M E, f64_of_Z n = S754_finite false M E ∧ canon n 0 M E.
Proof.
  intros Hn. destruct (canon_exists n Hn) as (M & E & Hc). exists M, E. split; [|done].
  destruct n as [|p|p]; [lia| |lia]. by apply binary_round_canon.
Qed.

(** Integers below [2^53] survive the round trip through [float64]. *)
Lemma f64_trunc_of_Z n : 0 ≤ n < 2 ^ 53 → f64_trunc (f64_of_Z n) = Some n.
Proof.
  intros Hn. destruct (decide (n = 0)) as [->|]; [done|].
  destruct (f64_of_Z_pos n ltac:(lia)) as (M & E & -> & Hc). simpl. f_equal.
  destruct Hc as (_ & HE & _ & Heq). case_match eqn:H0.
  - apply Z.leb_le in H0. rewrite Z.pow_add_r in Heq by lia.
    pose proof (Z.pow_pos_nonneg 2 1074). nia.
  - apply Z.leb_gt in H0.
    assert (Zpos M = n * 2 ^ (- E)) as ->; [|apply Z.div_mul; pose proof (Z.pow_pos_nonneg 2 (-E)); lia].
    replace (0 + 1074) with (- E + (E + 1074)) in Heq by lia.
    rewrite (Z.pow_add_r 2 (- E)), Z.mul_assoc in Heq by lia.
    pose proof (Z.pow_pos_nonneg 2 (E + 1074)). nia.
Qed.

Lemma f64_to_u64_of_Z `{GoImpl} n : 0 ≤ n < 2 ^ 53 → f64_to_u64 (f64_of_Z n) = n.
Proof.
  intros Hn. unfold f64_to_u64. rewrite f64_trunc_of_Z by done.
  by rewrite (proj2 (Z.leb_le 0 n)), (proj2 (Z.ltb_lt n (2 ^ 64))) by lia.
Qed.

Lemma f64_to_u64_range `{GoImpl} x : is_u64 (f64_to_u64 x).
Proof.
  unfold f64_to_u64. repeat case_match; auto using conv_u64_oob_range.
  unfold is_u64. lia.
Qed.

Lemma f64_of_Z_not_nan n : 0 ≤ n < 2 ^ 53 → f64_is_nan (f64_of_Z n) = false.
Proof.
  intros Hn. destruct (decide (n = 0)) as [->|]; [done|].
  by destruct (f64_of_Z_pos n ltac:(lia)) as (M & E & -> & _).
Qed.

Lemma f64_key_of_Z_lt a b : 0 ≤ a < 2 ^ 53 → 0 ≤ b < 2 ^ 53 →
  key_lt (f64_key (f64_of_Z a)) (f64_key (f64_of_Z b)) ↔ a < b.
Proof.
  intros Ha Hb. unfold key_lt.
  destruct (decide (a = 0)) as [->|]; destruct (decide (b = 0)) as [->|].
  - simpl. lia.
  - destruct (f64_of_Z_pos b ltac:(lia)) as (M & E & -> & _). simpl. lia.
  - destruct (f64_of_Z_pos a ltac:(lia)) as (M & E & -> & _). simpl. lia.
  - destruct (f64_of_Z_pos a ltac:(lia)) as (M & E & -> & Hc).
    destruct (f64_of_Z_pos b ltac:(lia)) as (M' & E' & -> & Hc'). simpl.
    pose proof (canon_log2 _ _ _ _ Hc). pose proof (canon_log2 _ _ _ _ Hc').
    pose proof (Z.log2_spec a ltac:(lia)). pose proof (Z.log2_spec b ltac:(lia)).
    destruct Hc as (_ & ? & _ & Heq), Hc' as (_ & _ & _ & Heq').
    pose proof (Z.log2_le_mono a b). pose proof (Z.log2_le_mono b a).
    destruct (Z.lt_trichotomy E E') as [?|[->|?]]; [lia| |lia].
    pose proof (Z.pow_pos_nonneg 2 (E' + 1074)). pose proof (Z.pow_pos_nonneg 2 (0 + 1074)). nia.
Qed.

Lemma f64_lt_of_Z a b : 0 ≤ a < 2 ^ 53 → 0 ≤ b < 2 ^ 53 →
  f64_lt (f64_of_Z a) (f64_of_Z b) = (a <? b).
Proof.
  intros. apply eq_true_iff_eq. rewrite Z.ltb_lt, f64_lt_key by auto using f64_of_Z_not_nan.
  by apply f64_key_of_Z_lt.
Qed.

Lemma f64_le_of_Z a b : 0 ≤ a < 2 ^ 53 → 0 ≤ b < 2 ^ 53 →
  f64_le (f64_of_Z a) (f64_of_Z b) = (a <=? b).
Proof.
  intros. apply eq_true_iff_eq. rewrite Z.leb_le, f64_le_key by auto using f64_of_Z_not_nan.
  rewrite f64_key_of_Z_lt by done. lia.
Qed.

Lemma f64_of_Z_canon n M E : canon n 0 M E → n < 2 ^ 53 → f64_of_Z n = S754_finite false M E.
Proof.
  intros Hc Hn. destruct (f64_of_Z_pos n) as (M' & E' & -> & Hc').
  { pose proof (canon_pos _ _ _ _ Hc). lia. }
  by destruct (canon_unique _ _ _ _ _ _ Hc Hc') as [-> ->].
Qed.

(** The mantissa of [x] aligned to a lower exponent [ez]. *)
Lemma shl_align_fst m e ez : ez ≤ e → Zpos (fst (shl_align m e ez)) = Zpos m * 2 ^ (e - ez).
Proof.
  intros. unfold shl_align. destruct (ez - e) as [|k|k] eqn:Hk; simpl; [..|lia|].
  - assert (e - ez = 0) as -> by lia. lia.
  - rewrite iter_xO. do 2 f_equal. lia.
Qed.

Lemma canon_align n M E ez : canon n 0 M E → -1074 ≤ ez ≤ E →
  Zpos M * 2 ^ (E - ez) * 2 ^ (ez + 1074) = n * 2 ^ 1074.
Proof.
  intros (_ & ? & _ & Heq) ?. rewrite <-Z.mul_assoc, <-Z.pow_add_r by lia.
  replace (E - ez + (ez + 1074)) with (E + 1074) by lia. exact Heq.
Qed.

(** Two canonical numbers on the smaller of their scales. *)
Lemma canon_align_min a b M E M' E' : canon a 0 M E → canon b 0 M' E' →
  -1074 ≤ Z.min E E' ∧
  Zpos M * 2 ^ (E - Z.min E E') * 2 ^ (Z.min E E' + 1074) = a * 2 ^ 1074 ∧
  Zpos M' * 2 ^ (E' - Z.min E E') * 2 ^ (Z.min E E' + 1074) = b * 2 ^ 1074.
Proof.
  intros H1 H2. pose proof (proj1 (proj2 H1)) as He. pose proof (proj1 (proj2 H2)) as He'.
  assert (-1074 ≤ Z.min E E' ≤ E ∧ Z.min E E' ≤ E') as [Hm Hm'] by (clear -He He'; lia).
  split; [apply Hm|]. split; apply canon_align; [done|done|done|]. split; [apply Hm|done].
Qed.


(** Two numbers on the same scale keep their signs; the scales stay variables, so
    that no large power is computed. *)
Lemma scaled_sign (s c k K : Z) : s * k = c * K → 0 < k → 0 < K → (0 < c → 0 < s) ∧ (c = 0 → s = 0).
Proof. intros. split; intros; nia. Qed.

Lemma positive_inv (s : Z) : 0 < s → ∃ p, s = Z.pos p.
Proof. destruct s as [|p|p]; [done|by exists p|done]. Qed.

Lemma scaled_add (m n a b k K : Z) : m * k = a * K → n * k = b * K → (m + n) * k = (a + b) * K.
Proof. intros. rewrite !Z.mul_add_distr_r. congruence. Qed.

Lemma scaled_sub (m n a b k K : Z) : m * k = a * K → n * k = b * K → (m - n) * k = (a - b) * K.
Proof. intros. rewrite !Z.mul_sub_distr_r. congruence. Qed.

(** Normalising a sum on a common scale gives the float of the integer. *)
Lemma normalize_scaled (s c ez : Z) (sz : bool) : 0 < c < 2 ^ 53 → -1074 ≤ ez →
  s * 2 ^ (ez + 1074) = c * 2 ^ 1074 → binary_normalize 53 1024 s ez sz = f64_of_Z c.
Proof.
  intros Hc Hez Hs. destruct (canon_exists c Hc) as (M & E & HM).
  rewrite (f64_of_Z_canon _ _ _ HM) by apply Hc.
  destruct (scaled_sign _ _ _ _ Hs) as [Hpos _]; [apply Z.pow_pos_nonneg; clear -Hez; lia..|].
  destruct (positive_inv s (Hpos (proj1 Hc))) as [p ->]. simpl. apply binary_round_canon.
  destruct HM as (H1 & H2 & _ & H3). split; [exact H1|]. split; [exact H2|]. split; [exact Hez|].
  by rewrite Hs.
Qed.

Lemma f64_add_of_Z a b : 0 ≤ a → 0 ≤ b → a + b < 2 ^ 53 →
  f64_add (f64_of_Z a) (f64_of_Z b) = f64_of_Z (a + b).
Proof.
  intros Ha Hb Hab.
  destruct (decide (a = 0)) as [->|]; [|destruct (decide (b = 0)) as [->|]].
  - destruct (decide (b = 0)) as [->|]; [done|]. rewrite Z.add_0_l.
    by destruct (f64_of_Z_pos b ltac:(lia)) as (M & E & -> & _).
  - rewrite Z.add_0_r. by destruct (f64_of_Z_pos a ltac:(lia)) as (M & E & -> & _).
  - assert (0 < a + b < 2 ^ 53) as Hc by lia.
    destruct (f64_of_Z_pos a ltac:(lia)) as (M & E & -> & Hc1).
    destruct (f64_of_Z_pos b ltac:(clear -Hb Hab Ha n0; lia)) as (M' & E' & -> & Hc2).
    destruct (canon_align_min _ _ _ _ _ _ Hc1 Hc2) as (Hez & H1 & H2).
    unfold f64_add, SFadd. cbn [cond_Zopp]. rewrite !shl_align_fst by (clear; lia).
    by apply normalize_scaled, scaled_add.
Qed.

Lemma f64_sub_of_Z a b : 0 ≤ b ≤ a → a < 2 ^ 53 →
  f64_sub (f64_of_Z a) (f64_of_Z b) = f64_of_Z (a - b).
Proof.
  intros Hb Hab.
  destruct (decide (b = 0)) as [->|].
  { rewrite Z.sub_0_r. destruct (decide (a = 0)) as [->|]; [done|].
    by destruct (f64_of_Z_pos a ltac:(lia)) as (M & E & -> & _). }
  assert (a = b ∨ 0 < a - b < 2 ^ 53) as Hc by lia.
  destruct (f64_of_Z_pos a ltac:(lia)) as (M & E & -> & Hc1).
  destruct (f64_of_Z_pos b ltac:(clear -Hb Hab n; lia)) as (M' & E' & -> & Hc2).
  destruct (canon_align_min _ _ _ _ _ _ Hc1 Hc2) as (Hez & H1 & H2).
  unfold f64_sub, SFsub. cbn [cond_Zopp]. rewrite !shl_align_fst by (clear; lia).
  destruct Hc as [->|Hc]; [|by apply normalize_scaled, scaled_sub].
  destruct (canon_unique _ _ _ _ _ _ Hc1 Hc2) as [-> ->]. by rewrite !Z.sub_diag.
Qed.

(** Halving an integer is exact: [n * 0.5] truncates to [n / 2]. *)
Definition f64_half : float64 := f64_ratio 1 2.

Lemma f64_trunc_half n : 0 ≤ n < 2 ^ 53 →
  f64_trunc (f64_mul (f64_of_Z n) f64_half) = Some (n / 2).
Proof.
  intros Hn. destruct (decide (n = 0)) as [->|]; [done|].
  destruct (f64_of_Z_pos n ltac:(lia)) as (M & E & -> & Hc).
  pose proof (canon_log2 _ _ _ _ Hc) as Hl. pose proof (Z.log2_nonneg n).
  assert (Z.log2 n < 53) by (apply Z.log2_lt_pow2; lia).
  change f64_half with (S754_finite false 4503599627370496 (-53)).
  unfold f64_mul, SFmul. destruct Hc as (HM & HE & _ & Heq).
  rewrite (binary_round_aux_canon _ _ _ M (E - 1)).
  - cbn [xorb f64_trunc]. rewrite (proj2 (Z.leb_gt 0 (E - 1))) by lia. f_equal.
    replace (0 + 1074) with (- E + (E + 1074)) in Heq by lia.
    rewrite (Z.pow_add_r 2 (- E)), Z.mul_assoc in Heq by lia.
    pose proof (Z.pow_pos_nonneg 2 (E + 1074)).
    assert (Zpos M = n * 2 ^ (- E)) as -> by nia.
    replace (- (E - 1)) with (1 + - E) by lia. rewrite Z.pow_add_r by lia.
    rewrite Z.div_mul_cancel_r; [done|lia|]. pose proof (Z.pow_pos_nonneg 2 (- E)). lia.
  - repeat split; try lia. rewrite Pos2Z.inj_mul.
    change (Zpos 4503599627370496) with (2 ^ 52).
    rewrite <-Z.mul_assoc, <-Z.pow_add_r by lia. do 2 f_equal. lia.
  - lia.
Qed.

(** A running sum of integers whose total stays below [2^53] is exact. *)
Lemma f64_foldl_of_Z l acc : 0 ≤ acc → Forall (λ z, 0 ≤ z) l → acc + foldr Z.add 0 l < 2 ^ 53 →
  foldl f64_add (f64_of_Z acc) (f64_of_Z <$> l) = f64_of_Z (acc + foldr Z.add 0 l).
Proof.
  intros Hacc Hl. revert acc Hacc. induction Hl as [|z l Hz Hl IH]; intros acc Hacc Hs; simpl in *.
  - by rewrite Z.add_0_r.
  - assert (0 ≤ foldr Z.add 0 l) by (clear -Hl; induction Hl; simpl; lia).
    rewrite f64_add_of_Z, IH by lia. f_equal. lia.
Qed.

Lemma f64_sum_of_Z l : Forall (λ z, 0 ≤ z) l → foldr Z.add 0 l < 2 ^ 53 →
  f64_sum (f64_of_Z <$> l) = f64_of_Z (foldr Z.add 0 l).
Proof. intros. by apply (f64_foldl_of_Z l 0). Qed.

#[export] Hint Resolve f64_to_u64_range : go.
#[global] Arguments f64_add : simpl never.
#[global] Arguments f64_sub : simpl never.
#[global] Arguments f64_mul : simpl never.
#[global] Arguments f64_div : simpl never.
#[global] Arguments f64_of_Z : simpl never.
#[global] Arguments f64_ratio : simpl never.
#[global] Arguments f64_to_u64 : simpl never.
#[global] Arguments fmt_f : simpl never.

(** [math.Min] and [math.Max] of exact integers. *)
Lemma f64_min_of_Z a b : 0 ≤ a < 2 ^ 53 → 0 ≤ b < 2 ^ 53 →
  f64_min (f64_of_Z a) (f64_of_Z b) = f64_of_Z (a `min` b).
Proof.
  intros Ha Hb.
  destruct (decide (a = 0)) as [->|]; [|destruct (decide (b = 0)) as [->|]].
  - rewrite Z.min_l by lia. destruct (decide (b = 0)) as [->|]; [done|].
    by destruct (f64_of_Z_pos b ltac:(lia)) as (M & E & -> & _).
  - rewrite Z.min_r by lia. by destruct (f64_of_Z_pos a ltac:(lia)) as (M & E & -> & _).
  - pose proof (f64_lt_of_Z a b Ha Hb) as Hlt.
    destruct (f64_of_Z_pos a ltac:(lia)) as (Ma & Ea & Hea & _).
    destruct (f64_of_Z_pos b ltac:(lia)) as (Mb & Eb & Heb & _).
    unfold f64_min. rewrite Hea, Heb in *. rewrite Hlt.
    case_match; [rewrite Z.min_l by lia|rewrite Z.min_r by lia]; congruence.
Qed.

Lemma f64_max_of_Z a b : 0 ≤ a < 2 ^ 53 → 0 ≤ b < 2 ^ 53 →
  f64_max (f64_of_Z a) (f64_of_Z b) = f64_of_Z (a `max` b).
Proof.
  intros Ha Hb.
  destruct (decide (a = 0)) as [->|]; [|destruct (decide (b = 0)) as [->|]].
  - rewrite Z.max_r by lia. destruct (decide (b = 0)) as [->|]; [done|].
    by destruct (f64_of_Z_pos b ltac:(lia)) as (M & E & -> & _).
  - rewrite Z.max_l by lia. by destruct (f64_of_Z_pos a ltac:(lia)) as (M & E & -> & _).
  - pose proof (f64_lt_of_Z b a Hb Ha) as Hlt.
    destruct (f64_of_Z_pos a ltac:(lia)) as (Ma & Ea & Hea & _).
    destruct (f64_of_Z_pos b ltac:(lia)) as (Mb & Eb & Heb & _).
    unfold f64_max, f64_gt, f64_lt in *. rewrite Hea, Heb in *. rewrite Hlt.
    case_match; [rewrite Z.max_l by lia|rewrite Z.max_r by lia]; congruence.
Qed.

Lemma f64_le_of_Z_zero n : 0 < n < 2 ^ 53 → f64_le (f64_of_Z n) f64_zero = false.
Proof. intros Hn. change f64_zero with (f64_of_Z 0). rewrite f64_le_of_Z by lia. apply Z.leb_gt. lia. Qed.
