(* ===== verification/Sha256.v ===== *)
(** * SHA-256 and hexadecimal

    The standard library's [crypto/sha256] and [encoding/hex] as executable
    functions on byte lists (FIPS 180-4; the round constants are computed from
    the cube and square roots of the first primes), with the facts the node
    relies on: digests are 32 bytes, the hexadecimal digest is 64 characters,
    and decoding inverts encoding. *)

From stdpp Require Import base gmap strings list pretty sorting.
From Stdlib Require Import ZArith Lia Ascii.
From S2P Require Import Prelude.

(** ** Bytes and strings *)
Abbreviation bytes := (list Z).

Definition byte_of_ascii (c : ascii) : Z := Z.of_N (N_of_ascii c).
Definition ascii_of_byte (b : Z) : ascii := ascii_of_N (Z.to_N b).

Fixpoint bytes_of_string (s : string) : bytes :=
  match s with
  | EmptyString => []
  | String c s => byte_of_ascii c :: bytes_of_string s
  end.

Fixpoint string_of_bytes (l : bytes) : string :=
  match l with
  | [] => EmptyString
  | b :: l => String (ascii_of_byte b) (string_of_bytes l)
  end.

(** [encoding/binary]'s big-endian layout of the low [n] bytes. *)
Fixpoint be_bytes (n : nat) (z : Z) : bytes :=
  match n with
  | O => []
  | S n => Z.land (Z.shiftr z (8 * Z.of_nat n)) 255 :: be_bytes n z
  end.

Definition be_value (l : bytes) : Z := foldl (λ acc b, 256 * acc + b) 0 l.

(** ** Hexadecimal *)
Definition hex_digit (n : Z) : ascii :=
  ascii_of_N (Z.to_N (if n <? 10 then 48 + n else 87 + n)).

Fixpoint hex_encode (l : bytes) : string :=
  match l with
  | [] => ""
  | b :: l => String (hex_digit (b / 16)) (String (hex_digit (b mod 16)) (hex_encode l))
  end.

Definition hex_value (c : ascii) : option Z :=
  let n := byte_of_ascii c in
  if (48 <=? n) && (n <=? 57) then Some (n - 48)
  else if (97 <=? n) && (n <=? 102) then Some (n - 87)
  else if (65 <=? n) && (n <=? 70) then Some (n - 55)
  else None.

(** [hex.DecodeString]: [None] on an odd length or a character that is not a digit. *)
Fixpoint hex_decode (s : string) : option bytes :=
  match s with
  | EmptyString => Some []
  | String _ EmptyString => None
  | String a (String b s) =>
      h ← hex_value a; l ← hex_value b; t ← hex_decode s; Some (16 * h + l :: t)
  end.

(** ** SHA-256 *)
Definition add32 (x y : Z) : Z := Z.land (x + y) (2 ^ 32 - 1).
Definition rotr (n x : Z) : Z :=
  Z.lor (Z.shiftr x n) (Z.land (Z.shiftl x (32 - n)) (2 ^ 32 - 1)).

Definition bsig0 (x : Z) : Z := Z.lxor (rotr 2 x) (Z.lxor (rotr 13 x) (rotr 22 x)).
Definition bsig1 (x : Z) : Z := Z.lxor (rotr 6 x) (Z.lxor (rotr 11 x) (rotr 25 x)).
Definition ssig0 (x : Z) : Z := Z.lxor (rotr 7 x) (Z.lxor (rotr 18 x) (Z.shiftr x 3)).
Definition ssig1 (x : Z) : Z := Z.lxor (rotr 17 x) (Z.lxor (rotr 19 x) (Z.shiftr x 10)).
Definition ch (x y z : Z) : Z := Z.lxor (Z.land x y) (Z.land (Z.lxor x (2 ^ 32 - 1)) z).
Definition maj (x y z : Z) : Z := Z.lxor (Z.land x y) (Z.lxor (Z.land x z) (Z.land y z)).

Definition primes64 : list Z :=
  filter (λ p, Forall (λ d, p mod d ≠ 0) (seqZ 2 (p - 2))) (seqZ 2 310).

(** The integer cube root, one bit at a time from bit [n] down. *)
Fixpoint cbrt_bits (n : nat) (target r : Z) : Z :=
  let r' := r + 2 ^ Z.of_nat n in
  let r := if r' * r' * r' <=? target then r' else r in
  match n with O => r | S n => cbrt_bits n target r end.

(** The first 32 bits of the fractional part of a root. *)
Definition cube_frac (p : Z) : Z := cbrt_bits 36 (p * 2 ^ 96) 0 mod 2 ^ 32.
Definition sqrt_frac (p : Z) : Z := Z.sqrt (p * 2 ^ 64) mod 2 ^ 32.

Definition round_constants : list Z := Eval vm_compute in cube_frac <$> primes64.

Record hstate := HState { ha : Z; hb : Z; hc : Z; hd : Z; he : Z; hf : Z; hg : Z; hh : Z }.

Definition initial_hash : hstate := Eval vm_compute in
  HState (sqrt_frac 2) (sqrt_frac 3) (sqrt_frac 5) (sqrt_frac 7)
         (sqrt_frac 11) (sqrt_frac 13) (sqrt_frac 17) (sqrt_frac 19).

(** The message schedule, newest word first. *)
Fixpoint schedule (n : nat) (w : list Z) : list Z :=
  match n with
  | O => w
  | S n =>
      let at_ i := nth i w 0 in
      schedule n (add32 (add32 (ssig1 (at_ 1%nat)) (at_ 6%nat))
                        (add32 (ssig0 (at_ 14%nat)) (at_ 15%nat)) :: w)
  end.

Definition sha_round (s : hstate) (kw : Z * Z) : hstate :=
  let t1 := add32 (add32 (add32 (hh s) (bsig1 (he s))) (ch (he s) (hf s) (hg s)))
                  (add32 kw.1 kw.2) in
  let t2 := add32 (bsig0 (ha s)) (maj (ha s) (hb s) (hc s)) in
  HState (add32 t1 t2) (ha s) (hb s) (hc s) (add32 (hd s) t1) (he s) (hf s) (hg s).

Fixpoint words_of (n : nat) (l : bytes) : list Z :=
  match n, l with
  | S n, a :: b :: c :: d :: l => be_value [a; b; c; d] :: words_of n l
  | _, _ => []
  end.

Definition sha_block (s : hstate) (block : bytes) : hstate :=
  let w := reverse (schedule 48 (reverse (words_of 16 block))) in
  let t := foldl sha_round s (zip round_constants w) in
  HState (add32 (ha s) (ha t)) (add32 (hb s) (hb t)) (add32 (hc s) (hc t)) (add32 (hd s) (hd t))
         (add32 (he s) (he t)) (add32 (hf s) (hf t)) (add32 (hg s) (hg t)) (add32 (hh s) (hh t)).

Definition sha_pad (msg : bytes) : bytes :=
  let len := Z.of_nat (length msg) in
  msg ++ 128 :: replicate (Z.to_nat ((55 - len) mod 64)) 0 ++ be_bytes 8 (8 * len).

Fixpoint sha_blocks (n : nat) (s : hstate) (l : bytes) : hstate :=
  match n with
  | O => s
  | S n => sha_blocks n (sha_block s (take 64 l)) (drop 64 l)
  end.

(** [sha256.Sum256] *)
Definition sha256 (msg : bytes) : bytes :=
  let p := sha_pad msg in
  let s := sha_blocks (length p / 64) initial_hash p in
  mjoin (be_bytes 4 <$> [ha s; hb s; hc s; hd s; he s; hf s; hg s; hh s]).

(** The pattern [hex.EncodeToString(sha256.Sum256([]byte(s))[:])]. *)
Definition sha_hex (s : string) : string := hex_encode (sha256 (bytes_of_string s)).

(** ** Facts *)
Definition is_byte (b : Z) : Prop := 0 ≤ b < 256.

Lemma length_be_bytes n z : length (be_bytes n z) = n.
Proof. induction n; simpl; lia. Qed.

Lemma be_bytes_range n z : Forall is_byte (be_bytes n z).
Proof.
  induction n as [|n IH]; simpl; constructor; [|done]. unfold is_byte.
  change 255 with (Z.ones 8). rewrite Z.land_ones by lia.
  apply Z.mod_pos_bound. lia.
Qed.

#[global] Arguments be_bytes : simpl never.

Lemma length_sha256 msg : length (sha256 msg) = 32%nat.
Proof. unfold sha256. cbn [mjoin list_join fmap list_fmap]. by rewrite !length_app, !length_be_bytes. Qed.

Lemma sha256_range msg : Forall is_byte (sha256 msg).
Proof.
  unfold sha256. cbn [mjoin list_join fmap list_fmap].
  repeat (apply Forall_app_2; [apply be_bytes_range|]). constructor.
Qed.

Lemma length_hex_encode l : String.length (hex_encode l) = (2 * length l)%nat.
Proof. induction l; simpl; lia. Qed.

(** A hexadecimal digest is 64 characters long, whatever the input. *)
Lemma length_sha_hex s : String.length (sha_hex s) = 64%nat.
Proof. unfold sha_hex. by rewrite length_hex_encode, length_sha256. Qed.

Lemma sha_hex_not_empty s : sha_hex s ≠ "".
Proof. intros H. apply (f_equal String.length) in H. by rewrite length_sha_hex in H. Qed.

Lemma hex_value_digit n : 0 ≤ n < 16 → hex_value (hex_digit n) = Some n.
Proof.
  intros Hn. assert (n ∈ seqZ 0 16) as Hin by (apply elem_of_seqZ; lia).
  change (seqZ 0 16) with [0;1;2;3;4;5;6;7;8;9;10;11;12;13;14;15] in Hin.
  repeat (apply elem_of_cons in Hin as [->|Hin]; [reflexivity|]). by apply elem_of_nil in Hin.
Qed.

Lemma hex_decode_encode l : Forall is_byte l → hex_decode (hex_encode l) = Some l.
Proof.
  unfold is_byte. induction 1 as [|b l Hb Hl IH]; simpl; [done|].
  rewrite !hex_value_digit, IH by (try split; try apply Z.div_lt_upper_bound;
    try apply Z.div_pos; try apply Z.mod_pos_bound; lia).
  simpl. do 2 f_equal. pose proof (Z.div_mod b 16). lia.
Qed.

Lemma bytes_of_string_range s : Forall is_byte (bytes_of_string s).
Proof.
  induction s as [|c s IH]; simpl; constructor; [|done].
  unfold is_byte, byte_of_ascii. pose proof (N_ascii_bounded c). lia.
Qed.

Lemma string_of_bytes_of_string s : string_of_bytes (bytes_of_string s) = s.
Proof.
  induction s as [|c s IH]; simpl; [done|]. rewrite IH. f_equal.
  unfold ascii_of_byte, byte_of_ascii. by rewrite N2Z.id, ascii_N_embedding.
Qed.

#[global] Instance bytes_of_string_inj : Inj (=) (=) bytes_of_string.
Proof. intros a b H. rewrite <-(string_of_bytes_of_string a), H. apply string_of_bytes_of_string. Qed.

(** The test vectors of FIPS 180-4 and the empty message. *)
Example sha_hex_abc :
  sha_hex "abc" = "ba7816bf8f01cfea414140de5dae2223b00361a396177a9cb410ff61f20015ad".
Proof. by vm_compute. Qed.
Example sha_hex_empty :
  sha_hex "" = "e3b0c44298fc1c149afbf4c8996fb92427ae41e4649b934ca495991b7852b855".
Proof. by vm_compute. Qed.
Example sha_hex_two_blocks :
  sha_hex "abcdbcdecdefdefgefghfghighijhijkijkljklmklmnlmnomnopnopq"
  = "248d6a61d20638b8e5c026930c3e6039a33ce45964ff2167f6ecedd419db06c1".
Proof. by vm_compute. Qed.

#[global] Arguments sha256 : simpl never.
#[global] Arguments sha_hex : simpl never.
#[global] Arguments hex_encode : simpl never.
#[export] Hint Resolve sha_hex_not_empty : go.
#[export] Hint Rewrite length_sha256 length_sha_hex : go_rw.

(** Digests are evaluated only by [vm_compute]. *)
#[global] Arguments sha256 : simpl never.
#[global] Arguments sha_hex : simpl never.
#[global] Arguments hex_encode : simpl never.
#[global] Arguments fmt_d : simpl never.
