(* ===== verification/Gas.v ===== *)
(** * The gas package ([src/blockchain/gas/]) and [gas_conversion.go]

    [Module GasModel]: prices ([model.go]); [GasCalculator]: per-transaction
    gas ([calculator.go]); [BlockGasTracker]: gas used by a block
    ([tracker.go]); [BlockGasCalculator]: the limit of the next block
    ([block_gas.go]); [GasEstimator] and [FeePreview]: the estimates shown to
    users ([estimator.go], [fee_preview.go]). Log output is left out. *)

From stdpp Require Import base gmap strings list.
From Stdlib Require Import ZArith Lia.
From S2P Require Import Prelude.
From S2P Require Import Float64.

(** ** Constants *)
Definition BaseTxGas : Z := 21000.
Definition TxDataByteGas : Z := 16.
Definition TxSigGas : Z := 2000.
Definition BaseGasLimit : Z := 1000000.
Definition PriorityLow : Z := 0.
Definition PriorityNormal : Z := 1.
Definition PriorityHigh : Z := 2.
Definition MinGasPrice : Z := 10.
Definition MaxGasPrice : Z := 100.
Definition TargetBlockGas : float64 := f64_ratio 8 10.
Definition HalfTargetBlockGas : float64 := f64_ratio 4 10.
Definition GasPriceAdjustmentFactor : float64 := f64_ratio 2 10.

(** ** gas_conversion.go *)
Definition GasToTokenConversionFactor : float64 := f64_of_Z 100000000.
Definition ConvertGasToTokens (gasAmount : Z) : float64 :=
  f64_div (f64_of_Z gasAmount) GasToTokenConversionFactor.
Definition ConvertTokensToGas `{GoImpl} (tokenAmount : float64) : Z :=
  f64_to_u64 (f64_mul tokenAmount GasToTokenConversionFactor).

Module GasModel.

Record t := mk {
  currentGasPrice : Z;
  blockGasUsed : Z;
  blockGasLimit : Z;
}.

Definition set_price (g : t) (p : Z) : t :=
  mk p (blockGasUsed g) (blockGasLimit g).

Definition NewGasModel (initialGasPrice blockGasLimit : Z) : t :=
  let initialGasPrice := if initialGasPrice <? MinGasPrice then 20 else initialGasPrice in
  mk initialGasPrice 0 blockGasLimit.

(** [uint64(dataSize)] of an [int] wraps negative sizes. *)
Definition CalculateBaseFee (dataSize : Z) : Z :=
  u64 (BaseTxGas + u64 (u64 dataSize * TxDataByteGas) + TxSigGas).

Definition CalculatePriorityFee (g : t) (priority : Z) : Z :=
  if priority =? PriorityHigh then u64 (currentGasPrice g * 2)
  else if priority =? PriorityNormal then currentGasPrice g
  else currentGasPrice g / 2.

Definition utilization (g : t) : float64 :=
  f64_div (f64_of_Z (blockGasUsed g)) (f64_of_Z (blockGasLimit g)).

Definition UpdateGasPrice `{GoImpl} (g : t) : t :=
  let utilization := utilization g in
  if f64_gt utilization TargetBlockGas then
    let adjustment := f64_mul (f64_of_Z (currentGasPrice g)) GasPriceAdjustmentFactor in
    set_price g (f64_to_u64 (f64_min
      (f64_add (f64_of_Z (currentGasPrice g)) adjustment) (f64_of_Z MaxGasPrice)))
  else if f64_lt utilization HalfTargetBlockGas then
    let adjustment := f64_mul (f64_of_Z (currentGasPrice g)) GasPriceAdjustmentFactor in
    set_price g (f64_to_u64 (f64_max
      (f64_sub (f64_of_Z (currentGasPrice g)) adjustment) (f64_of_Z MinGasPrice)))
  else g.

Definition GetCurrentGasPrice (g : t) : Z := currentGasPrice g.

(** The price is one the validation of a transaction accepts. *)
Definition price_ok (g : t) : Prop :=
  MinGasPrice ≤ currentGasPrice g ≤ MaxGasPrice.

End GasModel.

Record TxGasInfo := mkTxGasInfo {
  gi_GasUsed : Z;
  gi_GasPrice : Z;
  gi_TotalFee : Z;
  gi_Priority : Z;
}.

Module GasCalculator.

Definition CalculateTransactionGas (model : GasModel.t) (txSize priority : Z) : TxGasInfo :=
  let baseFee := GasModel.CalculateBaseFee txSize in
  let priorityFee := GasModel.CalculatePriorityFee model priority in
  let gasPrice := GasModel.GetCurrentGasPrice model in
  let totalFee := u64 (u64 (baseFee * gasPrice) + priorityFee) in
  mkTxGasInfo baseFee gasPrice totalFee priority.

Definition ValidateGas (gasInfo : TxGasInfo) : bool :=
  if (gi_GasPrice gasInfo <? MinGasPrice) || (gi_GasPrice gasInfo >? MaxGasPrice) then false
  else if (gi_Priority gasInfo <? PriorityLow) || (gi_Priority gasInfo >? PriorityHigh) then false
  else true.

End GasCalculator.

Module BlockGasTracker.

Record t := mk {
  gasUsed : Z;
  gasLimit : Z;
  txCount : Z;
}.

Definition NewBlockGasTracker (gasLimit : Z) : t := mk 0 gasLimit 0.

Definition AddTransaction (bt : t) (gasInfo : TxGasInfo) : t * error :=
  if u64 (gasUsed bt + gi_GasUsed gasInfo) >? gasLimit bt
  then (bt, Some "block gas limit exceeded")
  else (mk (u64 (gasUsed bt + gi_GasUsed gasInfo)) (gasLimit bt) (i64 (txCount bt + 1)), None).

Definition GetUtilization (bt : t) : float64 :=
  f64_div (f64_of_Z (gasUsed bt)) (f64_of_Z (gasLimit bt)).

Definition Reset (bt : t) : t := mk 0 (gasLimit bt) 0.

(** A block is filled by trying the transactions in turn. *)
Definition fill (bt : t) (l : list TxGasInfo) : t := foldl (λ b i, fst (AddTransaction b i)) bt l.

(** The transactions of [l] that [fill] accepts. *)
Fixpoint accepted (bt : t) (l : list TxGasInfo) : list TxGasInfo :=
  match l with
  | [] => []
  | i :: l =>
      match AddTransaction bt i with
      | (bt', None) => i :: accepted bt' l
      | (bt', Some _) => accepted bt' l
      end
  end.

End BlockGasTracker.

Module BlockGasCalculator.

Definition CalculateDynamicGasLimit `{GoImpl} (baseGasLimit prevGasUsed prevGasLimit : Z) : Z :=
  if prevGasLimit =? 0 then baseGasLimit
  else
    let utilization := f64_div (f64_of_Z prevGasUsed) (f64_of_Z prevGasLimit) in
    if f64_gt utilization (f64_ratio 8 10) then
      let newLimit := u64 (prevGasLimit + prevGasLimit / 20) in
      f64_to_u64 (f64_min (f64_of_Z newLimit) (f64_of_Z (u64 (baseGasLimit * 2))))
    else if f64_lt utilization (f64_ratio 4 10) then
      let newLimit := u64 (prevGasLimit - prevGasLimit / 20) in
      f64_to_u64 (f64_max (f64_of_Z newLimit) (f64_of_Z baseGasLimit))
    else prevGasLimit.

Definition CalculateBlockSize `{GoImpl} (pendingTxCount : Z) : Z :=
  let baseSize := u64 (10 * 1024) in
  let txSpace := u64 (i64 (pendingTxCount * 250)) in
  let maxSize := u64 (1 * 1024 * 1024) in
  f64_to_u64 (f64_min (f64_of_Z (u64 (baseSize + txSpace))) (f64_of_Z maxSize)).

End BlockGasCalculator.

(** ** estimator.go *)
Record EstimationResult := mkEstimationResult {
  er_BaseFee : Z;
  er_PriorityFee : Z;
  er_TotalFee : Z;
  er_EstimatedTime : string;
  er_Priority : string;
}.

Definition getPriorityString (priority : Z) : string :=
  if priority =? PriorityLow then "Low Priority (Slower, Cheaper)"
  else if priority =? PriorityNormal then "Normal Priority (Regular Speed)"
  else if priority =? PriorityHigh then "High Priority (Faster, More Expensive)"
  else "Unknown Priority".

Definition getEstimatedTime (priority : Z) : string :=
  if priority =? PriorityLow then "5-10 minutes"
  else if priority =? PriorityNormal then "2-5 minutes"
  else if priority =? PriorityHigh then "< 2 minutes"
  else "unknown".

Definition EstimateGas (model : GasModel.t) (txSize priority : Z) : EstimationResult :=
  let baseFee := GasModel.CalculateBaseFee txSize in
  let priorityFee := GasModel.CalculatePriorityFee model priority in
  let totalFee := u64 (baseFee + priorityFee) in
  mkEstimationResult baseFee priorityFee totalFee
    (getEstimatedTime priority) (getPriorityString priority).

(** ** fee_preview.go *)
Record FeeDetails := mkFeeDetails {
  fd_BaseFee : Z;
  fd_PriorityFee : Z;
  fd_TotalFee : Z;
  fd_MaxFee : Z;
  fd_EstimatedTime : string;
  fd_PriorityLevel : string;
  fd_NetworkCongestion : string;
  fd_USDEstimate : float64;
}.

Module FeePreview.

Definition GetNetworkCongestion (model : GasModel.t) : string :=
  let utilization := GasModel.utilization model in
  if f64_gt utilization (f64_ratio 8 10) then "High Congestion"
  else if f64_gt utilization (f64_ratio 5 10) then "Medium Congestion"
  else "Low Congestion".

Definition details_of (estimate : EstimationResult) (level congestion : string) : FeeDetails :=
  mkFeeDetails (er_BaseFee estimate) (er_PriorityFee estimate) (er_TotalFee estimate)
    (u64 (er_TotalFee estimate + er_TotalFee estimate / 10))
    (er_EstimatedTime estimate) level congestion f64_zero.

Definition GetTransactionFeePreview (model : GasModel.t) (txSize : Z) : gmap string FeeDetails :=
  let congestion := GetNetworkCongestion model in
  let priorities :=
    [(PriorityLow, "Economic"); (PriorityNormal, "Standard"); (PriorityHigh, "Fast")] in
  foldl (λ previews (p : Z * string),
    <[p.2 := details_of (EstimateGas model txSize p.1) p.2 congestion]> previews) ∅ priorities.

Definition GetRecommendedFee (model : GasModel.t) (txSize : Z) : FeeDetails :=
  let congestion := GetNetworkCongestion model in
  let priority :=
    if str_eqb congestion "High Congestion" then PriorityHigh
    else if str_eqb congestion "Medium Congestion" then PriorityNormal
    else PriorityLow in
  details_of (EstimateGas model txSize priority) (getPriorityString priority) congestion.

End FeePreview.
