(* ===== verification/GasFacts.v ===== *)
(** * Correctness of the gas package

    Prices stay in the accepted range and follow an integer rule; the fee of
    a transaction does not overflow; the tracker never admits more than the
    block's limit; the limit of the next block stays between the base limit
    and twice the base limit. *)

From stdpp Require Import base gmap strings list.
From Stdlib Require Import ZArith Lia.
From S2P Require Import Prelude.
From S2P Require Import Float64.
From S2P Require Import Gas.

(** ** Prices *)

(** The integer rule that the float computation amounts to. *)
Definition raised (p : Z) : Z := (p * 6 / 5) `min` MaxGasPrice.
Definition lowered (p : Z) : Z := (p * 4 / 5) `max` MinGasPrice.

(** The two float expressions of [UpdateGasPrice]. *)
Definition raise_f (p : Z) : float64 :=
  f64_min (f64_add (f64_of_Z p) (f64_mul (f64_of_Z p) GasPriceAdjustmentFactor))
    (f64_of_Z MaxGasPrice).
Definition lower_f (p : Z) : float64 :=
  f64_max (f64_sub (f64_of_Z p) (f64_mul (f64_of_Z p) GasPriceAdjustmentFactor))
    (f64_of_Z MinGasPrice).

Definition prices : list Z := seqZ MinGasPrice (MaxGasPrice - MinGasPrice + 1).

Lemma prices_trunc :
  forallb (λ p, bool_decide (f64_trunc (raise_f p) = Some (raised p)) &&
                bool_decide (f64_trunc (lower_f p) = Some (lowered p))) prices = true.
Proof. vm_compute. reflexivity. Qed.

Lemma price_trunc p : MinGasPrice ≤ p ≤ MaxGasPrice →
  f64_trunc (raise_f p) = Some (raised p) ∧ f64_trunc (lower_f p) = Some (lowered p).
Proof.
  intros Hp. pose proof prices_trunc as H. rewrite forallb_forall in H.
  specialize (H p). rewrite andb_true_iff, !bool_decide_eq_true in H. apply H.
  apply list_elem_of_In, elem_of_seqZ. unfold MinGasPrice, MaxGasPrice in *. lia.
Qed.

Lemma raised_ok p : MinGasPrice ≤ p ≤ MaxGasPrice → p ≤ raised p ≤ MaxGasPrice.
Proof. unfold raised, MinGasPrice, MaxGasPrice. intros. pose proof (Z.div_mod (p * 6) 5 ltac:(lia)). pose proof (Z.mod_pos_bound (p * 6) 5 ltac:(lia)). lia. Qed.
Lemma lowered_ok p : MinGasPrice ≤ p ≤ MaxGasPrice → MinGasPrice ≤ lowered p ≤ p.
Proof. unfold lowered, MinGasPrice, MaxGasPrice. intros. pose proof (Z.div_mod (p * 4) 5 ltac:(lia)). pose proof (Z.mod_pos_bound (p * 4) 5 ltac:(lia)). lia. Qed.

Lemma to_u64_trunc `{GoImpl} x v : f64_trunc x = Some v → is_u64 v → f64_to_u64 x = v.
Proof.
  intros Hx [? ?]. unfold f64_to_u64. rewrite Hx.
  by rewrite (proj2 (Z.leb_le 0 v)), (proj2 (Z.ltb_lt v _)) by lia.
Qed.

Lemma UpdateGasPrice_eq `{GoImpl} g : GasModel.price_ok g →
  GasModel.UpdateGasPrice g =
  let p := GasModel.currentGasPrice g in
  GasModel.set_price g
    (if f64_gt (GasModel.utilization g) TargetBlockGas then raised p
     else if f64_lt (GasModel.utilization g) HalfTargetBlockGas then lowered p
     else p).
Proof.
  intros Hok. destruct (price_trunc _ Hok) as [Hr Hl].
  pose proof (raised_ok _ Hok). pose proof (lowered_ok _ Hok).
  unfold GasModel.price_ok, MinGasPrice, MaxGasPrice in *.
  unfold GasModel.UpdateGasPrice. repeat case_match.
  - f_equal. apply to_u64_trunc; [exact Hr|]. unfold is_u64. lia.
  - f_equal. apply to_u64_trunc; [exact Hl|]. unfold is_u64. lia.
  - by destruct g.
Qed.

(** An adjustment of the gas price follows an integer rule: with a price in
    the accepted range it becomes [min (6p/5) 100] when the block was more
    than 80% full, [max (4p/5) 10] when it was less than 40% full, and is kept
    otherwise; so it stays in the accepted range, whatever the utilisation. *)
Theorem UpdateGasPrice_rule `{GoImpl} (g : GasModel.t) :
  GasModel.price_ok g →
  GasModel.currentGasPrice (GasModel.UpdateGasPrice g) =
    (let p := GasModel.currentGasPrice g in
     if f64_gt (GasModel.utilization g) TargetBlockGas then (p * 6 / 5) `min` MaxGasPrice
     else if f64_lt (GasModel.utilization g) HalfTargetBlockGas then (p * 4 / 5) `max` MinGasPrice
     else p)
  ∧ GasModel.price_ok (GasModel.UpdateGasPrice g).
Proof.
  intros Hok. rewrite UpdateGasPrice_eq by done. split; [done|].
  pose proof (raised_ok _ Hok). pose proof (lowered_ok _ Hok).
  unfold GasModel.price_ok in *. simpl. repeat case_match; lia.
Qed.

Lemma UpdateGasPrice_rule_witness :
  GasModel.price_ok (GasModel.mk 50 90 100) ∧
  GasModel.currentGasPrice (GasModel.UpdateGasPrice (GasModel.mk 50 90 100)) = 60.
Proof.
  assert (GasModel.price_ok (GasModel.mk 50 90 100)) as H.
  { unfold GasModel.price_ok, MinGasPrice, MaxGasPrice. simpl. lia. }
  split; [exact H|].
  rewrite (proj1 (UpdateGasPrice_rule (GasModel.mk 50 90 100) H)). vm_compute. reflexivity.
Defined.

(** Nothing in the repository writes [blockGasUsed] of a model. *)
Lemma utilization_unused p limit : 0 < limit < 2 ^ 53 →
  GasModel.utilization (GasModel.mk p 0 limit) = f64_zero.
Proof.
  intros Hl. unfold GasModel.utilization. simpl.
  by destruct (f64_of_Z_pos limit Hl) as (M & E & -> & _).
Qed.

Lemma update_unused `{GoImpl} p limit : 0 < limit < 2 ^ 53 → MinGasPrice ≤ p ≤ MaxGasPrice →
  GasModel.UpdateGasPrice (GasModel.mk p 0 limit) = GasModel.mk (lowered p) 0 limit.
Proof. intros Hl Hp. rewrite UpdateGasPrice_eq by done. by rewrite utilization_unused. Qed.

Definition sunk (n : nat) (p : Z) : bool := bool_decide (Nat.iter n lowered p = MinGasPrice).
Lemma prices_sink : forallb (sunk 11) prices = true.
Proof. vm_compute. reflexivity. Qed.

Lemma iter_update `{GoImpl} limit n p : 0 < limit < 2 ^ 53 → MinGasPrice ≤ p ≤ MaxGasPrice →
  Nat.iter n GasModel.UpdateGasPrice (GasModel.mk p 0 limit) = GasModel.mk (Nat.iter n lowered p) 0 limit
  ∧ MinGasPrice ≤ Nat.iter n lowered p ≤ MaxGasPrice.
Proof.
  intros Hl Hp. induction n as [|n [IH IHp]]; [done|]. simpl.
  rewrite IH, update_unused by done. pose proof (lowered_ok _ IHp). split; [done|lia].
Qed.

(** Starting from any model that [NewGasModel] builds with a price of at most
    100, eleven adjustments bring the price to the minimum and every later one
    leaves it there: the gas used of a model is never recorded, so each block
    counts as empty. *)
Theorem gas_price_sinks `{GoImpl} (initialGasPrice blockGasLimit : Z) (n : nat) :
  0 ≤ initialGasPrice ≤ MaxGasPrice → 0 < blockGasLimit < 2 ^ 53 → (11 ≤ n)%nat →
  GasModel.currentGasPrice
    (Nat.iter n GasModel.UpdateGasPrice (GasModel.NewGasModel initialGasPrice blockGasLimit))
  = MinGasPrice.
Proof.
  intros Hp Hl Hn. unfold GasModel.NewGasModel.
  set (p := if initialGasPrice <? MinGasPrice then 20 else initialGasPrice).
  assert (MinGasPrice ≤ p ≤ MaxGasPrice) as Hok.
  { unfold p. unfold MinGasPrice, MaxGasPrice in *. case_match; lia. }
  destruct (iter_update blockGasLimit n p Hl Hok) as [-> _]. simpl.
  replace n with (n - 11 + 11)%nat by lia. rewrite Nat.iter_add.
  pose proof prices_sink as H'. rewrite forallb_forall in H'. specialize (H' p).
  unfold sunk in H'. rewrite bool_decide_eq_true in H'. rewrite H'.
  - generalize (n - 11)%nat. intros k. induction k as [|k IH]; [done|]. simpl. by rewrite IH.
  - apply list_elem_of_In, elem_of_seqZ. unfold MinGasPrice, MaxGasPrice in *. lia.
Qed.

Lemma gas_price_sinks_witness :
  GasModel.currentGasPrice (Nat.iter 12 GasModel.UpdateGasPrice (GasModel.NewGasModel 20 100000)) = 10.
Proof. apply (gas_price_sinks 20 100000 12); unfold MaxGasPrice; lia. Defined.

(** ** Fees *)

Lemma CalculateBaseFee_eq n : 0 ≤ n < 2 ^ 59 →
  GasModel.CalculateBaseFee n = 23000 + 16 * n.
Proof.
  intros Hn. unfold GasModel.CalculateBaseFee, BaseTxGas, TxDataByteGas, TxSigGas.
  rewrite (u64_small n), (u64_small (n * 16)), u64_small by (unfold is_u64; lia). lia.
Qed.

Lemma CalculatePriorityFee_bounds g pr : GasModel.price_ok g →
  0 ≤ GasModel.CalculatePriorityFee g pr ≤ 2 * GasModel.currentGasPrice g.
Proof.
  unfold GasModel.price_ok, GasModel.CalculatePriorityFee, MinGasPrice, MaxGasPrice.
  intros Hp. repeat case_match; [rewrite u64_small by (unfold is_u64; lia); lia|lia|].
  split; [apply Z.div_pos; lia|]. apply Z.div_le_upper_bound; lia.
Qed.

(** The total fee is computed without overflow for every transaction size an
    [int] can hold up to [2^50] bytes, is at least the price of the base gas,
    and the information it returns passes [ValidateGas] for each of the three
    priorities. *)
Theorem CalculateTransactionGas_spec (g : GasModel.t) (txSize priority : Z) :
  GasModel.price_ok g → 0 ≤ txSize ≤ 2 ^ 50 → PriorityLow ≤ priority ≤ PriorityHigh →
  let info := GasCalculator.CalculateTransactionGas g txSize priority in
  gi_GasUsed info = 23000 + 16 * txSize ∧
  gi_TotalFee info =
    gi_GasUsed info * GasModel.currentGasPrice g +
    (if priority =? 2 then 2 * GasModel.currentGasPrice g
     else if priority =? 1 then GasModel.currentGasPrice g
     else GasModel.currentGasPrice g / 2) ∧
  gi_GasUsed info * MinGasPrice ≤ gi_TotalFee info ∧
  GasCalculator.ValidateGas info = true.
Proof.
  intros Hok Hs Hp info.
  pose proof (CalculatePriorityFee_bounds g priority Hok) as Hb.
  pose proof (CalculateBaseFee_eq txSize ltac:(lia)) as Hbase.
  unfold GasModel.price_ok, MinGasPrice, MaxGasPrice, PriorityLow, PriorityHigh in *.
  assert (gi_TotalFee info = GasModel.CalculateBaseFee txSize * GasModel.currentGasPrice g
    + GasModel.CalculatePriorityFee g priority) as Htot.
  { unfold info, GasCalculator.CalculateTransactionGas, GasModel.GetCurrentGasPrice. simpl.
    assert (0 ≤ GasModel.CalculateBaseFee txSize * GasModel.currentGasPrice g < 2 ^ 63)
      by (rewrite Hbase; nia).
    rewrite (u64_small (_ * _)), u64_small by (unfold is_u64; lia). done. }
  split_and!.
  - exact Hbase.
  - rewrite Htot. simpl. f_equal.
    unfold GasModel.CalculatePriorityFee, PriorityHigh, PriorityNormal.
    case_match; [|done]. rewrite u64_small by (unfold is_u64; lia). lia.
  - rewrite Htot. simpl. nia.
  - unfold GasCalculator.ValidateGas, GasModel.GetCurrentGasPrice, MinGasPrice, MaxGasPrice,
      PriorityLow, PriorityHigh. simpl. unfold GasModel.GetCurrentGasPrice.
    repeat case_match; try done; exfalso; lia.
Qed.

Lemma CalculateTransactionGas_spec_witness :
  gi_TotalFee (GasCalculator.CalculateTransactionGas (GasModel.NewGasModel 20 100000) 250 2) = 540040.
Proof.
  destruct (CalculateTransactionGas_spec (GasModel.NewGasModel 20 100000) 250 2) as (H1 & H2 & _);
    [unfold GasModel.price_ok, MinGasPrice, MaxGasPrice; simpl; lia|lia|
     unfold PriorityLow, PriorityHigh; lia|].
  rewrite H2, H1. reflexivity.
Defined.

(** ** The tracker of a block *)

Definition gas_sum (l : list TxGasInfo) : Z := foldr Z.add 0 (gi_GasUsed <$> l).

Lemma gas_sum_cons i l : gas_sum (i :: l) = gi_GasUsed i + gas_sum l.
Proof. done. Qed.

(** The gas of one transaction is far from wrapping the sum. *)
Definition no_wrap (limit : Z) (i : TxGasInfo) : Prop := 0 ≤ gi_GasUsed i < 2 ^ 64 - limit.

Definition tracker_ok (bt : BlockGasTracker.t) : Prop :=
  0 ≤ BlockGasTracker.gasUsed bt ≤ BlockGasTracker.gasLimit bt ∧
  BlockGasTracker.gasLimit bt < 2 ^ 64.

Lemma AddTransaction_step bt i : tracker_ok bt → no_wrap (BlockGasTracker.gasLimit bt) i →
  let used := BlockGasTracker.gasUsed bt + gi_GasUsed i in
  BlockGasTracker.AddTransaction bt i =
    if used <=? BlockGasTracker.gasLimit bt
    then (BlockGasTracker.mk used (BlockGasTracker.gasLimit bt)
            (i64 (BlockGasTracker.txCount bt + 1)), None)
    else (bt, Some "block gas limit exceeded").
Proof.
  intros Hok Hi used. unfold tracker_ok, no_wrap in *. unfold BlockGasTracker.AddTransaction.
  rewrite u64_small by (unfold is_u64; lia).
  rewrite Z.gtb_ltb, Z.leb_antisym. by destruct (_ <? _).
Qed.

(** Whatever transactions are offered to a block, the tracker's count is the
    gas of exactly those it accepted and never passes the block's limit,
    as long as no single transaction asks for more than [2^64 - limit] gas. *)
Theorem tracker_sound (bt : BlockGasTracker.t) (l : list TxGasInfo) :
  tracker_ok bt → Forall (no_wrap (BlockGasTracker.gasLimit bt)) l →
  BlockGasTracker.gasUsed (BlockGasTracker.fill bt l)
    = BlockGasTracker.gasUsed bt + gas_sum (BlockGasTracker.accepted bt l)
  ∧ tracker_ok (BlockGasTracker.fill bt l)
  ∧ BlockGasTracker.gasLimit (BlockGasTracker.fill bt l) = BlockGasTracker.gasLimit bt.
Proof.
  intros Hok Hl. revert bt Hok Hl.
  induction l as [|i l IH]; intros bt Hok Hl; [split_and!; simpl; [unfold gas_sum; simpl; lia|done..]|].
  apply Forall_cons in Hl as [Hi Hl]. unfold BlockGasTracker.fill. simpl.
  rewrite (AddTransaction_step bt i Hok Hi). case_match eqn:Hle; simpl.
  - apply Z.leb_le in Hle.
    assert (tracker_ok (BlockGasTracker.mk (BlockGasTracker.gasUsed bt + gi_GasUsed i)
      (BlockGasTracker.gasLimit bt) (i64 (BlockGasTracker.txCount bt + 1)))) as Hok'.
    { unfold tracker_ok, no_wrap in *. simpl. lia. }
    destruct (IH _ Hok' Hl) as (H1 & H2 & H3). split_and!; [|done..].
    unfold BlockGasTracker.fill in H1. rewrite H1, gas_sum_cons. simpl. lia.
  - by apply IH.
Qed.

Lemma tracker_sound_witness :
  BlockGasTracker.gasUsed (BlockGasTracker.fill (BlockGasTracker.NewBlockGasTracker 50000)
    [mkTxGasInfo 30000 20 0 1; mkTxGasInfo 40000 20 0 1; mkTxGasInfo 20000 20 0 1]) = 50000.
Proof.
  rewrite (proj1 (tracker_sound (BlockGasTracker.NewBlockGasTracker 50000)
    [mkTxGasInfo 30000 20 0 1; mkTxGasInfo 40000 20 0 1; mkTxGasInfo 20000 20 0 1]
    ltac:(unfold tracker_ok; simpl; lia)
    ltac:(repeat constructor; unfold no_wrap; simpl; lia))).
  reflexivity.
Defined.

(** The bound on one transaction is needed: the check adds before it compares. *)
Example tracker_wraps :
  BlockGasTracker.AddTransaction (BlockGasTracker.mk 100 1000 1) (mkTxGasInfo (2 ^ 64 - 50) 20 0 1)
  = (BlockGasTracker.mk 50 1000 2, None).
Proof. reflexivity. Qed.

(** ** The limit of the next block *)

(** Once a block's gas limit is between the base limit and twice the base
    limit, the limit computed for the next block is too, whatever gas was used,
    and it differs from the previous one by at most a twentieth. *)
Theorem CalculateDynamicGasLimit_bounds `{GoImpl} (base prevUsed prevLimit : Z) :
  0 < base < 2 ^ 51 → base ≤ prevLimit ≤ 2 * base →
  let next := BlockGasCalculator.CalculateDynamicGasLimit base prevUsed prevLimit in
  base ≤ next ≤ 2 * base ∧ Z.abs (next - prevLimit) ≤ prevLimit / 20.
Proof.
  intros Hb Hl next. unfold next, BlockGasCalculator.CalculateDynamicGasLimit.
  assert (0 ≤ prevLimit / 20) by (apply Z.div_pos; lia).
  assert (prevLimit / 20 ≤ prevLimit) by (apply Z.div_le_upper_bound; lia).
  case_match; [lia|]. repeat case_match; try lia.
  - rewrite !u64_small by (unfold is_u64; lia).
    rewrite f64_min_of_Z, f64_to_u64_of_Z by lia. lia.
  - rewrite u64_small by (unfold is_u64; lia).
    rewrite f64_max_of_Z, f64_to_u64_of_Z by lia. lia.
Qed.

Lemma CalculateDynamicGasLimit_bounds_witness :
  1000000 ≤ BlockGasCalculator.CalculateDynamicGasLimit BaseGasLimit 1100000 1200000 ≤ 2 * 1000000.
Proof.
  exact (proj1 (CalculateDynamicGasLimit_bounds BaseGasLimit 1100000 1200000
    ltac:(unfold BaseGasLimit; lia) ltac:(unfold BaseGasLimit; lia))).
Defined.

Lemma CalculateBlockSize_eq `{GoImpl} n : 0 ≤ n < 2 ^ 40 →
  BlockGasCalculator.CalculateBlockSize n = (10240 + 250 * n) `min` 1048576.
Proof.
  intros Hn. unfold BlockGasCalculator.CalculateBlockSize.
  rewrite i64_small by (unfold is_i64; lia).
  rewrite (u64_small (n * 250)) by (unfold is_u64; lia).
  change (u64 (10 * 1024)) with 10240. change (u64 (1 * 1024 * 1024)) with 1048576.
  rewrite u64_small by (unfold is_u64; lia).
  rewrite f64_min_of_Z, f64_to_u64_of_Z by lia. lia.
Qed.
