(* ===== verification/Json.v ===== *)
(** * JSON documents ([encoding/json])

    The node stores accounts, UTXO sets and snapshots as JSON. A document is
    kept as its tree: [json.Marshal] of a value is a tree or an error (a NaN or
    an infinite float), [json.Unmarshal] reads the fields of a tree into a
    value. The printed text of a tree and its parsing are the standard
    library's. Strings go through the UTF-8 repair of the encoder; a byte slice
    (base64) and a time (RFC 3339) are kept as the values they stand for. *)

From stdpp Require Import base gmap strings list sorting.
From Stdlib Require Import ZArith Lia.
From S2P Require Import Prelude.
From S2P Require Import Float64.
From S2P Require Import Sha256.

#[local] Set Warnings "-register-all".
Inductive json : Type :=
  | JNull
  | JBool (b : bool)
  | JInt (z : Z)
  | JFloat (x : float64)
  | JStr (s : string)
  | JBytes (bs : bytes)
  | JTime (ns : Z)
  | JArr (l : list json)
  | JObj (fields : list (string * json)).

(** ** Strings: invalid UTF-8 is replaced by U+FFFD, byte by byte *)
Definition in_range (lo hi b : Z) : bool := (lo <=? b) && (b <=? hi).

Definition utf8_2 (b1 b2 : Z) : bool := in_range 0xC2 0xDF b1 && in_range 0x80 0xBF b2.
Definition utf8_3 (b1 b2 b3 : Z) : bool :=
  in_range 0x80 0xBF b3 &&
  ((b1 =? 0xE0) && in_range 0xA0 0xBF b2
   || (b1 =? 0xED) && in_range 0x80 0x9F b2
   || (in_range 0xE1 0xEC b1 || in_range 0xEE 0xEF b1) && in_range 0x80 0xBF b2).
Definition utf8_4 (b1 b2 b3 b4 : Z) : bool :=
  in_range 0x80 0xBF b3 && in_range 0x80 0xBF b4 &&
  ((b1 =? 0xF0) && in_range 0x90 0xBF b2
   || (b1 =? 0xF4) && in_range 0x80 0x8F b2
   || in_range 0xF1 0xF3 b1 && in_range 0x80 0xBF b2).

(** U+FFFD *)
Definition utf8_bad : bytes := [0xEF; 0xBF; 0xBD].

Fixpoint utf8_repair (bs : bytes) : bytes :=
  match bs with
  | [] => []
  | b1 :: r1 =>
      if b1 <? 0x80 then b1 :: utf8_repair r1
      else match r1 with
      | [] => utf8_bad ++ utf8_repair r1
      | b2 :: r2 =>
          if utf8_2 b1 b2 then b1 :: b2 :: utf8_repair r2
          else match r2 with
          | [] => utf8_bad ++ utf8_repair r1
          | b3 :: r3 =>
              if utf8_3 b1 b2 b3 then b1 :: b2 :: b3 :: utf8_repair r3
              else match r3 with
              | [] => utf8_bad ++ utf8_repair r1
              | b4 :: r4 =>
                  if utf8_4 b1 b2 b3 b4 then b1 :: b2 :: b3 :: b4 :: utf8_repair r4 else utf8_bad ++ utf8_repair r1
              end
          end
      end
  end.

Definition json_text (s : string) : string := string_of_bytes (utf8_repair (bytes_of_string s)).

(** Strings that JSON keeps as they are. *)
Definition utf8_valid (s : string) : bool := str_eqb (json_text s) s.

(** ** Marshalling *)
Definition marshal_string (s : string) : option json := Some (JStr (json_text s)).
Definition marshal_int (z : Z) : option json := Some (JInt z).
Definition marshal_bool (b : bool) : option json := Some (JBool b).
Definition marshal_float (x : float64) : option json :=
  if f64_is_finite x then Some (JFloat x) else None.

(** A struct: its fields in order; the first error stops it. *)
Definition marshal_struct (fields : list (string * option json)) : option json :=
  JObj <$> mapM (λ kv : string * option json, (kv.1,.) <$> kv.2) fields.

(** A map with string keys: sorted by key; a nil map is [null]. *)
Definition marshal_map {V} (enc : V → option json) (m : option (gmap string V)) : option json :=
  match m with
  | None => Some JNull
  | Some m =>
      JObj <$> mapM (λ k, v ← m !! k; j ← enc v; Some (json_text k, j)) (sort_strings (map_keys m))
  end.

(** ** Unmarshalling: [None] is an error *)

(** The entry of a map, its last one with the key [k]. *)
Definition field (j : json) (k : string) : option json :=
  match j with
  | JObj fs => foldl (λ acc f, if str_eqb f.1 k then Some f.2 else acc) None fs
  | _ => None
  end.

(** The field of a struct: the last entry whose name is [k] up to case. *)
Definition lower_ascii (c : Ascii.ascii) : Ascii.ascii :=
  let n := Z.of_nat (Ascii.nat_of_ascii c) in
  if (65 <=? n) && (n <=? 90) then Ascii.ascii_of_nat (Z.to_nat (n + 32)) else c.

Fixpoint lower (s : string) : string :=
  match s with
  | EmptyString => EmptyString
  | String c s => String (lower_ascii c) (lower s)
  end.

Definition field_fold (fs : list (string * json)) (k : string) : option json :=
  foldl (λ acc f, if str_eqb (lower f.1) (lower k) then Some f.2 else acc) None fs.

(** A field that is absent or [null] leaves the zero value. *)
Definition read_field {A} (dec : json → option A) (zero : A) (j : json) (k : string) : option A :=
  match (match j with JObj fs => field_fold fs k | _ => None end) with
  | None | Some JNull => Some zero
  | Some v => dec v
  end.

(** Evaluates the lookups of fields with literal names. *)
Ltac read_fields_of :=
  unfold read_field, field_fold; cbn [foldl fst snd];
  repeat match goal with |- context [str_eqb (lower ?a) (lower ?b)] =>
    let v := eval vm_compute in (str_eqb (lower a) (lower b)) in change (str_eqb (lower a) (lower b)) with v
  end; cbn iota.

Definition read_string (j : json) : option string :=
  match j with JStr s => Some s | _ => None end.
Definition read_bool (j : json) : option bool :=
  match j with JBool b => Some b | _ => None end.
Definition read_int (j : json) : option Z :=
  match j with JInt z => Some z | _ => None end.
Definition read_float (j : json) : option float64 :=
  match j with JFloat x => Some x | JInt z => Some (f64_of_Z z) | _ => None end.

(** Into a map: the entries are added to the map that is there; the value of
    an entry is read into a fresh zero value ([dec] is told of [null] too). *)
Definition read_entries {V} (dec : json → option V) (fs : list (string * json))
    (m : gmap string V) : option (gmap string V) :=
  foldl (λ acc f, m ← acc; v ← dec f.2; Some (<[f.1 := v]> m)) (Some m) fs.

Definition read_map {V} (dec : json → option V) (m : option (gmap string V)) (j : json)
    : option (option (gmap string V)) :=
  match j with
  | JNull => Some None
  | JObj fs => Some <$> read_entries dec fs (default ∅ m)
  | _ => None
  end.

(** ** Facts *)
Lemma utf8_valid_text s : utf8_valid s = true → json_text s = s.
Proof. apply str_eqb_eq. Qed.

Lemma utf8_repair_ascii bs : Forall (λ b, b < 0x80) bs → utf8_repair bs = bs.
Proof.
  induction 1 as [|b bs Hb _ IH]; [done|]. simpl.
  rewrite (proj2 (Z.ltb_lt b 128)) by done. by rewrite IH.
Qed.

Lemma map_keys_lookup {V} (m : gmap string V) k : k ∈ map_keys m ↔ is_Some (m !! k).
Proof.
  unfold map_keys. rewrite list_elem_of_fmap. split.
  - intros ([k' v] & -> & H%elem_of_map_to_list). by exists v.
  - intros [v Hv]. exists (k, v). split; [done|]. by apply elem_of_map_to_list.
Qed.

Lemma NoDup_map_keys {V} (m : gmap string V) : NoDup (map_keys m).
Proof. apply NoDup_fst_map_to_list. Qed.

Lemma sort_strings_perm l : sort_strings l ≡ₚ l.
Proof. apply merge_sort_Permutation. Qed.

Lemma NoDup_sort_strings l : NoDup l → NoDup (sort_strings l).
Proof. intros. by rewrite sort_strings_perm. Qed.

Section map_round_trip.
Context {V : Type} (enc : V → option json) (dec : json → option V).

(** The entries a map is written as. *)
Definition entries_of (m : gmap string V) (js : list (string * json)) (ks : list string) : Prop :=
  Forall2 (λ k kj, kj.1 = k ∧ ∃ v, m !! k = Some v ∧ dec kj.2 = Some v) ks js.

Lemma marshal_entries m ks js :
  (∀ k v, m !! k = Some v → json_text k = k ∧ ∀ j, enc v = Some j → dec j = Some v) →
  mapM (λ k, v ← m !! k; j ← enc v; Some (json_text k, j)) ks = Some js →
  entries_of m js ks.
Proof.
  intros Hm H. apply mapM_Some in H. eapply Forall2_impl; [exact H|].
  intros k [k' j] Hk. simpl in *. destruct (m !! k) as [v|] eqn:Hv; simpl in Hk; [|done].
  destruct (enc v) as [j'|] eqn:Hj; simpl in Hk; [|done]. simplify_eq.
  destruct (Hm k v Hv) as [Ht Hd]. split; [by rewrite Ht|]. eauto.
Qed.

Lemma read_entries_of m m0 ks js : entries_of m js ks → NoDup ks →
  ∃ m', read_entries dec js m0 = Some m' ∧
    (∀ k, k ∈ ks → m' !! k = m !! k) ∧ (∀ k, k ∉ ks → m' !! k = m0 !! k).
Proof.
  intros He Hnd. revert m0. induction He as [|k [k' j] ks js (Hk' & v & Hv & Hd) _ IH];
    intros m0; [|simpl in Hk'; subst k'].
  { exists m0. split_and!; [done| |done]. intros k Hk. by apply elem_of_nil in Hk. }
  apply NoDup_cons in Hnd as [Hk Hnd]. unfold read_entries. simpl in *. rewrite Hd. simpl.
  destruct (IH Hnd (<[k := v]> m0)) as (m' & Hr & H1 & H2).
  exists m'. split_and!; [done| |].
  - intros k2. rewrite elem_of_cons. intros [->|Hin]; [|by apply H1].
    by rewrite H2, lookup_insert_eq.
  - intros k2. rewrite not_elem_of_cons. intros [Hne Hnin].
    by rewrite H2, lookup_insert_ne.
Qed.

(** A map that could be written is read back, into an empty map as it was. *)
Lemma map_round_trip m j :
  (∀ k v, m !! k = Some v → json_text k = k ∧ ∀ j, enc v = Some j → dec j = Some v) →
  marshal_map enc (Some m) = Some j →
  ∀ m0 : gmap string V, read_map dec (Some m0) j = Some (Some (m ∪ m0)).
Proof.
  intros Hm H m0. unfold marshal_map in H. apply fmap_Some in H as (js & H & ->).
  apply marshal_entries in H; [|done].
  destruct (read_entries_of m m0 _ _ H) as (m' & Hr & H1 & H2).
  { apply NoDup_sort_strings, NoDup_map_keys. }
  simpl. rewrite Hr. simpl. do 2 f_equal. apply map_eq. intros k.
  assert (k ∈ sort_strings (map_keys m) ↔ is_Some (m !! k)) as Hks.
  { rewrite sort_strings_perm. apply map_keys_lookup. }
  rewrite lookup_union. destruct (m !! k) as [v|] eqn:Hv.
  - rewrite H1, Hv by (apply Hks; eauto). by destruct (m0 !! k).
  - rewrite H2; [by destruct (m0 !! k)|]. rewrite Hks. intros [? ?]; done.
Qed.
End map_round_trip.
