(* ===== verification/Database.v ===== *)
(** * The database layer ([src/blockchain/db/])

    [Class KV] is what the node relies on of goleveldb (third-party code): a
    store with the documented effect of its writes. [levelDB] is the wrapper of
    [leveldb.go] around it, with its closed flag and key and value checks. *)

From stdpp Require Import base gmap strings list.
From Stdlib Require Import ZArith Lia.
From S2P Require Import Prelude.
From S2P Require Import Sha256.
From S2P Require Import Json.

(** A stored value: a JSON document or other bytes. *)
Inductive dbval : Type :=
  | DJson (j : json)
  | DRaw (s : string).

Definition dbval_empty (v : dbval) : bool :=
  match v with DRaw s => str_eqb s "" | DJson _ => false end.

(** [json.Unmarshal] of a stored value starts with its document. *)
Definition document (v : dbval) : option json :=
  match v with DJson j => Some j | DRaw _ => None end.

Inductive kv_reply : Type :=
  | KFound (v : dbval)
  | KNotFound
  | KFailed (msg : string).

(** The effect of one operation of a batch on the content. *)
Inductive batch_op : Type :=
  | BPut (k : string) (v : dbval)
  | BDelete (k : string).

Definition batch_op_get (get : string → kv_reply) (o : batch_op) (k' : string) : kv_reply :=
  match o with
  | BPut k v => if str_eqb k k' then KFound v else get k'
  | BDelete k => if str_eqb k k' then KNotFound else get k'
  end.

Definition batch_get (get : string → kv_reply) (ops : list batch_op) : string → kv_reply :=
  foldl batch_op_get get ops.

(** goleveldb: a write that returns nil is seen by the next reads and leaves
    the other keys alone; a batch is applied as a whole, in order. *)
Class KV := {
  kv : Type;
  kv_get : kv → string → kv_reply;
  kv_put : kv → string → dbval → kv * error;
  kv_delete : kv → string → kv * error;
  kv_write : kv → list batch_op → kv * error;
  kv_close : kv → kv * error;
  kv_get_put : ∀ s k v s' k', kv_put s k v = (s', None) →
    kv_get s' k' = batch_op_get (kv_get s) (BPut k v) k';
  kv_get_delete : ∀ s k s' k', kv_delete s k = (s', None) →
    kv_get s' k' = batch_op_get (kv_get s) (BDelete k) k';
  kv_get_write : ∀ s ops s' k', kv_write s ops = (s', None) →
    kv_get s' k' = batch_get (kv_get s) ops k';
}.

(** ** Errors ([interface.go]) *)
Definition ErrKeyNotFound : string := "key not found".
Definition ErrDatabaseClosed : string := "database closed".
Definition ErrInvalidKey : string := "invalid key".
Definition ErrInvalidValue : string := "invalid value".

(** ** Keys with a prefix byte *)
Definition CreateKey (prefix : Z) (key : bytes) : bytes := prefix :: key.
Definition SplitKey (key : bytes) : Z * bytes :=
  match key with [] => (0, []) | b :: r => (b, r) end.

(** ** Options *)
Record Options := mkOptions {
  opt_Type : string;
  opt_Path : string;
  opt_CacheSize : Z;
  opt_MaxOpenFiles : Z;
  opt_Compression : bool;
}.
Definition DefaultOptions : Options := mkOptions "leveldb" "node_data/blockchain" 512 64 true.

Definition Options_Validate (o : Options) : error :=
  if str_eqb (opt_Type o) "" then Some "invalid config: database type cannot be empty"
  else if str_eqb (opt_Path o) "" then Some "invalid config: database path cannot be empty"
  else if opt_MaxOpenFiles o <=? 0
    then Some ("invalid config: invalid max open files: " +:+ fmt_d (opt_MaxOpenFiles o))
  else None.

Record Config := mkConfig {
  cfg_Type : string;
  cfg_Path : string;
  cfg_CacheSize : Z;
  cfg_MaxOpenFiles : Z;
  cfg_Compression : bool;
  cfg_Name : string;
}.
Definition DefaultConfig (dbPath : string) : Config :=
  mkConfig "leveldb" dbPath 512 64 true "blockchain".

Definition Config_Validate (c : Config) : error :=
  if str_eqb (cfg_Type c) "" then Some "database type not specified"
  else if str_eqb (cfg_Path c) "" then Some "database path not specified"
  else if cfg_CacheSize c <=? 0 then Some ("invalid cache size: " +:+ fmt_d (cfg_CacheSize c))
  else if cfg_MaxOpenFiles c <=? 0
    then Some ("invalid max open files: " +:+ fmt_d (cfg_MaxOpenFiles c))
  else None.

(** [NewDatabase] up to the opening of the files: the options are turned into a
    configuration, which [NewLevelDB] validates again. *)
Definition NewDatabase_config (opts : Options) : result Config :=
  match Options_Validate opts with
  | Some e => Err e
  | None =>
      if str_eqb (opt_Type opts) "leveldb" then
        let config := mkConfig (opt_Type opts) (opt_Path opts) (i64 (opt_CacheSize opts))
          (opt_MaxOpenFiles opts) (opt_Compression opts) "" in
        match Config_Validate config with Some e => Err e | None => Ok config end
      else Err ("unsupported database type: " +:+ opt_Type opts)
  end.

Module levelDB.
Section leveldb.
Context {K : KV}.

Record t := mk { db : kv; closed : bool }.

Definition Put (ldb : t) (key : string) (value : dbval) : t * error :=
  if closed ldb then (ldb, Some ErrDatabaseClosed)
  else if str_eqb key "" then (ldb, Some ErrInvalidKey)
  else if dbval_empty value then (ldb, Some ErrInvalidValue)
  else let '(s, e) := kv_put (db ldb) key value in (mk s (closed ldb), e).

Definition Get (ldb : t) (key : string) : result dbval :=
  if closed ldb then Err ErrDatabaseClosed
  else if str_eqb key "" then Err ErrInvalidKey
  else match kv_get (db ldb) key with
  | KFound v => Ok v
  | KNotFound => Err ErrKeyNotFound
  | KFailed m => Err m
  end.

Definition Delete (ldb : t) (key : string) : t * error :=
  if closed ldb then (ldb, Some ErrDatabaseClosed)
  else if str_eqb key "" then (ldb, Some ErrInvalidKey)
  else let '(s, e) := kv_delete (db ldb) key in (mk s (closed ldb), e).

Definition Has (ldb : t) (key : string) : result bool :=
  if closed ldb then Err ErrDatabaseClosed
  else if str_eqb key "" then Err ErrInvalidKey
  else match kv_get (db ldb) key with
  | KFound _ => Ok true
  | KNotFound => Ok false
  | KFailed m => Err m
  end.

Definition Close (ldb : t) : t * error :=
  if closed ldb then (ldb, None)
  else let '(s, e) := kv_close (db ldb) in (mk s true, e).

(** A batch: the operations collected so far. *)
Definition batch_Put (ops : list batch_op) (key : string) (value : dbval) : list batch_op * error :=
  if str_eqb key "" then (ops, Some ErrInvalidKey)
  else if dbval_empty value then (ops, Some ErrInvalidValue)
  else (ops ++ [BPut key value], None).

Definition batch_Delete (ops : list batch_op) (key : string) : list batch_op * error :=
  if str_eqb key "" then (ops, Some ErrInvalidKey) else (ops ++ [BDelete key], None).

(** [Write] goes to goleveldb at once, past the closed flag. *)
Definition batch_Write (ldb : t) (ops : list batch_op) : t * error :=
  let '(s, e) := kv_write (db ldb) ops in (mk s (closed ldb), e).

(** ** What a client sees *)
Lemma Get_Put ldb ldb' k v k' : Put ldb k v = (ldb', None) →
  Get ldb' k' = if str_eqb k k' then Ok v else Get ldb k'.
Proof.
  unfold Put, Get. destruct (closed ldb) eqn:Hc; [done|].
  destruct (str_eqb k "") eqn:Hk; [done|]. destruct (dbval_empty v); [done|].
  destruct (kv_put (db ldb) k v) as [s e] eqn:Hp. intros [= <- ->]. simpl. rewrite ?Hc.
  rewrite (kv_get_put _ _ _ _ k' Hp). unfold batch_op_get.
  destruct (str_eqb k k') eqn:He; [|done].
  apply str_eqb_eq in He as <-. by rewrite Hk.
Qed.

Lemma Get_Delete ldb ldb' k k' : Delete ldb k = (ldb', None) → k' ≠ "" →
  Get ldb' k' = if str_eqb k k' then Err ErrKeyNotFound else Get ldb k'.
Proof.
  unfold Delete, Get. destruct (closed ldb) eqn:Hc; [done|].
  destruct (str_eqb k "") eqn:Hk; [done|].
  destruct (kv_delete (db ldb) k) as [s e] eqn:Hp. intros [= <- ->] Hk'. simpl. rewrite ?Hc.
  apply str_eqb_neq in Hk' as ->.
  rewrite (kv_get_delete _ _ _ k' Hp). unfold batch_op_get. by destruct (str_eqb k k').
Qed.

Lemma Put_open ldb ldb' k v : Put ldb k v = (ldb', None) → closed ldb = false.
Proof. unfold Put. by destruct (closed ldb). Qed.

End leveldb.
End levelDB.

(** ** An in-memory store: the interface can be implemented *)
Definition mem_get (s : gmap string dbval) (k : string) : kv_reply :=
  match s !! k with Some v => KFound v | None => KNotFound end.
Definition mem_op (s : gmap string dbval) (o : batch_op) : gmap string dbval :=
  match o with BPut k v => <[k := v]> s | BDelete k => delete k s end.

Lemma mem_op_get s o k : mem_get (mem_op s o) k = batch_op_get (mem_get s) o k.
Proof.
  unfold mem_get. destruct o as [k' v|k']; simpl.
  - destruct (str_eqb k' k) eqn:E.
    + apply str_eqb_eq in E as ->. by rewrite lookup_insert_eq.
    + apply str_eqb_neq in E. by rewrite lookup_insert_ne.
  - destruct (str_eqb k' k) eqn:E.
    + apply str_eqb_eq in E as ->. by rewrite lookup_delete_eq.
    + apply str_eqb_neq in E. by rewrite lookup_delete_ne.
Qed.

Lemma batch_get_ext ops : ∀ g1 g2 : string → kv_reply, (∀ k, g1 k = g2 k) →
  ∀ k, batch_get g1 ops k = batch_get g2 ops k.
Proof.
  induction ops as [|o ops IH]; intros g1 g2 Hg k; simpl; [done|].
  apply IH. intros k'. destruct o; simpl; by rewrite Hg.
Qed.

Lemma mem_ops_get ops : ∀ s k, mem_get (foldl mem_op s ops) k = batch_get (mem_get s) ops k.
Proof.
  induction ops as [|o ops IH]; intros s k; simpl; [done|].
  rewrite IH. apply batch_get_ext. intros. apply mem_op_get.
Qed.

#[global] Program Instance mem_kv : KV | 10 := {|
  kv := gmap string dbval;
  kv_get := mem_get;
  kv_put s k v := (mem_op s (BPut k v), None);
  kv_delete s k := (mem_op s (BDelete k), None);
  kv_write s ops := (foldl mem_op s ops, None);
  kv_close s := (s, None);
|}.
Next Obligation. intros * [= <-]. apply (mem_op_get _ (BPut _ _)). Qed.
Next Obligation. intros * [= <-]. apply (mem_op_get _ (BDelete _)). Qed.
Next Obligation. intros * [= <-]. apply mem_ops_get. Qed.

(** Prefixed keys are split back. *)
Lemma SplitKey_CreateKey prefix key : SplitKey (CreateKey prefix key) = (prefix, key).
Proof. done. Qed.
