(* ===== verification/P256.v ===== *)
(** * [math/big] byte encodings, [crypto/elliptic] P-256 and [crypto/ecdsa]

    What the wallet code uses of the standard library: byte encodings and curve
    membership are written out; the point arithmetic behind key generation,
    signing and verification is an interface with its documented laws. *)

From stdpp Require Import base list strings.
From Stdlib Require Import ZArith Lia.
From S2P Require Import Prelude.
From S2P Require Import Sha256.

(** ** [big.Int] *)

(** [x.Bytes()]: big-endian, no leading zero; empty for 0. *)
Definition big_len (z : Z) : nat := if z <=? 0 then 0%nat else Z.to_nat (Z.log2 z / 8 + 1).
Definition big_Bytes (z : Z) : bytes := be_bytes (big_len z) z.

(** [new(big.Int).SetBytes(b)] *)
Definition big_SetBytes (b : bytes) : Z := be_value b.

(** [x.Text(16)] of a non-negative number *)
Definition big_Text16 (z : Z) : string :=
  if z <=? 0 then "0"
  else string_of_bytes ((λ i, byte_of_ascii (hex_digit (Z.land (Z.shiftr z (4 * Z.of_nat i)) 15)))
         <$> reverse (seq 0 (Z.to_nat (Z.log2 z / 4 + 1)))).

(** ** The curve *)
Definition P256_p : Z := 2 ^ 256 - 2 ^ 224 + 2 ^ 192 + 2 ^ 96 - 1.
Definition P256_n : Z := 0xFFFFFFFF00000000FFFFFFFFFFFFFFFFBCE6FAADA7179E84F3B9CAC2FC632551.
Definition P256_b : Z := 0x5AC635D8AA3A93E7B3EBBD55769886BC651D06B0CC53B0F63BCE3C3E27D2604B.
Definition P256_gx : Z := 0x6B17D1F2E12C4247F8BCE6E563A440F277037D812DEB33A0F4A13945D898C296.
Definition P256_gy : Z := 0x4FE342E2FE1A7F9B8EE7EB4A7C0F9E162BCE33576B315ECECBB6406837BF51F5.

(** [curve.IsOnCurve] *)
Definition IsOnCurve (x y : Z) : bool :=
  (0 <=? x) && (x <? P256_p) && (0 <=? y) && (y <? P256_p) &&
  ((y * y) mod P256_p =? (x * x * x - 3 * x + P256_b) mod P256_p).

(** ** Keys and signatures *)
Record PublicKey := mkPublicKey { pk_X : Z; pk_Y : Z }.
Record PrivateKey := mkPrivateKey { sk_D : Z; sk_PublicKey : PublicKey }.

#[global] Instance PublicKey_eq_dec : EqDecision PublicKey.
Proof. solve_decision. Defined.

(** The point arithmetic of [crypto/elliptic] and [crypto/ecdsa]. [ecdsa_sign]
    is given the nonce the library draws; [ecdsa_verify] is the check made for
    a key on the curve and a signature in range. *)
Class ECDSA := {
  ScalarBaseMult : bytes → Z * Z;
  ecdsa_sign : Z → PrivateKey → bytes → Z * Z;
  ecdsa_verify : PublicKey → bytes → Z → Z → bool;
  (** A signature's components are reduced modulo the order and not zero. *)
  ecdsa_sign_range : ∀ k priv h r s, ecdsa_sign k priv h = (r, s) →
    0 < r < P256_n ∧ 0 < s < P256_n;
  (** A multiple of the base point that is not the identity is on the curve. *)
  ScalarBaseMult_on_curve : ∀ d x y, be_value d mod P256_n ≠ 0 →
    ScalarBaseMult d = (x, y) → IsOnCurve x y = true;
  (** The signatures made with a key pass the check of its public half. *)
  ecdsa_verify_sign : ∀ k priv h r s,
    ScalarBaseMult (big_Bytes (sk_D priv)) = (pk_X (sk_PublicKey priv), pk_Y (sk_PublicKey priv)) →
    sk_D priv mod P256_n ≠ 0 →
    ecdsa_sign k priv h = (r, s) → ecdsa_verify (sk_PublicKey priv) h r s = true;
}.

(** [ecdsa.Verify]; a nil key is dereferenced once [r] and [s] are positive. *)
Definition ecdsa_Verify `{ECDSA} (pub : option PublicKey) (hash : bytes) (r s : Z) : outcome bool :=
  if (r <=? 0) || (s <=? 0) then Done false
  else match pub with
  | None => Panic "invalid memory address or nil pointer dereference"
  | Some pub =>
      if negb (IsOnCurve (pk_X pub) (pk_Y pub)) || (P256_n <=? r) || (P256_n <=? s) then Done false
      else Done (ecdsa_verify pub hash r s)
  end.

(** A key pair as the library makes it. *)
Definition key_pair `{ECDSA} (priv : PrivateKey) : Prop :=
  0 < sk_D priv < P256_n ∧
  ScalarBaseMult (big_Bytes (sk_D priv)) = (pk_X (sk_PublicKey priv), pk_Y (sk_PublicKey priv)).

(** [ecdh.P256().NewPublicKey]: accepts an uncompressed point on the curve. *)
Definition ecdh_NewPublicKey (key : bytes) : bool :=
  match key with
  | 4 :: xy =>
      (Z.of_nat (length xy) =? 64)
      && IsOnCurve (be_value (take 32 xy)) (be_value (drop 32 xy))
  | _ => false
  end.

(** ** Facts *)
Lemma be_value_app l1 l2 : be_value (l1 ++ l2) = be_value l1 * 256 ^ Z.of_nat (length l2) + be_value l2.
Proof.
  induction l2 as [|b l2 IH] using rev_ind.
  - rewrite app_nil_r. unfold be_value. simpl. lia.
  - assert (∀ l, be_value (l ++ [b]) = 256 * be_value l + b) as Hsnoc.
    { intros l. unfold be_value. by rewrite foldl_app. }
    rewrite app_assoc, !Hsnoc, IH, length_app. simpl.
    rewrite Nat.add_1_r, Nat2Z.inj_succ, Z.pow_succ_r by lia. lia.
Qed.

Lemma be_value_be_bytes n z : be_value (be_bytes n z) = z mod 256 ^ Z.of_nat n.
Proof.
  induction n as [|n IH]; [by rewrite Z.mod_1_r|].
  change (be_bytes (S n) z) with ([Z.land (Z.shiftr z (8 * Z.of_nat n)) 255] ++ be_bytes n z).
  rewrite be_value_app, IH, length_be_bytes. unfold be_value at 1. cbn [foldl].
  change 255 with (Z.ones 8). rewrite Z.land_ones, Z.shiftr_div_pow2 by lia.
  replace (2 ^ (8 * Z.of_nat n)) with (256 ^ Z.of_nat n) by (rewrite Z.pow_mul_r by lia; done).
  rewrite Nat2Z.inj_succ, Z.pow_succ_r by lia.
  rewrite (Z.mul_comm 256 (256 ^ _)), Z.rem_mul_r by (try apply Z.pow_nonzero; lia).
  change (2 ^ 8) with 256. lia.
Qed.

Lemma big_len_bound z : 0 ≤ z → z < 256 ^ Z.of_nat (big_len z).
Proof.
  intros Hz. unfold big_len. case_match eqn:H0; [simpl; lia|].
  assert (0 ≤ Z.log2 z / 8) by (apply Z.div_pos; [apply Z.log2_nonneg|lia]).
  rewrite Z2Nat.id by lia. change 256 with (2 ^ 8). rewrite <-Z.pow_mul_r by lia.
  apply Z.log2_lt_pow2; [lia|]. pose proof (Z.mod_pos_bound (Z.log2 z) 8).
  pose proof (Z.div_mod (Z.log2 z) 8). lia.
Qed.

Lemma SetBytes_Bytes z : 0 ≤ z → big_SetBytes (big_Bytes z) = z.
Proof.
  intros Hz. unfold big_SetBytes, big_Bytes. rewrite be_value_be_bytes.
  apply Z.mod_small. split; [done|]. by apply big_len_bound.
Qed.

Lemma length_big_Bytes z : length (big_Bytes z) = big_len z.
Proof. apply length_be_bytes. Qed.

Lemma big_Bytes_range z : Forall is_byte (big_Bytes z).
Proof. apply be_bytes_range. Qed.

Lemma big_len_le z n : 0 ≤ z < 256 ^ Z.of_nat n → (big_len z ≤ n)%nat.
Proof.
  intros Hz. unfold big_len. case_match; [lia|].
  assert (Z.log2 z < 8 * Z.of_nat n) as Hl.
  { apply Z.log2_lt_pow2; [lia|]. rewrite Z.pow_mul_r by lia. apply Hz. }
  assert (Z.log2 z / 8 < Z.of_nat n) by (apply Z.div_lt_upper_bound; lia). lia.
Qed.

Lemma be_value_zeros n l : be_value (replicate n 0 ++ l) = be_value l.
Proof.
  rewrite be_value_app. replace (be_value (replicate n 0)) with 0; [lia|].
  unfold be_value. induction n as [|n IH]; [done|]. simpl. exact IH.
Qed.

Example P256_base_on_curve : IsOnCurve P256_gx P256_gy = true.
Proof. vm_compute. reflexivity. Qed.

Lemma key_pair_on_curve `{ECDSA} priv : key_pair priv →
  IsOnCurve (pk_X (sk_PublicKey priv)) (pk_Y (sk_PublicKey priv)) = true.
Proof.
  intros [Hd Hp]. eapply ScalarBaseMult_on_curve; [|exact Hp].
  fold (big_SetBytes (big_Bytes (sk_D priv))). rewrite SetBytes_Bytes by lia.
  rewrite Z.mod_small by lia. lia.
Qed.

Lemma IsOnCurve_range x y : IsOnCurve x y = true → 0 ≤ x < 2 ^ 256 ∧ 0 ≤ y < 2 ^ 256.
Proof. unfold IsOnCurve, P256_p. rewrite !andb_true_iff. lia. Qed.

Lemma ecdsa_Verify_sign `{ECDSA} k priv h r s : key_pair priv → ecdsa_sign k priv h = (r, s) →
  ecdsa_Verify (Some (sk_PublicKey priv)) h r s = Done true.
Proof.
  intros Hk Hs. destruct (ecdsa_sign_range _ _ _ _ _ Hs) as [Hr Hs'].
  unfold ecdsa_Verify. rewrite (key_pair_on_curve _ Hk). destruct Hk as [Hd Hp].
  rewrite (proj2 (Z.leb_gt r 0)), (proj2 (Z.leb_gt s 0)), (proj2 (Z.leb_gt _ r)),
    (proj2 (Z.leb_gt _ s)) by lia. simpl. f_equal.
  eapply ecdsa_verify_sign; [done| |done]. rewrite Z.mod_small by lia. lia.
Qed.

(** ** A degenerate scheme: the interface can be implemented

    Every key has the base point as its public half, and a signature repeats
    the digest and the nonce. *)
Definition toy_r (h : bytes) : Z := 2 ^ 248 + be_value h mod 2 ^ 247.
Definition toy_s (k : Z) : Z := 1 + k mod 2 ^ 255.

#[global] Program Instance toy_ecdsa : ECDSA | 10 := {|
  ScalarBaseMult _ := (P256_gx, P256_gy);
  ecdsa_sign k _ h := (toy_r h, toy_s k);
  ecdsa_verify _ h r _ := r =? toy_r h;
|}.
Next Obligation.
  intros k priv h r s [= <- <-]. unfold toy_r, toy_s, P256_n.
  pose proof (Z.mod_pos_bound (be_value h) (2 ^ 247)). pose proof (Z.mod_pos_bound k (2 ^ 255)). lia.
Qed.
Next Obligation. intros d x y _ [= <- <-]. apply P256_base_on_curve. Qed.
Next Obligation. intros k priv h r s _ _ [= <- <-]. apply Z.eqb_refl. Qed.
