(* ===== verification/Crypto.v ===== *)
(** * Signatures and addresses

    [crypto.go] (sign and verify a message), the addresses and key encodings of
    [wallet.go], [hd_wallet.go] and [multi_sig_wallet.go], and the public-key
    table of [multi_sig_utils.go]. *)

From stdpp Require Import base gmap strings list.
From Stdlib Require Import ZArith Lia.
From S2P Require Import Prelude.
From S2P Require Import Sha256.
From S2P Require Import P256.

(** The table of public keys (a package variable); a nil entry is [None]. *)
Abbreviation key_table := (gmap string (option PublicKey)).

Section crypto.
Context `{ECDSA}.

(** ** crypto.go *)

(** [nonce] is what the random reader yields: the nonce or a read error. *)
Definition SignMessage (nonce : result Z) (privateKey : PrivateKey) (message : string)
    : result string :=
  let hash := sha256 (bytes_of_string message) in
  match nonce with
  | Err e => Err e
  | Ok k =>
      let '(r, s) := ecdsa_sign k privateKey hash in
      Ok (hex_encode (big_Bytes r ++ big_Bytes s))
  end.

Definition VerifySignature (publicKey : option PublicKey) (message signature : string)
    : outcome bool :=
  match hex_decode signature with
  | None => Done false
  | Some sigBytes =>
      let sigLen := (length sigBytes / 2)%nat in
      let r := big_SetBytes (take sigLen sigBytes) in
      let s := big_SetBytes (drop sigLen sigBytes) in
      let hash := sha256 (bytes_of_string message) in
      ecdsa_Verify publicKey hash r s
  end.

(** ** Addresses *)
Definition GenerateAddress (publicKey : PublicKey) : string :=
  let pubKeyBytes := big_Bytes (pk_X publicKey) ++ big_Bytes (pk_Y publicKey) in
  let hash := sha256 pubKeyBytes in
  let checksum := sha256 (take 10 hash) in
  "sup" +:+ hex_encode (take 10 hash) +:+ hex_encode (take 4 checksum).

Definition ValidateAddress (address : string) : bool :=
  let len := String.length address in
  if (len <? 30)%nat || (36 <? len)%nat then false
  else if negb (str_eqb (String.substring 0 3 address) "sup") then false
  else
    let hashPart := String.substring 3 (len - 8 - 3) address in
    let expectedChecksum := String.substring (len - 8) 8 address in
    match hex_decode hashPart with
    | None => false
    | Some hashBytes =>
        str_eqb (hex_encode (take 4 (sha256 hashBytes))) expectedChecksum
    end.

(** [address[:n]]: a slice past the end panics. *)
Definition slice_to (n : nat) (s : string) : outcome string :=
  if (String.length s <? n)%nat then Panic "slice bounds out of range"
  else Done (String.substring 0 n s).

Definition EncodeAddress (publicKey : string) : outcome string :=
  let hash := sha256 (bytes_of_string publicKey) in
  let checksum := take 4 hash in
  let address := "sup" +:+ hex_encode (take 10 hash) +:+ hex_encode checksum in
  slice_to 36 address.

(** hd_wallet.go: the checksum is taken over the whole hash. *)
Definition GenerateAddressFromPublicKey (publicKey : PublicKey) : string :=
  let pubKeyBytes := big_Bytes (pk_X publicKey) ++ big_Bytes (pk_Y publicKey) in
  let hash := sha256 pubKeyBytes in
  let checksum := sha256 hash in
  let fullAddress := "sup" +:+ hex_encode (take 10 hash) +:+ hex_encode (take 4 checksum) in
  let len := String.length fullAddress in
  if (len <? 30)%nat then fullAddress +:+ string_repeat "x" (30 - len)
  else if (36 <? len)%nat then String.substring 0 36 fullAddress
  else fullAddress.

(** hd_wallet.go: a child key from the master key and an index (a [uint32]). *)
Definition DeriveChildKeyFromMaster (masterKey : PrivateKey) (index : Z) : PrivateKey :=
  let seed := big_Bytes (sk_D masterKey) ++ be_bytes 4 index in
  let hash := sha256 seed in
  let '(x, y) := ScalarBaseMult hash in
  mkPrivateKey (big_SetBytes hash) (mkPublicKey x y).

(** ** Key bytes *)

(** [append(make([]byte, 32-len(b)), b...)]: a negative length panics. *)
Definition pad32 (b : bytes) : outcome bytes :=
  if (32 <? length b)%nat then Panic "makeslice: len out of range"
  else Done (replicate (32 - length b) 0 ++ b).

Definition serializeKeys (privateKey : PrivateKey) (publicKey : PublicKey)
    : outcome (bytes * bytes) :=
  let d := big_Bytes (sk_D privateKey) in
  let privateKeyBytes :=
    if (length d <? 32)%nat then replicate (32 - length d) 0 ++ d else d in
  let! x := pad32 (big_Bytes (pk_X publicKey)) in
  let! y := pad32 (big_Bytes (pk_Y publicKey)) in
  Done (privateKeyBytes, x ++ y).

Definition DeserializeKeys (privateKeyBytes publicKeyBytes : bytes)
    : result (PrivateKey * PublicKey) :=
  if (length privateKeyBytes =? 0)%nat then Err "private key bytes are nil or empty"
  else if (length publicKeyBytes <? 64)%nat then
    Err ("public key bytes are nil or invalid length (got "
         +:+ fmt_d (Z.of_nat (length publicKeyBytes)) +:+ ", need at least 64)")
  else
    let x := big_SetBytes (take 32 publicKeyBytes) in
    let y := big_SetBytes (drop 32 publicKeyBytes) in
    if negb (IsOnCurve x y) then Err "deserialized public key is not on the curve"
    else Ok (mkPrivateKey (big_SetBytes privateKeyBytes) (mkPublicKey x y), mkPublicKey x y).

(** ** The table of public keys *)
Definition AddPublicKeyToDatabase (tbl : key_table) (address : string) (k : option PublicKey)
    : key_table := <[address := k]> tbl.

Definition GetPublicKeyForAddress (tbl : key_table) (address : string)
    : result (option PublicKey) :=
  if str_eqb address "BLOCKCHAIN" then Ok None
  else match tbl !! address with
  | None => Err ("public key not found for address: " +:+ address)
  | Some publicKey => Ok publicKey
  end.

(** ** multi_sig_wallet.go: the address of a set of owners *)
Definition GenerateMultiSigAddress (publicKeyMap : key_table) : outcome string :=
  let owners := sort_strings (map_keys publicKeyMap) in
  let! combinedKeys := foldl (λ acc owner,
    let! s := acc in
    match mjoin (publicKeyMap !! owner) with
    | None => Panic "invalid memory address or nil pointer dereference"
    | Some k => Done (s +:+ owner +:+ big_Text16 (pk_X k) +:+ big_Text16 (pk_Y k))
    end) (Done "") owners in
  let hash := sha256 (bytes_of_string combinedKeys) in
  slice_to 31 ("sup" +:+ hex_encode (take 28 hash)).

End crypto.

(** ** Facts *)

(** An address of the usual shape: prefix, 20 hexadecimal digits, checksum. *)
Lemma address_parts h c : length h = 10%nat → length c = 4%nat → Forall is_byte h →
  let a := "sup" +:+ hex_encode h +:+ hex_encode c in
  ValidateAddress a = str_eqb (hex_encode (take 4 (sha256 h))) (hex_encode c).
Proof.
  intros Hh Hc Hb a. assert (String.length a = 31%nat) as Hl.
  { unfold a. rewrite !slength_app, !length_hex_encode, Hh, Hc. done. }
  unfold ValidateAddress. rewrite Hl. cbn [Nat.ltb Nat.leb orb].
  assert (String.substring 0 3 a = "sup") as -> by apply (substring_app_l "sup").
  change (negb (str_eqb "sup" "sup")) with false. cbv beta iota zeta.
  assert (String.substring 3 (31 - 8 - 3) a = hex_encode h) as ->.
  { unfold a. change 3%nat with (String.length "sup") at 1. rewrite substring_app_r.
    replace (31 - 8 - 3)%nat with (String.length (hex_encode h)) by (rewrite length_hex_encode; lia).
    apply substring_app_l. }
  assert (String.substring (31 - 8) 8 a = hex_encode c) as ->.
  { unfold a. replace (31 - 8)%nat with (String.length ("sup" +:+ hex_encode h))
      by (rewrite slength_app, length_hex_encode, Hh; done).
    rewrite (sapp_assoc "sup"), substring_app_r.
    replace 8%nat with (String.length (hex_encode c)) by (rewrite length_hex_encode; lia).
    apply substring_all. }
  by rewrite hex_decode_encode.
Qed.

Lemma take_sha256 n m : (n ≤ 32)%nat → length (take n (sha256 m)) = n.
Proof. intros. rewrite length_take, length_sha256. lia. Qed.

Lemma Forall_take_byte n l : Forall is_byte l → Forall is_byte (take n l).
Proof. apply Forall_take. Qed.

(** Every address the wallet derives from a public key passes the checksum
    validation that the node applies to addresses. *)
Theorem ValidateAddress_GenerateAddress (publicKey : PublicKey) :
  ValidateAddress (GenerateAddress publicKey) = true.
Proof.
  unfold GenerateAddress. rewrite address_parts; [apply str_eqb_refl|..].
  - by apply take_sha256; lia.
  - by apply take_sha256; lia.
  - apply Forall_take, sha256_range.
Qed.

(** [EncodeAddress] never returns: it slices 36 characters out of the 31 it
    has built. *)
Theorem EncodeAddress_panics (publicKey : string) :
  EncodeAddress publicKey = Panic "slice bounds out of range".
Proof.
  unfold EncodeAddress, slice_to.
  rewrite !slength_app, !length_hex_encode, !take_sha256 by lia. done.
Qed.

Section signature_facts.
Context `{ECDSA}.

(** Verification of a made signature splits its bytes in the middle. *)
Lemma Verify_SignMessage k priv message sig :
  SignMessage (Ok k) priv message = Ok sig →
  let hash := sha256 (bytes_of_string message) in
  let '(r, s) := ecdsa_sign k priv hash in
  ∀ pub, VerifySignature pub message sig =
    let b := big_Bytes r ++ big_Bytes s in
    ecdsa_Verify pub hash (be_value (take (length b / 2) b)) (be_value (drop (length b / 2) b)).
Proof.
  unfold SignMessage. simpl. destruct (ecdsa_sign k priv _) as [r s] eqn:Hs.
  intros [= <-] pub. unfold VerifySignature.
  rewrite hex_decode_encode by (apply Forall_app; split; apply big_Bytes_range). done.
Qed.

(** The halves of the concatenation are the two components when these take the
    same number of bytes. *)
Lemma split_verifies k priv h r s : key_pair priv → ecdsa_sign k priv h = (r, s) →
  big_len r = big_len s →
  ecdsa_Verify (Some (sk_PublicKey priv)) h
    (be_value (take (length (big_Bytes r ++ big_Bytes s) / 2) (big_Bytes r ++ big_Bytes s)))
    (be_value (drop (length (big_Bytes r ++ big_Bytes s) / 2) (big_Bytes r ++ big_Bytes s)))
  = Done true.
Proof.
  intros Hk Hs Hlen. destruct (ecdsa_sign_range _ _ _ _ _ Hs) as [Hr Hs'].
  rewrite length_app, !length_big_Bytes, <-Hlen.
  replace ((big_len r + big_len r) / 2)%nat with (big_len r)
    by (replace (big_len r + big_len r)%nat with (big_len r * 2)%nat by lia;
        by rewrite Nat.div_mul by lia).
  rewrite take_app_length', drop_app_length' by (symmetry; apply length_big_Bytes).
  fold (big_SetBytes (big_Bytes r)). fold (big_SetBytes (big_Bytes s)).
  rewrite !SetBytes_Bytes by lia. by eapply ecdsa_Verify_sign.
Qed.

(** A message signed with a key pair is verified by its public key, provided
    the two components of the signature take the same number of bytes. *)
Theorem SignMessage_verifies (k : Z) (priv : PrivateKey) (message : string) :
  key_pair priv →
  (let '(r, s) := ecdsa_sign k priv (sha256 (bytes_of_string message)) in big_len r = big_len s) →
  ∃ sig, SignMessage (Ok k) priv message = Ok sig ∧
         VerifySignature (Some (sk_PublicKey priv)) message sig = Done true.
Proof.
  intros Hk Hlen. destruct (SignMessage (Ok k) priv message) as [sig|e] eqn:Hsig.
  - exists sig. split; [done|]. pose proof (Verify_SignMessage _ _ _ _ Hsig) as Hv.
    cbv zeta in Hv. destruct (ecdsa_sign k priv _) as [r s] eqn:Hs.
    rewrite Hv. by apply (split_verifies k).
  - exfalso. revert Hsig. unfold SignMessage. by destruct (ecdsa_sign k priv _).
Qed.

(** ** Key bytes *)
Lemma pad32_value z : 0 ≤ z < 2 ^ 256 →
  ∃ b, pad32 (big_Bytes z) = Done b ∧ length b = 32%nat ∧ be_value b = z.
Proof.
  intros Hz. assert (big_len z ≤ 32)%nat as Hl by (apply big_len_le; exact Hz).
  unfold pad32. rewrite length_big_Bytes.
  rewrite (proj2 (Nat.ltb_ge 32 (big_len z))) by done.
  eexists. split_and!; [done| |].
  - rewrite length_app, length_replicate, length_big_Bytes. lia.
  - rewrite be_value_zeros. apply SetBytes_Bytes. lia.
Qed.

(** The key bytes stored in a wallet give back the key pair they were made
    from. *)
Theorem serializeKeys_round_trip (priv : PrivateKey) :
  key_pair priv →
  ∃ sk pk, serializeKeys priv (sk_PublicKey priv) = Done (sk, pk) ∧
    length sk = 32%nat ∧ length pk = 64%nat ∧
    DeserializeKeys sk pk = Ok (priv, sk_PublicKey priv).
Proof.
  intros Hk. pose proof (key_pair_on_curve _ Hk) as Hc.
  destruct (IsOnCurve_range _ _ Hc) as [Hx Hy]. destruct Hk as [Hd _].
  destruct (pad32_value _ Hx) as (bx & Ex & Lx & Vx).
  destruct (pad32_value _ Hy) as (by_ & Ey & Ly & Vy).
  assert (0 ≤ sk_D priv < 2 ^ 256) as Hd' by (unfold P256_n in Hd; lia).
  destruct (pad32_value _ Hd') as (bd & Ed & Ld & Vd).
  unfold serializeKeys. rewrite Ex, Ey. simpl.
  assert ((if (length (big_Bytes (sk_D priv)) <? 32)%nat
           then replicate (32 - length (big_Bytes (sk_D priv))) 0 ++ big_Bytes (sk_D priv)
           else big_Bytes (sk_D priv)) = bd) as ->.
  { unfold pad32 in Ed. destruct (Nat.ltb_spec 32 (length (big_Bytes (sk_D priv)))); [done|].
    simplify_eq. destruct (Nat.ltb_spec (length (big_Bytes (sk_D priv))) 32); [done|].
    replace (32 - length (big_Bytes (sk_D priv)))%nat with 0%nat by lia. done. }
  eexists _, _. split_and!; [done|done|rewrite length_app; lia|].
  unfold DeserializeKeys. rewrite Ld, length_app, Lx, Ly. cbn [Nat.eqb Nat.ltb Nat.leb Nat.add].
  rewrite take_app_length', drop_app_length' by done. unfold big_SetBytes.
  rewrite Vx, Vy, Vd, Hc. simpl. by destruct priv as [d []].
Qed.

End signature_facts.

(** Concrete key pair of the degenerate scheme. *)
Definition toy_key : PrivateKey := mkPrivateKey 7 (mkPublicKey P256_gx P256_gy).
Lemma toy_key_pair : key_pair toy_key.
Proof. split; [unfold P256_n; simpl; lia|done]. Qed.

Lemma SignMessage_verifies_witness :
  ∃ sig, SignMessage (Ok (2 ^ 254)) toy_key "hello" = Ok sig ∧
         VerifySignature (Some (sk_PublicKey toy_key)) "hello" sig = Done true.
Proof. apply (SignMessage_verifies (2 ^ 254) toy_key "hello" toy_key_pair). vm_compute. reflexivity. Defined.

Lemma serializeKeys_round_trip_witness :
  ∃ sk pk, serializeKeys toy_key (sk_PublicKey toy_key) = Done (sk, pk) ∧
    length sk = 32%nat ∧ length pk = 64%nat ∧
    DeserializeKeys sk pk = Ok (toy_key, sk_PublicKey toy_key).
Proof. exact (serializeKeys_round_trip toy_key toy_key_pair). Defined.

(** Without the length proviso the split falls in the wrong place: here the
    second component is one byte shorter than the first. *)
Example short_component_rejected :
  ∃ sig, SignMessage (Ok 5) toy_key "hello" = Ok sig ∧
         VerifySignature (Some (sk_PublicKey toy_key)) "hello" sig = Done false.
Proof. eexists. split; [reflexivity|]. vm_compute. reflexivity. Qed.

(** An address of the HD wallet carries another checksum and is refused. *)
Example hd_address_rejected :
  ValidateAddress (GenerateAddressFromPublicKey (mkPublicKey P256_gx P256_gy)) = false.
Proof. vm_compute. reflexivity. Qed.
