(* ===== verification/Transaction.v ===== *)
(** * Transactions ([transaction.go])

    The record, its constructors, identifiers, gas validation and signature
    check. [now] is the Unix time in seconds that [time.Now().Unix()] returns. *)

From stdpp Require Import base gmap strings list.
From Stdlib Require Import ZArith Lia.
From S2P Require Import Prelude.
From S2P Require Import Float64.
From S2P Require Import Sha256.
From S2P Require Import Gas.
From S2P Require Import P256.
From S2P Require Import Crypto.

Definition DefaultGasPrice : Z := 20.
Definition DefaultGasLimit : Z := 21000.
Definition MaxTotalFee : float64 := f64_of_Z 2.

Definition TX_REGULAR : Z := 0.
Definition TX_COINBASE : Z := 1.
Definition TX_VALIDATOR_REWARD : Z := 2.
Definition TX_STAKE : Z := 3.
Definition TX_VOTE : Z := 4.

Record TransactionInput := mkTransactionInput {
  in_TransactionID : string;
  in_OutputIndex : Z;
  in_Signature : string;
}.

Record TransactionOutput := mkTransactionOutput {
  out_Receiver : string;
  out_Amount : float64;
  out_ScriptPubKey : string;
}.

Record Transaction := mkTransaction {
  TransactionID : string;
  Sender : string;
  Receiver : string;
  Amount : float64;
  Timestamp : Z;
  Nonce : Z;
  GasFee : float64;
  Inputs : list TransactionInput;
  Outputs : list TransactionOutput;
  TxType : Z;
  GasLimit : Z;
  GasPrice : Z;
  GasUsed : Z;
  Priority : Z;
  MaxFeePerGas : Z;
  Data : bytes;
  Signature : string;
  SenderPubKey : bytes;
}.

#[global] Instance TransactionInput_eq_dec : EqDecision TransactionInput.
Proof. solve_decision. Defined.
#[global] Instance TransactionOutput_eq_dec : EqDecision TransactionOutput.
Proof. solve_decision. Defined.
#[global] Instance Transaction_eq_dec : EqDecision Transaction.
Proof. solve_decision. Defined.

Module Tx.

Definition set_TransactionID (tx : Transaction) (v : string) : Transaction :=
  mkTransaction v (Sender tx) (Receiver tx) (Amount tx) (Timestamp tx) (Nonce tx) (GasFee tx)
    (Inputs tx) (Outputs tx) (TxType tx) (GasLimit tx) (GasPrice tx) (GasUsed tx) (Priority tx)
    (MaxFeePerGas tx) (Data tx) (Signature tx) (SenderPubKey tx).

Definition set_GasFee (tx : Transaction) (v : float64) : Transaction :=
  mkTransaction (TransactionID tx) (Sender tx) (Receiver tx) (Amount tx) (Timestamp tx) (Nonce tx) v
    (Inputs tx) (Outputs tx) (TxType tx) (GasLimit tx) (GasPrice tx) (GasUsed tx) (Priority tx)
    (MaxFeePerGas tx) (Data tx) (Signature tx) (SenderPubKey tx).

Definition set_io (tx : Transaction) (ins : list TransactionInput) (outs : list TransactionOutput)
    : Transaction :=
  mkTransaction (TransactionID tx) (Sender tx) (Receiver tx) (Amount tx) (Timestamp tx) (Nonce tx)
    (GasFee tx) ins outs (TxType tx) (GasLimit tx) (GasPrice tx) (GasUsed tx) (Priority tx)
    (MaxFeePerGas tx) (Data tx) (Signature tx) (SenderPubKey tx).

Definition set_signature (tx : Transaction) (sig : string) (pk : bytes) : Transaction :=
  mkTransaction (TransactionID tx) (Sender tx) (Receiver tx) (Amount tx) (Timestamp tx) (Nonce tx)
    (GasFee tx) (Inputs tx) (Outputs tx) (TxType tx) (GasLimit tx) (GasPrice tx) (GasUsed tx)
    (Priority tx) (MaxFeePerGas tx) (Data tx) sig pk.

(** ** Identifiers *)
Definition hash_data (tx : Transaction) : string :=
  Sender tx +:+ Receiver tx +:+ fmt_f 6 (Amount tx) +:+ fmt_d (GasPrice tx) +:+ fmt_d (GasLimit tx)
  +:+ fmt_d (Priority tx) +:+ fmt_d (Timestamp tx).

Definition GenerateTransactionID (tx : Transaction) : string := sha_hex (hash_data tx).

Definition Hash (tx : Transaction) : string := sha_hex (hash_data tx).

Definition GenerateCoinbaseID (tx : Transaction) (blockHeight : Z) : string :=
  sha_hex ("coinbase-" +:+ Receiver tx +:+ "-" +:+ fmt_f 6 (Amount tx) +:+ "-"
    +:+ fmt_d (Timestamp tx) +:+ "-" +:+ fmt_d blockHeight).

Definition GenerateValidatorRewardID (tx : Transaction) (blockHeight : Z) : string :=
  sha_hex ("validator-reward-" +:+ Receiver tx +:+ "-" +:+ fmt_f 6 (Amount tx) +:+ "-"
    +:+ fmt_d (Timestamp tx) +:+ "-" +:+ fmt_d blockHeight).

Definition IsCoinbase (tx : Transaction) : bool := TxType tx =? TX_COINBASE.
Definition IsValidatorReward (tx : Transaction) : bool := TxType tx =? TX_VALIDATOR_REWARD.
Definition is_system (tx : Transaction) : bool := IsCoinbase tx || IsValidatorReward tx.

(** ** Gas *)
Definition CalculateFee (tx : Transaction) : Z := u64 (GasPrice tx * GasUsed tx).

Definition ValidateGas (tx : Transaction) : error :=
  if (GasLimit tx <? BaseTxGas) || (GasLimit tx >? BaseTxGas * 100) then
    Some ("gas limit " +:+ fmt_d (GasLimit tx) +:+ " outside allowed range ["
          +:+ fmt_d BaseTxGas +:+ ", " +:+ fmt_d (BaseTxGas * 100) +:+ "]")
  else if GasPrice tx <? MinGasPrice then
    Some ("gas price " +:+ fmt_d (GasPrice tx) +:+ " below minimum " +:+ fmt_d MinGasPrice)
  else if GasPrice tx >? MaxGasPrice * 10 then
    Some ("gas price " +:+ fmt_d (GasPrice tx) +:+ " exceeds maximum reasonable limit "
          +:+ fmt_d (MaxGasPrice * 10))
  else
    let totalGasUnits := u64 (GasLimit tx * GasPrice tx) in
    let totalFee := ConvertGasToTokens totalGasUnits in
    if f64_gt totalFee MaxTotalFee then
      Some ("total fee " +:+ fmt_f 8 totalFee +:+ " tokens exceeds maximum "
            +:+ fmt_f 2 MaxTotalFee +:+ " tokens")
    else None.

Definition GetData (tx : Transaction) : bytes :=
  bytes_of_string (Sender tx +:+ Receiver tx +:+ fmt_f 6 (Amount tx)
    +:+ fmt_d (GasPrice tx) +:+ fmt_d (GasLimit tx)).

(** ** Constructors *)
Definition NewTransaction (now : Z) (sender receiver : string) (amount : float64)
    (gasPrice gasLimit : Z) : result Transaction :=
  if gasPrice <? MinGasPrice then
    Err ("gas price " +:+ fmt_d gasPrice +:+ " is below minimum allowed " +:+ fmt_d MinGasPrice)
  else
    let gasLimit := if gasLimit =? 0 then DefaultGasLimit else gasLimit in
    let tx := mkTransaction "" sender receiver amount now 0 f64_zero []
      [mkTransactionOutput receiver amount ""] TX_REGULAR gasLimit gasPrice 0 PriorityNormal
      (u64 (gasPrice * 2)) [] "" [] in
    let totalGasUnits := u64 (GasLimit tx * GasPrice tx) in
    let tx := set_GasFee tx (ConvertGasToTokens totalGasUnits) in
    if f64_gt (GasFee tx) MaxTotalFee then
      Err ("gas fee " +:+ fmt_f 8 (GasFee tx) +:+ " tokens exceeds maximum allowed "
           +:+ fmt_f 2 MaxTotalFee +:+ " tokens")
    else match ValidateGas tx with
    | Some e => Err ("invalid gas parameters: " +:+ e)
    | None => Ok (set_TransactionID tx (GenerateTransactionID tx))
    end.

Definition NewCoinbaseTransaction (now : Z) (minerAddress : string) (reward : float64)
    (blockHeight : Z) : Transaction :=
  let tx := mkTransaction "" "coinbase" minerAddress reward now 0 f64_zero [] [] TX_COINBASE
    0 0 0 0 0 (bytes_of_string ("Block Reward " +:+ fmt_d blockHeight)) "" [] in
  let tx := set_TransactionID tx (GenerateCoinbaseID tx blockHeight) in
  set_io tx (Inputs tx) (Outputs tx ++ [mkTransactionOutput minerAddress reward ""]).

Definition NewValidatorRewardTransaction (now : Z) (validatorAddress : string) (reward : float64)
    (blockHeight : Z) : Transaction :=
  let tx := mkTransaction "" "system" validatorAddress reward now 0 f64_zero [] []
    TX_VALIDATOR_REWARD 0 0 0 0 0
    (bytes_of_string ("Validator Reward " +:+ fmt_d (u64 (blockHeight - 1)))) "" [] in
  let tx := set_TransactionID tx (GenerateValidatorRewardID tx blockHeight) in
  set_io tx (Inputs tx) (Outputs tx ++ [mkTransactionOutput validatorAddress reward ""]).

Definition NewStakeTransaction (now : Z) (senderAddress : string) (amount : float64)
    (publicKey : bytes) : result Transaction :=
  if f64_le amount f64_zero then Err "stake amount must be positive"
  else
    let tx := mkTransaction "" senderAddress senderAddress amount now 0 f64_zero []
      [mkTransactionOutput senderAddress amount "STAKE"] TX_STAKE 0 0 0 10 0
      (bytes_of_string ("Stake " +:+ fmt_f 4 amount)) "" publicKey in
    let txData := Sender tx +:+ Receiver tx +:+ fmt_f 8 (Amount tx) +:+ fmt_d (Timestamp tx)
      +:+ fmt_d (TxType tx) in
    Ok (set_TransactionID tx (sha_hex ("STAKE-" +:+ txData))).

(** ** Inputs and outputs *)
Definition AddInput (tx : Transaction) (txID : string) (outputIndex : Z) (signature : string)
    : Transaction :=
  set_io tx (Inputs tx ++ [mkTransactionInput txID outputIndex signature]) (Outputs tx).

Definition AddChangeOutput (tx : Transaction) (changeAmount : float64) : Transaction :=
  if f64_gt changeAmount f64_zero then
    set_io tx (Inputs tx) (Outputs tx ++ [mkTransactionOutput (Sender tx) changeAmount ""])
  else tx.

(** [==] on floats, so a NaN amount is not equal to itself. *)
Definition output_eqb (a b : TransactionOutput) : bool :=
  str_eqb (out_Receiver a) (out_Receiver b) && f64_eq (out_Amount a) (out_Amount b)
  && str_eqb (out_ScriptPubKey a) (out_ScriptPubKey b).
Definition input_eqb (a b : TransactionInput) : bool :=
  str_eqb (in_TransactionID a) (in_TransactionID b) && (in_OutputIndex a =? in_OutputIndex b)
  && str_eqb (in_Signature a) (in_Signature b).
Fixpoint list_eqb {A} (eqb : A → A → bool) (l k : list A) : bool :=
  match l, k with
  | [], [] => true
  | a :: l, b :: k => eqb a b && list_eqb eqb l k
  | _, _ => false
  end.

Definition Equals (tx other : Transaction) : bool :=
  str_eqb (TransactionID tx) (TransactionID other) && str_eqb (Sender tx) (Sender other)
  && str_eqb (Receiver tx) (Receiver other) && f64_eq (Amount tx) (Amount other)
  && (Timestamp tx =? Timestamp other) && f64_eq (GasFee tx) (GasFee other)
  && str_eqb (Signature tx) (Signature other)
  && list_eqb input_eqb (Inputs tx) (Inputs other)
  && list_eqb output_eqb (Outputs tx) (Outputs other).

(** ** Signature check *)
Definition VerifySignature `{ECDSA} (tbl : key_table) (tx : Transaction) : outcome bool :=
  if IsCoinbase tx || IsValidatorReward tx then Done true
  else
    let txHash := Hash tx in
    if (length (SenderPubKey tx) <? 64)%nat then
      match GetPublicKeyForAddress tbl (Sender tx) with
      | Err _ => Done false
      | Ok publicKey => Crypto.VerifySignature publicKey txHash (Signature tx)
      end
    else
      let x := big_SetBytes (take 32 (SenderPubKey tx)) in
      let y := big_SetBytes (drop 32 (SenderPubKey tx)) in
      let pubBytes := 4 :: SenderPubKey tx in
      if negb (ecdh_NewPublicKey pubBytes) then Done false
      else
        let publicKey := mkPublicKey x y in
        let derivedAddress := GenerateAddress publicKey in
        if negb (str_eqb derivedAddress (Sender tx)) then Done false
        else Crypto.VerifySignature (Some publicKey) txHash (Signature tx).

End Tx.

(** ** Facts *)

(** The key that a transaction is checked with: the one it carries, a point of the
    curve whose address is the sender's, or without one the key on record for the
    sender. *)
Definition sender_key `{ECDSA} (tbl : key_table) (tx : Transaction) (pk : PublicKey) : Prop :=
  if (length (SenderPubKey tx) <? 64)%nat then tbl !! Sender tx = Some (Some pk)
  else pk = mkPublicKey (big_SetBytes (take 32 (SenderPubKey tx))) (big_SetBytes (drop 32 (SenderPubKey tx))) ∧
       ecdh_NewPublicKey (4 :: SenderPubKey tx) = true ∧ GenerateAddress pk = Sender tx.

(** The transaction carries a signature of its hash under the sender's key. *)
Definition signed_by_sender `{ECDSA} (tbl : key_table) (tx : Transaction) : Prop :=
  ∃ pk, sender_key tbl tx pk ∧ Crypto.VerifySignature (Some pk) (Tx.Hash tx) (Signature tx) = Done true.

Lemma VerifySignature_key `{ECDSA} pk m sig : Crypto.VerifySignature pk m sig = Done true → is_Some pk.
Proof.
  unfold Crypto.VerifySignature, ecdsa_Verify. destruct (hex_decode sig); [|done]. destruct (_ || _); [done|]. by destruct pk.
Qed.

(** What the check of a signature vouches for: nothing at all for a transaction that
    declares itself a coinbase or a validator's reward. *)
Lemma VerifySignature_signed `{ECDSA} tbl tx : Tx.VerifySignature tbl tx = Done true →
  Tx.is_system tx = true ∨ signed_by_sender tbl tx.
Proof.
  unfold Tx.VerifySignature, Tx.is_system. destruct (_ || _); [by left|]. intros E. right. unfold signed_by_sender, sender_key.
  destruct (_ <? 64)%nat.
  - unfold GetPublicKeyForAddress in E. destruct (str_eqb (Sender tx) "BLOCKCHAIN").
    { by destruct (VerifySignature_key _ _ _ E). }
    destruct (tbl !! Sender tx) as [[pk|]|] eqn:Et; [by exists pk| |done]. by destruct (VerifySignature_key _ _ _ E).
  - destruct (ecdh_NewPublicKey _) eqn:Ec; cbn [negb] in E; [|done].
    destruct (str_eqb _ (Sender tx)) eqn:Ea; cbn [negb] in E; [|done]. apply str_eqb_eq in Ea. eauto 6.
Qed.

(** A transaction that [NewTransaction] returns has valid gas parameters, no
    inputs, the receiver's amount as its only output, and the hash of the
    transaction as its identifier; every other gas price or limit is refused
    with an error. *)
Theorem NewTransaction_spec (now : Z) (sender receiver : string) (amount : float64)
    (gasPrice gasLimit : Z) :
  match Tx.NewTransaction now sender receiver amount gasPrice gasLimit with
  | Ok tx =>
      Tx.ValidateGas tx = None ∧ TransactionID tx = Tx.Hash tx ∧ Inputs tx = [] ∧
      Outputs tx = [mkTransactionOutput receiver amount ""] ∧ TxType tx = TX_REGULAR ∧
      MinGasPrice ≤ GasPrice tx ≤ MaxGasPrice * 10 ∧
      BaseTxGas ≤ GasLimit tx ≤ BaseTxGas * 100 ∧ f64_gt (GasFee tx) MaxTotalFee = false
  | Err _ =>
      let limit := if gasLimit =? 0 then DefaultGasLimit else gasLimit in
      gasPrice < MinGasPrice ∨ MaxGasPrice * 10 < gasPrice ∨ limit < BaseTxGas ∨
      BaseTxGas * 100 < limit ∨
      f64_gt (ConvertGasToTokens (u64 (limit * gasPrice))) MaxTotalFee = true
  end.
Proof.
  unfold Tx.NewTransaction. destruct (gasPrice <? MinGasPrice) eqn:Hp; [left; lia|].
  cbv zeta. set (limit := if gasLimit =? 0 then DefaultGasLimit else gasLimit). cbn [GasFee Tx.set_GasFee GasLimit GasPrice].
  destruct (f64_gt _ MaxTotalFee) eqn:Hfee; [by do 4 right|].
  destruct (Tx.ValidateGas _) as [e|] eqn:Hg.
  - revert Hg. unfold Tx.ValidateGas. cbn [GasLimit GasPrice Tx.set_GasFee]. rewrite Hfee, Hp.
    destruct (_ || _) eqn:E1; [rewrite orb_true_iff in E1; lia|].
    destruct (gasPrice >? _) eqn:E2; [lia|done].
  - split_and!; [exact Hg|reflexivity..| | | | |exact Hfee];
      revert Hg; unfold Tx.ValidateGas; cbn [GasLimit GasPrice Tx.set_GasFee Tx.set_TransactionID];
      rewrite Hp; destruct (_ || _) eqn:E1; try done; rewrite orb_false_iff in E1;
      destruct (gasPrice >? _) eqn:E2; try done; lia.
Qed.
