(* ===== verification/Wallet.v ===== *)
(** * Wallets ([wallet.go], [wallet_utils.go], [hd_wallet.go],
      [multi_sig_wallet.go]) and multi-signature transactions

    Files are not modelled: the BIP-39 word list that
    [LoadBIP39Wordlist] reads is an argument, as is the nonce of a signature. *)

From stdpp Require Import base gmap strings list.
From Stdlib Require Import ZArith Ascii Lia.
From S2P Require Import Prelude.
From S2P Require Import Float64.
From S2P Require Import Sha256.
From S2P Require Import P256.
From S2P Require Import Crypto.
From S2P Require Import Transaction.

(** ** The string functions of the mnemonic code (ASCII white space) *)
Definition is_space (c : ascii) : bool :=
  let n := byte_of_ascii c in (n =? 32) || (9 <=? n) && (n <=? 13).

Fixpoint trim_left (s : string) : string :=
  match s with
  | EmptyString => ""
  | String c s' => if is_space c then trim_left s' else s
  end.
Fixpoint srev (acc s : string) : string :=
  match s with EmptyString => acc | String c s => srev (String c acc) s end.

(** [strings.TrimSpace] *)
Definition trim_space (s : string) : string := srev "" (trim_left (srev "" (trim_left s))).

(** [strings.ReplaceAll(s, c, "")] for a one-byte [c] *)
Fixpoint remove_char (c : ascii) (s : string) : string :=
  match s with
  | EmptyString => ""
  | String d s => if Ascii.eqb c d then remove_char c s else String d (remove_char c s)
  end.

(** [strings.Fields]: [word] is the word being read, reversed. *)
Fixpoint fields_from (word : string) (s : string) : list string :=
  match s with
  | EmptyString => if str_eqb word "" then [] else [srev "" word]
  | String c s =>
      if is_space c then
        if str_eqb word "" then fields_from "" s else srev "" word :: fields_from "" s
      else fields_from (String c word) s
  end.
Definition fields (s : string) : list string := fields_from "" s.

Record Wallet := mkWallet {
  w_PrivateKey : PrivateKey;
  w_PublicKey : PublicKey;
  w_Address : string;
  w_PrivateKeyBytes : bytes;
  w_PublicKeyBytes : bytes;
  w_Mnemonic : string;
}.

Section wallet.
Context `{ECDSA}.

(** ** wallet_utils.go *)
Definition RecoverFromMnemonic (wordlist : result (list string)) (mnemonic : string)
    : result PrivateKey :=
  let mnemonic := remove_char "013" mnemonic in
  let mnemonic := trim_space mnemonic in
  match wordlist with
  | Err e => Err e
  | Ok wordlist =>
      let words_ok := filter (λ w, w ≠ "") (trim_space <$> wordlist) in
      let words := fields mnemonic in
      let n := length words in
      if negb (n =? 12)%nat && negb (n =? 24)%nat then Err "mnemonic must have 12 or 24 words"
      else match filter (λ w, w ∉ words_ok) words with
      | w :: _ => Err ("invalid mnemonic word: " +:+ w)
      | [] =>
          let hash := sha256 (bytes_of_string mnemonic) in
          let D := big_SetBytes hash in
          let '(x, y) := ScalarBaseMult (big_Bytes D) in
          Ok (mkPrivateKey D (mkPublicKey x y))
      end
  end.

(** ** wallet.go *)
Definition wallet_of (privateKey : PrivateKey) (mnemonic : string) : outcome Wallet :=
  let publicKey := sk_PublicKey privateKey in
  let! kb := serializeKeys privateKey publicKey in
  let address := GenerateAddress publicKey in
  Done (mkWallet privateKey publicKey address kb.1 kb.2 mnemonic).

Definition NewWalletFromPrivateKeyAndMnemonic (privateKey : option PrivateKey) (mnemonic : string)
    : outcome (result Wallet) :=
  match privateKey with
  | None => Done (Err "invalid private key or mnemonic")
  | Some privateKey =>
      if (String.length mnemonic =? 0)%nat then Done (Err "invalid private key or mnemonic")
      else let! w := wallet_of privateKey mnemonic in Done (Ok w)
  end.

Definition NewWalletFromPrivateKey (privateKey : PrivateKey) : outcome Wallet :=
  wallet_of privateKey "".

Definition RecoverWalletFromMnemonic (wordlist : result (list string)) (mnemonic : string)
    : outcome (result Wallet) :=
  match RecoverFromMnemonic wordlist mnemonic with
  | Err e => Done (Err ("failed to recover wallet from mnemonic: " +:+ e))
  | Ok privateKey => let! w := wallet_of privateKey mnemonic in Done (Ok w)
  end.

Definition SignTransaction (nonce : result Z) (w : Wallet) (tx : Transaction)
    : outcome (Wallet * Transaction * error) :=
  let txHash := Tx.Hash tx in
  let! w :=
    if (length (w_PublicKeyBytes w) =? 0)%nat then
      let! kb := serializeKeys (w_PrivateKey w) (w_PublicKey w) in
      Done (mkWallet (w_PrivateKey w) (w_PublicKey w) (w_Address w) (w_PrivateKeyBytes w) kb.2
              (w_Mnemonic w))
    else Done w in
  let tx := Tx.set_signature tx (Signature tx) (w_PublicKeyBytes w) in
  match SignMessage nonce (w_PrivateKey w) txHash with
  | Err e => Done (w, tx, Some ("failed to sign transaction: " +:+ e))
  | Ok signature => Done (w, Tx.set_signature tx signature (SenderPubKey tx), None)
  end.

Definition VerifyTransaction (w : Wallet) (tx : Transaction) : outcome bool :=
  Crypto.VerifySignature (Some (w_PublicKey w)) (Tx.Hash tx) (Signature tx).

(** ** hd_wallet.go *)
Record HDWallet := mkHDWallet {
  hd_MasterKey : PrivateKey;
  hd_Mnemonic : string;
  hd_ChildKeys : list PrivateKey;
  hd_Addresses : list string;
}.

Definition CreateHDWallet (wordlist : result (list string)) (mnemonic : string) (numKeys : nat)
    : result HDWallet :=
  match RecoverFromMnemonic wordlist mnemonic with
  | Err e => Err ("failed to generate master key: " +:+ e)
  | Ok masterKey =>
      let keys := (λ i, DeriveChildKeyFromMaster masterKey (u32 (Z.of_nat i))) <$> seq 0 numKeys in
      Ok (mkHDWallet masterKey mnemonic keys
            ((λ k, GenerateAddressFromPublicKey (sk_PublicKey k)) <$> keys))
  end.

Definition SignTransactionWithChildKey (nonce : result Z) (w : HDWallet) (tx : Transaction)
    (index : Z) : outcome (Transaction * error) :=
  if index >=? Z.of_nat (length (hd_ChildKeys w)) then Done (tx, Some "invalid child key index")
  else if index <? 0 then Panic "index out of range"
  else match hd_ChildKeys w !! Z.to_nat index with
  | None => Panic "index out of range"
  | Some childKey =>
      match SignMessage nonce childKey (Tx.Hash tx) with
      | Err e => Done (tx, Some ("failed to sign transaction: " +:+ e))
      | Ok signature => Done (Tx.set_signature tx signature (SenderPubKey tx), None)
      end
  end.

(** ** Multi-signature wallets and transactions *)
Record MultiSigTransaction := mkMultiSigTransaction {
  ms_Transaction : Transaction;
  ms_Signatures : gmap string string;
}.

Definition AddSignature (tx : MultiSigTransaction) (address signature : string)
    : MultiSigTransaction * error :=
  match ms_Signatures tx !! address with
  | Some _ => (tx, Some ("signature from " +:+ address +:+ " already exists"))
  | None =>
      (mkMultiSigTransaction (ms_Transaction tx) (<[address := signature]> (ms_Signatures tx)), None)
  end.

Record MultiSigwWallet := mkMultiSigwWallet {
  msw_Owners : list string;
  msw_RequiredSigs : Z;
  msw_Balance : float64;
  msw_PublicKeyMap : key_table;
  msw_Address : string;
}.

Definition NewMultiSigWallet (owners : list string) (requiredSigs : Z) (publicKeyMap : key_table)
    : outcome (result MultiSigwWallet) :=
  if (length owners =? 0)%nat then Done (Err "owners list cannot be empty")
  else if (requiredSigs <=? 0) || (requiredSigs >? Z.of_nat (length owners)) then
    Done (Err "invalid number of required signatures")
  else
    let! address := GenerateMultiSigAddress publicKeyMap in
    Done (Ok (mkMultiSigwWallet owners requiredSigs f64_zero publicKeyMap address)).

Definition AddFunds (msw : MultiSigwWallet) (amount : float64) : MultiSigwWallet :=
  mkMultiSigwWallet (msw_Owners msw) (msw_RequiredSigs msw) (f64_add (msw_Balance msw) amount)
    (msw_PublicKeyMap msw) (msw_Address msw).

Definition DeductFunds (msw : MultiSigwWallet) (amount : float64) : MultiSigwWallet * error :=
  if f64_lt (msw_Balance msw) amount then (msw, Some "insufficient funds")
  else (mkMultiSigwWallet (msw_Owners msw) (msw_RequiredSigs msw)
          (f64_sub (msw_Balance msw) amount) (msw_PublicKeyMap msw) (msw_Address msw), None).

Definition AdjustSignatureThreshold (msw : MultiSigwWallet) (newThreshold : Z)
    : MultiSigwWallet * error :=
  if (newThreshold <=? 0) || (newThreshold >? Z.of_nat (length (msw_Owners msw))) then
    (msw, Some "invalid signature threshold")
  else (mkMultiSigwWallet (msw_Owners msw) newThreshold (msw_Balance msw)
          (msw_PublicKeyMap msw) (msw_Address msw), None).

Definition ReplaceOwnerKey (wordlist : result (list string)) (msw : MultiSigwWallet)
    (oldOwner mnemonic : string) (newKey : option PublicKey) : MultiSigwWallet * error :=
  match msw_PublicKeyMap msw !! oldOwner with
  | None => (msw, Some ("owner " +:+ oldOwner +:+ " not found"))
  | Some _ =>
      match RecoverFromMnemonic wordlist mnemonic with
      | Err e => (msw, Some ("failed to recover private key from mnemonic: " +:+ e))
      | Ok masterKey =>
          if negb (str_eqb (GenerateAddress (sk_PublicKey masterKey)) oldOwner) then
            (msw, Some "recovered key does not match owner address")
          else
            (mkMultiSigwWallet (msw_Owners msw) (msw_RequiredSigs msw) (msw_Balance msw)
               (<[oldOwner := newKey]> (msw_PublicKeyMap msw)) (msw_Address msw), None)
      end
  end.

(** One signature of the range loop of [ValidateSignatures]. *)
Definition sig_ok (tx : MultiSigTransaction) (publicKeyMap : key_table) (e : string * string) : bool :=
  match mjoin (publicKeyMap !! e.1) with
  | None => false
  | Some publicKey =>
      match Crypto.VerifySignature (Some publicKey) (Tx.Hash (ms_Transaction tx)) e.2 with
      | Done b => b
      | _ => false
      end
  end.

Definition ValidateSignatures (ro : range_order) (tx : MultiSigTransaction) (msw : MultiSigwWallet)
    (publicKeyMap : key_table) : bool :=
  let validSigs := foldl (λ n e, if sig_ok tx publicKeyMap e then n + 1 else n) 0
                     (range ro (ms_Signatures tx)) in
  validSigs >=? msw_RequiredSigs msw.

Definition ExecuteTransaction (ro : range_order) (msw : MultiSigwWallet) (tx : MultiSigTransaction)
    (publicKeyMap : key_table) : MultiSigwWallet * error :=
  if negb (ValidateSignatures ro tx msw publicKeyMap) then
    (msw, Some "transaction validation failed due to insufficient or invalid signatures")
  else match DeductFunds msw (Amount (ms_Transaction tx)) with
  | (msw, Some e) => (msw, Some ("failed to deduct funds: " +:+ e))
  | (msw, None) => (msw, None)
  end.

End wallet.
