(* ===== verification/WalletFacts.v ===== *)
(** * Correctness of wallets and multi-signature transactions *)

From stdpp Require Import base gmap strings list.
From Stdlib Require Import ZArith Ascii Lia.
From S2P Require Import Prelude.
From S2P Require Import Float64.
From S2P Require Import Sha256.
From S2P Require Import Gas.
From S2P Require Import P256.
From S2P Require Import Crypto.
From S2P Require Import Transaction.
From S2P Require Import Wallet.

Section wallet_facts.
Context `{ECDSA}.

(** A signature of the transaction's hash that verifies under the key which is given
    for the address that it stands under. *)
Definition signs (tx : MultiSigTransaction) (keys : key_table) (e : string * string) : Prop :=
  ∃ pk, keys !! e.1 = Some (Some pk) ∧ Crypto.VerifySignature (Some pk) (Tx.Hash (ms_Transaction tx)) e.2 = Done true.

Lemma sig_ok_signs tx keys e : sig_ok tx keys e = true ↔ signs tx keys e.
Proof.
  unfold sig_ok, signs. destruct (keys !! e.1) as [[pk|]|]; cbn; [|split; [done|by intros (? & ? & _)]..]. split.
  - destruct (VerifySignature _ _ _) as [b| |] eqn:E; [|done..]. intros ->. by exists pk.
  - intros (pk' & Hk & E). injection Hk as ->. by rewrite E.
Qed.

#[global] Instance signs_dec tx keys e : Decision (signs tx keys e).
Proof. refine (cast_if (decide (sig_ok tx keys e = true))); by rewrite <-sig_ok_signs. Defined.

Definition valid_signers (tx : MultiSigTransaction) (keys : key_table) : gmap string string :=
  filter (signs tx keys) (ms_Signatures tx).

Lemma valid_signers_count tx keys ro : fair ro →
  length (filter (sig_ok tx keys) (range ro (ms_Signatures tx))) = size (valid_signers tx keys).
Proof.
  intros Hro. rewrite (range_perm _ _ Hro), <-length_map_to_list. unfold valid_signers.
  rewrite map_filter_alt, map_to_list_to_map; [f_equal; apply list_filter_iff; intros e; rewrite <-sig_ok_signs; by destruct (sig_ok tx keys e)|].
  eapply sublist_NoDup; [apply (NoDup_fst_map_to_list (ms_Signatures tx))|].
  apply fmap_sublist, sublist_filter.
Qed.

(** C39 A multi-signature transaction is executed exactly when the number of
    distinct addresses whose signature of its hash verifies under the key given for
    them reaches the wallet's threshold and the balance is not below the amount,
    whatever order the signatures are visited in; then only the balance changes, by
    the amount. In every other case the wallet is left as it was and there is an
    error. The list of the owners plays no part. *)
Theorem ExecuteTransaction_spec (ro : range_order) (msw : MultiSigwWallet)
    (tx : MultiSigTransaction) (keys : key_table) :
  fair ro →
  let amount := Amount (ms_Transaction tx) in
  let quorum := msw_RequiredSigs msw <=? Z.of_nat (size (valid_signers tx keys)) in
  if quorum && negb (f64_lt (msw_Balance msw) amount) then
    ExecuteTransaction ro msw tx keys =
      (mkMultiSigwWallet (msw_Owners msw) (msw_RequiredSigs msw)
        (f64_sub (msw_Balance msw) amount) (msw_PublicKeyMap msw) (msw_Address msw), None)
  else ∃ e, ExecuteTransaction ro msw tx keys = (msw, Some e).
Proof.
  intros Hro amount quorum. unfold ExecuteTransaction, ValidateSignatures.
  rewrite count_foldl, Z.add_0_l, valid_signers_count by done. rewrite Z.geb_leb. fold quorum.
  unfold DeductFunds. fold amount. destruct quorum; simpl; [|eauto].
  destruct (f64_lt _ _); simpl; eauto.
Qed.

Lemma VerifySignature_Done pub message sig : ∃ b, VerifySignature (Some pub) message sig = Done b.
Proof.
  unfold VerifySignature. destruct (hex_decode sig); [|eauto]. unfold ecdsa_Verify.
  repeat case_match; eauto.
Qed.

Lemma wallet_of_spec priv m : key_pair priv →
  ∃ w, wallet_of priv m = Done w ∧ w_PrivateKey w = priv ∧ w_PublicKey w = sk_PublicKey priv ∧
    w_Address w = GenerateAddress (sk_PublicKey priv) ∧ length (w_PublicKeyBytes w) = 64%nat ∧
    big_SetBytes (take 32 (w_PublicKeyBytes w)) = pk_X (sk_PublicKey priv) ∧
    big_SetBytes (drop 32 (w_PublicKeyBytes w)) = pk_Y (sk_PublicKey priv).
Proof.
  intros Hk. pose proof (key_pair_on_curve _ Hk) as Hc.
  destruct (IsOnCurve_range _ _ Hc) as [Hx Hy].
  destruct (pad32_value _ Hx) as (bx & Ex & Lx & Vx).
  destruct (pad32_value _ Hy) as (by_ & Ey & Ly & Vy).
  unfold wallet_of, serializeKeys. rewrite Ex, Ey. simpl.
  eexists. split_and!; [done|done|done|done|..]; simpl.
  - rewrite length_app. lia.
  - by rewrite take_app_length'.
  - by rewrite drop_app_length'.
Qed.

(** The branch of the check that uses the public key in the transaction. *)
Lemma VerifySignature_embedded tbl tx pub :
  Tx.is_system tx = false → length (SenderPubKey tx) = 64%nat →
  big_SetBytes (take 32 (SenderPubKey tx)) = pk_X pub →
  big_SetBytes (drop 32 (SenderPubKey tx)) = pk_Y pub →
  IsOnCurve (pk_X pub) (pk_Y pub) = true → Sender tx = GenerateAddress pub →
  Tx.VerifySignature tbl tx = Crypto.VerifySignature (Some pub) (Tx.Hash tx) (Signature tx).
Proof.
  intros Hsys Hl Hx Hy Hc Hs. unfold Tx.VerifySignature, ecdh_NewPublicKey.
  fold (Tx.is_system tx). rewrite Hsys, Hl. fold (big_SetBytes (take 32 (SenderPubKey tx))).
  fold (big_SetBytes (drop 32 (SenderPubKey tx))). rewrite Hx, Hy, Hc, Hs.
  rewrite str_eqb_refl. by destruct pub as [x y].
Qed.

(** A transaction that a wallet signs passes the node's signature check: the
    embedded public key is on the curve, derives the sender's address and
    verifies the signature (when the two signature components have the same
    length). *)
Theorem signed_transaction_verifies (k : Z) (priv : PrivateKey) (mnemonic : string)
    (tbl : key_table) (tx : Transaction) :
  key_pair priv →
  Tx.is_system tx = false →
  Sender tx = GenerateAddress (sk_PublicKey priv) →
  (let '(r, s) := ecdsa_sign k priv (sha256 (bytes_of_string (Tx.Hash tx))) in
   big_len r = big_len s) →
  ∃ w tx', wallet_of priv mnemonic = Done w ∧ SignTransaction (Ok k) w tx = Done (w, tx', None) ∧
    Tx.VerifySignature tbl tx' = Done true.
Proof.
  intros Hk Hsys Hsender Hlen.
  destruct (wallet_of_spec priv mnemonic Hk) as (w & Hw & Hpriv & Hpub & Haddr & Hl & Hvx & Hvy).
  assert (∃ sig, SignMessage (Ok k) priv (Tx.Hash tx) = Ok sig ∧
    Crypto.VerifySignature (Some (sk_PublicKey priv)) (Tx.Hash tx) sig = Done true)
    as (sig & Hsig & Hver).
  { destruct (SignMessage (Ok k) priv (Tx.Hash tx)) as [sig|e] eqn:Hs.
    - exists sig. split; [done|]. pose proof (Verify_SignMessage _ _ _ _ Hs) as Hv.
      cbv zeta in Hv. destruct (ecdsa_sign k priv _) as [r s] eqn:Hrs.
      rewrite Hv. eapply split_verifies; eauto.
    - exfalso. revert Hs. unfold SignMessage. by destruct (ecdsa_sign k priv _). }
  eexists w, _. split; [done|]. split.
  { unfold SignTransaction. rewrite Hl. cbn [Nat.eqb obind]. rewrite Hpriv, Hsig. done. }
  rewrite (VerifySignature_embedded tbl _ (sk_PublicKey priv)); try done.
  by apply key_pair_on_curve.
Qed.

(** The signature of a transaction covers neither its inputs nor its outputs:
    replacing them leaves the result of the check as it was. *)
Theorem signature_ignores_inputs_outputs (tbl : key_table) (tx : Transaction)
    (ins : list TransactionInput) (outs : list TransactionOutput) :
  Tx.VerifySignature tbl (Tx.set_io tx ins outs) = Tx.VerifySignature tbl tx
  ∧ Tx.Hash (Tx.set_io tx ins outs) = Tx.Hash tx.
Proof. split; reflexivity. Qed.

End wallet_facts.

(** ** Concrete instances *)
Lemma fair_id : fair (λ l, l).
Proof. by intros l. Qed.

Definition toy_tx (sender : string) : Transaction :=
  mkTransaction "t" sender "sup1" (f64_of_Z 3) 0 0 f64_zero [] [] TX_REGULAR 21000 20 0 1 40 [] "" [].

Definition toy_sig (message : string) : string :=
  match SignMessage (Ok (2 ^ 254)) toy_key message with Ok s => s | Err _ => "" end.

(** Two of three signatures are valid and the threshold is two. *)
Definition toy_ms : MultiSigTransaction :=
  let s := toy_sig (Tx.Hash (toy_tx "m")) in
  mkMultiSigTransaction (toy_tx "m") {[ "a" := s; "b" := s; "c" := "00" ]}.
Definition toy_keys : key_table :=
  {[ "a" := Some (sk_PublicKey toy_key); "b" := Some (sk_PublicKey toy_key); "c" := None ]}.
Definition toy_msw : MultiSigwWallet :=
  mkMultiSigwWallet ["a"; "b"; "c"] 2 (f64_of_Z 10) toy_keys "sup".

Lemma ExecuteTransaction_spec_witness :
  ∃ m, ExecuteTransaction (λ l, l) toy_msw toy_ms toy_keys = (m, None) ∧ msw_Balance m = f64_of_Z 7.
Proof.
  pose proof (ExecuteTransaction_spec (λ l, l) toy_msw toy_ms toy_keys fair_id) as H.
  assert ((msw_RequiredSigs toy_msw <=? Z.of_nat (size (valid_signers toy_ms toy_keys)))
          && negb (f64_lt (msw_Balance toy_msw) (Amount (ms_Transaction toy_ms))) = true) as Hc
    by (vm_compute; reflexivity).
  cbv zeta in H. rewrite Hc in H. eexists. split; [exact H|]. vm_compute. reflexivity.
Defined.

Lemma signed_transaction_verifies_witness :
  ∃ w tx', wallet_of toy_key "abandon" = Done w ∧
    SignTransaction (Ok (2 ^ 254)) w (toy_tx (GenerateAddress (sk_PublicKey toy_key)))
      = Done (w, tx', None) ∧
    Tx.VerifySignature ∅ tx' = Done true.
Proof.
  apply (signed_transaction_verifies (2 ^ 254) toy_key "abandon" ∅
    (toy_tx (GenerateAddress (sk_PublicKey toy_key))));
    [apply toy_key_pair|reflexivity|reflexivity|vm_compute; reflexivity].
Defined.
