(* ===== verification/Merkle.v ===== *)
(** * The Merkle tree loop

    The same loop appears in [UTXOPool.CalculateMerkleRoot],
    [generateMerkleProofForChunk], [calculateStateRoot] and
    [calculateMerkleRoot] (utxo.go, block.go): a level of hashes is replaced by
    the hashes of its pairs, the last hash paired with itself when their number
    is odd, until one hash is left. *)

From stdpp Require Import base list strings.
From Stdlib Require Import ZArith Lia.
From S2P Require Import Prelude.
From S2P Require Import Sha256.

(** [sha256.Sum256([]byte(left + right))] in hexadecimal *)
Definition hash_concat (left right : string) : string := sha_hex (left +:+ right).

Fixpoint next_level (hashes : list string) : list string :=
  match hashes with
  | a :: b :: rest => hash_concat a b :: next_level rest
  | [a] => [hash_concat a a]
  | [] => []
  end.

(** [for len(hashes) > 1 { hashes = nextLevel }] *)
Fixpoint merkle_levels (fuel : nat) (hashes : list string) : list string :=
  match fuel with
  | O => hashes
  | S fuel =>
      if (1 <? length hashes)%nat then merkle_levels fuel (next_level hashes) else hashes
  end.

(** The root of a non-empty list of leaves ([hashes[0]] when the loop ends). *)
Definition merkle_root (leaves : list string) : string :=
  default "" (head (merkle_levels (length leaves) leaves)).

(** ** Reference: the tree read from the root

    [node leaves d i] is the node at height [d] and position [i]; the right
    child of the last node of a level may be missing, and the left one is used
    in its place. [width n d] is the number of nodes at height [d]. *)
Definition half (n : nat) : nat := ((n + 1) / 2)%nat.
Fixpoint width (n d : nat) : nat :=
  match d with O => n | S d => half (width n d) end.

Fixpoint node (leaves : list string) (d i : nat) : string :=
  match d with
  | O => default "" (leaves !! i)
  | S d =>
      let right := if (2 * i + 1 <? width (length leaves) d)%nat then (2 * i + 1)%nat else (2 * i)%nat in
      hash_concat (node leaves d (2 * i)) (node leaves d right)
  end.

(** The height of a tree over [n] leaves. *)
Definition height (n : nat) : nat := Nat.log2_up n.

Lemma pair_ind {A} (P : list A → Prop) :
  P [] → (∀ a, P [a]) → (∀ a b l, P l → P (a :: b :: l)) → ∀ l, P l.
Proof.
  intros H0 H1 H2. assert (∀ l, P l ∧ ∀ a, P (a :: l)) as H; [|intros l; apply H].
  induction l as [|a l [IH1 IH2]]; [by auto|]. split; [apply IH2|]. auto.
Qed.

Lemma half_SS n : half (S (S n)) = S (half n).
Proof. unfold half. replace (S (S n) + 1)%nat with (n + 1 + 1 * 2)%nat by lia. rewrite Nat.div_add; lia. Qed.

Lemma length_next_level hs : length (next_level hs) = half (length hs).
Proof. induction hs as [| |a b hs IH] using pair_ind; simpl; [done..|]. by rewrite IH, half_SS. Qed.

Lemma next_level_lookup hs i : (i < half (length hs))%nat →
  next_level hs !! i =
    Some (hash_concat (default "" (hs !! (2 * i)%nat))
      (default "" (hs !! (if (2 * i + 1 <? length hs)%nat then (2 * i + 1)%nat else (2 * i)%nat)))).
Proof.
  revert i. induction hs as [|a|a b hs IH] using pair_ind; intros i Hi.
  - unfold half in Hi. simpl in Hi. lia.
  - assert (i = 0%nat) as -> by (unfold half in Hi; simpl in Hi; lia). done.
  - cbn [length] in Hi. rewrite half_SS in Hi. destruct i as [|i]; [done|].
    cbn [next_level]. change ((hash_concat a b :: next_level hs) !! S i) with (next_level hs !! i).
    rewrite IH by lia. replace (2 * S i)%nat with (S (S (2 * i))) by lia.
    replace (S (S (2 * i)) + 1)%nat with (S (S (2 * i + 1))) by lia. cbn [length].
    change (S (S (2 * i + 1)) <? S (S (length hs)))%nat with (2 * i + 1 <? length hs)%nat.
    by destruct (2 * i + 1 <? length hs)%nat.
Qed.

Definition level (leaves : list string) (d : nat) : list string :=
  Nat.iter d next_level leaves.

Lemma length_level leaves d : length (level leaves d) = width (length leaves) d.
Proof. induction d as [|d IH]; simpl; [done|]. by rewrite length_next_level, IH. Qed.

Lemma half_pos n : (0 < n)%nat → (0 < half n)%nat.
Proof. intros. unfold half. assert (1 ≤ (n + 1) / 2)%nat; [|lia]. apply Nat.div_le_lower_bound; lia. Qed.

Lemma half_le n : (2 * half n ≤ n + 1)%nat ∧ (n ≤ 2 * half n)%nat.
Proof. unfold half. pose proof (Nat.div_mod_eq (n + 1) 2). pose proof (Nat.mod_upper_bound (n + 1) 2). lia. Qed.

Lemma level_lookup leaves d i : (i < width (length leaves) d)%nat →
  level leaves d !! i = Some (node leaves d i).
Proof.
  revert i. induction d as [|d IH]; intros i Hi.
  - simpl in *. destruct (lookup_lt_is_Some_2 leaves i Hi) as [x Hx]. by rewrite Hx.
  - change (level leaves (S d)) with (next_level (level leaves d)).
    rewrite next_level_lookup by (rewrite length_level; exact Hi).
    cbn [width] in Hi. pose proof (half_le (width (length leaves) d)).
    rewrite length_level. cbn [node].
    rewrite IH by lia. simpl. case_match eqn:E; [apply Nat.ltb_lt in E|]; rewrite IH by lia; done.
Qed.

Lemma merkle_levels_iter fuel hs : ∃ k, (k ≤ fuel)%nat ∧
  merkle_levels fuel hs = level hs k ∧ (∀ j, (j < k)%nat → (1 < width (length hs) j)%nat) ∧
  ((k < fuel)%nat → (width (length hs) k ≤ 1)%nat).
Proof.
  revert hs. induction fuel as [|fuel IH]; intros hs.
  { exists 0%nat. split_and!; [lia|done|lia|lia]. }
  cbn [merkle_levels]. destruct (Nat.ltb_spec 1 (length hs)) as [H1|H1].
  - destruct (IH (next_level hs)) as (k & Hk & Heq & Hj & Hend).
    assert (∀ j, width (length (next_level hs)) j = width (length hs) (S j)) as Hw.
    { intros j. rewrite length_next_level. induction j as [|j IHj]; [done|]. cbn [width]. by rewrite IHj. }
    exists (S k). split_and!; [lia| | |].
    + rewrite Heq. unfold level. by rewrite Nat.iter_succ_r.
    + intros [|j] Hlt; [done|]. rewrite <-Hw. apply Hj. lia.
    + intros Hlt. rewrite <-Hw. apply Hend. lia.
  - exists 0%nat. split_and!; [lia|done|lia|]. intros _. simpl. lia.
Qed.

(** The width halves, rounding up: [width n d = ceil (n / 2^d)]. *)
Lemma width_gt n d : (1 < width n d)%nat ↔ (2 ^ d < n)%nat.
Proof.
  assert (∀ c, (c < width n d ↔ c * 2 ^ d < n))%nat as H.
  { induction d as [|d IH]; intros c; simpl; [lia|]. pose proof (half_le (width n d)).
    split; intros Hc.
    - assert (2 * c < width n d)%nat as H2 by lia. apply IH in H2. nia.
    - assert (2 * c < width n d)%nat as H2 by (apply IH; nia). lia. }
  rewrite (H 1%nat). lia.
Qed.

(** The loop ends after [height n] rounds with exactly one hash. *)
Lemma merkle_levels_height leaves : (0 < length leaves)%nat →
  merkle_levels (length leaves) leaves = level leaves (height (length leaves)) ∧
  width (length leaves) (height (length leaves)) = 1%nat.
Proof.
  set (n := length leaves). intros Hn. unfold height.
  destruct (merkle_levels_iter n leaves) as (k & Hk & Heq & Hj & Hend). fold n in Hj, Hend.
  assert (n ≤ 2 ^ Nat.log2_up n)%nat as Hup.
  { destruct (decide (n = 1%nat)) as [->|]; [done|]. apply Nat.log2_up_spec. lia. }
  assert (k = Nat.log2_up n) as ->.
  { destruct (Nat.lt_trichotomy k (Nat.log2_up n)) as [Hlt|[->|Hgt]]; [|done|].
    - assert (2 ^ k < n)%nat as H2.
      { apply Nat.le_lt_trans with (2 ^ Nat.pred (Nat.log2_up n))%nat.
        - apply Nat.pow_le_mono_r; lia.
        - apply Nat.log2_up_spec. destruct (decide (n = 1%nat)) as [E|]; [|lia].
          rewrite E, Nat.log2_up_1 in Hlt. lia. }
      apply width_gt in H2. assert (k < n)%nat as Hkn.
      { pose proof (Nat.pow_gt_lin_r 2 k). apply width_gt in H2. lia. }
      specialize (Hend Hkn). lia.
    - specialize (Hj _ Hgt). apply width_gt in Hj. lia. }
  split; [done|].
  assert (0 < width n (Nat.log2_up n))%nat.
  { clear -Hn. generalize (Nat.log2_up n). intros d. induction d; simpl; [done|]. by apply half_pos. }
  destruct (Nat.lt_ge_cases 1 (width n (Nat.log2_up n))) as [Hw|]; [|lia].
  apply width_gt in Hw. lia.
Qed.

(** The loop computes the root of the reference tree. *)
Lemma merkle_root_node leaves : leaves ≠ [] →
  merkle_root leaves = node leaves (height (length leaves)) 0.
Proof.
  intros Hne. assert (0 < length leaves)%nat as Hn by (destruct leaves; simpl; [done|lia]).
  destruct (merkle_levels_height leaves Hn) as [Heq Hw]. unfold merkle_root. rewrite Heq.
  rewrite head_lookup, level_lookup; [done|]. rewrite Hw. lia.
Qed.

Lemma merkle_root_single a : merkle_root [a] = a.
Proof. done. Qed.

Lemma node_length leaves d i : (0 < d)%nat → String.length (node leaves d i) = 64%nat.
Proof. destruct d as [|d]; [lia|]. intros _. apply length_sha_hex. Qed.

Lemma height_le n : (height n ≤ n)%nat.
Proof. unfold height. apply Nat.log2_up_le_lin. lia. Qed.
