(* ===== verification/Account.v ===== *)
(** * Account states ([account_state.go])

    The account manager keeps a pointer per address; a caller that changes the
    state it got changes the manager's entry, so an in-place change is written
    to [accounts] at once. The database is the one the UTXO pool uses: it is
    passed in and returned by each operation ([None]: a nil database). [now] is
    the Unix time in seconds. *)

From stdpp Require Import base gmap strings list.
From Stdlib Require Import ZArith Lia.
From S2P Require Import Prelude.
From S2P Require Import Float64.
From S2P Require Import Json.
From S2P Require Import Database.

Record AccountState := mkAccountState {
  acc_Address : string;
  acc_Nonce : Z;
  acc_Balance : float64;
  acc_LastActivity : Z;
  acc_UTXOs : option (gmap string string);
  acc_PendingTxs : option (gmap string bool);
}.

Definition NilPointer {A} : outcome A := Panic "invalid memory address or nil pointer dereference".
Definition JsonUnsupported : string := "json: unsupported value".
Definition JsonBadInput : string := "json: cannot unmarshal".

(** ** JSON form *)
Definition marshal_AccountState (s : AccountState) : option json :=
  marshal_struct
    [("address", marshal_string (acc_Address s));
     ("nonce", marshal_int (acc_Nonce s));
     ("balance", marshal_float (acc_Balance s));
     ("last_activity", marshal_int (acc_LastActivity s));
     ("utxos", marshal_map marshal_string (acc_UTXOs s));
     ("pending_txs", marshal_map marshal_bool (acc_PendingTxs s))].

Definition read_AccountState (j : json) : option AccountState :=
  match j with
  | JNull => Some (mkAccountState "" 0 f64_zero 0 None None)
  | JObj _ =>
      a ← read_field read_string "" j "address";
      n ← read_field read_int 0 j "nonce";
      b ← read_field read_float f64_zero j "balance";
      l ← read_field read_int 0 j "last_activity";
      u ← read_field (read_map read_string None) None j "utxos";
      p ← read_field (read_map read_bool None) None j "pending_txs";
      Some (mkAccountState a n b l u p)
  | _ => None
  end.

Section account.
Context {K : KV}.

(** A [db.Database] value: nil or a LevelDB instance. *)
Definition Database : Type := option levelDB.t.

Definition db_Put (db : Database) (k : string) (v : dbval) : outcome (Database * error) :=
  match db with
  | None => NilPointer
  | Some ldb => let '(ldb, e) := levelDB.Put ldb k v in Done (Some ldb, e)
  end.

Definition db_Get (db : Database) (k : string) : outcome (result dbval) :=
  match db with
  | None => NilPointer
  | Some ldb => Done (levelDB.Get ldb k)
  end.

Record AccountManager := mkAccountManager {
  accounts : gmap string AccountState;
  cache_balances : gmap string float64;
  cache_lastUpdated : gmap string Z;
}.

(** [maxAge]: five minutes *)
Definition maxAge_seconds : Z := 300.

Definition NewAccountManager : AccountManager := mkAccountManager ∅ ∅ ∅.

Definition set_account (am : AccountManager) (addr : string) (s : AccountState) : AccountManager :=
  mkAccountManager (<[addr := s]> (accounts am)) (cache_balances am) (cache_lastUpdated am).

Definition saveAccountState (db : Database) (state : AccountState) : outcome (Database * error) :=
  match marshal_AccountState state with
  | None => Done (db, Some JsonUnsupported)
  | Some data => db_Put db ("acc:" +:+ acc_Address state) (DJson data)
  end.

Definition loadAccountState (db : Database) (address : string) : outcome (result AccountState) :=
  let! r := db_Get db ("acc:" +:+ address) in
  match r with
  | Err e => Done (Err e)
  | Ok data =>
      match document data with
      | None => Done (Err JsonBadInput)
      | Some j =>
          match read_AccountState j with
          | None => Done (Err JsonBadInput)
          | Some s => Done (Ok s)
          end
      end
  end.

Definition fresh_account (address : string) : AccountState :=
  mkAccountState address 0 f64_zero 0 (Some ∅) (Some ∅).

(** The error of the source is always nil, and so is left out. *)
Definition GetAccountState (am : AccountManager) (db : Database) (address : string)
    : outcome (AccountManager * Database * AccountState) :=
  match accounts am !! address with
  | Some state => Done (am, db, state)
  | None =>
      let! r := loadAccountState db address in
      match r with
      | Ok state => Done (set_account am address state, db, state)
      | Err _ =>
          let state := fresh_account address in
          let! (db, _) := saveAccountState db state in
          Done (set_account am address state, db, state)
      end
  end.

Definition UpdateNonce (now : Z) (am : AccountManager) (db : Database) (address : string)
    : outcome (AccountManager * Database * result Z) :=
  let! (am, db, state) := GetAccountState am db address in
  let state := mkAccountState (acc_Address state) (u64 (acc_Nonce state + 1)) (acc_Balance state)
    now (acc_UTXOs state) (acc_PendingTxs state) in
  let am := set_account am address state in
  let! (db, e) := saveAccountState db state in
  match e with
  | Some e => Done (am, db, Err e)
  | None => Done (am, db, Ok (acc_Nonce state))
  end.

Definition ValidateNonce (am : AccountManager) (db : Database) (address : string) (nonce : Z)
    : outcome (AccountManager * Database * bool) :=
  let! (am, db, state) := GetAccountState am db address in
  Done (am, db, nonce =? u64 (acc_Nonce state + 1)).

(** One entry of the loop of [BatchUpdateAccounts]; the error of [batch.Put] is
    dropped by the source. *)
Definition batch_step (now : Z) (acc : AccountManager * list batch_op * error)
    (entry : string * AccountState) : AccountManager * list batch_op * error :=
  match acc with
  | (am, ops, Some e) => (am, ops, Some e)
  | (am, ops, None) =>
      let '(addr, state) := entry in
      match marshal_AccountState state with
      | None => (am, ops, Some JsonUnsupported)
      | Some data =>
          (mkAccountManager (<[addr := state]> (accounts am))
             (<[addr := acc_Balance state]> (cache_balances am))
             (<[addr := now]> (cache_lastUpdated am)),
           (levelDB.batch_Put ops ("acc:" +:+ addr) (DJson data)).1, None)
      end
  end.

Definition BatchUpdateAccounts (ro : range_order) (now : Z) (am : AccountManager) (db : Database)
    (updates : gmap string AccountState) : outcome (AccountManager * Database * error) :=
  match db with
  | None => NilPointer
  | Some ldb =>
      match foldl (batch_step now) (am, [], None) (range ro updates) with
      | (am, _, Some e) => Done (am, db, Some e)
      | (am, ops, None) =>
          let '(ldb, e) := levelDB.batch_Write ldb ops in Done (am, Some ldb, e)
      end
  end.

(** The cache of balances; [now_ns] is the time in nanoseconds. *)
Definition cache_GetBalance (now_ns : Z) (am : AccountManager) (address : string)
    : float64 * bool :=
  match cache_lastUpdated am !! address with
  | None => (f64_zero, false)
  | Some lastUpdate =>
      if now_ns - lastUpdate * 10 ^ 9 >? maxAge_seconds * 10 ^ 9 then (f64_zero, false)
      else match cache_balances am !! address with
      | Some balance => (balance, true)
      | None => (f64_zero, false)
      end
  end.

(** One tick of [periodicStateUpdate]: inactive accounts are saved. *)
Definition periodicStateUpdate_tick (ro : range_order) (now_ns : Z) (am : AccountManager)
    (db : Database) : outcome Database :=
  foldl (λ acc e,
    let! db := acc in
    if now_ns - acc_LastActivity e.2 * 10 ^ 9 >? 3600 * 10 ^ 9 then
      let! (db, _) := saveAccountState db e.2 in Done db
    else Done db) (Done db) (range ro (accounts am)).

(** One tick of [periodicCacheCleanup]. *)
Definition periodicCacheCleanup_tick (ro : range_order) (now : Z) (am : AccountManager)
    : AccountManager :=
  foldl (λ am e,
    if now - e.2 >? maxAge_seconds then
      mkAccountManager (accounts am) (delete e.1 (cache_balances am)) (delete e.1 (cache_lastUpdated am))
    else am) am (range ro (cache_lastUpdated am)).

End account.

(** ** JSON round trip *)
Definition strings_valid (m : option (gmap string string)) : Prop :=
  ∀ u, m = Some u → ∀ k v, u !! k = Some v → utf8_valid k = true ∧ utf8_valid v = true.

(** What JSON keeps of an account: finite balance, valid strings. *)
Definition account_storable (s : AccountState) : Prop :=
  utf8_valid (acc_Address s) = true ∧ f64_is_finite (acc_Balance s) = true ∧
  strings_valid (acc_UTXOs s) ∧
  (∀ u, acc_PendingTxs s = Some u → ∀ k v, u !! k = Some v → utf8_valid k = true).

Lemma mapM_ne_None {A B} (f : A → option B) l : (∀ x, x ∈ l → is_Some (f x)) → is_Some (mapM f l).
Proof.
  induction l as [|x l IH]; intros Hl; simpl; [eauto|].
  destruct (Hl x) as [y Hy]; [apply elem_of_cons; by left|].
  destruct IH as [k Hk]; [intros z Hz; apply Hl, elem_of_cons; by right|].
  rewrite Hy. simpl. rewrite Hk. simpl. eauto.
Qed.

Lemma marshal_map_Some {V} (enc : V → option json) (m : option (gmap string V)) :
  (∀ u, m = Some u → ∀ k v, u !! k = Some v → is_Some (enc v)) → is_Some (marshal_map enc m).
Proof.
  intros Hm. destruct m as [m|]; simpl; [|eauto]. apply fmap_is_Some, mapM_ne_None.
  intros k Hk. rewrite sort_strings_perm in Hk. apply map_keys_lookup in Hk as [v Hv].
  rewrite Hv. simpl. destruct (Hm m eq_refl k v Hv) as [j Hj]. rewrite Hj. simpl. eauto.
Qed.

(** A map field written by [marshal_map] is read back. *)
Lemma read_map_field {V} (enc : V → option json) (dec : json → option V) (m : option (gmap string V)) j :
  (∀ u, m = Some u → ∀ k v, u !! k = Some v →
     json_text k = k ∧ ∀ j, enc v = Some j → dec j = Some v) →
  marshal_map enc m = Some j →
  match j with JNull => Some None | _ => read_map dec None j end = Some m.
Proof.
  intros Hm Hj. destruct m as [m|].
  - assert (j ≠ JNull) as Hn.
    { intros ->. unfold marshal_map in Hj. apply fmap_Some in Hj as (? & _ & Hx). done. }
    pose proof (map_round_trip enc dec m j (Hm m eq_refl) Hj ∅) as Hr.
    rewrite (right_id_L ∅ (∪)) in Hr. destruct j; try done; exact Hr.
  - simpl in Hj. by simplify_eq.
Qed.

Lemma read_marshal_AccountState s j : account_storable s → marshal_AccountState s = Some j →
  read_AccountState j = Some s.
Proof.
  intros (Ha & Hb & Hu & Hp) Hj. unfold marshal_AccountState, marshal_struct in Hj.
  unfold marshal_float in Hj. rewrite Hb in Hj. cbn in Hj. unfold marshal_string in Hj.
  rewrite (utf8_valid_text _ Ha) in Hj.
  destruct (marshal_map _ (acc_UTXOs s)) as [ju|] eqn:Eu; [|done].
  destruct (marshal_map _ (acc_PendingTxs s)) as [jp|] eqn:Ep; [|done].
  cbn in Hj. injection Hj as <-.
  apply (read_map_field _ read_string) in Eu.
  2: { intros u Heq k v Hv. destruct (Hu u Heq k v Hv) as [Hk Hv']. apply utf8_valid_text in Hk, Hv'.
       split; [done|]. intros j. unfold marshal_string. rewrite Hv'. by intros [= <-]. }
  apply (read_map_field _ read_bool) in Ep.
  2: { intros u Heq k v Hv. split; [by apply utf8_valid_text, (Hp u Heq k v)|]. by intros j [= <-]. }
  unfold read_AccountState. read_fields_of. cbn. cbn in Eu, Ep. rewrite Eu. cbn. rewrite Ep. cbn.
  by destruct s.
Qed.

(** ** Nonces *)
Section nonce_facts.
Context {K : KV}.

(** Every loaded account is filed under its own address and can be stored. *)
Definition accounts_ok (am : AccountManager) : Prop :=
  map_Forall (λ a s, acc_Address s = a ∧ account_storable s) (accounts am).

Lemma saveAccountState_get db s db' : account_storable s →
  saveAccountState db s = Done (db', None) →
  loadAccountState db' (acc_Address s) = Done (Ok s).
Proof.
  intros Hs. unfold saveAccountState.
  destruct (marshal_AccountState s) as [data|] eqn:Hm; [|done]. unfold db_Put.
  destruct db as [ldb|]; [|done]. destruct (levelDB.Put ldb _ _) as [ldb' e] eqn:Hp.
  intros [= <- ->]. unfold loadAccountState, db_Get. simpl.
  rewrite (levelDB.Get_Put _ _ _ _ _ Hp), str_eqb_refl. simpl.
  by rewrite (read_marshal_AccountState _ _ Hs Hm).
Qed.

Lemma GetAccountState_loaded am db a s : accounts am !! a = Some s →
  GetAccountState am db a = Done (am, db, s).
Proof. intros Ha. unfold GetAccountState. by rewrite Ha. Qed.

Lemma ValidateNonce_loaded am db a s n : accounts am !! a = Some s →
  ValidateNonce am db a n = Done (am, db, n =? u64 (acc_Nonce s + 1)).
Proof. intros Ha. unfold ValidateNonce. by rewrite (GetAccountState_loaded _ _ _ _ Ha). Qed.

(** When [UpdateNonce] succeeds, the account's nonce is the old one plus one,
    the number just used is refused and the next one accepted, and a manager
    started afresh on the same database reads the new nonce back. *)
Theorem UpdateNonce_persists (now : Z) (am am' : AccountManager) (db db' : Database)
    (a : string) (s : AccountState) (n : Z) :
  accounts_ok am → accounts am !! a = Some s → 0 ≤ acc_Nonce s < 2 ^ 64 - 2 →
  UpdateNonce now am db a = Done (am', db', Ok n) →
  n = acc_Nonce s + 1 ∧
  ValidateNonce am db a n = Done (am, db, true) ∧
  ValidateNonce am' db' a n = Done (am', db', false) ∧
  ValidateNonce am' db' a (n + 1) = Done (am', db', true) ∧
  ∃ s', acc_Nonce s' = n ∧
    GetAccountState NewAccountManager db' a = Done (set_account NewAccountManager a s', db', s').
Proof.
  intros Hok Ha Hn H. destruct (Hok a s Ha) as [Haddr Hst].
  unfold UpdateNonce in H. rewrite (GetAccountState_loaded _ _ _ _ Ha) in H. cbn [obind] in H.
  apply obind_Done_inv in H as ([db1 e] & Hsave & H). destruct e as [e|]; [done|].
  injection H as <- <- <-. set (s' := mkAccountState _ _ _ _ _ _) in *.
  assert (acc_Nonce s' = acc_Nonce s + 1) as Hn' by (apply u64_small; unfold is_u64; lia).
  assert (accounts (set_account am a s') !! a = Some s') as Ha' by apply lookup_insert_eq.
  split_and!; [exact Hn'|..].
  - rewrite (ValidateNonce_loaded _ _ _ _ _ Ha). by rewrite Z.eqb_refl.
  - rewrite (ValidateNonce_loaded _ _ _ _ _ Ha'). change (u64 (acc_Nonce s + 1)) with (acc_Nonce s').
    rewrite (u64_small (acc_Nonce s' + 1)) by (unfold is_u64; lia).
    do 2 f_equal. apply Z.eqb_neq. lia.
  - rewrite (ValidateNonce_loaded _ _ _ _ _ Ha'). change (u64 (acc_Nonce s + 1)) with (acc_Nonce s').
    rewrite (u64_small (acc_Nonce s' + 1)) by (unfold is_u64; lia). by rewrite Z.eqb_refl.
  - exists s'. split; [done|]. apply saveAccountState_get in Hsave; [|exact Hst].
    unfold GetAccountState. cbn [accounts NewAccountManager]. rewrite lookup_empty.
    change (acc_Address s') with (acc_Address s) in Hsave. rewrite Haddr in Hsave. by rewrite Hsave.
Qed.

End nonce_facts.

Definition demo_account : AccountState := mkAccountState "alice" 4 (f64_of_Z 9) 0 (Some ∅) (Some ∅).
Definition demo_manager : AccountManager := mkAccountManager {[ "alice" := demo_account ]} ∅ ∅.

Lemma demo_accounts_ok : accounts_ok demo_manager.
Proof.
  apply map_Forall_singleton. unfold account_storable, strings_valid. split_and!; [done|by vm_compute..| |].
  - intros u [= <-] k v. by rewrite lookup_empty.
  - intros u [= <-] k v. by rewrite lookup_empty.
Qed.

Lemma UpdateNonce_persists_witness :
  ∃ am' db' s', UpdateNonce 100 demo_manager (Some (levelDB.mk ∅ false)) "alice"
      = Done (am', db', Ok 5) ∧
    GetAccountState NewAccountManager db' "alice"
      = Done (set_account NewAccountManager "alice" s', db', s') ∧ acc_Nonce s' = 5.
Proof.
  eexists _, _. assert (accounts demo_manager !! "alice" = Some demo_account) as Ha by reflexivity.
  destruct (UpdateNonce_persists 100 demo_manager _ (Some (levelDB.mk (∅ : @kv mem_kv) false)) _
    "alice" demo_account 5 demo_accounts_ok Ha ltac:(simpl; lia) eq_refl)
    as (_ & _ & _ & _ & s' & Hn & Hg).
  exists s'. split; [reflexivity|]. split; [exact Hg|exact Hn].
Defined.
