(* ===== verification/Utxo.v ===== *)
(** * The UTXO pool ([utxo.go])

    [UTXOPool] is the record of the source; the database and the account
    manager that pools and their clones share are the [World]. An operation
    takes the pool and the world and returns them changed; it blocks
    ([Deadlock]) when the pool's mutex is already held. The orders in which Go
    ranges over maps are arguments. *)

From stdpp Require Import base gmap strings list.
From Stdlib Require Import ZArith Lia.
From S2P Require Import Prelude.
From S2P Require Import Float64.
From S2P Require Import Sha256.
From S2P Require Import Json.
From S2P Require Import Database.
From S2P Require Import Merkle.
From S2P Require Import Transaction.
From S2P Require Import Account.

Record UTXO := mkUTXO {
  utxo_TransactionID : string;
  utxo_OutputIndex : Z;
  utxo_Amount : float64;
  utxo_Owner : string;
  utxo_Spent : bool;
  utxo_BlockHeight : Z;
  utxo_Timestamp : Z;
  utxo_ScriptPubKey : string;
}.

#[global] Instance UTXO_eq_dec : EqDecision UTXO.
Proof. solve_decision. Defined.

Definition zero_utxo : UTXO := mkUTXO "" 0 f64_zero "" false 0 0 "".

Definition mark_spent (u : UTXO) : UTXO :=
  mkUTXO (utxo_TransactionID u) (utxo_OutputIndex u) (utxo_Amount u) (utxo_Owner u) true
    (utxo_BlockHeight u) (utxo_Timestamp u) (utxo_ScriptPubKey u).

Abbreviation utxo_set := (gmap string UTXO).

Record StateSnapshot := mkStateSnapshot {
  ss_Height : Z;
  ss_UTXOStates : utxo_set;
  ss_BlockHash : string;
  ss_Timestamp : Z;
}.

Record UtxoSnapshot := mkUtxoSnapshot {
  us_BlockHeight : Z;
  us_BlockHash : string;
  us_UTXOs : option utxo_set;
  us_MerkleRoot : string;
  us_Timestamp : Z;
}.

(** types.go *)
Record StateChunk := mkStateChunk {
  sc_ChunkID : Z;
  sc_UTXOs : utxo_set;
  sc_MerkleProof : list string;
  sc_Total : Z;
}.

Record DeltaUpdate := mkDeltaUpdate {
  du_LastSyncTime : Z;
  du_UTXOUpdates : utxo_set;
  du_UTXODeletions : list string;
  du_StateRoot : string;
  du_UpdateTimestamp : Z;
}.

Record UTXOPool := mkUTXOPool {
  utxos : utxo_set;
  mu : mutex;
  merkleRoot : string;
  lastVerifiedState : string;
  lastUpdateTime : Z;
  updates : option utxo_set;
  deletions : list string;
  snapshots : list StateSnapshot;
  has_node : bool;
}.

(** What the pool reads of a block: its transactions in the order
    [GetAllTransactions] returned them, its number and its hash. *)
Record block_view := mkBlockView {
  bv_txs : list Transaction;
  bv_number : Z;
  bv_hash : string;
}.

(** [fmt.Sprintf("%s-%d", txid, index)] *)
Definition utxo_key (txid : string) (index : Z) : string := txid +:+ "-" +:+ fmt_d index.
Definition input_key (i : TransactionInput) : string :=
  utxo_key (in_TransactionID i) (in_OutputIndex i).

(** ** JSON form *)
Definition marshal_UTXO (u : UTXO) : option json :=
  marshal_struct
    [("txid", marshal_string (utxo_TransactionID u));
     ("vout", marshal_int (utxo_OutputIndex u));
     ("amount", marshal_float (utxo_Amount u));
     ("owner", marshal_string (utxo_Owner u));
     ("spent", marshal_bool (utxo_Spent u));
     ("block_height", marshal_int (utxo_BlockHeight u));
     ("timestamp", marshal_int (utxo_Timestamp u));
     ("script_pub_key", marshal_string (utxo_ScriptPubKey u))].

Definition read_UTXO (j : json) : option UTXO :=
  match j with
  | JNull => Some zero_utxo
  | JObj _ =>
      t ← read_field read_string "" j "txid";
      i ← read_field read_int 0 j "vout";
      a ← read_field read_float f64_zero j "amount";
      o ← read_field read_string "" j "owner";
      s ← read_field read_bool false j "spent";
      h ← read_field read_int 0 j "block_height";
      ts ← read_field read_int 0 j "timestamp";
      sc ← read_field read_string "" j "script_pub_key";
      Some (mkUTXO t i a o s h ts sc)
  | _ => None
  end.

Definition marshal_UtxoSnapshot (s : UtxoSnapshot) : option json :=
  marshal_struct
    [("block_height", marshal_int (us_BlockHeight s));
     ("block_hash", marshal_string (us_BlockHash s));
     ("utxos", marshal_map marshal_UTXO (us_UTXOs s));
     ("merkle_root", marshal_string (us_MerkleRoot s));
     ("timestamp", marshal_int (us_Timestamp s))].

Definition read_UtxoSnapshot (j : json) : option UtxoSnapshot :=
  match j with
  | JNull => Some (mkUtxoSnapshot 0 "" None "" 0)
  | JObj _ =>
      h ← read_field read_int 0 j "block_height";
      b ← read_field read_string "" j "block_hash";
      u ← read_field (read_map read_UTXO None) None j "utxos";
      m ← read_field read_string "" j "merkle_root";
      ts ← read_field read_int 0 j "timestamp";
      Some (mkUtxoSnapshot h b u m ts)
  | _ => None
  end.

(** ** Hashes *)
Definition UTXO_Hash (u : UTXO) : string :=
  sha_hex (utxo_TransactionID u +:+ "-" +:+ fmt_d (utxo_OutputIndex u) +:+ "-" +:+ utxo_Owner u
           +:+ "-" +:+ fmt_f 8 (utxo_Amount u)).

(** The leaves of the Merkle tree, by sorted key ([utxos[key]] of a key that is
    in the map). *)
Definition leaf_hashes (m : utxo_set) (keys : list string) : list string :=
  (λ k, UTXO_Hash (default zero_utxo (m !! k))) <$> keys.

Definition sorted_keys (m : utxo_set) : list string := sort_strings (map_keys m).

Definition CalculateMerkleRoot (m : utxo_set) : string :=
  if (size m =? 0)%nat then ""
  else merkle_root (leaf_hashes m (sorted_keys m)).

(** The source collects the keys in the order of a range loop, then sorts. *)
Definition CalculateMerkleRoot_range (ro : range_order) (m : utxo_set) : string :=
  if (size m =? 0)%nat then ""
  else merkle_root (leaf_hashes m (sort_strings (ro (map_keys m)))).

Definition hashPair (left right : string) : string :=
  if String.ltb right left then hash_concat right left else hash_concat left right.

(** ** The pool *)
Module Pool.

Definition set_utxos (p : UTXOPool) (m : utxo_set) : UTXOPool :=
  mkUTXOPool m (mu p) (merkleRoot p) (lastVerifiedState p) (lastUpdateTime p) (updates p)
    (deletions p) (snapshots p) (has_node p).

Definition set_root (p : UTXOPool) (root : string) (t : Z) : UTXOPool :=
  mkUTXOPool (utxos p) (mu p) root (lastVerifiedState p) t (updates p)
    (deletions p) (snapshots p) (has_node p).

Definition set_mu (p : UTXOPool) (m : mutex) : UTXOPool :=
  mkUTXOPool (utxos p) m (merkleRoot p) (lastVerifiedState p) (lastUpdateTime p) (updates p)
    (deletions p) (snapshots p) (has_node p).

(** [pool.utxos[key] = utxo], tracked in [pool.updates]. *)
Definition put_tracked (p : UTXOPool) (key : string) (u : UTXO) : UTXOPool :=
  mkUTXOPool (<[key := u]> (utxos p)) (mu p) (merkleRoot p) (lastVerifiedState p)
    (lastUpdateTime p) (Some (<[key := u]> (default ∅ (updates p))))
    (deletions p) (snapshots p) (has_node p).

Definition NewUTXOPool : UTXOPool := mkUTXOPool ∅ Unlocked "" "" 0 None [] [] false.

(** [pool.mu.Lock(); defer pool.mu.Unlock()] around a body. *)
Definition locked {A} (p : UTXOPool) (body : outcome A) : outcome A :=
  let! _ := mutex_Lock (mu p) in body.
Definition rlocked {A} (p : UTXOPool) (body : outcome A) : outcome A :=
  let! _ := mutex_RLock (mu p) in body.

(** One input of a transaction being spent. *)
Definition spend_input (p : UTXOPool) (i : TransactionInput) : UTXOPool :=
  match utxos p !! input_key i with
  | Some u => put_tracked p (input_key i) (mark_spent u)
  | None => p
  end.

Definition spend_inputs (p : UTXOPool) (tx : Transaction) : UTXOPool :=
  if Tx.is_system tx then p else foldl spend_input p (Inputs tx).

Definition output_utxo (tx : Transaction) (blockHeight : Z) (i : nat) (o : TransactionOutput) : UTXO :=
  mkUTXO (TransactionID tx) (Z.of_nat i) (out_Amount o) (out_Receiver o) false blockHeight
    (Timestamp tx) (out_ScriptPubKey o).

Definition output_key (tx : Transaction) (i : nat) : string :=
  utxo_key (TransactionID tx) (Z.of_nat i).

(** The outputs of a transaction with their positions. *)
Definition indexed (tx : Transaction) : list (nat * TransactionOutput) :=
  imap (λ i o, (i, o)) (Outputs tx).

Definition add_output (tx : Transaction) (blockHeight : Z) (p : UTXOPool)
    (io : nat * TransactionOutput) : UTXOPool :=
  put_tracked p (output_key tx io.1) (output_utxo tx blockHeight io.1 io.2).

Definition add_outputs (p : UTXOPool) (tx : Transaction) (blockHeight : Z) : UTXOPool :=
  foldl (add_output tx blockHeight) p (indexed tx).

(** [ownerUTXOs]: the new keys by receiver, in order. *)
Definition track_owner (tx : Transaction) (m : gmap string (list string))
    (io : nat * TransactionOutput) : gmap string (list string) :=
  let owner := out_Receiver io.2 in
  <[owner := default [] (m !! owner) ++ [output_key tx io.1]]> m.

Definition track_owners (m : gmap string (list string)) (tx : Transaction)
    : gmap string (list string) := foldl (track_owner tx) m (indexed tx).

End Pool.

Section world.
Context {K : KV}.

(** What pools, their clones and the node share. *)
Record World := mkWorld { w_db : Database; w_am : option AccountManager }.

(** [pool.node != nil && pool.node.accountManager != nil] *)
Definition manager (p : UTXOPool) (w : World) : option AccountManager :=
  if has_node p then w_am w else None.

(** A state collected for the batch update: the manager's own object, changed
    in place, or a new one. *)
Inductive account_ref : Type := Shared | Fresh (s : AccountState).

Definition resolve (am : AccountManager) (refs : gmap string account_ref) : gmap string AccountState :=
  map_imap (λ a r, match r with Shared => accounts am !! a | Fresh s => Some s end) refs.

(** ** Persistence *)
Definition saveState (p : UTXOPool) (db : Database) : outcome (Database * error) :=
  match marshal_map marshal_UTXO (Some (utxos p)) with
  | None => Done (db, Some JsonUnsupported)
  | Some data => db_Put db "utxo_state" (DJson data)
  end.

(** The entries read are added to the map that is there. *)
Definition loadState (p : UTXOPool) (db : Database) : outcome (UTXOPool * error) :=
  let! r := db_Get db "utxo_state" in
  match r with
  | Err e => Done (p, Some e)
  | Ok data =>
      match document data ≫= read_map read_UTXO (Some (utxos p)) with
      | Some m => Done (Pool.set_utxos p (default ∅ m), None)
      | None => Done (p, Some JsonBadInput)
      end
  end.

(** ** AddUTXO *)

(** The receivers' accounts: one turn of the loop over [ownerUTXOs]. *)
Definition credit_owner (now : Z) (p : UTXOPool)
    (acc : outcome (AccountManager * Database * gmap string account_ref))
    (entry : string * list string)
    : outcome (AccountManager * Database * gmap string account_ref) :=
  let! (am, db, refs) := acc in
  let '(owner, utxoKeys) := entry in
  let! (am, db, state) := GetAccountState am db owner in
  let '(totalReceived, us) := foldl (λ (tu : float64 * gmap string string) key,
      match utxos p !! key with
      | Some u => (f64_add tu.1 (utxo_Amount u), <[key := utxo_TransactionID u]> tu.2)
      | None => tu
      end) (f64_zero, default ∅ (acc_UTXOs state)) utxoKeys in
  let state := mkAccountState (acc_Address state) (acc_Nonce state)
    (f64_add (acc_Balance state) totalReceived) now (Some us) (acc_PendingTxs state) in
  Done (set_account am owner state, db, <[owner := Shared]> refs).

(** The sender's account: spent outputs removed, amount and fee subtracted. *)
Definition debit_sender (now : Z) (tx : Transaction)
    (acc : AccountManager * Database * gmap string account_ref)
    : outcome (AccountManager * Database * gmap string account_ref) :=
  let '(am, db, refs) := acc in
  let! (am, db, state) := GetAccountState am db (Sender tx) in
  let us := (λ m, foldl (λ m i, delete (input_key i) m) m (Inputs tx)) <$> acc_UTXOs state in
  let state := mkAccountState (acc_Address state) (acc_Nonce state)
    (f64_sub (acc_Balance state) (f64_add (Amount tx) (GasFee tx))) now us (acc_PendingTxs state) in
  Done (set_account am (Sender tx) state, db, <[Sender tx := Shared]> refs).

(** The part of [AddUTXO] that concerns accounts. *)
Definition update_accounts (ro ro' : range_order) (now : Z) (p : UTXOPool) (w : World)
    (tx : Transaction) : outcome World :=
  match manager p w with
  | None => Done w
  | Some am =>
      let! acc := foldl (credit_owner now p) (Done (am, w_db w, ∅))
                    (range ro (Pool.track_owners ∅ tx)) in
      let! acc :=
        if negb (Tx.is_system tx) && negb (str_eqb (Sender tx) "") then debit_sender now tx acc
        else Done acc in
      let '(am, db, refs) := acc in
      let! (am, db, _) := BatchUpdateAccounts ro' now am db (resolve am refs) in
      Done (mkWorld db (Some am))
  end.

(** Outputs, inputs and the root: what [AddUTXO] does to the pool itself. *)
Definition apply_tx (now : Z) (p : UTXOPool) (tx : Transaction) (blockHeight : Z) : UTXOPool :=
  let p := Pool.add_outputs (Pool.spend_inputs p tx) tx blockHeight in
  Pool.set_root p (CalculateMerkleRoot (utxos p)) now.

Definition AddUTXO (ro ro' : range_order) (now : Z) (p : UTXOPool) (w : World)
    (tx : Transaction) (blockHeight : Z) : outcome (UTXOPool * World) :=
  Pool.locked p (
    let p := apply_tx now p tx blockHeight in
    let! w := update_accounts ro ro' now p w tx in
    let! (db, _) := saveState p (w_db w) in
    Done (p, mkWorld db (w_am w))).

Definition RemoveUTXO (now : Z) (p : UTXOPool) (w : World) (txID : string) (outputIndex : Z)
    : outcome (UTXOPool * World) :=
  Pool.locked p (
    let key := utxo_key txID outputIndex in
    let m := delete key (utxos p) in
    let p := mkUTXOPool m (mu p) (CalculateMerkleRoot m) (lastVerifiedState p) now (updates p)
      (deletions p ++ [key]) (snapshots p) (has_node p) in
    let! (db, _) := saveState p (w_db w) in
    Done (p, mkWorld db (w_am w))).

(** ** Validation *)
Fixpoint input_total (m : utxo_set) (sender : string) (ins : list TransactionInput)
    (total : float64) : option float64 :=
  match ins with
  | [] => Some total
  | i :: ins =>
      match m !! input_key i with
      | None => None
      | Some u =>
          if negb (str_eqb (utxo_Owner u) sender) then None
          else input_total m sender ins (f64_add total (utxo_Amount u))
      end
  end.

Definition ValidateTransaction (p : UTXOPool) (tx : Transaction) : outcome bool :=
  Pool.locked p (Done
    match input_total (utxos p) (Sender tx) (Inputs tx) f64_zero with
    | None => false
    | Some totalInput => f64_ge totalInput (Amount tx)
    end).

Definition UpdateUTXOSet (tx : Transaction) (s : utxo_set) : utxo_set :=
  let s := if Tx.is_system tx then s else foldl (λ s i, delete (input_key i) s) s (Inputs tx) in
  foldl (λ s (io : nat * TransactionOutput),
    <[Pool.output_key tx io.1 := mkUTXO (TransactionID tx) (Z.of_nat io.1) (out_Amount io.2)
        (out_Receiver io.2) false 0 0 (out_ScriptPubKey io.2)]> s) s (Pool.indexed tx).

(** ** Snapshots *)
Definition snapshot_key (h : Z) : string := "utxo_snapshot_" +:+ fmt_d h.

Definition unspent (m : utxo_set) : utxo_set := filter (λ e, utxo_Spent e.2 = false) m.

Definition saveSnapshot (db : Database) (s : UtxoSnapshot) : outcome (Database * error) :=
  match db with
  | None => Done (db, Some "database not initialized")
  | Some _ =>
      match marshal_UtxoSnapshot s with
      | None => Done (db, Some ("failed to serialize UTXO snapshot: " +:+ JsonUnsupported))
      | Some data =>
          let! (db, e) := db_Put db (snapshot_key (us_BlockHeight s)) (DJson data) in
          match e with
          | Some e => Done (db, Some ("failed to store UTXO snapshot: " +:+ e))
          | None => Done (db, None)
          end
      end
  end.

Definition CreateSnapshot (now : Z) (p : UTXOPool) (w : World) (blockHeight : Z) (blockHash : string)
    : outcome (World * error) :=
  let snapshot := mkUtxoSnapshot blockHeight blockHash (Some (unspent (utxos p))) (merkleRoot p) now in
  let! (db, e) := saveSnapshot (w_db w) snapshot in
  Done (mkWorld db (w_am w), e).

Definition LoadSnapshotAtHeight (p : UTXOPool) (w : World) (blockHeight : Z)
    : outcome (UTXOPool * error) :=
  match w_db w with
  | None => Done (p, Some "database not initialized")
  | Some _ =>
      let! r := db_Get (w_db w) (snapshot_key blockHeight) in
      match r with
      | Err e => Done (p, Some ("failed to retrieve UTXO snapshot: " +:+ e))
      | Ok data =>
          match document data ≫= read_UtxoSnapshot with
          | None => Done (p, Some ("failed to deserialize UTXO snapshot: " +:+ JsonBadInput))
          | Some s =>
              Pool.locked p (Done
                (Pool.set_root (Pool.set_utxos p (default ∅ (us_UTXOs s)))
                   (us_MerkleRoot s) (us_Timestamp s), None))
          end
      end
  end.

Definition restoreSnapshot (p : UTXOPool) (height : Z) : UTXOPool * error :=
  match find (λ s, ss_Height s <=? height) (reverse (snapshots p)) with
  | Some s => (Pool.set_utxos p (ss_UTXOStates s), None)
  | None => (p, Some ("no snapshot found for height " +:+ fmt_d height))
  end.

(** The position of the last block the two chains share, 0 if none. *)
Fixpoint last_common (i : nat) (oldChain newChain : list block_view) : nat :=
  match i with
  | O => O
  | S i =>
      match oldChain !! i, newChain !! i with
      | Some a, Some b => if str_eqb (bv_hash a) (bv_hash b) then i else last_common i oldChain newChain
      | _, _ => last_common i oldChain newChain
      end
  end.
Definition findLastCommonBlock (oldChain newChain : list block_view) : Z :=
  Z.of_nat (last_common (length oldChain `min` length newChain) oldChain newChain).

(** The pool's lock is held while [AddUTXO] is called. *)
Definition HandleReorg (ro ro' : range_order) (now : Z) (p : UTXOPool) (w : World)
    (oldChain newChain : list block_view) : outcome (UTXOPool * World * error) :=
  let! m := mutex_Lock (mu p) in
  let p := Pool.set_mu p m in
  let commonHeight := findLastCommonBlock oldChain newChain in
  match restoreSnapshot p commonHeight with
  | (p, Some e) => Done (Pool.set_mu p Unlocked, w, Some e)
  | (p, None) =>
      if Z.of_nat (length newChain) <? commonHeight + 1 then Panic "slice bounds out of range"
      else
        let! (p, w) := foldl (λ acc block,
          foldl (λ acc tx, let! (p, w) := acc in AddUTXO ro ro' now p w tx (bv_number block))
            acc (bv_txs block)) (Done (p, w)) (drop (Z.to_nat (commonHeight + 1)) newChain) in
        Done (Pool.set_mu p Unlocked, w, None)
  end.

(** ** State root and queries *)
Definition GetStateRoot (now : Z) (p : UTXOPool) : outcome string :=
  Pool.locked p (Done
    (if (size (utxos p) =? 0)%nat then ""
     else sha_hex (merkleRoot p +:+ fmt_d (Z.of_nat (size (utxos p))) +:+ "-" +:+ fmt_d now))).

Definition GetUTXOsForAddress (ro : range_order) (p : UTXOPool) (address : string)
    : outcome (list UTXO) :=
  Pool.rlocked p (Done (filter (λ u, utxo_Owner u = address) (range ro (utxos p)).*2)).

Definition GetBalance (ro : range_order) (p : UTXOPool) (address : string) : outcome float64 :=
  Pool.rlocked p (Done
    (foldl (λ b u, if str_eqb (utxo_Owner u) address && negb (utxo_Spent u)
                   then f64_add b (utxo_Amount u) else b) f64_zero (range ro (utxos p)).*2)).

End world.
