(* ===== verification/UtxoSync.v ===== *)
(** * State transfer of the UTXO pool ([utxo.go])

    Chunks with Merkle proofs, delta updates, cloning, the processing of a
    whole block, and the selection of inputs for a transaction
    ([Transaction.SelectUTXOs]). *)

From stdpp Require Import base gmap strings list.
From Stdlib Require Import ZArith Lia.
From S2P Require Import Prelude.
From S2P Require Import Float64.
From S2P Require Import Sha256.
From S2P Require Import Json.
From S2P Require Import Database.
From S2P Require Import Merkle.
From S2P Require Import Transaction.
From S2P Require Import Account.
From S2P Require Import Utxo.

(** ** Chunks *)

(** One level of the tree being built: [i] is the position of the head of
    [level] in the level, [all] the sorted keys of the pool. The test of the
    source looks up the position in the leaves' keys at every level. *)
Fixpoint proof_level (inChunk : string → bool) (all : list string) (i : nat) (level : list string)
    : list string :=
  let relevant j := match all !! j with Some k => inChunk k | None => false end in
  match level with
  | a :: b :: rest =>
      (if relevant i || relevant (S i) then [b] else []) ++ proof_level inChunk all (i + 2) rest
  | [a] => if relevant i then [a] else []
  | [] => []
  end.

Fixpoint proof_levels (fuel : nat) (inChunk : string → bool) (all level : list string) : list string :=
  match fuel with
  | O => []
  | S fuel =>
      if (1 <? length level)%nat
      then proof_level inChunk all 0 level ++ proof_levels fuel inChunk all (next_level level)
      else []
  end.

Definition generateMerkleProofForChunk (m : utxo_set) (chunkKeys allKeys : list string)
    : list string :=
  proof_levels (length allKeys) (λ k, bool_decide (k ∈ chunkKeys)) allKeys (leaf_hashes m allKeys).

(** [chunkUTXOs[key] = pool.utxos[key]] for the keys of a chunk *)
Definition chunk_map (m : utxo_set) (keys : list string) : utxo_set :=
  foldl (λ c k, <[k := default zero_utxo (m !! k)]> c) ∅ keys.

(** The loop [for i := 0; i < len(keys); i += chunkSize], [rest] being
    [keys[i:]]. *)
Fixpoint chunk_loop (fuel : nat) (m : utxo_set) (all : list string) (chunkSize : nat) (total : Z)
    (id : nat) (rest : list string) : list StateChunk :=
  match fuel, rest with
  | S fuel, _ :: _ =>
      let chunkKeys := take chunkSize rest in
      mkStateChunk (Z.of_nat id) (chunk_map m chunkKeys)
        (generateMerkleProofForChunk m chunkKeys all) total
      :: chunk_loop fuel m all chunkSize total (S id) (drop chunkSize rest)
  | _, _ => []
  end.

Definition GetStateChunks (p : UTXOPool) (chunkSize : Z) : outcome (list StateChunk) :=
  Pool.locked p (
    let keys := sorted_keys (utxos p) in
    if chunkSize =? 0 then Panic "integer divide by zero"
    else if chunkSize <? 0 then
      if (length keys =? 0)%nat then Done [] else Panic "slice bounds out of range"
    else
      let n := Z.of_nat (length keys) in
      let totalChunks := (n + chunkSize - 1) / chunkSize in
      Done (chunk_loop (length keys) (utxos p) keys (Z.to_nat chunkSize) totalChunks 0 keys)).

(** [fmt.Sprintf("%s:%v", key, utxo)]; [%v] of a float64 is a parameter. *)
Definition fmt_bool (b : bool) : string := if b then "true" else "false".
Definition fmt_v_utxo (fmt_g : float64 → string) (u : UTXO) : string :=
  "{" +:+ utxo_TransactionID u +:+ " " +:+ fmt_d (utxo_OutputIndex u) +:+ " "
  +:+ fmt_g (utxo_Amount u) +:+ " " +:+ utxo_Owner u +:+ " " +:+ fmt_bool (utxo_Spent u) +:+ " "
  +:+ fmt_d (utxo_BlockHeight u) +:+ " " +:+ fmt_d (utxo_Timestamp u) +:+ " "
  +:+ utxo_ScriptPubKey u +:+ "}".

(** One level of [VerifyStateChunk]: an odd last node takes the next proof
    element, if any. *)
Fixpoint verify_level (level proof : list string) : list string * list string :=
  match level with
  | a :: b :: rest => let '(l, p) := verify_level rest proof in (hashPair a b :: l, p)
  | [a] =>
      match proof with
      | r :: proof => ([hashPair a r], proof)
      | [] => ([hashPair a a], [])
      end
  | [] => ([], proof)
  end.

Fixpoint verify_loop (fuel : nat) (level proof : list string) : list string :=
  match fuel with
  | O => level
  | S fuel =>
      if (1 <? length level)%nat then
        let '(level, proof) := verify_level level proof in
        match proof with
        | r :: proof' =>
            if (1 <? length level)%nat then verify_loop fuel (level ++ [r]) proof'
            else verify_loop fuel level proof
        | [] => verify_loop fuel level proof
        end
      else level
  end.

Definition VerifyStateChunk (fmt_g : float64 → string) (ro : range_order) (p : UTXOPool)
    (chunk : StateChunk) : outcome error :=
  let nodes := (λ e : string * UTXO, sha_hex (e.1 +:+ ":" +:+ fmt_v_utxo fmt_g e.2))
                 <$> range ro (sc_UTXOs chunk) in
  match verify_loop (length nodes + length (sc_MerkleProof chunk)) nodes (sc_MerkleProof chunk) with
  | [] => Panic "index out of range"
  | root :: _ =>
      if negb (str_eqb root (merkleRoot p)) then
        Done (Some ("invalid merkle proof for chunk " +:+ fmt_d (sc_ChunkID chunk)))
      else Done None
  end.

Definition ApplyStateChunk (p : UTXOPool) (chunk : StateChunk) : outcome (UTXOPool * error) :=
  Pool.locked p (
    let m := sc_UTXOs chunk ∪ utxos p in
    Done (Pool.set_root (Pool.set_utxos p m) (CalculateMerkleRoot m) (lastUpdateTime p), None)).

(** ** Deltas *)
Definition verifyUTXO (u : UTXO) : error :=
  if str_eqb (utxo_TransactionID u) "" || f64_le (utxo_Amount u) f64_zero
  then Some "invalid UTXO data" else None.

(** The content after a delta: the updates, then the deletions. *)
Definition apply_delta (m : utxo_set) (delta : DeltaUpdate) : utxo_set :=
  foldl (λ m k, delete k m) (du_UTXOUpdates delta ∪ m) (du_UTXODeletions delta).

Definition VerifyDeltaUpdate (ro : range_order) (p : UTXOPool) (delta : DeltaUpdate)
    : outcome error :=
  Pool.locked p (Done
    match omap (λ e : string * UTXO, verifyUTXO e.2) (range ro (du_UTXOUpdates delta)) with
    | e :: _ => Some ("invalid UTXO in delta: " +:+ e)
    | [] =>
        let calculatedRoot := CalculateMerkleRoot (apply_delta (utxos p) delta) in
        if negb (str_eqb calculatedRoot (du_StateRoot delta))
        then Some "state root mismatch after delta application" else None
    end).

Definition GetDeltaUpdates (now : Z) (p : UTXOPool) (lastSyncTime : Z) : outcome DeltaUpdate :=
  Pool.locked p (Done
    (mkDeltaUpdate lastSyncTime
       (if lastUpdateTime p >? lastSyncTime then default ∅ (updates p) else ∅)
       (deletions p) (CalculateMerkleRoot (utxos p)) now)).

Section world.
Context {K : KV}.

Definition ApplyDeltaUpdate (ro : range_order) (p : UTXOPool) (w : World) (delta : DeltaUpdate)
    : outcome (UTXOPool * World * error) :=
  let! e := VerifyDeltaUpdate ro p delta in
  match e with
  | Some e => Done (p, w, Some ("delta verification failed: " +:+ e))
  | None =>
      Pool.locked p (
        let m := apply_delta (utxos p) delta in
        let p := Pool.set_root (Pool.set_utxos p m) (CalculateMerkleRoot m) (du_UpdateTimestamp delta) in
        let! (db, _) := saveState p (w_db w) in
        Done (p, mkWorld db (w_am w), None))
  end.

(** The clone has its own maps; it shares the database and the node. *)
Definition Clone (p : UTXOPool) : outcome UTXOPool :=
  Pool.rlocked p (Done
    (mkUTXOPool (utxos p) Unlocked (merkleRoot p) (lastVerifiedState p) (lastUpdateTime p)
       (Some (default ∅ (updates p))) (deletions p) (snapshots p) (has_node p))).

(** ** A whole block *)

(** The sender's part of one transaction; a transaction without account manager
    or sender leaves the accounts alone. *)
Definition block_debit (now : Z) (p : UTXOPool) (tx : Transaction)
    (acc : AccountManager * Database * gmap string account_ref)
    : outcome (AccountManager * Database * gmap string account_ref) :=
  if negb (Tx.is_system tx) && negb (str_eqb (Sender tx) "") then debit_sender now tx acc
  else Done acc.

(** One transaction: inputs, sender's account, outputs. *)
Definition block_tx (now number : Z)
    (acc : outcome (UTXOPool * option (AccountManager * Database * gmap string account_ref)
                    * gmap string (list string)))
    (tx : Transaction)
    : outcome (UTXOPool * option (AccountManager * Database * gmap string account_ref)
               * gmap string (list string)) :=
  let! (p, accs, owners) := acc in
  let p := Pool.spend_inputs p tx in
  let! accs :=
    match accs with
    | None => Done None
    | Some a => let! a := block_debit now p tx a in Done (Some a)
    end in
  Done (Pool.add_outputs p tx number, accs, Pool.track_owners owners tx).

(** A receiver's account: an account with balance 0 is replaced by a new one. *)
Definition block_credit (now : Z) (p : UTXOPool)
    (acc : outcome (AccountManager * Database * gmap string account_ref))
    (entry : string * list string)
    : outcome (AccountManager * Database * gmap string account_ref) :=
  let! (am, db, refs) := acc in
  let '(owner, utxoKeys) := entry in
  let! (am, db, state) := GetAccountState am db owner in
  let isNew := f64_eq (acc_Balance state) f64_zero in
  let state := if isNew then mkAccountState owner 0 f64_zero now (Some ∅) (Some ∅) else state in
  let '(bal, us) := foldl (λ (bu : float64 * gmap string string) key,
      let u := default zero_utxo (utxos p !! key) in
      (f64_add bu.1 (utxo_Amount u), <[key := utxo_TransactionID u]> bu.2))
      (acc_Balance state, default ∅ (acc_UTXOs state)) utxoKeys in
  let state := mkAccountState (acc_Address state) (acc_Nonce state) bal now (Some us)
    (acc_PendingTxs state) in
  if isNew then Done (am, db, <[owner := Fresh state]> refs)
  else Done (set_account am owner state, db, <[owner := Shared]> refs).

Definition ProcessBlockTransactions (ro ro' : range_order) (now : Z) (p : UTXOPool) (w : World)
    (block : option block_view) : outcome (UTXOPool * World * error) :=
  match block with
  | None => Done (p, w, Some "cannot process transactions for nil block")
  | Some block =>
      Pool.locked p (
        let! (p, accs, owners) :=
          foldl (block_tx now (bv_number block))
            (Done (p, (λ am, (am, w_db w, ∅)) <$> manager p w, ∅)) (bv_txs block) in
        let! w :=
          match accs with
          | None => Done w
          | Some acc =>
              let! (am, db, refs) := foldl (block_credit now p) (Done acc) (range ro owners) in
              if (0 <? size refs)%nat then
                let! (am, db, _) := BatchUpdateAccounts ro' now am db (resolve am refs) in
                Done (mkWorld db (Some am))
              else Done (mkWorld db (Some am))
          end in
        let p := Pool.set_root p (CalculateMerkleRoot (utxos p)) now in
        let! w :=
          if (bv_number block mod 100 =? 0) || (bv_number block =? 0) then
            let! (w, _) := CreateSnapshot now p w (bv_number block) (bv_hash block) in Done w
          else Done w in
        let! (db, e) := saveState p (w_db w) in
        Done (p, mkWorld db (w_am w), e))
  end.

(** ** Selecting inputs ([transaction.go]) *)

(** Take unspent outputs until the total is reached. *)
Fixpoint select_loop (needed : float64) (us : list UTXO) (selected : list UTXO) (total : float64)
    : list UTXO * float64 :=
  match us with
  | [] => (selected, total)
  | u :: us =>
      if utxo_Spent u then select_loop needed us selected total
      else
        let selected := selected ++ [u] in
        let total := f64_add total (utxo_Amount u) in
        if f64_ge total needed then (selected, total) else select_loop needed us selected total
  end.

Definition SelectUTXOs (ro : range_order) (tx : Transaction) (pool : option UTXOPool)
    : outcome (Transaction * error) :=
  match pool with
  | None => Done (tx, Some "UTXO pool is nil")
  | Some pool =>
      let totalNeeded := f64_add (Amount tx) (GasFee tx) in
      let! senderUTXOs := GetUTXOsForAddress ro pool (Sender tx) in
      if (length senderUTXOs =? 0)%nat then
        Done (tx, Some ("no UTXOs found for sender " +:+ Sender tx))
      else
        let sorted := stable_sort (λ a b, f64_gt (utxo_Amount a) (utxo_Amount b)) senderUTXOs in
        let '(selected, totalInput) := select_loop totalNeeded sorted [] f64_zero in
        if f64_lt totalInput totalNeeded then
          Done (tx, Some ("insufficient funds: have " +:+ fmt_f 8 totalInput +:+ ", need "
                          +:+ fmt_f 8 totalNeeded))
        else
          let tx := foldl (λ tx u,
            Tx.AddInput tx (utxo_TransactionID u) (utxo_OutputIndex u) "") tx selected in
          let changeAmount := f64_sub totalInput totalNeeded in
          let tx := if f64_gt changeAmount f64_zero then Tx.AddChangeOutput tx changeAmount else tx in
          Done (tx, None)
  end.

End world.
