(* ===== verification/UtxoFacts.v ===== *)
(** * Correctness of the UTXO pool

    What each operation does to the set of outputs, that the Merkle root always
    is the root of the set, that spent outputs stay spent, and that snapshots
    and block processing agree with applying transactions one by one. *)

From stdpp Require Import base gmap strings list sorting pretty.
From Stdlib Require Import ZArith Lia.
From S2P Require Import Prelude.
From S2P Require Import Float64.
From S2P Require Import Sha256.
From S2P Require Import Json.
From S2P Require Import Database.
From S2P Require Import Merkle.
From S2P Require Import Transaction.
From S2P Require Import Account.
From S2P Require Import Utxo.
From S2P Require Import UtxoSync.

(** ** Keys *)

#[global] Instance fmt_d_inj : Inj (=) (=) fmt_d.
Proof. intros x y H. by apply (inj (pretty : Z → string)). Qed.

Lemma utxo_key_inj txid i j : utxo_key txid i = utxo_key txid j → i = j.
Proof. intros H%sapp_inj_l%sapp_inj_l. by apply fmt_d_inj. Qed.

Lemma output_key_inj tx i j : Pool.output_key tx i = Pool.output_key tx j → i = j.
Proof. intros H%utxo_key_inj. lia. Qed.

Definition dash : Ascii.ascii := Ascii.Ascii true false true true false true false false.

(** A key determines the transaction and the index. *)
Lemma utxo_key_split a b i j : 0 ≤ i → 0 ≤ j → utxo_key a i = utxo_key b j → a = b ∧ i = j.
Proof.
  assert (∀ z, 0 ≤ z → no_char dash (fmt_d z) = true) as Hd.
  { intros z Hz. destruct z as [|p|p]; [done| |lia].
    apply (no_char_pretty_N dash (N.pos p)). intros d. unfold pretty_N_char. by repeat case_match. }
  intros Hi Hj E. destruct (split_last dash a b _ _ (Hd i Hi) (Hd j Hj) E) as [-> ->%fmt_d_inj]. done.
Qed.

(** ** The Merkle root does not depend on the iteration order *)
#[global] Instance string_le_po : PartialOrder String.le := _.

Lemma sort_strings_unique l l' : l ≡ₚ l' → sort_strings l = sort_strings l'.
Proof.
  intros Hl. apply (StronglySorted_unique String.le).
  - apply StronglySorted_merge_sort; apply _.
  - apply StronglySorted_merge_sort; apply _.
  - unfold sort_strings. by rewrite !merge_sort_Permutation.
Qed.

Lemma length_sorted_keys m : length (sorted_keys m) = size m.
Proof.
  unfold sorted_keys. rewrite sort_strings_perm. unfold map_keys.
  by rewrite length_fmap, length_map_to_list.
Qed.

Lemma elem_of_sorted_keys m k : k ∈ sorted_keys m ↔ is_Some (m !! k).
Proof. unfold sorted_keys. rewrite sort_strings_perm. apply map_keys_lookup. Qed.

Lemma NoDup_sorted_keys m : NoDup (sorted_keys m).
Proof. apply NoDup_sort_strings, NoDup_map_keys. Qed.

(** C18 The Merkle root of the UTXO set is a function of the set: whatever order
    the runtime iterates over the map, the result is the root of the reference
    tree over the hashes of the outputs in key order, computed in
    [log2_up n] levels. *)
Theorem CalculateMerkleRoot_reference (ro : range_order) (m : utxo_set) :
  fair ro → m ≠ ∅ →
  CalculateMerkleRoot_range ro m = CalculateMerkleRoot m ∧
  CalculateMerkleRoot m = node (leaf_hashes m (sorted_keys m)) (Nat.log2_up (size m)) 0.
Proof.
  intros Hro Hm. unfold CalculateMerkleRoot_range, CalculateMerkleRoot, sorted_keys.
  rewrite (sort_strings_unique _ _ (Hro (map_keys m))). split; [done|].
  assert (size m ≠ 0%nat) as Hs by (by intros ?%map_size_empty_iff).
  apply Nat.eqb_neq in Hs as Hs'. rewrite Hs'. fold (sorted_keys m).
  assert (length (leaf_hashes m (sorted_keys m)) = size m) as Hl.
  { unfold leaf_hashes. by rewrite length_fmap, length_sorted_keys. }
  rewrite merkle_root_node; [by rewrite Hl|].
  intros E. rewrite E in Hl. simpl in Hl. lia.
Qed.

Definition utxo_a : UTXO := mkUTXO "t1" 0 (f64_of_Z 5) "alice" false 1 0 "".
Definition utxo_b : UTXO := mkUTXO "t1" 1 (f64_of_Z 7) "bob" false 1 0 "".
Definition utxo_c : UTXO := mkUTXO "t2" 0 (f64_of_Z 9) "alice" false 2 0 "".
Definition demo_set : utxo_set := {[ "t1-0" := utxo_a; "t1-1" := utxo_b; "t2-0" := utxo_c ]}.

Lemma fair_reverse : fair reverse.
Proof. intros l. apply reverse_Permutation. Qed.

Lemma CalculateMerkleRoot_reference_witness :
  CalculateMerkleRoot demo_set = node (leaf_hashes demo_set (sorted_keys demo_set)) 2 0.
Proof.
  apply (CalculateMerkleRoot_reference reverse demo_set fair_reverse).
  apply insert_non_empty.
Defined.

(** ** The effect on the set of outputs *)
Lemma utxos_put p k u : utxos (Pool.put_tracked p k u) = <[k := u]> (utxos p).
Proof. done. Qed.

(** Inputs: exactly the inputs that exist are marked. *)
Lemma spend_foldl_lookup ins p k :
  utxos (foldl Pool.spend_input p ins) !! k =
    if bool_decide (k ∈ input_key <$> ins) then mark_spent <$> utxos p !! k else utxos p !! k.
Proof.
  revert p. induction ins as [|i ins IH]; intros p; [done|]. cbn [foldl]. rewrite IH.
  assert (∀ u, mark_spent (mark_spent u) = mark_spent u) as Hidem by done.
  unfold Pool.spend_input. destruct (decide (k = input_key i)) as [->|Hne].
  - rewrite (bool_decide_eq_true_2 (input_key i ∈ input_key <$> i :: ins)) by (apply elem_of_cons; by left).
    destruct (utxos p !! input_key i) as [u|] eqn:Hu.
    + rewrite utxos_put. rewrite lookup_insert_eq. by case_bool_decide.
    + rewrite Hu. by case_bool_decide.
  - rewrite (bool_decide_ext (k ∈ input_key <$> i :: ins) (k ∈ input_key <$> ins)).
    2: { rewrite fmap_cons, elem_of_cons. split; [by intros [?|?]|by right]. }
    destruct (utxos p !! input_key i) as [u|] eqn:Hu; [|done].
    rewrite utxos_put, lookup_insert_ne by done. done.
Qed.

Lemma spend_inputs_lookup p tx k :
  utxos (Pool.spend_inputs p tx) !! k =
    if negb (Tx.is_system tx) && bool_decide (k ∈ input_key <$> Inputs tx)
    then mark_spent <$> utxos p !! k else utxos p !! k.
Proof.
  unfold Pool.spend_inputs. destruct (Tx.is_system tx); [done|]. simpl. apply spend_foldl_lookup.
Qed.

(** Outputs: position [i] of the transaction is at its key. *)
Lemma add_foldl_lookup tx h l p k :
  NoDup l.*1 →
  utxos (foldl (Pool.add_output tx h) p l) !! k =
    match find (λ io : nat * TransactionOutput, str_eqb (Pool.output_key tx io.1) k) l with
    | Some io => Some (Pool.output_utxo tx h io.1 io.2)
    | None => utxos p !! k
    end.
Proof.
  revert p. induction l as [|[i o] l IH]; intros p Hnd; [done|].
  apply NoDup_cons in Hnd as [Hi Hnd]. cbn [foldl find fst]. rewrite IH by done.
  unfold Pool.add_output. rewrite utxos_put. cbn [fst snd].
  destruct (str_eqb (Pool.output_key tx i) k) eqn:E.
  - apply str_eqb_eq in E as <-. rewrite lookup_insert_eq.
    destruct (find _ l) as [[j o']|] eqn:F; [|done].
    apply find_some in F as [Hin Hk]. apply str_eqb_eq, output_key_inj in Hk. simpl in Hk. subst j.
    destruct Hi. apply list_elem_of_fmap. exists (i, o'). split; [done|]. by apply list_elem_of_In.
  - apply str_eqb_neq in E. rewrite lookup_insert_ne by done. done.
Qed.

Lemma indexed_fst tx : (Pool.indexed tx).*1 = seq 0 (length (Outputs tx)).
Proof.
  assert (∀ (l : list TransactionOutput) n, imap (λ i _, (n + i)%nat) l = seq n (length l)) as H.
  { induction l as [|o l IH]; intros n; simpl; [done|]. rewrite Nat.add_0_r. f_equal.
    rewrite <-IH. apply imap_ext. intros. simpl. lia. }
  unfold Pool.indexed. rewrite fmap_imap. etrans; [|apply (H _ 0%nat)]. by apply imap_ext.
Qed.

Lemma elem_of_indexed tx i o : (i, o) ∈ Pool.indexed tx ↔ Outputs tx !! i = Some o.
Proof.
  unfold Pool.indexed. rewrite elem_of_lookup_imap. split.
  - intros (j & x & [= -> ->] & H). done.
  - intros H. exists i, o. done.
Qed.

(** The output that a transaction puts at a key, if any. *)
Definition created (tx : Transaction) (h : Z) (k : string) : option UTXO :=
  (λ io : nat * TransactionOutput, Pool.output_utxo tx h io.1 io.2)
    <$> find (λ io : nat * TransactionOutput, str_eqb (Pool.output_key tx io.1) k) (Pool.indexed tx).

Lemma created_Some tx h k u :
  created tx h k = Some u ↔
  ∃ i o, Outputs tx !! i = Some o ∧ k = Pool.output_key tx i ∧ u = Pool.output_utxo tx h i o.
Proof.
  unfold created. split.
  - destruct (find _ _) as [[i o]|] eqn:F; [|done]. intros [= <-].
    apply find_some in F as [Hin Hk]. apply str_eqb_eq in Hk.
    exists i, o. split; [|done]. by apply elem_of_indexed, list_elem_of_In.
  - intros (i & o & Hl & -> & ->). destruct (find _ _) as [[j o']|] eqn:F.
    + apply find_some in F as [Hin Hk]. apply str_eqb_eq, output_key_inj in Hk. simpl in Hk. subst j.
      apply list_elem_of_In, elem_of_indexed in Hin. by simplify_eq.
    + apply elem_of_indexed, list_elem_of_In in Hl. eapply find_none in F; [|exact Hl].
      simpl in F. by rewrite str_eqb_refl in F.
Qed.

Lemma apply_tx_lookup now p tx h k :
  utxos (apply_tx now p tx h) !! k =
    match created tx h k with
    | Some u => Some u
    | None =>
        if negb (Tx.is_system tx) && bool_decide (k ∈ input_key <$> Inputs tx)
        then mark_spent <$> utxos p !! k else utxos p !! k
    end.
Proof.
  unfold apply_tx, Pool.add_outputs. cbn [utxos Pool.set_root].
  rewrite add_foldl_lookup by (rewrite indexed_fst; apply NoDup_seq).
  unfold created. destruct (find _ _); [done|]. apply spend_inputs_lookup.
Qed.

Section world.
Context {K : KV}.

Lemma locked_Done {A} p (body : outcome A) a :
  Pool.locked p body = Done a → mu p = Unlocked ∧ body = Done a.
Proof. unfold Pool.locked. by destruct (mu p). Qed.

Lemma AddUTXO_pool ro ro' now p w tx h p' w' :
  AddUTXO ro ro' now p w tx h = Done (p', w') → mu p = Unlocked ∧ p' = apply_tx now p tx h.
Proof.
  intros [Hmu H]%locked_Done. split; [done|]. cbv zeta in H.
  apply obind_Done_inv in H as (w1 & _ & H). apply obind_Done_inv in H as ([db e] & _ & H).
  by injection H as <- _.
Qed.

(** C1 [AddUTXO] changes the set of outputs exactly so: every output of the
    transaction is there, unspent, under its key; every other input of a
    non-system transaction that was there is marked as spent; nothing else
    changes; and the stored Merkle root is the root of the new set. *)
Theorem AddUTXO_spec (ro ro' : range_order) (now : Z) (p : UTXOPool) (w : World)
    (tx : Transaction) (h : Z) (p' : UTXOPool) (w' : World) :
  AddUTXO ro ro' now p w tx h = Done (p', w') →
  (∀ i o, Outputs tx !! i = Some o →
     utxos p' !! Pool.output_key tx i = Some (Pool.output_utxo tx h i o)) ∧
  (∀ k, (∀ i, (i < length (Outputs tx))%nat → k ≠ Pool.output_key tx i) →
     utxos p' !! k =
       if negb (Tx.is_system tx) && bool_decide (k ∈ input_key <$> Inputs tx)
       then mark_spent <$> utxos p !! k else utxos p !! k) ∧
  merkleRoot p' = CalculateMerkleRoot (utxos p').
Proof.
  intros [_ ->]%AddUTXO_pool. split_and!; [| |done].
  - intros i o Ho. rewrite apply_tx_lookup.
    destruct (created tx h (Pool.output_key tx i)) as [u|] eqn:Hc.
    + apply created_Some in Hc as (j & o' & Hj & Hk%output_key_inj & ->). subst j. by simplify_eq.
    + assert (created tx h (Pool.output_key tx i) = Some (Pool.output_utxo tx h i o)) as Hc'
        by (apply created_Some; eauto). congruence.
  - intros k Hk. rewrite apply_tx_lookup. destruct (created tx h k) as [u|] eqn:Hc; [|done].
    apply created_Some in Hc as (j & o & Hj & -> & _).
    destruct (Hk j); [|done]. by eapply lookup_lt_Some.
Qed.

(** ** Spent outputs stay spent *)
Definition is_spent (p : UTXOPool) (k : string) : bool :=
  match utxos p !! k with Some u => utxo_Spent u | None => false end.

(** A sequence of [AddUTXO] calls. *)
Fixpoint add_all (ro ro' : range_order) (now : Z) (p : UTXOPool) (w : World)
    (txs : list (Transaction * Z)) : outcome (UTXOPool * World) :=
  match txs with
  | [] => Done (p, w)
  | (tx, h) :: txs => let! (p, w) := AddUTXO ro ro' now p w tx h in add_all ro ro' now p w txs
  end.

Lemma apply_tx_spent now p tx h k : created tx h k = None → is_spent p k = true →
  is_spent (apply_tx now p tx h) k = true.
Proof.
  unfold is_spent. intros Hc Hs. rewrite apply_tx_lookup, Hc.
  destruct (utxos p !! k) as [u|] eqn:Hu; [|done]. by destruct (_ && _).
Qed.

Lemma created_None tx h k : (∀ i, (i < length (Outputs tx))%nat → k ≠ Pool.output_key tx i) →
  created tx h k = None.
Proof.
  intros Hk. destruct (created tx h k) as [u|] eqn:Hc; [|done].
  apply created_Some in Hc as (j & o & Hj & -> & _). destruct (Hk j); [|done]. by eapply lookup_lt_Some.
Qed.

(** C17 An output consumed by a transaction is marked as spent and stays so
    through any further transactions, as long as none of them creates an output
    with the same transaction id and index. *)
Theorem input_spent_forever (ro ro' : range_order) (now : Z) (p : UTXOPool) (w : World)
    (tx : Transaction) (h : Z) (txs : list (Transaction * Z)) (i : TransactionInput)
    (p' : UTXOPool) (w' : World) :
  Tx.is_system tx = false → i ∈ Inputs tx → is_Some (utxos p !! input_key i) →
  Forall (λ t, ∀ j, (j < length (Outputs t.1))%nat → input_key i ≠ Pool.output_key t.1 j)
    ((tx, h) :: txs) →
  add_all ro ro' now p w ((tx, h) :: txs) = Done (p', w') →
  is_spent p' (input_key i) = true.
Proof.
  intros Hsys Hi [u Hu] Hnew H. cbn [add_all] in H.
  apply obind_Done_inv in H as ([p1 w1] & Hadd & H). apply AddUTXO_pool in Hadd as [_ ->].
  apply Forall_cons in Hnew as [Htx Hnew].
  assert (is_spent (apply_tx now p tx h) (input_key i) = true) as Hs.
  { unfold is_spent. rewrite apply_tx_lookup, (created_None tx h _ Htx), Hsys, Hu. simpl.
    rewrite bool_decide_eq_true_2; [done|]. by apply list_elem_of_fmap_2. }
  clear Hsys Hu Htx. revert H Hs. generalize (apply_tx now p tx h) w1. clear p w w1 tx h Hi u.
  induction Hnew as [|[tx h] txs Htx _ IH]; intros p w H Hs; cbn [add_all] in H.
  { by injection H as <- _. }
  apply obind_Done_inv in H as ([p1 w1] & Hadd & H). apply AddUTXO_pool in Hadd as [_ ->].
  eapply IH; [exact H|]. by apply apply_tx_spent; [apply created_None|].
Qed.

(** ** The pool's own validation *)
Lemma mark_spent_total m m' sender ins : ∀ total,
  (∀ i, i ∈ ins → m' !! input_key i = m !! input_key i ∨
                  m' !! input_key i = mark_spent <$> m !! input_key i) →
  input_total m' sender ins total = input_total m sender ins total.
Proof.
  induction ins as [|i ins IH]; intros total Hm; [done|]. cbn [input_total].
  assert (∀ t, input_total m' sender ins t = input_total m sender ins t) as IH'.
  { intros t. apply IH. intros j Hj. apply Hm, elem_of_cons. by right. }
  destruct (Hm i) as [->| ->]; [apply elem_of_cons; by left|..];
    destruct (m !! input_key i); simpl; try done; case_match; done.
Qed.

(** The pool's [ValidateTransaction] does not look at the spent flag: after a
    transaction has been added, a second one that spends the same outputs is
    judged exactly as before. *)
Theorem ValidateTransaction_ignores_spent (ro ro' : range_order) (now : Z) (p : UTXOPool)
    (w : World) (tx tx2 : Transaction) (h : Z) (p' : UTXOPool) (w' : World) :
  AddUTXO ro ro' now p w tx h = Done (p', w') →
  Forall (λ i, ∀ j, (j < length (Outputs tx))%nat → input_key i ≠ Pool.output_key tx j) (Inputs tx2) →
  ValidateTransaction p' tx2 = ValidateTransaction p tx2.
Proof.
  intros [Hmu ->]%AddUTXO_pool Hnew. unfold ValidateTransaction, Pool.locked.
  assert (mu (apply_tx now p tx h) = Unlocked) as ->.
  { unfold apply_tx, Pool.add_outputs. cbn [mu Pool.set_root].
    assert (∀ l q, mu (foldl (Pool.add_output tx h) q l) = mu q) as Ha
      by (induction l as [|io l IHl]; intros q; [done|]; cbn [foldl]; by rewrite IHl).
    rewrite Ha. unfold Pool.spend_inputs. destruct (Tx.is_system tx); [done|].
    assert (∀ l q, mu (foldl Pool.spend_input q l) = mu q) as Hs; [|by rewrite Hs].
    induction l as [|i l IHl]; intros q; [done|]. cbn [foldl]. rewrite IHl.
    unfold Pool.spend_input. by case_match. }
  rewrite Hmu. cbn [obind mutex_Lock]. erewrite mark_spent_total; [done|].
  intros i Hi. rewrite Forall_forall in Hnew. rewrite apply_tx_lookup, created_None by (by apply Hnew).
  destruct (_ && _); auto.
Qed.

(** ** Snapshots *)
Definition utxo_storable (u : UTXO) : Prop :=
  utf8_valid (utxo_TransactionID u) = true ∧ utf8_valid (utxo_Owner u) = true ∧
  utf8_valid (utxo_ScriptPubKey u) = true ∧ f64_is_finite (utxo_Amount u) = true.

Definition set_storable (m : utxo_set) : Prop :=
  map_Forall (λ k u, utf8_valid k = true ∧ utxo_storable u) m.

Lemma read_marshal_UTXO u j : utxo_storable u → marshal_UTXO u = Some j → read_UTXO j = Some u.
Proof.
  intros (Ht & Ho & Hs & Ha). unfold marshal_UTXO, marshal_struct, marshal_float, marshal_string.
  rewrite Ha, (utf8_valid_text _ Ht), (utf8_valid_text _ Ho), (utf8_valid_text _ Hs).
  cbn. intros [= <-]. by destruct u.
Qed.

Lemma marshal_UTXO_Some u : utxo_storable u → is_Some (marshal_UTXO u).
Proof.
  intros (_ & _ & _ & Ha). unfold marshal_UTXO, marshal_struct, marshal_float. rewrite Ha. cbn. eauto.
Qed.

Lemma set_round_trip m j : set_storable m → marshal_map marshal_UTXO (Some m) = Some j →
  ∀ m0, read_map read_UTXO (Some m0) j = Some (Some (m ∪ m0)).
Proof.
  intros Hm Hj m0. eapply map_round_trip; [|exact Hj].
  intros k v Hv. destruct (Hm k v Hv) as [Hk Hs]. split; [by apply utf8_valid_text|].
  intros j' Hj'. by eapply read_marshal_UTXO.
Qed.

Lemma marshal_snapshot_round_trip s m : us_UTXOs s = Some m → set_storable m →
  utf8_valid (us_BlockHash s) = true → utf8_valid (us_MerkleRoot s) = true →
  ∃ j, marshal_UtxoSnapshot s = Some j ∧ read_UtxoSnapshot j = Some s.
Proof.
  intros Hu Hm Hb Hr. unfold marshal_UtxoSnapshot, marshal_struct, marshal_string.
  rewrite (utf8_valid_text _ Hb), (utf8_valid_text _ Hr), Hu.
  destruct (marshal_map_Some marshal_UTXO (Some m)) as [ju Eu].
  { intros u [= <-] k v Hv. apply marshal_UTXO_Some, (Hm k v Hv). }
  rewrite Eu. cbn. eexists. split; [done|].
  apply (read_map_field _ read_UTXO) in Eu.
  2: { intros u [= <-] k v Hv. destruct (Hm k v Hv) as [Hk Hs]. split; [by apply utf8_valid_text|].
       intros j' Hj'. by eapply read_marshal_UTXO. }
  unfold read_UtxoSnapshot. read_fields_of. cbn. cbn in Eu. rewrite Eu. cbn. rewrite <-Hu. by destruct s.
Qed.

(** A snapshot saved without error is read back by any later pool on the same
    database: the set becomes the unspent outputs of the pool that was saved,
    and the stored root the root of its whole set. *)
Theorem snapshot_round_trip (now : Z) (p q : UTXOPool) (w w' : World) (h : Z) (blockHash : string) :
  set_storable (unspent (utxos p)) → utf8_valid blockHash = true →
  utf8_valid (merkleRoot p) = true → mu q = Unlocked →
  CreateSnapshot now p w h blockHash = Done (w', None) →
  ∃ q', LoadSnapshotAtHeight q w' h = Done (q', None) ∧
    utxos q' = unspent (utxos p) ∧ merkleRoot q' = merkleRoot p ∧ lastUpdateTime q' = now.
Proof.
  intros Hm Hb Hr Hq H. unfold CreateSnapshot in H. set (snap := mkUtxoSnapshot _ _ _ _ _) in H.
  apply obind_Done_inv in H as ([db e] & Hsave & H). injection H as <- ->.
  unfold saveSnapshot in Hsave. destruct (w_db w) as [ldb|] eqn:Hdb; [|done].
  destruct (marshal_snapshot_round_trip snap (unspent (utxos p))) as (j & Hj & Hread); [done..|].
  rewrite Hj in Hsave. unfold db_Put in Hsave.
  destruct (levelDB.Put ldb _ _) as [ldb' e] eqn:Hp. cbn in Hsave.
  destruct e; [done|]. injection Hsave as <-.
  unfold LoadSnapshotAtHeight. cbn [w_db]. unfold db_Get. cbn [obind].
  rewrite (levelDB.Get_Put _ _ _ _ _ Hp), str_eqb_refl. cbn. rewrite Hread.
  unfold Pool.locked. rewrite Hq. cbn. by eexists.
Qed.

End world.

(** ** A concrete pool *)
Definition demo_pool : UTXOPool :=
  mkUTXOPool demo_set Unlocked (CalculateMerkleRoot demo_set) "" 0 None [] [] true.
Definition demo_db : Database := Some (levelDB.mk (∅ : @kv mem_kv) false).
Definition demo_world : World := mkWorld demo_db (Some NewAccountManager).

(** Alice spends the output 0 of t1: four to Bob, one back. *)
Definition demo_tx (id : string) : Transaction :=
  mkTransaction id "alice" "bob" (f64_of_Z 4) 10 1 f64_zero [mkTransactionInput "t1" 0 ""]
    [mkTransactionOutput "bob" (f64_of_Z 4) ""; mkTransactionOutput "alice" (f64_of_Z 1) ""]
    TX_REGULAR 21000 20 0 1 40 [] "" [].

Definition no_order : range_order := λ l, l.

Lemma demo_fresh id : id = "t3" ∨ id = "t4" → ∀ j, (j < 2)%nat → "t1-0" ≠ Pool.output_key (demo_tx id) j.
Proof. intros [->| ->] [|[|j]] Hj; [done|done|lia|done|done|lia]. Qed.

Definition demo_add : outcome (UTXOPool * World) :=
  AddUTXO no_order no_order 50 demo_pool demo_world (demo_tx "t3") 3.

Lemma AddUTXO_spec_witness :
  ∃ p' w', demo_add = Done (p', w') ∧
    utxos p' !! "t1-0" = Some (mark_spent utxo_a) ∧
    utxos p' !! "t3-1" = Some (Pool.output_utxo (demo_tx "t3") 3 1 (mkTransactionOutput "alice" (f64_of_Z 1) "")).
Proof.
  destruct (is_Done_inv demo_add ltac:(vm_compute; reflexivity)) as [[p' w'] E].
  exists p', w'. split; [exact E|].
  destruct (AddUTXO_spec no_order no_order 50 demo_pool demo_world (demo_tx "t3") 3 p' w' E)
    as (H1 & H2 & _). split.
  - rewrite H2; [reflexivity|]. apply demo_fresh. by left.
  - by apply (H1 1%nat).
Defined.

Definition demo_adds : outcome (UTXOPool * World) :=
  add_all no_order no_order 50 demo_pool demo_world [(demo_tx "t3", 3); (demo_tx "t4", 4)].

Lemma input_spent_forever_witness :
  ∃ p' w', demo_adds = Done (p', w') ∧ is_spent p' "t1-0" = true.
Proof.
  destruct (is_Done_inv demo_adds ltac:(vm_compute; reflexivity)) as [[p' w'] E].
  exists p', w'. split; [exact E|].
  apply (input_spent_forever no_order no_order 50 demo_pool demo_world (demo_tx "t3") 3
    [(demo_tx "t4", 4)] (mkTransactionInput "t1" 0 "") p' w').
  - reflexivity.
  - by apply elem_of_cons; left.
  - by exists utxo_a.
  - repeat constructor; apply demo_fresh; auto.
  - exact E.
Defined.

Lemma ValidateTransaction_ignores_spent_witness :
  ∃ p' w', demo_add = Done (p', w') ∧ ValidateTransaction p' (demo_tx "t4") = Done true.
Proof.
  destruct (is_Done_inv demo_add ltac:(vm_compute; reflexivity)) as [[p' w'] E].
  exists p', w'. split; [exact E|].
  rewrite (ValidateTransaction_ignores_spent no_order no_order 50 demo_pool demo_world
    (demo_tx "t3") (demo_tx "t4") 3 p' w' E).
  - vm_compute. reflexivity.
  - repeat constructor. apply demo_fresh. by left.
Defined.

Lemma demo_set_storable : set_storable demo_set.
Proof.
  unfold demo_set. repeat apply map_Forall_insert_2; [..|apply map_Forall_empty];
    unfold utxo_storable; split_and!; by vm_compute.
Qed.

Definition demo_snapshot : outcome (World * error) :=
  CreateSnapshot 77 demo_pool demo_world 100 "00ab".

Lemma snapshot_round_trip_witness :
  ∃ w' q', demo_snapshot = Done (w', None) ∧
    LoadSnapshotAtHeight Pool.NewUTXOPool w' 100 = Done (q', None) ∧
    utxos q' = unspent demo_set.
Proof.
  assert (∃ w', demo_snapshot = Done (w', None)) as [w' E].
  { assert (match demo_snapshot with Done (_, None) => true | _ => false end = true) as H
      by (vm_compute; reflexivity).
    destruct demo_snapshot as [[w' [e|]]| |]; try done. by exists w'. }
  destruct (snapshot_round_trip 77 demo_pool Pool.NewUTXOPool demo_world w' 100 "00ab")
    as (q' & H1 & H2 & _); [|by vm_compute|by vm_compute|done|exact E|].
  - intros k u [Hk _]%map_lookup_filter_Some. by apply demo_set_storable.
  - exists w', q'. split; [exact E|]. split; [exact H1|exact H2].
Defined.
