(* ===== verification/UtxoSyncFacts.v ===== *)
(** * Correctness of block processing and state transfer

    Processing a block is applying its transactions in order; the root is an
    invariant of every reachable pool; chunks and deltas rebuild the sender's
    set; the inputs selected for a transaction pay for it. *)

From stdpp Require Import base gmap strings list sorting pretty.
From Stdlib Require Import ZArith Lia.
From S2P Require Import Prelude.
From S2P Require Import Float64.
From S2P Require Import Sha256.
From S2P Require Import Json.
From S2P Require Import Database.
From S2P Require Import Merkle.
From S2P Require Import Transaction.
From S2P Require Import Account.
From S2P Require Import Utxo.
From S2P Require Import UtxoSync.
From S2P Require Import UtxoFacts.

(** ** Blocks *)
Definition pool_tx (h : Z) (p : UTXOPool) (tx : Transaction) : UTXOPool :=
  Pool.add_outputs (Pool.spend_inputs p tx) tx h.

Lemma put_set_root p k u r t :
  Pool.put_tracked (Pool.set_root p r t) k u = Pool.set_root (Pool.put_tracked p k u) r t.
Proof. done. Qed.

Lemma spend_set_root p tx r t :
  Pool.spend_inputs (Pool.set_root p r t) tx = Pool.set_root (Pool.spend_inputs p tx) r t.
Proof.
  unfold Pool.spend_inputs. destruct (Tx.is_system tx); [done|].
  revert p. induction (Inputs tx) as [|i ins IH]; intros p; [done|]. cbn [foldl].
  rewrite <-IH. f_equal. unfold Pool.spend_input. cbn [utxos Pool.set_root]. by case_match.
Qed.

Lemma add_set_root p tx h r t :
  Pool.add_outputs (Pool.set_root p r t) tx h = Pool.set_root (Pool.add_outputs p tx h) r t.
Proof.
  unfold Pool.add_outputs. revert p.
  induction (Pool.indexed tx) as [|io l IH]; intros p; [done|]. cbn [foldl]. by rewrite <-IH.
Qed.

Lemma pool_tx_set_root h p tx r t :
  pool_tx h (Pool.set_root p r t) tx = Pool.set_root (pool_tx h p tx) r t.
Proof. unfold pool_tx. by rewrite spend_set_root, add_set_root. Qed.

Lemma foldl_set_root h txs p r t :
  foldl (pool_tx h) (Pool.set_root p r t) txs = Pool.set_root (foldl (pool_tx h) p txs) r t.
Proof.
  revert p. induction txs as [|tx txs IH]; intros p; [done|]. cbn [foldl].
  by rewrite pool_tx_set_root, IH.
Qed.

Lemma set_root_twice p r t r' t' :
  Pool.set_root (Pool.set_root p r t) r' t' = Pool.set_root p r' t'.
Proof. done. Qed.

(** Applying transactions one after the other. *)
Definition apply_all (now h : Z) (p : UTXOPool) (txs : list Transaction) : UTXOPool :=
  foldl (λ p tx, apply_tx now p tx h) p txs.

Lemma apply_all_eq now h txs p : txs ≠ [] →
  apply_all now h p txs =
    (let q := foldl (pool_tx h) p txs in Pool.set_root q (CalculateMerkleRoot (utxos q)) now).
Proof.
  intros Hne. destruct txs as [|tx txs]; [done|]. clear Hne. revert p tx.
  induction txs as [|tx' txs IH]; intros p tx; [done|].
  change (apply_all now h p (tx :: tx' :: txs)) with (apply_all now h (apply_tx now p tx h) (tx' :: txs)).
  rewrite IH. cbv zeta. unfold apply_tx. fold (pool_tx h p tx).
  rewrite foldl_set_root, set_root_twice. done.
Qed.

Section world.
Context {K : KV}.

Lemma block_txs_pool now n txs : ∀ acc p accs owners p' accs' owners',
  acc = Done (p, accs, owners) →
  foldl (block_tx now n) acc txs = Done (p', accs', owners') →
  p' = foldl (pool_tx n) p txs.
Proof.
  induction txs as [|tx txs IH]; intros acc p accs owners p' accs' owners' -> H.
  { simpl in H. by injection H as -> _ _. }
  cbn [foldl] in H.
  destruct (block_tx now n (Done (p, accs, owners)) tx) as [[[p1 accs1] owners1]| |] eqn:E.
  - eapply IH in H; [|done]. cbn [foldl]. unfold block_tx in E. cbn [obind] in E.
    apply obind_Done_inv in E as (a & _ & E). by injection E as <- _ _.
  - exfalso. clear -H. induction txs as [|t txs IHt]; [done|]. cbn [foldl block_tx obind] in H. auto.
  - exfalso. clear -H. induction txs as [|t txs IHt]; [done|]. cbn [foldl block_tx obind] in H. auto.
Qed.

Lemma ProcessBlock_pool ro ro' now p w b p' w' e :
  ProcessBlockTransactions ro ro' now p w (Some b) = Done (p', w', e) →
  mu p = Unlocked ∧
  p' = (let q := foldl (pool_tx (bv_number b)) p (bv_txs b) in
        Pool.set_root q (CalculateMerkleRoot (utxos q)) now).
Proof.
  intros [Hmu H]%locked_Done. split; [done|].
  apply obind_Done_inv in H as ([[q accs] owners] & Hq & H).
  eapply block_txs_pool in Hq; [|done]. subst q.
  apply obind_Done_inv in H as (w1 & _ & H). apply obind_Done_inv in H as (w2 & _ & H).
  apply obind_Done_inv in H as ([db e'] & _ & H). by injection H as <- _ _.
Qed.

Lemma add_all_pool ro ro' now h txs : ∀ p w p' w',
  add_all ro ro' now p w ((λ tx, (tx, h)) <$> txs) = Done (p', w') → p' = apply_all now h p txs.
Proof.
  induction txs as [|tx txs IH]; intros p w p' w' H; simpl in H.
  { by injection H as <- _. }
  apply obind_Done_inv in H as ([p1 w1] & Hadd & H). apply AddUTXO_pool in Hadd as [_ ->].
  by apply IH in H.
Qed.

(** C3 Processing a block leaves the pool exactly as adding its transactions one
    by one, in the same order, with [AddUTXO]: outputs, spent flags, tracked
    updates, root and time. *)
Theorem ProcessBlock_refines_AddUTXO (ro ro' : range_order) (now : Z) (p : UTXOPool) (w : World)
    (b : block_view) (p1 p2 : UTXOPool) (w1 w2 : World) (e : error) :
  bv_txs b ≠ [] →
  ProcessBlockTransactions ro ro' now p w (Some b) = Done (p1, w1, e) →
  add_all ro ro' now p w ((λ tx, (tx, bv_number b)) <$> bv_txs b) = Done (p2, w2) →
  p1 = p2.
Proof.
  intros Hne [_ ->]%ProcessBlock_pool ->%add_all_pool. by rewrite apply_all_eq.
Qed.

(** ** Processing a block returns *)

(** A step of the accounts that keeps the database there. *)
Definition keeps_db {A} (m : outcome (A * Database * gmap string account_ref)) : Prop :=
  returns m (λ acc, is_Some acc.1.2).

Lemma db_Put_returns (db : Database) k v : is_Some db → returns (db_Put db k v) (λ r, is_Some r.1).
Proof. intros [ldb ->]. unfold db_Put. destruct (levelDB.Put ldb k v). by apply returns_Done. Qed.

Lemma GetAccountState_returns am (db : Database) a : is_Some db →
  returns (GetAccountState am db a) (λ r, is_Some r.1.2).
Proof.
  intros Hdb. unfold GetAccountState. destruct (accounts am !! a); [by apply returns_Done|].
  apply (returns_bind _ _ (λ _, True)).
  { unfold loadAccountState, db_Get. destruct Hdb as [ldb ->]. cbn [obind].
    destruct (levelDB.Get ldb _) as [d|]; [|by apply returns_Done]. destruct (document d) as [j|]; [|by apply returns_Done].
    destruct (read_AccountState j); by apply returns_Done. }
  intros [s|e] _; [by apply returns_Done|]. apply (returns_bind _ _ (λ r, is_Some r.1)).
  - unfold saveAccountState. destruct (marshal_AccountState _); [by apply db_Put_returns|by apply returns_Done].
  - intros [db' e'] Hdb'. by apply returns_Done.
Qed.

Lemma block_debit_returns now p tx acc : is_Some acc.1.2 → returns (block_debit now p tx acc) (λ r, is_Some r.1.2).
Proof.
  intros Hdb. unfold block_debit. destruct (negb _ && negb _); [|by apply returns_Done].
  unfold debit_sender. destruct acc as [[am db] refs]. apply (returns_bind _ _ (λ r, is_Some r.1.2)).
  - by apply GetAccountState_returns.
  - intros [[am' db'] s] Hdb'. by apply returns_Done.
Qed.

Lemma block_credit_returns now p acc e : keeps_db acc → keeps_db (block_credit now p acc e).
Proof.
  intros Hacc. apply (returns_bind _ _ (λ r, is_Some r.1.2)); [exact Hacc|]. intros [[am db] refs] Hdb.
  destruct e as [owner keys]. apply (returns_bind _ _ (λ r, is_Some r.1.2)).
  - by apply GetAccountState_returns.
  - intros [[am' db'] s] Hdb'. cbv zeta. destruct (foldl _ _ keys) as [bal us].
    destruct (f64_eq _ _); by apply returns_Done.
Qed.

Lemma block_tx_returns now n acc tx :
  returns acc (λ r, ∀ a, r.1.2 = Some a → is_Some a.1.2) →
  returns (block_tx now n acc tx) (λ r, ∀ a, r.1.2 = Some a → is_Some a.1.2).
Proof.
  intros Hacc. apply (returns_bind _ _ _ _ Hacc). intros [[p accs] owners] Ha. cbn in Ha. cbv zeta.
  apply (returns_bind _ _ (λ accs, ∀ a, accs = Some a → is_Some a.1.2)).
  - destruct accs as [a|]; [|by apply returns_Done]. apply (returns_bind _ _ (λ r, is_Some r.1.2)).
    + by apply block_debit_returns, Ha.
    + intros a' Ha'. apply returns_Done. by intros ? [= <-].
  - intros accs' Ha'. by apply returns_Done.
Qed.

Lemma BatchUpdateAccounts_returns ro now am (db : Database) m : is_Some db →
  returns (BatchUpdateAccounts ro now am db m) (λ r, is_Some r.1.2).
Proof.
  intros [ldb ->]. unfold BatchUpdateAccounts. destruct (foldl _ _ _) as [[am' ops] [e|]]; [by apply returns_Done|].
  destruct (levelDB.batch_Write ldb ops). by apply returns_Done.
Qed.

Lemma CreateSnapshot_returns now p w h hash : is_Some (w_db w) →
  returns (CreateSnapshot now p w h hash) (λ r, is_Some (w_db r.1)).
Proof.
  intros Hdb. unfold CreateSnapshot. apply (returns_bind _ _ (λ r, is_Some r.1)).
  - unfold saveSnapshot. destruct Hdb as [ldb ->]. destruct (marshal_UtxoSnapshot _); [|by apply returns_Done].
    apply (returns_bind _ _ (λ r, is_Some r.1)); [by apply db_Put_returns|].
    intros [db [e|]] Hdb; by apply returns_Done.
  - intros [db e] Hdb'. by apply returns_Done.
Qed.

Lemma mu_spend_inputs p tx : mu (Pool.spend_inputs p tx) = mu p.
Proof.
  unfold Pool.spend_inputs. destruct (Tx.is_system tx); [done|]. induction (Inputs tx) as [|i l IH] using rev_ind; [done|].
  rewrite foldl_app. cbn [foldl]. unfold Pool.spend_input. by destruct (utxos _ !! _).
Qed.

Lemma mu_add_outputs p tx h : mu (Pool.add_outputs p tx h) = mu p.
Proof.
  unfold Pool.add_outputs. induction (Pool.indexed tx) as [|io l IH] using rev_ind; [done|]. by rewrite foldl_app.
Qed.

Lemma mu_pool_txs h txs p : mu (foldl (pool_tx h) p txs) = mu p.
Proof.
  revert p. induction txs as [|tx txs IH]; intros p; [done|]. cbn [foldl]. rewrite IH. unfold pool_tx.
  by rewrite mu_add_outputs, mu_spend_inputs.
Qed.

(** With a database, a block is processed whatever its transactions are: the
    call neither panics nor blocks, and leaves the pool unlocked. *)
Lemma ProcessBlock_returns ro ro' now p w b : mu p = Unlocked → is_Some (w_db w) →
  returns (ProcessBlockTransactions ro ro' now p w (Some b)) (λ r, mu r.1.1 = Unlocked ∧ is_Some (w_db r.1.2)).
Proof.
  intros Hmu Hdb. cut (returns (ProcessBlockTransactions ro ro' now p w (Some b)) (λ r, is_Some (w_db r.1.2))).
  { intros ([[p' w'] e] & E & Hw). exists (p', w', e). split; [done|]. split; [|done].
    apply ProcessBlock_pool in E as [_ ->]. cbn. by rewrite mu_pool_txs. }
  unfold ProcessBlockTransactions, Pool.locked. rewrite Hmu. cbn [mutex_Lock obind].
  apply (returns_bind _ _ (λ r, ∀ a, r.1.2 = Some a → is_Some a.1.2)).
  { apply returns_foldl; [by intros; apply block_tx_returns|]. apply returns_Done. cbn.
    by intros a (am & _ & ->)%fmap_Some. }
  intros [[q accs] owners] Ha. cbn in Ha. apply (returns_bind _ _ (λ w, is_Some (w_db w))).
  - destruct accs as [a|]; [|by apply returns_Done]. apply (returns_bind _ _ (λ r, is_Some r.1.2)).
    + apply (returns_foldl (block_credit now q) (λ r, is_Some r.1.2)); [by intros; apply block_credit_returns|].
      apply returns_Done. by apply Ha.
    + intros [[am db] refs] Hdb'. destruct (0 <? size refs)%nat; [|by apply returns_Done].
      apply (returns_bind _ _ (λ r, is_Some r.1.2)); [by apply BatchUpdateAccounts_returns|].
      intros [[am' db'] e] Hdb''. by apply returns_Done.
  - intros w1 Hw1. cbv zeta. apply (returns_bind _ _ (λ w, is_Some (w_db w))).
    + destruct (_ || _); [|by apply returns_Done]. apply (returns_bind _ _ (λ r, is_Some (w_db r.1))).
      * by apply CreateSnapshot_returns.
      * intros [w2 e] Hw2. by apply returns_Done.
    + intros w2 Hw2. apply (returns_bind _ _ (λ r, is_Some r.1)).
      * unfold saveState. destruct (marshal_map _ _); [by apply db_Put_returns|by apply returns_Done].
      * intros [db e] Hdb'. by apply returns_Done.
Qed.

(** ** Reachable pools *)
Inductive pool_step : UTXOPool → World → UTXOPool → World → Prop :=
  | step_add ro ro' now p w tx h p' w' :
      AddUTXO ro ro' now p w tx h = Done (p', w') → pool_step p w p' w'
  | step_remove now p w txid i p' w' :
      RemoveUTXO now p w txid i = Done (p', w') → pool_step p w p' w'
  | step_chunk p w chunk p' e :
      ApplyStateChunk p chunk = Done (p', e) → pool_step p w p' w
  | step_delta ro p w delta p' w' e :
      ApplyDeltaUpdate ro p w delta = Done (p', w', e) → pool_step p w p' w'
  | step_block ro ro' now p w b p' w' e :
      ProcessBlockTransactions ro ro' now p w b = Done (p', w', e) → pool_step p w p' w'
  | step_clone p w p' : Clone p = Done p' → pool_step p w p' w.

Inductive pool_reachable : UTXOPool → World → Prop :=
  | reach_new w : pool_reachable Pool.NewUTXOPool w
  | reach_step p w p' w' : pool_reachable p w → pool_step p w p' w' → pool_reachable p' w'.

Definition root_ok (p : UTXOPool) : Prop :=
  merkleRoot p = CalculateMerkleRoot (utxos p) ∧ snapshots p = [] ∧ mu p = Unlocked.

(** Adding transactions leaves the lock and the in-memory snapshots alone. *)
Lemma pool_tx_frame h p tx :
  mu (pool_tx h p tx) = mu p ∧ snapshots (pool_tx h p tx) = snapshots p.
Proof.
  unfold pool_tx, Pool.add_outputs.
  assert (∀ l q, mu (foldl (Pool.add_output tx h) q l) = mu q ∧
    snapshots (foldl (Pool.add_output tx h) q l) = snapshots q) as Ha.
  { induction l as [|io l IHl]; intros q; [done|]. cbn [foldl]. by destruct (IHl (Pool.add_output tx h q io)). }
  destruct (Ha (Pool.indexed tx) (Pool.spend_inputs p tx)) as [-> ->].
  unfold Pool.spend_inputs. destruct (Tx.is_system tx); [done|].
  assert (∀ l q, mu (foldl Pool.spend_input q l) = mu q ∧
    snapshots (foldl Pool.spend_input q l) = snapshots q) as Hs; [|apply Hs].
  induction l as [|i l IHl]; intros q; [done|]. cbn [foldl].
  destruct (IHl (Pool.spend_input q i)) as [-> ->]. unfold Pool.spend_input. by case_match.
Qed.

Lemma foldl_frame h txs : ∀ p, mu (foldl (pool_tx h) p txs) = mu p ∧
  snapshots (foldl (pool_tx h) p txs) = snapshots p.
Proof.
  induction txs as [|tx txs IH]; intros p; [done|]. cbn [foldl].
  destruct (IH (pool_tx h p tx)) as [-> ->]. apply pool_tx_frame.
Qed.

Lemma pool_step_root p w p' w' : pool_step p w p' w' → root_ok p → root_ok p'.
Proof.
  intros Hstep (Hr & Hs & Hm). destruct Hstep as [ro ro' now p w tx h p' w' H
    |now p w txid i p' w' H|p w chunk p' e H|ro p w delta p' w' e H|ro ro' now p w b p' w' e H|p w p' H].
  - apply AddUTXO_pool in H as [_ ->]. fold (pool_tx h p tx). unfold apply_tx.
    fold (pool_tx h p tx). destruct (pool_tx_frame h p tx) as [Hm' Hs'].
    split_and!; [done| |]; cbn [snapshots mu Pool.set_root]; congruence.
  - apply locked_Done in H as [_ H]. apply obind_Done_inv in H as ([db e] & _ & H).
    by injection H as <- _.
  - apply locked_Done in H as [_ H]. by injection H as <- _.
  - unfold ApplyDeltaUpdate in H. apply obind_Done_inv in H as (e' & _ & H). destruct e'.
    { by injection H as <- _ _. }
    apply locked_Done in H as [_ H]. apply obind_Done_inv in H as ([db e'] & _ & H).
    by injection H as <- _ _.
  - destruct b as [b|]; [|by injection H as <- _ _].
    apply ProcessBlock_pool in H as [_ ->]. cbv zeta.
    destruct (foldl_frame (bv_number b) (bv_txs b) p) as [Hm' Hs'].
    split_and!; [done| |]; cbn [snapshots mu Pool.set_root]; congruence.
  - unfold Clone, Pool.rlocked in H. rewrite Hm in H. cbn in H. by injection H as <-.
Qed.

(** C11 In every pool that the operations can reach from a new one, the stored
    Merkle root is the root of the current set, and the pool's lock is free
    between operations. *)
Theorem reachable_root (p : UTXOPool) (w : World) :
  pool_reachable p w → merkleRoot p = CalculateMerkleRoot (utxos p) ∧ mu p = Unlocked.
Proof.
  intros H. assert (root_ok p) as (? & ? & ?); [|done].
  induction H as [w|p w p' w' _ IH Hstep]; [done|]. by eapply pool_step_root.
Qed.

(** ** Reorganisation *)
Lemma foldl_stuck {A B} (f : outcome A → B → outcome A) l :
  (∀ b, f Deadlock b = Deadlock) → foldl f Deadlock l = Deadlock.
Proof. intros Hf. induction l as [|b l IH]; [done|]. cbn [foldl]. by rewrite Hf. Qed.

Lemma AddUTXO_locked ro ro' now p w tx h : mu p = Locked → AddUTXO ro ro' now p w tx h = Deadlock.
Proof. intros Hm. unfold AddUTXO, Pool.locked. by rewrite Hm. Qed.

Lemma reorg_blocks_deadlock ro ro' now blocks p w : mu p = Locked →
  (∃ b, b ∈ blocks ∧ bv_txs b ≠ []) →
  foldl (λ acc block,
    foldl (λ acc tx, let! (p, w) := acc in AddUTXO ro ro' now p w tx (bv_number block))
      acc (bv_txs block)) (Done (p, w)) blocks = Deadlock.
Proof.
  intros Hm. induction blocks as [|b blocks IH]; intros (b' & Hin & Hne).
  { by apply elem_of_nil in Hin. }
  cbn [foldl]. destruct (bv_txs b) as [|tx txs] eqn:Htx.
  - apply IH. apply elem_of_cons in Hin as [->|Hin]; [done|]. eauto.
  - cbn [foldl obind]. rewrite AddUTXO_locked by done.
    rewrite foldl_stuck by done. apply foldl_stuck. intros b2. by apply foldl_stuck.
Qed.

(** A reorganisation never completes: in a pool that has an in-memory snapshot
    to restore, the first transaction of the new branch is added while the
    pool's lock is held, and the call blocks for ever. *)
Theorem HandleReorg_deadlocks (ro ro' : range_order) (now : Z) (p : UTXOPool) (w : World)
    (oldChain newChain : list block_view) :
  mu p = Unlocked →
  (∃ s, s ∈ snapshots p ∧ ss_Height s ≤ findLastCommonBlock oldChain newChain) →
  (∃ b, b ∈ drop (Z.to_nat (findLastCommonBlock oldChain newChain + 1)) newChain ∧ bv_txs b ≠ []) →
  HandleReorg ro ro' now p w oldChain newChain = Deadlock.
Proof.
  intros Hm (s & Hs & Hh) Hb. unfold HandleReorg. rewrite Hm. cbn [mutex_Lock obind]. cbv zeta.
  set (c := findLastCommonBlock oldChain newChain) in *. unfold restoreSnapshot.
  cbn [snapshots Pool.set_mu].
  destruct (find _ (reverse (snapshots p))) as [s'|] eqn:F.
  2: { apply find_none with (x := s) in F; [lia|]. apply list_elem_of_In. by rewrite elem_of_reverse. }
  destruct (Z.ltb_spec (Z.of_nat (length newChain)) (c + 1)) as [Hlt|Hge].
  { exfalso. destruct Hb as (b & Hb & _). rewrite drop_ge in Hb by lia. by apply elem_of_nil in Hb. }
  rewrite reorg_blocks_deadlock; done.
Qed.

(** No operation records an in-memory snapshot, so in every reachable pool a
    reorganisation returns an error and changes nothing. *)
Theorem HandleReorg_no_snapshot (ro ro' : range_order) (now : Z) (p : UTXOPool) (w : World)
    (oldChain newChain : list block_view) :
  pool_reachable p w →
  HandleReorg ro ro' now p w oldChain newChain =
    Done (p, w, Some ("no snapshot found for height " +:+ fmt_d (findLastCommonBlock oldChain newChain))).
Proof.
  intros H. assert (root_ok p) as (_ & Hs & Hm).
  { induction H as [w|p w p' w' _ IH Hstep]; [done|]. by eapply pool_step_root. }
  unfold HandleReorg. rewrite Hm. cbn [mutex_Lock obind]. unfold restoreSnapshot.
  cbn [snapshots Pool.set_mu]. rewrite Hs. simpl. by destruct p; simpl in *; subst.
Qed.

(** ** Deltas *)
Lemma VerifyDeltaUpdate_root ro p delta : VerifyDeltaUpdate ro p delta = Done None →
  CalculateMerkleRoot (apply_delta (utxos p) delta) = du_StateRoot delta.
Proof.
  intros [_ H]%locked_Done. injection H as H. destruct (omap _ _); [|done].
  destruct (str_eqb _ _) eqn:E; [|done]. by apply str_eqb_eq.
Qed.

(** A delta is applied only if it leads to the state root it announces: on
    success the pool's set is the delta applied to the old set and its root the
    announced one; on an error pool and database are left as they were. *)
Theorem ApplyDeltaUpdate_spec (ro : range_order) (p : UTXOPool) (w : World) (delta : DeltaUpdate)
    (p' : UTXOPool) (w' : World) (e : error) :
  ApplyDeltaUpdate ro p w delta = Done (p', w', e) →
  match e with
  | None => utxos p' = apply_delta (utxos p) delta ∧ merkleRoot p' = du_StateRoot delta ∧
            merkleRoot p' = CalculateMerkleRoot (utxos p')
  | Some _ => p' = p ∧ w' = w
  end.
Proof.
  unfold ApplyDeltaUpdate. intros H. apply obind_Done_inv in H as ([e'|] & Hv & H).
  { by injection H as <- <- <-. }
  apply VerifyDeltaUpdate_root in Hv. apply locked_Done in H as [_ H].
  apply obind_Done_inv in H as ([db e'] & _ & H). injection H as <- _ <-. done.
Qed.

(** The updates and deletions that a pool has recorded lead from [m] to its set. *)
Definition records (m : utxo_set) (p : UTXOPool) : Prop := ∀ k,
  utxos p !! k = if bool_decide (k ∈ deletions p) then None else (default ∅ (updates p) ∪ m) !! k.

(** None of the transaction's outputs has the key of an output that was removed. *)
Definition fresh_outputs (p : UTXOPool) (tx : Transaction) : Prop :=
  ∀ i o, Outputs tx !! i = Some o → Pool.output_key tx i ∉ deletions p.

(** What a sender does between two synchronisations: it adds transactions and blocks
    and removes outputs. *)
Inductive sender_step : UTXOPool → UTXOPool → Prop :=
  | sent_add ro ro' now p w tx h p' w' :
      AddUTXO ro ro' now p w tx h = Done (p', w') → fresh_outputs p tx → sender_step p p'
  | sent_block ro ro' now p w b p' w' e :
      ProcessBlockTransactions ro ro' now p w (Some b) = Done (p', w', e) → Forall (fresh_outputs p) (bv_txs b) →
      sender_step p p'
  | sent_remove now p w txid i p' w' : RemoveUTXO now p w txid i = Done (p', w') → sender_step p p'.

Lemma put_records m p k u : k ∉ deletions p → records m p → records m (Pool.put_tracked p k u).
Proof.
  intros Hk Hr k'. unfold Pool.put_tracked. cbn. rewrite <-insert_union_l. destruct (decide (k = k')) as [<-|Hne].
  - by rewrite !lookup_insert_eq, bool_decide_eq_false_2.
  - rewrite !lookup_insert_ne by done. apply Hr.
Qed.

Lemma spend_inputs_records m p tx : records m p →
  records m (Pool.spend_inputs p tx) ∧ deletions (Pool.spend_inputs p tx) = deletions p.
Proof.
  unfold Pool.spend_inputs. destruct (Tx.is_system tx); [done|]. revert p. induction (Inputs tx) as [|i ins IH]; intros p Hr; [done|].
  cbn [foldl]. assert (records m (Pool.spend_input p i) ∧ deletions (Pool.spend_input p i) = deletions p) as [H1 H2].
  { unfold Pool.spend_input. destruct (utxos p !! input_key i) as [u|] eqn:Hu; [|done]. split; [|done]. apply put_records; [|done].
    intros Hin. by rewrite Hr, bool_decide_eq_true_2 in Hu. }
  rewrite <-H2. by apply IH.
Qed.

Lemma pool_tx_records m h p tx : fresh_outputs p tx → records m p →
  records m (pool_tx h p tx) ∧ deletions (pool_tx h p tx) = deletions p.
Proof.
  intros Hf Hr. destruct (spend_inputs_records m p tx Hr) as [H1 H2]. unfold pool_tx, Pool.add_outputs.
  assert (∀ io, io ∈ Pool.indexed tx → Pool.output_key tx io.1 ∉ deletions p) as Hio.
  { intros [i o] Hin. apply (Hf i o). by apply elem_of_indexed. }
  revert H1 H2. generalize (Pool.spend_inputs p tx). induction (Pool.indexed tx) as [|io l IH]; intros q H1 H2; [done|]. cbn [foldl].
  apply IH; [intros ? ?; apply Hio; by apply elem_of_cons; right| |done].
  apply put_records; [|done]. rewrite H2. apply Hio. by apply elem_of_cons; left.
Qed.

Lemma foldl_records m h txs : ∀ p, Forall (fresh_outputs p) txs → records m p → records m (foldl (pool_tx h) p txs).
Proof.
  induction txs as [|tx txs IH]; intros p Hf Hr; [done|]. apply Forall_cons in Hf as [Hx Hf].
  destruct (pool_tx_records m h p tx Hx Hr) as [H1 H2]. cbn [foldl]. apply IH; [|done].
  eapply Forall_impl; [exact Hf|]. intros tx' Htx' i o Ho. rewrite H2. by eapply Htx'.
Qed.

Lemma step_records m p p' : sender_step p p' → records m p → records m p' ∧ merkleRoot p' = CalculateMerkleRoot (utxos p').
Proof.
  intros Hs Hr. destruct Hs as [ro ro' now p w tx h p' w' [_ ->]%AddUTXO_pool Hf|ro ro' now p w b p' w' e [_ ->]%ProcessBlock_pool Hf|now p w txid i p' w' E].
  - split; [|done]. exact (proj1 (pool_tx_records m h p tx Hf Hr)).
  - split; [|done]. by apply (foldl_records m (bv_number b) (bv_txs b)).
  - apply locked_Done in E as [_ E]. apply obind_Done_inv in E as ([db e] & _ & E). injection E as <- _. split; [|done].
    intros k. cbn. destruct (decide (k = utxo_key txid i)) as [->|Hne].
    + rewrite lookup_delete_eq, bool_decide_eq_true_2; [done|]. apply elem_of_app. right. by apply list_elem_of_singleton.
    + rewrite lookup_delete_ne by done. rewrite Hr. rewrite (bool_decide_ext (k ∈ deletions p) (k ∈ deletions p ++ [utxo_key txid i])); [done|].
      rewrite elem_of_app, list_elem_of_singleton. split; [by left|by intros [?|?]].
Qed.

Lemma steps_records m p p' : rtc sender_step p p' → records m p → merkleRoot p = CalculateMerkleRoot (utxos p) →
  records m p' ∧ merkleRoot p' = CalculateMerkleRoot (utxos p').
Proof. induction 1 as [|p p1 p' Hs _ IH]; intros Hr Hm; [done|]. destruct (step_records m _ _ Hs Hr). by apply IH. Qed.

(** What a pool has recorded leads from its own set to its own set. *)
Lemma records_self m p : records m p → records (utxos p) p.
Proof.
  intros Hr k. rewrite lookup_union. pose proof (Hr k) as Hk. rewrite lookup_union in Hk. case_bool_decide; [done|].
  rewrite Hk. destruct (default ∅ (updates p) !! k); [by destruct (m !! k)|]. by destruct (m !! k).
Qed.

Lemma delete_keys ks (m : utxo_set) k :
  foldl (λ m k, delete k m) m ks !! k = if bool_decide (k ∈ ks) then None else m !! k.
Proof.
  revert m. induction ks as [|x ks IH]; intros m; [done|]. cbn [foldl]. rewrite IH.
  destruct (decide (k = x)) as [->|Hne].
  - rewrite lookup_delete_eq, (bool_decide_eq_true_2 (x ∈ x :: ks)) by (by apply elem_of_cons; left). by destruct (bool_decide _).
  - rewrite lookup_delete_ne by done. rewrite (bool_decide_ext (k ∈ x :: ks) (k ∈ ks)); [done|].
    rewrite elem_of_cons. split; [by intros [?|?]|by right].
Qed.

Lemma verify_all ro (m : utxo_set) : fair ro → map_Forall (λ _ u, verifyUTXO u = None) m →
  omap (λ e : string * UTXO, verifyUTXO e.2) (range ro m) = [].
Proof.
  intros Hro Hm. assert (∀ e, e ∈ range ro m → verifyUTXO e.2 = None) as H.
  { intros [k u]. rewrite (range_perm ro m Hro), elem_of_map_to_list. apply Hm. }
  induction (range ro m) as [|e l IH]; [done|]. cbn.
  rewrite H by (apply elem_of_cons; by left). apply IH. intros e' He'. apply H, elem_of_cons. by right.
Qed.

Lemma saveState_Done p ldb : ∃ db e, saveState p (Some ldb) = Done (db, e).
Proof.
  unfold saveState. destruct (marshal_map _ _); [|eauto]. unfold db_Put.
  destruct (levelDB.Put _ _ _). eauto.
Qed.

(** C19 A delta brings a replica up to date. The sender's pool starts with nothing
    recorded (a new pool, or one that was just loaded); then it adds transactions and
    blocks and removes outputs, in any order, but never creates an output with the key
    of one that was removed. A replica that has the set which the sender had at any
    moment since, with a database, accepts the sender's delta and ends with the
    sender's set and root, if the outputs that the sender recorded have an id and an
    amount that the replica's check accepts, and the sender's last change is after the
    time of the last synchronisation (or there was none, and the sets are equal). *)
Theorem delta_replicates (ro : range_order) (now lastSync : Z) (p0 pk p q : UTXOPool) (wq : World) (delta : DeltaUpdate) :
  fair ro → default ∅ (updates p0) = ∅ → deletions p0 = [] → merkleRoot p0 = CalculateMerkleRoot (utxos p0) →
  rtc sender_step p0 pk → rtc sender_step pk p →
  utxos q = utxos pk → mu q = Unlocked → is_Some (w_db wq) →
  lastSync < lastUpdateTime p ∨ utxos q = utxos p →
  GetDeltaUpdates now p lastSync = Done delta →
  map_Forall (λ _ u, verifyUTXO u = None) (du_UTXOUpdates delta) →
  ∃ q' wq', ApplyDeltaUpdate ro q wq delta = Done (q', wq', None) ∧ utxos q' = utxos p ∧ merkleRoot q' = merkleRoot p.
Proof.
  intros Hro Hup Hdel Hroot0 Hk Hp Hq Hmu [ldb Hdb] Htime Hd Hv.
  assert (records (utxos p0) p0) as H0 by (intros k; by rewrite Hup, Hdel, (left_id_L ∅ (∪))).
  destruct (steps_records _ _ _ Hk H0 Hroot0) as [Hrk Hrootk].
  destruct (steps_records _ _ _ Hp (records_self _ _ Hrk) Hrootk) as [Hr Hroot].
  apply locked_Done in Hd as [_ Hd]. injection Hd as Hd.
  assert (apply_delta (utxos q) delta = utxos p) as Happ.
  { apply map_eq. intros k. unfold apply_delta. rewrite delete_keys, <-Hd. cbn [du_UTXOUpdates du_UTXODeletions].
    destruct (Z.gtb_spec (lastUpdateTime p) lastSync); [by rewrite Hq, Hr|]. destruct Htime as [?|Heq]; [lia|].
    rewrite Heq, (left_id_L ∅ (∪)). pose proof (Hr k) as Hx. by case_bool_decide. }
  unfold ApplyDeltaUpdate, VerifyDeltaUpdate, Pool.locked. rewrite Hmu. cbn [mutex_Lock obind].
  rewrite (verify_all ro _ Hro Hv), Happ, <-Hd. cbn [du_StateRoot]. rewrite str_eqb_refl. cbn [negb]. rewrite ?Hd, ?Happ, Hdb.
  destruct (saveState_Done (Pool.set_root (Pool.set_utxos q (utxos p))
    (CalculateMerkleRoot (utxos p)) (du_UpdateTimestamp delta)) ldb) as (db & e & Hsave).
  rewrite Hsave. cbn [obind]. eexists _, _. split; [done|]. by rewrite Hroot.
Qed.

(** ** Chunks *)
Lemma chunk_map_lookup m ks k : chunk_map m ks !! k =
  if bool_decide (k ∈ ks) then Some (default zero_utxo (m !! k)) else None.
Proof.
  unfold chunk_map. induction ks as [|x ks IH] using rev_ind; [done|].
  rewrite foldl_snoc. destruct (decide (k = x)) as [->|Hne].
  - rewrite lookup_insert_eq, bool_decide_eq_true_2; [done|]. apply elem_of_app. right. by apply elem_of_cons; left.
  - rewrite lookup_insert_ne, IH by done.
    rewrite (bool_decide_ext (k ∈ ks ++ [x]) (k ∈ ks)); [done|].
    rewrite elem_of_app, list_elem_of_singleton. split; [by intros [?|?]|by left].
Qed.

(** The chunks put together, on top of a set. *)
Definition join_chunks (m0 : utxo_set) (chunks : list StateChunk) : utxo_set :=
  foldl (λ m c, sc_UTXOs c ∪ m) m0 chunks.

Lemma chunk_loop_join m all size total : (0 < size)%nat → ∀ fuel id rest m0 k,
  (length rest ≤ fuel)%nat →
  join_chunks m0 (chunk_loop fuel m all size total id rest) !! k =
    if bool_decide (k ∈ rest) then Some (default zero_utxo (m !! k)) else m0 !! k.
Proof.
  intros Hsize. induction fuel as [|fuel IH]; intros id rest m0 k Hlen.
  { destruct rest; [done|simpl in Hlen; lia]. }
  destruct rest as [|x rest]; [done|]. cbn [chunk_loop join_chunks foldl sc_UTXOs].
  fold (join_chunks (chunk_map m (take size (x :: rest)) ∪ m0)
    (chunk_loop fuel m all size total (S id) (drop size (x :: rest)))).
  rewrite IH by (rewrite length_drop; simpl in *; lia).
  rewrite lookup_union, chunk_map_lookup. set (l := x :: rest) in *.
  assert (k ∈ l ↔ k ∈ take size l ∨ k ∈ drop size l) as Hin.
  { rewrite <-elem_of_app. by rewrite take_drop. }
  destruct (decide (k ∈ drop size l)) as [Hd|Hd].
  { rewrite !bool_decide_eq_true_2; [done| |done]. apply Hin. by right. }
  rewrite (bool_decide_eq_false_2 _ Hd). destruct (decide (k ∈ take size l)) as [Ht|Ht].
  - rewrite !bool_decide_eq_true_2; [|apply Hin; by left|done]. by destruct (m0 !! k).
  - rewrite !bool_decide_eq_false_2; [|intros H; by apply Hin in H as [?|?]|done]. by destruct (m0 !! k).
Qed.

(** Applying a list of chunks in turn. *)
Fixpoint apply_chunks (p : UTXOPool) (chunks : list StateChunk) : outcome UTXOPool :=
  match chunks with
  | [] => Done p
  | c :: chunks => let! (p, _) := ApplyStateChunk p c in apply_chunks p chunks
  end.

Lemma apply_chunks_eq chunks : ∀ p, mu p = Unlocked → chunks ≠ [] →
  ∃ q, apply_chunks p chunks = Done q ∧ utxos q = join_chunks (utxos p) chunks ∧
    merkleRoot q = CalculateMerkleRoot (utxos q).
Proof.
  induction chunks as [|c chunks IH]; intros p Hm Hne; [done|]. cbn [apply_chunks].
  unfold ApplyStateChunk, Pool.locked. rewrite Hm. cbn [mutex_Lock obind].
  destruct chunks as [|c' chunks]; [by eexists|]. by apply IH.
Qed.

(** C29 A state transfer is complete: the chunks of a non-empty pool, for any
    positive chunk size, rebuild its exact set and its Merkle root in a pool
    that starts empty. *)
Theorem chunks_rebuild (p : UTXOPool) (chunkSize : Z) (chunks : list StateChunk) :
  0 < chunkSize → utxos p ≠ ∅ → GetStateChunks p chunkSize = Done chunks →
  ∃ q, apply_chunks Pool.NewUTXOPool chunks = Done q ∧ utxos q = utxos p ∧
    merkleRoot q = CalculateMerkleRoot (utxos p).
Proof.
  intros Hc Hne H. apply locked_Done in H as [_ H]. cbv zeta in H.
  rewrite (proj2 (Z.eqb_neq chunkSize 0)), (proj2 (Z.ltb_ge chunkSize 0)) in H by lia.
  injection H as <-. set (keys := sorted_keys (utxos p)). set (chunks := chunk_loop _ _ _ _ _ _ _).
  assert (length keys ≠ 0%nat) as Hk.
  { unfold keys. rewrite length_sorted_keys. by intros ?%map_size_empty_iff. }
  destruct (apply_chunks_eq chunks Pool.NewUTXOPool) as (q & Hq & Hu & Hr); [done| |].
  { unfold chunks. destruct keys as [|x keys]; [done|]. done. }
  assert (utxos q = utxos p) as Heq; [|exists q; by rewrite Hr, Heq].
  rewrite Hu. apply map_eq. intros k. unfold chunks. rewrite chunk_loop_join by lia.
  change (utxos Pool.NewUTXOPool !! k) with (None : option UTXO).
  destruct (utxos p !! k) as [u|] eqn:Hl.
  - rewrite bool_decide_eq_true_2; [done|]. apply elem_of_sorted_keys. by exists u.
  - rewrite bool_decide_eq_false_2; [done|]. unfold keys. rewrite elem_of_sorted_keys, Hl. by intros [? ?].
Qed.

End world.
