(* ===== verification/UtxoSelect.v ===== *)
(** * Balances, input selection and chunk verification

    The balance of an address does not depend on the iteration order when the
    amounts are whole numbers; the inputs selected for a transaction are the
    sender's, unspent and sufficient; the verification loop of a chunk ends. *)

From stdpp Require Import base gmap strings list sorting pretty.
From Stdlib Require Import ZArith Lia.
From S2P Require Import Prelude.
From S2P Require Import Float64.
From S2P Require Import Sha256.
From S2P Require Import Json.
From S2P Require Import Database.
From S2P Require Import Merkle.
From S2P Require Import Transaction.
From S2P Require Import Account.
From S2P Require Import Utxo.
From S2P Require Import UtxoSync.
From S2P Require Import UtxoFacts.
From S2P Require Import UtxoSyncFacts.

(** ** Selection *)
Definition amount_total (us : list UTXO) : float64 := f64_sum (utxo_Amount <$> us).

Lemma amount_total_snoc us u : amount_total (us ++ [u]) = f64_add (amount_total us) (utxo_Amount u).
Proof. unfold amount_total, f64_sum. by rewrite fmap_app, foldl_app. Qed.

(** What the loop of [SelectUTXOs] returns, started after [sel0]. *)
Lemma select_loop_spec needed us : ∀ sel0 total0 sel total,
  total0 = amount_total sel0 →
  select_loop needed us sel0 total0 = (sel, total) →
  total = amount_total sel ∧
  ∃ taken, sel = sel0 ++ taken ∧
    Forall (λ u, u ∈ us ∧ utxo_Spent u = false) taken ∧
    (∀ a u b, taken = a ++ u :: b → b ≠ [] → f64_ge (amount_total (sel0 ++ a ++ [u])) needed = false).
Proof.
  induction us as [|u us IH]; intros sel0 total0 sel total Ht H; cbn [select_loop] in H.
  { injection H as <- <-. split; [done|]. exists []. rewrite app_nil_r.
    split_and!; [done..|]. intros a u b Ha. by destruct a. }
  destruct (utxo_Spent u) eqn:Hs.
  { destruct (IH _ _ _ _ Ht H) as (? & taken & -> & Hf & Hm). split; [done|].
    exists taken. split_and!; [done| |done]. eapply Forall_impl; [exact Hf|].
    intros v [? ?]. split; [apply elem_of_cons; by right|done]. }
  rewrite Ht, <-amount_total_snoc in H. destruct (f64_ge (amount_total (sel0 ++ [u])) needed) eqn:Hge.
  - injection H as <- <-. split; [done|]. exists [u]. split_and!; [done| |].
    + constructor; [split; [apply elem_of_cons; by left|done]|constructor].
    + intros [|x a] v b Heq Hb; [by injection Heq as _ <-|]. injection Heq as _ Heq. by destruct a.
  - destruct (IH _ _ _ _ eq_refl H) as (? & taken & -> & Hf & Hm). split; [done|].
    exists (u :: taken). rewrite <-(assoc_L (++)). split_and!; [done| |].
    + constructor; [split; [apply elem_of_cons; by left|done]|]. eapply Forall_impl; [exact Hf|].
      intros v [? ?]. split; [apply elem_of_cons; by right|done].
    + intros [|x a] v b [= <- Hb] Hne; [done|].
      specialize (Hm a v b Hb Hne). by rewrite <-(assoc_L (++)) in Hm.
Qed.

Definition input_of (u : UTXO) : TransactionInput := mkTransactionInput (utxo_TransactionID u) (utxo_OutputIndex u) "".

Lemma set_io_id tx : Tx.set_io tx (Inputs tx) (Outputs tx) = tx.
Proof. by destruct tx. Qed.

Lemma add_inputs sel : ∀ tx,
  foldl (λ tx u, Tx.AddInput tx (utxo_TransactionID u) (utxo_OutputIndex u) "") tx sel =
  Tx.set_io tx (Inputs tx ++ (input_of <$> sel)) (Outputs tx).
Proof.
  induction sel as [|u sel IH]; intros tx; cbn [foldl].
  { cbn. by rewrite app_nil_r, set_io_id. }
  rewrite IH. unfold Tx.AddInput, Tx.set_io. cbn. by rewrite <-(assoc_L (++)).
Qed.

(** The change that is returned to the sender. *)
Definition change_output (sender : string) (change : float64) : list TransactionOutput :=
  if f64_gt change f64_zero then [mkTransactionOutput sender change ""] else [].

Lemma SelectUTXOs_inv ro tx tx' p : SelectUTXOs ro tx (Some p) = Done (tx', None) →
  let needed := f64_add (Amount tx) (GasFee tx) in
  ∃ sel,
    Forall (λ u, u ∈ filter (λ u, utxo_Owner u = Sender tx) (range ro (utxos p)).*2 ∧ utxo_Spent u = false) sel ∧
    f64_lt (amount_total sel) needed = false ∧
    (∀ a u b, sel = a ++ u :: b → b ≠ [] → f64_ge (amount_total (a ++ [u])) needed = false) ∧
    tx' = Tx.set_io tx (Inputs tx ++ (input_of <$> sel))
            (Outputs tx ++ change_output (Sender tx) (f64_sub (amount_total sel) needed)).
Proof.
  intros H needed. unfold SelectUTXOs in H. fold needed in H.
  apply obind_Done_inv in H as (us & Hus & H).
  assert (us = filter (λ u, utxo_Owner u = Sender tx) (range ro (utxos p)).*2) as Hus'.
  { revert Hus. unfold GetUTXOsForAddress, Pool.rlocked. destruct (mu p); by intros [= <-]. }
  destruct (length us =? 0)%nat; [done|]. set (lt := λ a b : UTXO, _) in H.
  destruct (select_loop needed (stable_sort lt us) [] f64_zero) as [sel total] eqn:Hsel.
  apply select_loop_spec in Hsel as (-> & taken & -> & Hf & Hm); [|done].
  destruct (f64_lt (amount_total ([] ++ taken)) needed) eqn:Hlt; [done|]. cbn [app] in *.
  injection H as <-. exists taken. rewrite add_inputs. split_and!; [|done|done|].
  - eapply Forall_impl; [exact Hf|]. intros u [Hu Hs]. by rewrite stable_sort_perm, Hus' in Hu.
  - unfold Tx.AddChangeOutput, change_output. destruct (f64_gt _ f64_zero); [done|by rewrite app_nil_r].
Qed.

(** C31 When [SelectUTXOs] succeeds, the inputs it adds refer to unspent outputs
    of the sender in the pool, their sum is not below amount plus fee, no
    shorter prefix of them would have reached it, and what is left over goes
    back to the sender as the last output. *)
Theorem SelectUTXOs_sound (ro : range_order) (tx tx' : Transaction) (p : UTXOPool) :
  fair ro → SelectUTXOs ro tx (Some p) = Done (tx', None) →
  let needed := f64_add (Amount tx) (GasFee tx) in
  ∃ sel,
    Inputs tx' = Inputs tx ++
      (input_of <$> sel) ∧
    Forall (λ u, utxo_Owner u = Sender tx ∧ utxo_Spent u = false ∧ ∃ k, utxos p !! k = Some u) sel ∧
    f64_lt (amount_total sel) needed = false ∧
    (∀ a u b, sel = a ++ u :: b → b ≠ [] → f64_ge (amount_total (a ++ [u])) needed = false) ∧
    Outputs tx' = Outputs tx ++ change_output (Sender tx) (f64_sub (amount_total sel) needed).
Proof.
  intros Hro H needed. apply SelectUTXOs_inv in H as (sel & Hf & Hlt & Hm & ->). exists sel.
  split_and!; [done| |done..]. eapply Forall_impl; [exact Hf|]. intros u [[Ho Hu]%list_elem_of_filter Hs].
  split_and!; [done..|]. apply list_elem_of_fmap in Hu as ([k u'] & -> & Hu).
  rewrite (range_perm ro _ Hro), elem_of_map_to_list in Hu. by exists k.
Qed.

(** ** Balances *)
Lemma balance_filter address us : ∀ b,
  foldl (λ b u, if str_eqb (utxo_Owner u) address && negb (utxo_Spent u)
                then f64_add b (utxo_Amount u) else b) b us
  = foldl f64_add b (utxo_Amount <$>
      filter (λ u, utxo_Owner u = address ∧ utxo_Spent u = false) us).
Proof.
  induction us as [|u us IH]; intros b; [done|]. cbn [foldl]. rewrite filter_cons.
  destruct (str_eqb (utxo_Owner u) address) eqn:Ho; cbn [andb].
  - apply str_eqb_eq in Ho. destruct (utxo_Spent u) eqn:Hs; cbn [negb]; case_decide;
      first [apply IH|exfalso; intuition congruence].
  - apply str_eqb_neq in Ho. case_decide; [intuition congruence|apply IH].
Qed.

(** The unspent outputs of an address. *)
Definition owned (m : utxo_set) (address : string) : list UTXO :=
  filter (λ u, utxo_Owner u = address ∧ utxo_Spent u = false) (map_to_list m).*2.

(** The amounts of [l] are whole numbers of units that add up to less than [2^53]. *)
Definition total_units (units : UTXO → Z) (l : list UTXO) : Z := foldr Z.add 0 (units <$> l).
Definition whole_amounts (units : UTXO → Z) (l : list UTXO) : Prop :=
  Forall (λ u, 0 ≤ units u ∧ utxo_Amount u = f64_of_Z (units u)) l ∧ total_units units l < 2 ^ 53.

Lemma total_units_perm units l l' : l ≡ₚ l' → total_units units l = total_units units l'.
Proof. unfold total_units. induction 1; rewrite ?fmap_cons; cbn [foldr]; lia. Qed.

(** Such amounts are added exactly, in any order. *)
Lemma exact_sum units l l' : l ≡ₚ l' → whole_amounts units l' →
  foldl f64_add f64_zero (utxo_Amount <$> l) = f64_of_Z (total_units units l').
Proof.
  intros Hl [Hu Hsum]. rewrite <-Hl in Hu. rewrite <-(total_units_perm units l l' Hl) in Hsum |- *.
  replace (utxo_Amount <$> l) with (f64_of_Z <$> (units <$> l)).
  - apply f64_sum_of_Z; [|done]. apply Forall_fmap. eapply Forall_impl; [exact Hu|]. by intros u [? _].
  - rewrite <-list_fmap_compose. apply list_fmap_ext. intros i u Hi. simpl. symmetry.
    by apply (Forall_lookup_1 _ _ _ _ Hu Hi).
Qed.

Lemma whole_filter units (P : UTXO → Prop) `{!∀ u, Decision (P u)} l : whole_amounts units l → whole_amounts units (filter P l).
Proof.
  intros [Hu Hs]. split; [apply Forall_forall; intros u [_ Hin]%list_elem_of_filter; rewrite Forall_forall in Hu; by apply Hu|]. eapply Z.le_lt_trans; [|exact Hs]. clear Hs.
  unfold total_units. induction Hu as [|u l [Hu _] _ IH]; [done|]. rewrite filter_cons. case_decide; cbn in *; lia.
Qed.

(** With amounts that are whole numbers (in units of the float) summing to
    less than [2^53], the balance of an address is the exact sum of its unspent
    outputs, whatever order the map is visited in. *)
Theorem GetBalance_exact (ro : range_order) (p : UTXOPool) (address : string) (units : UTXO → Z) :
  fair ro → mu p = Unlocked → whole_amounts units (owned (utxos p) address) →
  GetBalance ro p address = Done (f64_of_Z (total_units units (owned (utxos p) address))).
Proof.
  intros Hro Hm Hu. unfold GetBalance, Pool.rlocked. rewrite Hm. cbn [mutex_RLock obind].
  f_equal. rewrite balance_filter. apply exact_sum; [|done]. unfold owned. by rewrite (range_perm ro _ Hro).
Qed.

(** ** The verification loop of a chunk ends *)
Lemma verify_level_length l proof :
  length (verify_level l proof).1 = half (length l) ∧
  (length (verify_level l proof).2 ≤ length proof)%nat.
Proof.
  revert proof. induction l as [|a|a b l IH] using pair_ind; intros proof; simpl; [by split| |].
  - destruct proof; simpl; split; [done|lia|done|lia].
  - specialize (IH proof). destruct (verify_level l proof) as [l' p']. simpl in *.
    rewrite half_SS. lia.
Qed.

Lemma verify_loop_ends fuel : ∀ level proof, (length level + length proof ≤ fuel)%nat →
  level ≠ [] → length (verify_loop fuel level proof) = 1%nat.
Proof.
  induction fuel as [|fuel IH]; intros level proof Hf Hne; [destruct level; simpl in *; [done|lia]|].
  cbn [verify_loop]. destruct (Nat.ltb_spec 1 (length level)) as [H1|H1].
  2: { destruct level as [|? [|? ?]]; simpl in *; [done|done|lia]. }
  destruct (verify_level_length level proof) as [Hl Hp].
  destruct (verify_level level proof) as [level' proof']. simpl in Hl, Hp.
  pose proof (half_le (length level)). pose proof (half_pos (length level)).
  assert (level' ≠ []) as Hne' by (intros ->; simpl in Hl; lia).
  destruct proof' as [|r proof'']; [apply IH; simpl; [lia|done]|]. simpl in Hp.
  destruct (Nat.ltb_spec 1 (length level')) as [H2|H2].
  - apply IH; [|by destruct level']. rewrite length_app. simpl. lia.
  - apply IH; [simpl; lia|done].
Qed.

(** The verification of a chunk with at least one output always returns a
    verdict, whatever the proof it carries; an empty chunk makes it panic. *)
Theorem VerifyStateChunk_returns (fmt_g : float64 → string) (ro : range_order) (p : UTXOPool)
    (chunk : StateChunk) :
  fair ro →
  if decide (sc_UTXOs chunk = ∅)
  then VerifyStateChunk fmt_g ro p chunk = Panic "index out of range"
  else ∃ e, VerifyStateChunk fmt_g ro p chunk = Done e.
Proof.
  intros Hro. unfold VerifyStateChunk. set (nodes := _ <$> range ro (sc_UTXOs chunk)).
  assert (length nodes = size (sc_UTXOs chunk)) as Hn.
  { unfold nodes. by rewrite length_fmap, (range_perm ro _ Hro), length_map_to_list. }
  case_decide as Hd.
  - rewrite Hd, map_size_empty in Hn. destruct nodes; [|done]. simpl.
    destruct (length (sc_MerkleProof chunk)); done.
  - assert (nodes ≠ []) as Hne by (intros ->; simpl in Hn; by symmetry in Hn; apply map_size_empty_iff in Hn).
    pose proof (verify_loop_ends _ nodes (sc_MerkleProof chunk) (le_n _) Hne) as Hl.
    destruct (verify_loop _ _ _); [done|]. case_match; eauto.
Qed.
