(* ===== verification/UtxoWitness.v ===== *)
(** * Concrete runs of the UTXO pool

    Instances of the theorems of [UtxoSyncFacts] and [UtxoSelect] on the pool
    [demo_pool]. *)

From stdpp Require Import base gmap strings list sorting pretty.
From Stdlib Require Import ZArith Lia.
From S2P Require Import Prelude.
From S2P Require Import Float64.
From S2P Require Import Sha256.
From S2P Require Import Json.
From S2P Require Import Database.
From S2P Require Import Merkle.
From S2P Require Import Transaction.
From S2P Require Import Account.
From S2P Require Import Utxo.
From S2P Require Import UtxoSync.
From S2P Require Import UtxoFacts.
From S2P Require Import UtxoSyncFacts.
From S2P Require Import UtxoSelect.

Lemma fair_no_order : fair no_order.
Proof. by intros l. Qed.

Definition demo_block : block_view := mkBlockView [demo_tx "t3"; demo_tx "t4"] 7 "00ff".
Definition demo_process : outcome (UTXOPool * World * error) :=
  ProcessBlockTransactions no_order no_order 50 demo_pool demo_world (Some demo_block).
Definition demo_seq : outcome (UTXOPool * World) :=
  add_all no_order no_order 50 demo_pool demo_world
    ((λ tx, (tx, bv_number demo_block)) <$> bv_txs demo_block).

Lemma ProcessBlock_refines_AddUTXO_witness :
  ∃ p1 w1 e p2 w2, demo_process = Done (p1, w1, e) ∧ demo_seq = Done (p2, w2) ∧ p1 = p2.
Proof.
  destruct (is_Done_inv demo_process ltac:(vm_compute; reflexivity)) as [[[p1 w1] e] E1].
  destruct (is_Done_inv demo_seq ltac:(vm_compute; reflexivity)) as [[p2 w2] E2].
  exists p1, w1, e, p2, w2. split; [exact E1|]. split; [exact E2|].
  apply (ProcessBlock_refines_AddUTXO no_order no_order 50 demo_pool demo_world demo_block
    p1 p2 w1 w2 e); [discriminate|exact E1|exact E2].
Defined.

Definition demo_first : outcome (UTXOPool * World) :=
  AddUTXO no_order no_order 50 Pool.NewUTXOPool demo_world (demo_tx "t3") 3.

Lemma demo_reachable : ∃ p w, demo_first = Done (p, w) ∧ pool_reachable p w ∧ utxos p ≠ ∅.
Proof.
  destruct (is_Done_inv demo_first ltac:(vm_compute; reflexivity)) as [[p w] E].
  exists p, w. split; [exact E|]. split.
  - eapply reach_step; [apply reach_new|]. eapply step_add. exact E.
  - apply AddUTXO_pool in E as [_ ->]. intros E.
    apply (f_equal (λ m, size m)) in E. by vm_compute in E.
Qed.

Lemma reachable_root_witness :
  ∃ p w, demo_first = Done (p, w) ∧ merkleRoot p = CalculateMerkleRoot (utxos p).
Proof.
  destruct demo_reachable as (p & w & E & Hr & _). exists p, w. split; [exact E|].
  apply (reachable_root p w Hr).
Defined.

Lemma HandleReorg_no_snapshot_witness :
  ∃ p w, demo_first = Done (p, w) ∧
    HandleReorg no_order no_order 60 p w [demo_block] [demo_block]
      = Done (p, w, Some "no snapshot found for height 0").
Proof.
  destruct demo_reachable as (p & w & E & Hr & _). exists p, w. split; [exact E|].
  exact (HandleReorg_no_snapshot no_order no_order 60 p w [demo_block] [demo_block] Hr).
Defined.

Definition snapshot_pool : UTXOPool :=
  mkUTXOPool demo_set Unlocked "" "" 0 None [] [mkStateSnapshot 0 ∅ "00" 0] true.

Lemma HandleReorg_deadlocks_witness :
  HandleReorg no_order no_order 60 snapshot_pool demo_world
    [mkBlockView [] 0 "00"] [mkBlockView [] 0 "00"; demo_block] = Deadlock.
Proof.
  apply (HandleReorg_deadlocks no_order no_order 60 snapshot_pool demo_world
    [mkBlockView [] 0 "00"] [mkBlockView [] 0 "00"; demo_block]).
  - reflexivity.
  - exists (mkStateSnapshot 0 ∅ "00" 0). split; [by apply elem_of_cons; left|]. by vm_compute.
  - exists demo_block. split; [by apply elem_of_cons; left|discriminate].
Defined.

(** A sender that adds two transactions, adds a block and removes an output; the
    replica has the sender's set of before the block. *)
Definition sender0 : UTXOPool :=
  Pool.set_root (Pool.set_utxos Pool.NewUTXOPool demo_set) (CalculateMerkleRoot demo_set) 0.
Definition sender_before : outcome (UTXOPool * World) := AddUTXO no_order no_order 40 sender0 demo_world (demo_tx "t5") 6.
Definition sender_block (p : UTXOPool) (w : World) : outcome (UTXOPool * World * error) :=
  ProcessBlockTransactions no_order no_order 50 p w (Some demo_block).
Definition sender_after (p : UTXOPool) (w : World) : outcome (UTXOPool * World) := RemoveUTXO 55 p w "t3" 0.

Definition delta_valid (d : DeltaUpdate) : bool :=
  bool_decide (map_Forall (λ _ u, verifyUTXO u = None) (du_UTXOUpdates d)).

Definition demo_deltas : outcome (UTXOPool * UTXOPool * DeltaUpdate) :=
  let! (pk, w) := sender_before in
  let! (p1, w, _) := sender_block pk w in
  let! (p, w) := sender_after p1 w in
  let! d := GetDeltaUpdates 60 p 45 in
  Done (pk, p, d).

Definition replica_of (p : UTXOPool) : UTXOPool := Pool.set_utxos Pool.NewUTXOPool (utxos p).

Lemma delta_replicates_witness :
  ∃ pk p d q' wq', demo_deltas = Done (pk, p, d) ∧ ApplyDeltaUpdate no_order (replica_of pk) demo_world d = Done (q', wq', None) ∧
    utxos q' = utxos p ∧ merkleRoot q' = merkleRoot p.
Proof.
  assert (match demo_deltas with Done (pk, p, d) => delta_valid d && (45 <? lastUpdateTime p) && bool_decide (deletions pk = []) | _ => false end = true)
    as H by (vm_compute; reflexivity).
  destruct demo_deltas as [[[pk p] d]| |] eqn:E; [|discriminate..]. exists pk, p, d.
  apply andb_true_iff in H as [[Hv Ht]%andb_true_iff Hdel%bool_decide_eq_true_1]. apply bool_decide_eq_true_1 in Hv. apply Z.ltb_lt in Ht.
  unfold demo_deltas in E. apply obind_Done_inv in E as ([pk' w] & E1 & E). apply obind_Done_inv in E as ([[p1 w1] e] & E2 & E).
  apply obind_Done_inv in E as ([p' w2] & E3 & E). apply obind_Done_inv in E as (d' & E4 & E). injection E as -> -> ->.
  destruct (delta_replicates no_order 60 45 sender0 pk p (replica_of pk) demo_world d fair_no_order eq_refl eq_refl eq_refl) as (q' & wq' & H1 & H2 & H3).
  - eapply rtc_once, sent_add; [exact E1|]. intros i o _ Hin. by apply elem_of_nil in Hin.
  - eapply rtc_l; [eapply sent_block; [exact E2|]|eapply rtc_once, sent_remove; exact E3].
    apply Forall_forall. intros tx _ i o _. rewrite Hdel. apply not_elem_of_nil.
  - reflexivity.
  - reflexivity.
  - by eexists.
  - left. exact Ht.
  - exact E4.
  - exact Hv.
  - exists q', wq'. split; [reflexivity|]. split; [exact H1|]. by split.
Defined.

(** The restriction on keys is needed: nothing ever clears what a pool has recorded,
    so an output that is removed and created again is left out of the delta, and a
    replica with the sender's old set refuses it. *)
Definition created_again : outcome (UTXOPool * World * error) :=
  let! (p, w) := AddUTXO no_order no_order 40 sender0 demo_world (demo_tx "t5") 6 in
  let! (p, w) := RemoveUTXO 41 p w "t5" 0 in
  let! (p, w) := AddUTXO no_order no_order 42 p w (demo_tx "t5") 6 in
  let! d := GetDeltaUpdates 60 p 0 in
  ApplyDeltaUpdate no_order (replica_of sender0) demo_world d.

Theorem created_again_refused : match created_again with
  | Done (q, _, Some _) => utxos q = demo_set
  | _ => False
  end.
Proof. vm_compute. reflexivity. Qed.

Definition bad_delta : DeltaUpdate := mkDeltaUpdate 0 ∅ ["t1-0"] "00" 5.

Lemma ApplyDeltaUpdate_spec_witness :
  ∃ p' w' e, ApplyDeltaUpdate no_order demo_pool demo_world bad_delta = Done (p', w', Some e)
    ∧ p' = demo_pool.
Proof.
  destruct (is_Done_inv (ApplyDeltaUpdate no_order demo_pool demo_world bad_delta)
    ltac:(vm_compute; reflexivity)) as [[[p' w'] e] E].
  assert (match ApplyDeltaUpdate no_order demo_pool demo_world bad_delta with
          | Done (_, _, Some _) => true | _ => false end = true) as He by (vm_compute; reflexivity).
  rewrite E in He. destruct e as [e|]; [|discriminate].
  exists p', w', e. split; [exact E|].
  exact (proj1 (ApplyDeltaUpdate_spec no_order demo_pool demo_world bad_delta p' w' (Some e) E)).
Defined.

Lemma chunks_rebuild_witness :
  ∃ chunks q, GetStateChunks demo_pool 2 = Done chunks ∧ length chunks = 2%nat ∧
    apply_chunks Pool.NewUTXOPool chunks = Done q ∧ utxos q = demo_set.
Proof.
  destruct (is_Done_inv (GetStateChunks demo_pool 2) ltac:(vm_compute; reflexivity)) as [chunks E].
  destruct (chunks_rebuild demo_pool 2 chunks ltac:(lia)) as (q & Hq & Hu & _);
    [apply insert_non_empty|exact E|].
  exists chunks, q. split; [exact E|]. split; [|by split].
  apply (f_equal (λ o, match o with Done c => length c | _ => 0%nat end)) in E.
  symmetry. etrans; [|exact E]. vm_compute. reflexivity.
Defined.

Definition pay : Transaction :=
  mkTransaction "t9" "alice" "bob" (f64_of_Z 10) 10 1 (f64_of_Z 1) []
    [mkTransactionOutput "bob" (f64_of_Z 10) ""] TX_REGULAR 21000 20 0 1 40 [] "" [].

Lemma SelectUTXOs_sound_witness :
  ∃ tx', SelectUTXOs no_order pay (Some demo_pool) = Done (tx', None) ∧
    ∃ sel, Inputs tx' = Inputs pay ++ (input_of <$> sel).
Proof.
  assert (match SelectUTXOs no_order pay (Some demo_pool) with
          | Done (_, None) => true | _ => false end = true) as H by (vm_compute; reflexivity).
  destruct (SelectUTXOs no_order pay (Some demo_pool)) as [[tx' [e|]]| |] eqn:E; [discriminate| |discriminate..].
  exists tx'. split; [done|].
  destruct (SelectUTXOs_sound no_order pay tx' demo_pool fair_no_order E) as (sel & Hs & _).
  exists sel. exact Hs.
Defined.

Definition units_of (u : UTXO) : Z := default 0 (f64_trunc (utxo_Amount u)).

Lemma GetBalance_exact_witness : GetBalance reverse demo_pool "alice" = Done (f64_of_Z 14).
Proof.
  rewrite (GetBalance_exact reverse demo_pool "alice" units_of fair_reverse eq_refl).
  - vm_compute. reflexivity.
  - split; [apply (proj1 (bool_decide_eq_true _))|]; vm_compute; reflexivity.
Defined.

Lemma VerifyStateChunk_returns_witness :
  VerifyStateChunk (fmt_f 0) no_order demo_pool (mkStateChunk 0 ∅ [] 1) = Panic "index out of range".
Proof. exact (VerifyStateChunk_returns (fmt_f 0) no_order demo_pool (mkStateChunk 0 ∅ [] 1) fair_no_order). Defined.

(** An honest chunk is refused: its leaves are hashed in another format than the
    leaves of the root (here a pool with one output of amount 5, which [%v]
    prints as "5"). *)
Definition one_pool : UTXOPool :=
  let m := {[ "t1-0" := utxo_a ]} in mkUTXOPool m Unlocked (CalculateMerkleRoot m) "" 0 None [] [] false.

(** A chunk produced by a pool is refused by the verification of that same
    pool, even when it holds the pool's only output. *)
Theorem honest_chunk_refused :
  match GetStateChunks one_pool 10 with
  | Done [c] => VerifyStateChunk (fmt_f 0) no_order one_pool c
                  = Done (Some "invalid merkle proof for chunk 0")
  | _ => False
  end.
Proof. vm_compute. reflexivity. Qed.
