(* ===== verification/Mempool.v ===== *)
(** * The mempool ([mempool.go])

    Pending transactions, sorted by fee. The table of public keys
    ([PublicKeyDatabase]) is an argument of the operations that check
    signatures; [now_ns] is the time in nanoseconds. Exchanging messages with
    peers is not modelled. *)

From stdpp Require Import base gmap strings list.
From Stdlib Require Import ZArith Lia.
From S2P Require Import Prelude.
From S2P Require Import Float64.
From S2P Require Import Sha256.
From S2P Require Import Gas.
From S2P Require Import P256.
From S2P Require Import Crypto.
From S2P Require Import Transaction.
From S2P Require Import Utxo.

Record MempoolSync := mkMempoolSync {
  ms_Transactions : list Transaction;
  ms_StateRoot : string;
  ms_Timestamp : Z;
  ms_LastSyncTime : Z;
  ms_PeerID : string;
}.

Module Mempool.

Record t := mk {
  Transactions : list Transaction;
  maxSize : Z;
  timeouts : gmap string Z;
}.

Definition NewMempool : t := mk [] 1000 ∅.

Definition set_txs (m : t) (l : list Transaction) : t := mk l (maxSize m) (timeouts m).

(** The orders of the sorts. *)
Definition by_fee (a b : Transaction) : bool := f64_gt (GasFee a) (GasFee b).
Definition by_fee_time (a b : Transaction) : bool :=
  if f64_eq (GasFee a) (GasFee b) then Timestamp a >? Timestamp b
  else f64_gt (GasFee a) (GasFee b).

(** ** Validation *)

(** The inputs: each in the set, the sender's and unspent; their sum. *)
Fixpoint input_sum (utxos : utxo_set) (sender : string) (ins : list TransactionInput)
    (sum : float64) : option float64 :=
  match ins with
  | [] => Some sum
  | i :: ins =>
      match utxos !! input_key i with
      | None => None
      | Some u =>
          if negb (str_eqb (utxo_Owner u) sender) then None
          else if utxo_Spent u then None
          else input_sum utxos sender ins (f64_add sum (utxo_Amount u))
      end
  end.

(** The structure of a stake transaction; the marker is only a warning. *)
Definition stake_shape (tx : Transaction) : bool :=
  if (length (Inputs tx) =? 0)%nat then false
  else match Outputs tx with
  | [] => false
  | o :: _ => str_eqb (out_Receiver o) (Sender tx)
  end.

Definition total_required (tx : Transaction) : float64 :=
  if TxType tx =? TX_STAKE then Amount tx
  else f64_add (Amount tx) (ConvertGasToTokens (u64 (GasLimit tx * MaxFeePerGas tx))).

Definition ValidateTransaction `{ECDSA} (tbl : key_table) (tx : Transaction) (utxos : utxo_set)
    : outcome bool :=
  if Tx.IsCoinbase tx || Tx.IsValidatorReward tx then Done true
  else match Tx.ValidateGas tx with
  | Some _ => Done false
  | None =>
      if (TxType tx =? TX_STAKE) && negb (stake_shape tx) then Done false
      else match input_sum utxos (Sender tx) (Inputs tx) f64_zero with
      | None => Done false
      | Some inputSum =>
          if f64_lt inputSum (total_required tx) then Done false
          else Tx.VerifySignature tbl tx
      end
  end.

(** ** Adding *)
Definition has_id (id : string) (l : list Transaction) : bool :=
  existsb (λ t, str_eqb (TransactionID t) id) l.

Definition AddTransaction `{ECDSA} (tbl : key_table) (m : t) (tx : Transaction) (utxoSet : utxo_set)
    : outcome (t * bool) :=
  if has_id (TransactionID tx) (Transactions m) then Done (m, false)
  else
    let! valid := ValidateTransaction tbl tx utxoSet in
    if negb valid then Done (m, false)
    else if Z.of_nat (length (Transactions m)) >=? maxSize m then
      let sorted := stable_sort by_fee (Transactions m) in
      match last sorted with
      | None => Panic "index out of range"
      | Some lowest =>
          if f64_gt (GasFee tx) (GasFee lowest) then
            Done (set_txs m (stable_sort by_fee (take (length sorted - 1) sorted ++ [tx])), true)
          else Done (set_txs m sorted, false)
      end
    else Done (set_txs m (stable_sort by_fee (Transactions m ++ [tx])), true).

(** ** Reading and removing *)
Definition GetTransactions (m : t) : list Transaction := Transactions m.

Definition Clear (m : t) : t := set_txs m [].

Definition RemoveTransaction (m : t) (txID : string) : t :=
  set_txs m (filter (λ tx, TransactionID tx ≠ txID) (Transactions m)).

Definition PrioritizeTransactions (m : t) : t := set_txs m (stable_sort by_fee (Transactions m)).

Definition SortByGasPrice (m : t) : t :=
  set_txs m (stable_sort (λ a b, GasPrice a >? GasPrice b) (Transactions m)).

Definition aged_priority (now_ns : Z) (tx : Transaction) : float64 :=
  let ageFactor := duration_minutes (time_since now_ns (Timestamp tx * 10 ^ 9)) in
  f64_mul (GasFee tx) (f64_add (f64_of_Z 1) (f64_div ageFactor (f64_of_Z 1440))).

Definition GetPrioritizedTransactions (now_ns : Z) (m : t) (limit : Z) : outcome (list Transaction) :=
  let txCopy := stable_sort (λ a b, f64_gt (aged_priority now_ns a) (aged_priority now_ns b))
                  (Transactions m) in
  let limit := if limit >? Z.of_nat (length txCopy) then Z.of_nat (length txCopy) else limit in
  if limit <? 0 then Panic "slice bounds out of range"
  else Done (take (Z.to_nat limit) txCopy).

Definition ClearProcessedTransactions (m : t) (processedTxs : list string) : t :=
  set_txs m (filter (λ tx, TransactionID tx ∉ processedTxs) (Transactions m)).

(** ** Synchronisation with a peer's list *)
Definition evictOldTransactions (m : t) : t :=
  let l := stable_sort by_fee_time (Transactions m) in
  set_txs m (if Z.of_nat (length l) >? maxSize m then take (Z.to_nat (maxSize m)) l else l).

Definition day_ns : Z := 24 * 3600 * 10 ^ 9.

Definition validateAndAddTransaction (now_ns : Z) (m : t) (tx : Transaction) : t * bool :=
  if now_ns - Timestamp tx * 10 ^ 9 >? day_ns then (m, false)
  else
    let m := if Z.of_nat (length (Transactions m)) >=? maxSize m then evictOldTransactions m else m in
    (mk (Transactions m ++ [tx]) (maxSize m)
        (<[TransactionID tx := now_ns + day_ns]> (timeouts m)), true).

Definition SyncMempool (now_ns : Z) (m : t) (peerMempool : list Transaction) : t :=
  let existing := TransactionID <$> Transactions m in
  foldl (λ m tx, if bool_decide (TransactionID tx ∈ existing) then m
                 else (validateAndAddTransaction now_ns m tx).1) m peerMempool.

Definition calculateStateRoot (m : t) : string :=
  if (length (Transactions m) =? 0)%nat then ""
  else sha_hex (foldl (λ s tx, s +:+ Tx.Hash tx) "" (Transactions m)).

Definition GetMempoolSync (now : Z) (m : t) : MempoolSync :=
  mkMempoolSync (stable_sort by_fee_time (Transactions m)) (calculateStateRoot m) now 0 "".

(** The transactions of a message that pass validation against no outputs at
    all, in order. *)
Fixpoint validated `{ECDSA} (tbl : key_table) (l : list Transaction) : outcome (list Transaction) :=
  match l with
  | [] => Done []
  | tx :: l =>
      let! ok := ValidateTransaction tbl tx ∅ in
      let! rest := validated tbl l in
      Done (if ok then tx :: rest else rest)
  end.

Definition ApplySync `{ECDSA} (tbl : key_table) (m : t) (sync : MempoolSync) : outcome (t * error) :=
  let! txs := validated tbl (ms_Transactions sync) in
  let m := set_txs m txs in
  if negb (str_eqb (calculateStateRoot m) (ms_StateRoot sync))
  then Done (m, Some "state root mismatch after sync") else Done (m, None).

Definition GetDeltaSync (now : Z) (m : t) (lastSyncTime : Z) : MempoolSync :=
  mkMempoolSync (filter (λ tx, lastSyncTime < Timestamp tx) (Transactions m))
    (calculateStateRoot m) now lastSyncTime "".

Definition removeExpiredTransactions (m : t) (lastSyncTime : Z) : t :=
  set_txs m (filter (λ tx, lastSyncTime < Timestamp tx) (Transactions m)).

Definition ApplyDeltaSync `{ECDSA} (tbl : key_table) (m : t) (delta : MempoolSync)
    : outcome (t * error) :=
  let m := removeExpiredTransactions m (ms_LastSyncTime delta) in
  let! txs := validated tbl (ms_Transactions delta) in
  let m := set_txs m (Transactions m ++ txs) in
  if negb (str_eqb (calculateStateRoot m) (ms_StateRoot delta))
  then Done (m, Some "state root mismatch after delta sync") else Done (m, None).

(** The merge of a peer's transactions in [SyncWithPeer], once they are received. *)
Definition merge_peer (m : t) (peerTransactions : list Transaction) : t :=
  foldl (λ m peerTx,
    if has_id (TransactionID peerTx) (Transactions m) then m
    else set_txs m (Transactions m ++ [peerTx])) m peerTransactions.

End Mempool.
