(* ===== verification/MempoolFacts.v ===== *)
(** * Correctness of the mempool *)

From stdpp Require Import base gmap strings list sorting.
From Stdlib Require Import ZArith Lia.
From S2P Require Import Prelude.
From S2P Require Import Float64.
From S2P Require Import Sha256.
From S2P Require Import Gas.
From S2P Require Import P256.
From S2P Require Import Crypto.
From S2P Require Import Transaction.
From S2P Require Import Utxo.
From S2P Require Import Mempool.

Import Mempool.

(** ** The order by fee *)
Definition fee_ok (tx : Transaction) : Prop := f64_is_nan (GasFee tx) = false.

Lemma by_fee_asym a b : by_fee a b = true → by_fee b a = false.
Proof. apply f64_lt_asym. Qed.

Lemma by_fee_trans a b c : fee_ok a → fee_ok b → fee_ok c →
  sort_rel by_fee a b → sort_rel by_fee b c → sort_rel by_fee a c.
Proof. unfold fee_ok, sort_rel, by_fee, f64_gt. intros. by eapply (f64_nlt_trans (GasFee c) (GasFee b)). Qed.

Lemma sorted_by_fee l : Forall fee_ok l → StronglySorted (sort_rel by_fee) (stable_sort by_fee l).
Proof. apply stable_sort_sorted; [exact by_fee_asym|exact by_fee_trans]. Qed.

(** The mempool is within its size, has no transaction twice and is sorted by
    fee, highest first. *)
Definition mempool_ok (m : t) : Prop :=
  0 < maxSize m ∧ Z.of_nat (length (Transactions m)) ≤ maxSize m ∧
  NoDup (TransactionID <$> Transactions m) ∧ Forall fee_ok (Transactions m) ∧
  StronglySorted (sort_rel by_fee) (Transactions m).

Lemma has_id_false id l : has_id id l = false ↔ id ∉ TransactionID <$> l.
Proof.
  unfold has_id. rewrite <-not_true_iff_false, existsb_exists, list_elem_of_fmap.
  split; intros H (tx & H1 & H2); apply H; exists tx.
  - split; [by apply list_elem_of_In|]. rewrite H1. apply str_eqb_refl.
  - apply str_eqb_eq in H2. split; [done|]. by apply list_elem_of_In.
Qed.

(** A mempool whose content is some list, sorted. *)
Lemma mempool_ok_sort m l : 0 < maxSize m → Z.of_nat (length l) ≤ maxSize m →
  NoDup (TransactionID <$> l) → Forall fee_ok l → mempool_ok (set_txs m (stable_sort by_fee l)).
Proof.
  intros Hmax Hlen Hnd Hfee. unfold mempool_ok, set_txs; simpl. split_and!; [done|..].
  - by rewrite length_stable_sort.
  - by rewrite stable_sort_perm.
  - by rewrite stable_sort_perm.
  - by apply sorted_by_fee.
Qed.

Lemma last_removed {A} (l : list A) x : last l = Some x → l = take (length l - 1) l ++ [x].
Proof.
  destruct l as [|y l _] using rev_ind; [done|]. rewrite last_snoc. intros [= ->].
  rewrite length_app, Nat.add_sub, take_app_length. done.
Qed.

Lemma Forall_filter_keep {A} (P Q : A → Prop) `{!∀ x, Decision (P x)} l :
  Forall Q l → Forall Q (filter P l).
Proof. rewrite !Forall_forall. intros Hl x [_ Hx]%list_elem_of_filter. by apply Hl. Qed.

Section facts.
Context `{ECDSA}.

(** C12 [AddTransaction] keeps the mempool within its size, free of duplicate ids
    and sorted by fee. When it reports success the transaction has been added,
    either to all the others or, in a full mempool, in place of one whose fee is
    the lowest and below its own; when it reports failure nothing changes. *)
Theorem AddTransaction_spec (tbl : key_table) (m m' : t) (tx : Transaction) (utxoSet : utxo_set)
    (b : bool) :
  mempool_ok m → fee_ok tx → AddTransaction tbl m tx utxoSet = Done (m', b) →
  mempool_ok m' ∧ maxSize m' = maxSize m ∧
  if b then
    Transactions m' ≡ₚ tx :: Transactions m ∨
    Z.of_nat (length (Transactions m)) = maxSize m ∧
    ∃ lowest rest, Transactions m = rest ++ [lowest] ∧ Transactions m' ≡ₚ tx :: rest ∧
      Forall (λ x, f64_lt (GasFee x) (GasFee lowest) = false) (Transactions m) ∧
      f64_gt (GasFee tx) (GasFee lowest) = true
  else m' = m.
Proof.
  intros Hok Htx Hadd. pose proof Hok as (Hmax & Hlen & Hnd & Hfee & Hs). unfold AddTransaction in Hadd.
  destruct (has_id _ _) eqn:Hid; [by injection Hadd as <- <-|]. apply has_id_false in Hid.
  apply obind_Done_inv in Hadd as (valid & _ & Hadd). destruct valid; [|by injection Hadd as <- <-].
  cbn [negb] in Hadd. rewrite (stable_sort_id _ _ Hs) in Hadd. rewrite Z.geb_leb in Hadd.
  destruct (Z.leb_spec (maxSize m) (Z.of_nat (length (Transactions m)))) as [Hfull|Hroom].
  - destruct (last (Transactions m)) as [lowest|] eqn:Hl; [|done].
    pose proof (last_removed _ _ Hl) as Heq. set (rest := take _ _) in *.
    destruct (f64_gt (GasFee tx) (GasFee lowest)) eqn:Hgt.
    2: { injection Hadd as <- <-. by destruct m. }
    injection Hadd as <- <-.
    assert (length (Transactions m) = S (length rest)) as Hlr.
    { rewrite Heq, length_app. simpl. lia. }
    rewrite Heq, fmap_app in Hnd. rewrite Heq in Hfee. apply Forall_app in Hfee as [Hfr Hfl].
    split_and!; [| done|].
    + apply mempool_ok_sort; [done|rewrite length_app; simpl; lia| |by apply Forall_app; split; [|constructor]].
      rewrite fmap_app. apply NoDup_app in Hnd as (Hnr & _ & _).
      apply NoDup_app. split_and!; [done| |apply NoDup_singleton].
      intros x Hx ->%list_elem_of_singleton. apply Hid. rewrite Heq, fmap_app, elem_of_app. by left.
    + right. split; [lia|]. exists lowest, rest. split_and!; [done| | |done].
      * simpl. rewrite stable_sort_perm. symmetry. apply Permutation_cons_append.
      * rewrite Heq. apply Forall_app. split; [|constructor; [|constructor]].
        -- apply Forall_forall. intros x Hx. rewrite Heq in Hs.
           eapply StronglySorted_app_1_elem_of in Hs; [exact Hs|exact Hx|]. by apply elem_of_cons; left.
        -- apply Forall_cons in Hfl as [Hfl _]. apply not_true_is_false. intros E.
           pose proof (f64_lt_asym _ _ E). congruence.
  - injection Hadd as <- <-. split_and!; [|done|].
    + apply mempool_ok_sort; [done|rewrite length_app; simpl; lia| |by apply Forall_app; split; [|constructor]].
      rewrite fmap_app. apply NoDup_app. split_and!; [done| |apply NoDup_singleton].
      by intros x Hx ->%list_elem_of_singleton.
    + left. simpl. rewrite stable_sort_perm. symmetry. apply Permutation_cons_append.
Qed.

(** ** What validation guarantees *)
Lemma input_sum_spec utxos sender ins : ∀ s0 s,
  input_sum utxos sender ins s0 = Some s →
  ∃ us, Forall2 (λ i u, utxos !! input_key i = Some u ∧ utxo_Owner u = sender ∧ utxo_Spent u = false)
          ins us ∧ s = foldl f64_add s0 (utxo_Amount <$> us).
Proof.
  induction ins as [|i ins IH]; intros s0 s Hs; cbn [input_sum] in Hs.
  { injection Hs as <-. exists []. by split. }
  destruct (utxos !! input_key i) as [u|] eqn:Hu; [|done].
  destruct (str_eqb (utxo_Owner u) sender) eqn:Ho; [|done]. cbn [negb] in Hs.
  destruct (utxo_Spent u) eqn:Hsp; [done|]. apply str_eqb_eq in Ho.
  destruct (IH _ _ Hs) as (us & Hus & ->). exists (u :: us). split; [by constructor|done].
Qed.

(** C27 A transaction that the mempool's validation accepts, other than a coinbase or
    a validator's reward, which are accepted unchecked, has gas parameters in range, a
    signature of its hash under its sender's key, and inputs that all are unspent
    outputs of the sender whose sum is not below what the transaction requires (its amount, plus the maximum fee unless it is a stake). *)
Theorem ValidateTransaction_sound (tbl : key_table) (tx : Transaction) (utxos : utxo_set) :
  Tx.is_system tx = false → ValidateTransaction tbl tx utxos = Done true →
  Tx.ValidateGas tx = None ∧ signed_by_sender tbl tx ∧
  ∃ us, Forall2 (λ i u, utxos !! input_key i = Some u ∧ utxo_Owner u = Sender tx ∧
                        utxo_Spent u = false) (Inputs tx) us ∧
    f64_lt (f64_sum (utxo_Amount <$> us)) (total_required tx) = false.
Proof.
  unfold Tx.is_system. intros Hsys Hv. unfold ValidateTransaction in Hv. rewrite Hsys in Hv.
  destruct (Tx.ValidateGas tx); [done|]. destruct (_ && _); [done|].
  destruct (input_sum _ _ _ _) as [s|] eqn:Hs; [|done].
  destruct (f64_lt s _) eqn:Hlt; [done|]. apply VerifySignature_signed in Hv as [Hv|Hv]; [unfold Tx.is_system in Hv; congruence|].
  split_and!; [done..|]. destruct (input_sum_spec _ _ _ _ _ Hs) as (us & Hus & ->). eauto.
Qed.

(** The outputs of a regular transaction play no part in its validation: a
    transaction that is accepted is accepted with any outputs, whatever their
    number and amounts. *)
Theorem ValidateTransaction_ignores_outputs (tbl : key_table) (tx : Transaction) (utxos : utxo_set)
    (outs : list TransactionOutput) :
  TxType tx ≠ TX_STAKE →
  ValidateTransaction tbl (Tx.set_io tx (Inputs tx) outs) utxos = ValidateTransaction tbl tx utxos.
Proof.
  intros Hst. unfold ValidateTransaction. cbn [TxType Tx.set_io Inputs Sender].
  change (Tx.IsCoinbase (Tx.set_io tx (Inputs tx) outs)) with (Tx.IsCoinbase tx).
  change (Tx.IsValidatorReward (Tx.set_io tx (Inputs tx) outs)) with (Tx.IsValidatorReward tx).
  change (Tx.ValidateGas (Tx.set_io tx (Inputs tx) outs)) with (Tx.ValidateGas tx).
  by rewrite (proj2 (Z.eqb_neq _ _) Hst).
Qed.

(** No stake transaction enters a mempool: [NewStakeTransaction] gives it gas
    limit 0, which the mempool's gas check refuses whatever inputs and signature
    are added afterwards. *)
Theorem stake_transaction_refused (tbl : key_table) (now : Z) (sender : string) (amount : float64)
    (pk : bytes) (tx : Transaction) (ins : list TransactionInput) (outs : list TransactionOutput)
    (sig : string) (utxos : utxo_set) :
  Tx.NewStakeTransaction now sender amount pk = Ok tx →
  ValidateTransaction tbl (Tx.set_signature (Tx.set_io tx ins outs) sig pk) utxos = Done false.
Proof.
  unfold Tx.NewStakeTransaction. destruct (f64_le amount f64_zero); [done|]. by intros [= <-].
Qed.

(** ** Synchronisation *)
Lemma validated_shape tbl l : ∀ l', validated tbl l = Done l' →
  Forall (λ tx, tx ∈ l ∧ (Tx.is_system tx = true ∨ Inputs tx = [])) l'.
Proof.
  induction l as [|tx l IH]; intros l' Hv; cbn [validated] in Hv.
  { injection Hv as <-. constructor. }
  apply obind_Done_inv in Hv as (ok & Hok & Hv). apply obind_Done_inv in Hv as (rest & Hr & Hv).
  assert (Forall (λ t, t ∈ tx :: l ∧ (Tx.is_system t = true ∨ Inputs t = [])) rest) as Hrest.
  { eapply Forall_impl; [apply IH; exact Hr|]. intros t [Ht ?]. split; [|done]. apply elem_of_cons; by right. }
  injection Hv as <-. destruct ok; [|done]. constructor; [|done]. split; [apply elem_of_cons; by left|].
  unfold ValidateTransaction in Hok. fold (Tx.is_system tx) in Hok.
  destruct (Tx.is_system tx); [by left|]. right.
  destruct (Tx.ValidateGas tx); [done|]. destruct (_ && _); [done|].
  destruct (Inputs tx) as [|i ins]; [done|]. by cbn [input_sum] in Hok.
Qed.

(** Applying a peer's mempool message throws away every transaction that spends
    something: it is validated against no outputs at all, so only rewards and
    transactions without inputs are left, whatever the message held and
    whatever the mempool held before. *)
Theorem ApplySync_keeps_no_spend (tbl : key_table) (m m' : t) (sync : MempoolSync) (e : error) :
  ApplySync tbl m sync = Done (m', e) →
  Forall (λ tx, tx ∈ ms_Transactions sync ∧ (Tx.is_system tx = true ∨ Inputs tx = []))
    (Transactions m').
Proof.
  unfold ApplySync. intros Ha. apply obind_Done_inv in Ha as (txs & Hv & Ha).
  assert (Transactions m' = txs) as ->.
  { destruct (negb _); injection Ha as <- _; done. }
  by apply (validated_shape tbl).
Qed.

End facts.

Lemma validateAndAdd_size now m tx : 0 < maxSize m →
  Z.of_nat (length (Transactions m)) ≤ maxSize m + 1 →
  let m' := (validateAndAddTransaction now m tx).1 in
  maxSize m' = maxSize m ∧ Z.of_nat (length (Transactions m')) ≤ maxSize m + 1.
Proof.
  intros Hmax Hl. unfold validateAndAddTransaction. destruct (_ >? day_ns); [done|]. cbv zeta.
  destruct (Z.of_nat (length (Transactions m)) >=? maxSize m) eqn:Hge; cbn [fst Transactions maxSize].
  - split; [done|]. rewrite length_app. unfold evictOldTransactions, set_txs. cbn [Transactions maxSize].
    rewrite length_stable_sort. destruct (Z.of_nat (length (Transactions m)) >? maxSize m) eqn:Hgt.
    + rewrite length_take, length_stable_sort. simpl. lia.
    + rewrite length_stable_sort. simpl. lia.
  - split; [done|]. rewrite length_app. simpl. lia.
Qed.

(** Synchronising with a peer's list overshoots the size limit by at most one
    transaction: eviction trims to the limit before each addition. *)
Theorem SyncMempool_size (now : Z) (m : t) (l : list Transaction) :
  0 < maxSize m → Z.of_nat (length (Transactions m)) ≤ maxSize m + 1 →
  Z.of_nat (length (Transactions (SyncMempool now m l))) ≤ maxSize m + 1.
Proof.
  intros Hmax Hl. unfold SyncMempool. generalize (TransactionID <$> Transactions m). intros ids.
  assert (∀ m0, maxSize m0 = maxSize m → Z.of_nat (length (Transactions m0)) ≤ maxSize m + 1 →
    Z.of_nat (length (Transactions (foldl (λ m tx, if bool_decide (TransactionID tx ∈ ids) then m
      else (validateAndAddTransaction now m tx).1) m0 l))) ≤ maxSize m + 1) as Hgen; [|by apply Hgen].
  induction l as [|tx l IH]; intros m0 Hm0 Hl0; [done|]. cbn [foldl]. case_bool_decide; [by apply IH|].
  destruct (validateAndAdd_size now m0 tx) as [H1 H2]; [lia..|]. apply IH; lia.
Qed.

(** Removing processed transactions leaves exactly the others, in order, and so
    keeps the mempool sorted, bounded and free of duplicates. *)
Theorem ClearProcessed_spec (m : t) (ids : list string) :
  mempool_ok m →
  mempool_ok (ClearProcessedTransactions m ids) ∧
  ∀ tx, tx ∈ Transactions (ClearProcessedTransactions m ids) ↔
        tx ∈ Transactions m ∧ TransactionID tx ∉ ids.
Proof.
  intros (Hmax & Hlen & Hnd & Hfee & Hs). unfold ClearProcessedTransactions, mempool_ok, set_txs; simpl.
  set (f := filter _ (Transactions m)).
  assert (sublist f (Transactions m)) as Hsub by apply sublist_filter.
  split_and!; [done|..].
  - pose proof (sublist_length _ _ Hsub). lia.
  - eapply sublist_NoDup; [exact Hnd|]. by apply fmap_sublist.
  - by apply Forall_filter_keep.
  - unfold f. clear -Hs. induction Hs as [|x l Hl IH Hx]; [constructor|]. rewrite filter_cons.
    case_decide; [|done]. constructor; [done|]. by apply Forall_filter_keep.
  - intros tx. unfold f. rewrite list_elem_of_filter. tauto.
Qed.

(** ** Concrete instances *)
Definition payer : string := GenerateAddress (sk_PublicKey toy_key).
Definition payer_set : utxo_set :=
  {[ "c1-0" := mkUTXO "c1" 0 (f64_of_Z 5) payer false 1 0 "" ]}.

(** A signed payment with the given inputs. *)
Definition payment (id : string) (amount : Z) (fee : Z) (ins : list TransactionInput) : Transaction :=
  let tx := mkTransaction id payer "sup9" (f64_of_Z amount) 100 1 (f64_of_Z fee) ins
    [mkTransactionOutput "sup9" (f64_of_Z amount) ""] TX_REGULAR 21000 20 0 1 40 [] "" [] in
  let sig := match SignMessage (Ok (2 ^ 254)) toy_key (Tx.Hash tx) with Ok s => s | Err _ => "" end in
  Tx.set_signature tx sig (be_bytes 32 P256_gx ++ be_bytes 32 P256_gy).

Definition spend_c1 : TransactionInput := mkTransactionInput "c1" 0 "".

(** The same output may be listed twice among the inputs and counts twice: a
    payment of 8 is accepted from a sender whose only output holds 5. *)
Theorem duplicate_input_accepted :
  ValidateTransaction ∅ (payment "p1" 8 0 [spend_c1; spend_c1]) payer_set = Done true ∧
  map_to_list payer_set = [("c1-0", mkUTXO "c1" 0 (f64_of_Z 5) payer false 1 0 "")] ∧
  ValidateTransaction ∅ (payment "p2" 8 0 [spend_c1]) payer_set = Done false.
Proof. split_and!; vm_compute; reflexivity. Qed.

Definition small_pool : t :=
  mk [payment "p3" 1 3 [spend_c1]; payment "p4" 1 1 [spend_c1]] 2 ∅.

Lemma small_pool_ok : mempool_ok small_pool.
Proof.
  unfold mempool_ok, small_pool. cbn [maxSize Transactions]. split_and!; [lia|simpl; lia|..].
  - apply (bool_decide_unpack _). vm_compute. reflexivity.
  - repeat constructor.
  - repeat constructor.
Qed.

Lemma AddTransaction_spec_witness :
  ∃ m', AddTransaction ∅ small_pool (payment "p5" 2 2 [spend_c1]) payer_set = Done (m', true) ∧
    mempool_ok m'.
Proof.
  assert (match AddTransaction ∅ small_pool (payment "p5" 2 2 [spend_c1]) payer_set with
          | Done (_, true) => true | _ => false end = true) as Hd by (vm_compute; reflexivity).
  destruct (AddTransaction _ _ _ _) as [[m' [|]]| |] eqn:E; [|discriminate..].
  exists m'. split; [done|].
  apply (AddTransaction_spec ∅ small_pool m' (payment "p5" 2 2 [spend_c1]) payer_set true
    small_pool_ok); [reflexivity|exact E].
Defined.

Lemma ValidateTransaction_sound_witness :
  signed_by_sender ∅ (payment "p6" 2 2 [spend_c1]).
Proof.
  apply (ValidateTransaction_sound ∅ (payment "p6" 2 2 [spend_c1]) payer_set);
    [reflexivity|vm_compute; reflexivity].
Defined.

Lemma ValidateTransaction_ignores_outputs_witness :
  ValidateTransaction ∅ (Tx.set_io (payment "p6" 2 2 [spend_c1]) [spend_c1]
    [mkTransactionOutput payer (f64_of_Z 1000000) ""]) payer_set = Done true.
Proof.
  etrans; [apply (ValidateTransaction_ignores_outputs ∅ (payment "p6" 2 2 [spend_c1]) payer_set
    [mkTransactionOutput payer (f64_of_Z 1000000) ""]); discriminate|]. vm_compute. reflexivity.
Defined.

Lemma stake_transaction_refused_witness :
  ∃ tx, Tx.NewStakeTransaction 5 payer (f64_of_Z 3) [] = Ok tx ∧
    ValidateTransaction ∅ (Tx.set_signature (Tx.set_io tx [spend_c1] []) "" []) payer_set = Done false.
Proof.
  assert (isOk (Tx.NewStakeTransaction 5 payer (f64_of_Z 3) []) = true) as Ho by (vm_compute; reflexivity).
  destruct (Tx.NewStakeTransaction 5 payer (f64_of_Z 3) []) as [tx|] eqn:E; [|discriminate].
  exists tx. split; [done|].
  exact (stake_transaction_refused ∅ 5 payer (f64_of_Z 3) [] tx [spend_c1] [] "" payer_set E).
Defined.

Lemma ApplySync_keeps_no_spend_witness :
  ∃ m' e, ApplySync ∅ small_pool (GetMempoolSync 9 small_pool) = Done (m', e) ∧ Transactions m' = [].
Proof.
  destruct (is_Done_inv (ApplySync ∅ small_pool (GetMempoolSync 9 small_pool))
    ltac:(vm_compute; reflexivity)) as [[m' e] E].
  exists m', e. split; [exact E|].
  pose proof (ApplySync_keeps_no_spend ∅ small_pool m' (GetMempoolSync 9 small_pool) e E) as Hf.
  destruct (Transactions m') as [|tx l]; [reflexivity|]. exfalso.
  apply Forall_cons in Hf as [[Hin Hs] _].
  unfold GetMempoolSync in Hin. cbn [ms_Transactions] in Hin. rewrite stable_sort_perm in Hin.
  apply elem_of_cons in Hin as [->|Hin]; [by destruct Hs|].
  apply list_elem_of_singleton in Hin as ->. by destruct Hs.
Defined.

Lemma SyncMempool_size_witness :
  Z.of_nat (length (Transactions (SyncMempool 0 small_pool
    [payment "p7" 1 1 []; payment "p8" 1 1 []; payment "p9" 1 1 []]))) ≤ 3.
Proof. apply (SyncMempool_size 0 small_pool); simpl; lia. Defined.

Lemma ClearProcessed_spec_witness : mempool_ok (ClearProcessedTransactions small_pool ["p3"]).
Proof. apply (ClearProcessed_spec small_pool ["p3"] small_pool_ok). Defined.
