(* ===== verification/Trie.v ===== *)
(** * The transaction trie ([patricia_trie.go])

    A node keeps its children by byte; the key of a transaction is the digest
    of its id, so a leaf is 32 bytes deep. The children are listed in the order
    they were created; the order in which Go ranges over the map of a node is an
    argument [ord]. [MarkDirty] follows the parent pointers from the new leaf to
    the root, which are the nodes of the path: [insert] clears their caches. *)

From stdpp Require Import base list strings gmap.
From Stdlib Require Import ZArith Lia.
From S2P Require Import Prelude.
From S2P Require Import Sha256.
From S2P Require Import Transaction.

#[local] Set Warnings "-register-all".
Inductive PatriciaNode : Type := Node {
  Children : list (Z * PatriciaNode);
  Value : option Transaction;
  node_Hash : string;
  IsLeaf : bool;
  hashCache : string;
}.

Definition child_order : Type := list (Z * PatriciaNode) → list (Z * PatriciaNode).
Definition fair_children (ord : child_order) : Prop := ∀ l, ord l ≡ₚ l.

Definition empty_node : PatriciaNode := Node [] None "" false "".

Definition lookup_child (b : Z) (l : list (Z * PatriciaNode)) : option PatriciaNode :=
  snd <$> find (λ c, c.1 =? b) l.

Fixpoint set_child (b : Z) (x : PatriciaNode) (l : list (Z * PatriciaNode))
    : list (Z * PatriciaNode) :=
  match l with
  | [] => [(b, x)]
  | (c, y) :: l => if c =? b then (c, x) :: l else (c, y) :: set_child b x l
  end.

(** The digest that places a transaction. *)
Definition digest (txID : string) : bytes := sha256 (bytes_of_string txID).

Module Trie.

Definition NewPatriciaTrie : PatriciaNode := empty_node.

Fixpoint insert (key : bytes) (tx : Transaction) (hash : string) (n : PatriciaNode) : PatriciaNode :=
  match key with
  | [] => Node (Children n) (Some tx) hash true ""
  | b :: key =>
      let child := default empty_node (lookup_child b (Children n)) in
      Node (set_child b (insert key tx hash child) (Children n))
        (Value n) (node_Hash n) (IsLeaf n) ""
  end.

Definition Insert (root : PatriciaNode) (tx : Transaction) : PatriciaNode :=
  let key := digest (TransactionID tx) in
  insert key tx (hex_encode key) root.

Definition InsertBatch (root : PatriciaNode) (txs : list Transaction) : PatriciaNode :=
  foldl Insert root txs.

Fixpoint find_node (key : bytes) (n : PatriciaNode) : option PatriciaNode :=
  match key with
  | [] => Some n
  | b :: key => c ← lookup_child b (Children n); find_node key c
  end.

Definition GetTransaction (root : PatriciaNode) (txID : string) : option PatriciaNode * bool :=
  match find_node (digest txID) root with
  | None => (None, false)
  | Some n => (Some n, bool_decide (is_Some (Value n)))
  end.

Definition Search (root : PatriciaNode) (txID : string) : option Transaction :=
  n ← find_node (digest txID) root; Value n.

(** The traversal; [fuel] bounds the depth (a path has at most 33 nodes). *)
Fixpoint traverse (fuel : nat) (ord : child_order) (n : PatriciaNode) : list Transaction :=
  match fuel with
  | O => []
  | S fuel =>
      (if IsLeaf n then option_list (Value n) else [])
      ++ concat ((λ c, traverse fuel ord c.2) <$> ord (Children n))
  end.

Definition GetAllTransactions (ord : child_order) (root : PatriciaNode) : list Transaction :=
  traverse 33 ord root.

Definition Len (ord : child_order) (root : PatriciaNode) : Z :=
  Z.of_nat (length (traverse 33 ord root)).

(** The hash of a node and the node with the caches it leaves behind. *)
Fixpoint computeHash (fuel : nat) (ord : child_order) (n : PatriciaNode) : string * PatriciaNode :=
  match fuel with
  | O => ("", n)
  | S fuel =>
      if negb (str_eqb (hashCache n) "") then (hashCache n, n)
      else if IsLeaf n then
        (node_Hash n, Node (Children n) (Value n) (node_Hash n) (IsLeaf n) (node_Hash n))
      else
        let visited := (λ c, (c.1, computeHash fuel ord c.2)) <$> ord (Children n) in
        let combinedHash := foldl (λ s c, s +:+ c.2.1) "" visited in
        let h := sha_hex combinedHash in
        (h, Node ((λ c, (c.1, c.2.2)) <$> visited) (Value n) (node_Hash n) (IsLeaf n) h)
  end.

Definition GenerateRootHash (ord : child_order) (root : PatriciaNode) : string * PatriciaNode :=
  match Children root with
  | [] => (sha_hex "", root)
  | _ => computeHash 33 ord root
  end.

End Trie.

(** ** The finite map a trie stands for *)

(** A subtrie whose leaves are [n] bytes below. *)
Fixpoint trie_ok (n : nat) (t : PatriciaNode) : Prop :=
  NoDup (Children t).*1 ∧
  match n with
  | O => Children t = [] ∧ IsLeaf t = true ∧ is_Some (Value t)
  | S n => IsLeaf t = false ∧ Forall (λ c, trie_ok n c.2) (Children t)
  end.

(** The leaves with their keys. *)
Fixpoint contents (n : nat) (t : PatriciaNode) : list (bytes * Transaction) :=
  match n with
  | O => (λ tx, ([], tx)) <$> option_list (Value t)
  | S n => concat ((λ c, (λ e : bytes * Transaction, (c.1 :: e.1, e.2)) <$> contents n c.2) <$> Children t)
  end.

(** The hashes a trie can have when nothing is cached: a leaf has its own, an
    inner node the digest of the hashes of its children in some order. *)
Fixpoint hash_of (n : nat) (t : PatriciaNode) (h : string) : Prop :=
  match n with
  | O => h = node_Hash t
  | S n => ∃ hs hs', Forall2 (λ c h, hash_of n c.2 h) (Children t) hs ∧ (hs' ≡ₚ hs) ∧
             h = sha_hex (foldl String.app "" hs')
  end.

(** No cache of the trie is stale. *)
Fixpoint cache_ok (n : nat) (t : PatriciaNode) : Prop :=
  (hashCache t = "" ∨ hash_of n t (hashCache t)) ∧
  match n with
  | O => True
  | S n => Forall (λ c, cache_ok n c.2) (Children t)
  end.

(** The tries a program can build: insertions and computations of the root
    hash, in any order of iteration, starting with an empty trie. *)
Inductive trie_reachable : PatriciaNode → Prop :=
  | reach_new : trie_reachable Trie.NewPatriciaTrie
  | reach_insert root tx : trie_reachable root → trie_reachable (Trie.Insert root tx)
  | reach_hash root ord : fair_children ord → trie_reachable root →
      trie_reachable (Trie.GenerateRootHash ord root).2.

Lemma lookup_child_cons b c y l :
  lookup_child b ((c, y) :: l) = if c =? b then Some y else lookup_child b l.
Proof. unfold lookup_child. simpl. by destruct (c =? b). Qed.

Lemma lookup_set_child b x l b' :
  lookup_child b' (set_child b x l) = if b =? b' then Some x else lookup_child b' l.
Proof.
  induction l as [|[c y] l IH]; simpl.
  - rewrite lookup_child_cons. by destruct (b =? b').
  - destruct (Z.eqb_spec c b) as [->|Hne]; rewrite !lookup_child_cons.
    + by destruct (b =? b').
    + rewrite IH. destruct (Z.eqb_spec c b') as [->|]; [|done].
      by rewrite (proj2 (Z.eqb_neq b b')) by done.
Qed.

Lemma set_child_keys b x l : (set_child b x l).*1 = (if bool_decide (b ∈ l.*1) then l.*1 else l.*1 ++ [b]).
Proof.
  induction l as [|[c y] l IH]; [done|]. cbn [set_child]. destruct (Z.eqb_spec c b) as [->|Hne].
  - rewrite bool_decide_eq_true_2; [done|]. by apply elem_of_cons; left.
  - rewrite !fmap_cons, IH. cbn [fst].
    rewrite (bool_decide_ext (b ∈ c :: l.*1) (b ∈ l.*1)); [by case_bool_decide|].
    rewrite elem_of_cons. split; [by intros [?|?]|by right].
Qed.

Lemma lookup_child_None b l : lookup_child b l = None ↔ b ∉ l.*1.
Proof.
  induction l as [|[c y] l IH]; [split; [intros _; apply not_elem_of_nil|done]|].
  rewrite lookup_child_cons, fmap_cons, not_elem_of_cons. cbn [fst].
  destruct (Z.eqb_spec c b) as [->|]; [split; [done|by intros [? _]]|]. rewrite IH.
  split; [by intros|by intros [_ ?]].
Qed.

Lemma lookup_child_Some b l x : lookup_child b l = Some x → (b, x) ∈ l.
Proof.
  induction l as [|[c y] l IH]; [done|]. rewrite lookup_child_cons, elem_of_cons.
  destruct (Z.eqb_spec c b) as [->|]; [|by right; apply IH]. intros [= ->]. by left.
Qed.

Lemma set_child_split b x l : NoDup l.*1 →
  ∃ rest, set_child b x l ≡ₚ (b, x) :: rest ∧ (b ∉ rest.*1) ∧
    match lookup_child b l with
    | Some y => l ≡ₚ (b, y) :: rest
    | None => l = rest
    end.
Proof.
  induction l as [|[c y] l IH]; intros Hnd.
  { exists []. split_and!; [done|apply not_elem_of_nil|done]. }
  rewrite fmap_cons in Hnd. apply NoDup_cons in Hnd as [Hc Hnd]. cbn [set_child fst] in *.
  rewrite lookup_child_cons. destruct (Z.eqb_spec c b) as [->|Hne].
  - exists l. split_and!; [done|done|done].
  - destruct (IH Hnd) as (rest & Hp & Hb & Hl). exists ((c, y) :: rest). split_and!.
    + rewrite Hp. apply Permutation_swap.
    + rewrite fmap_cons. apply not_elem_of_cons. by split.
    + destruct (lookup_child b l); [|by subst]. rewrite Hl. apply Permutation_swap.
Qed.
