(* ===== verification/TrieFacts.v ===== *)
(** * Correctness of the transaction trie

    A trie stands for the finite map from digests to the last transaction
    inserted under them; the traversals list it in some order; the cached hash
    of a node is never stale. *)

From stdpp Require Import base list strings gmap.
From Stdlib Require Import ZArith Lia.
From S2P Require Import Prelude.
From S2P Require Import Float64.
From S2P Require Import Sha256.
From S2P Require Import Transaction.
From S2P Require Import Trie.

Lemma contents_perm n t t' : Children t ≡ₚ Children t' → Value t = Value t' →
  contents n t ≡ₚ contents n t'.
Proof. intros Hc Hv. destruct n; simpl; [by rewrite Hv|]. by rewrite Hc. Qed.

(** The entries below one byte. *)
Definition under (b : Z) (l : list (bytes * Transaction)) : list (bytes * Transaction) :=
  (λ e, (b :: e.1, e.2)) <$> l.

Lemma contents_S n t :
  contents (S n) t = concat ((λ c : Z * PatriciaNode, under c.1 (contents n c.2)) <$> Children t).
Proof. done. Qed.

Lemma filter_under b key l :
  filter (λ e : bytes * Transaction, e.1 ≠ b :: key) (under b l)
  = under b (filter (λ e : bytes * Transaction, e.1 ≠ key) l).
Proof.
  induction l as [|[k tx] l IH]; [done|]. unfold under in *. rewrite fmap_cons, !filter_cons.
  cbn [fst snd]. do 2 case_decide; rewrite ?fmap_cons; simpl; [by f_equal|congruence|congruence|done].
Qed.

Lemma filter_other b key (l : list (Z * PatriciaNode)) n : b ∉ l.*1 →
  filter (λ e : bytes * Transaction, e.1 ≠ b :: key)
    (concat ((λ c, under c.1 (contents n c.2)) <$> l))
  = concat ((λ c, under c.1 (contents n c.2)) <$> l).
Proof.
  induction l as [|[c y] l IH]; intros Hb; [done|]. rewrite fmap_cons in Hb.
  apply not_elem_of_cons in Hb as [Hne Hb]. rewrite fmap_cons. cbn [concat].
  rewrite filter_app, IH by done. f_equal. cbn [fst snd] in *.
  induction (contents n y) as [|[k tx] es IHe]; [done|]. unfold under in *.
  rewrite fmap_cons, filter_cons. cbn [fst snd]. case_decide as Hd; [by rewrite IHe|].
  congruence.
Qed.

(** Inserting replaces the entry at the key and keeps the others. *)
Lemma insert_contents key tx h : ∀ t, trie_ok (length key) t ∨ t = empty_node →
  contents (length key) (Trie.insert key tx h t)
  ≡ₚ (key, tx) :: filter (λ e : bytes * Transaction, e.1 ≠ key) (contents (length key) t).
Proof.
  induction key as [|b key IH]; intros t Ht; cbn [length].
  { simpl. constructor. destruct (Value t); simpl; [|done]. rewrite filter_cons. by case_decide. }
  rewrite !contents_S. cbn [Trie.insert Children].
  assert (NoDup (Children t).*1) as Hnd by (destruct Ht as [[? _]| ->]; [done|constructor]).
  destruct (set_child_split b (Trie.insert key tx h (default empty_node (lookup_child b (Children t))))
    (Children t) Hnd) as (rest & Hp & Hb & Hl). rewrite Hp, fmap_cons. cbn [concat fst snd].
  assert (trie_ok (length key) (default empty_node (lookup_child b (Children t))) ∨
          default empty_node (lookup_child b (Children t)) = empty_node) as Hchild.
  { destruct (lookup_child b (Children t)) as [y|] eqn:Hy; [left|by right].
    destruct Ht as [[_ [_ Hf]]| ->]; [|done]. rewrite Forall_forall in Hf.
    by apply (Hf (b, y)), lookup_child_Some. }
  unfold under at 1. rewrite (IH _ Hchild), fmap_cons. cbn [fst snd app].
  constructor. fold (under b (filter (λ e : bytes * Transaction, e.1 ≠ key)
    (contents (length key) (default empty_node (lookup_child b (Children t)))))).
  rewrite <-filter_under. destruct (lookup_child b (Children t)) as [y|] eqn:Hy.
  - rewrite Hl, fmap_cons. cbn [concat fst snd default]. rewrite filter_app, filter_other by done. done.
  - rewrite Hl, filter_other by done. simpl.
    destruct key; simpl; [done|]. done.
Qed.

Lemma insert_ok key tx h : ∀ t, trie_ok (length key) t ∨ t = empty_node →
  trie_ok (length key) (Trie.insert key tx h t).
Proof.
  induction key as [|b key IH]; intros t Ht; cbn [length Trie.insert trie_ok Children IsLeaf Value].
  { assert (Children t = []) as Hc by (destruct Ht as [(_ & ? & _)| ->]; done).
    rewrite Hc. split; [constructor|]. split_and!; [done..|by eexists]. }
  assert (NoDup (Children t).*1 ∧ IsLeaf t = false ∧
    Forall (λ c : Z * PatriciaNode, trie_ok (length key) c.2) (Children t)) as (Hnd & Hleaf & Hf).
  { destruct Ht as [(? & ? & ?)| ->]; [done|]. split_and!; [constructor|done|constructor]. }
  assert (trie_ok (length key) (default empty_node (lookup_child b (Children t))) ∨
          default empty_node (lookup_child b (Children t)) = empty_node) as Hchild.
  { destruct (lookup_child b (Children t)) as [y|] eqn:Hy; [left|by right].
    rewrite Forall_forall in Hf. by apply (Hf (b, y)), lookup_child_Some. }
  specialize (IH _ Hchild).
  destruct (set_child_split b (Trie.insert key tx h (default empty_node (lookup_child b (Children t))))
    (Children t) Hnd) as (rest & Hp & Hb & Hl).
  assert (Forall (λ c : Z * PatriciaNode, trie_ok (length key) c.2) rest ∧ NoDup rest.*1) as [Hfr Hnr].
  { destruct (lookup_child b (Children t)); [|by subst].
    rewrite Hl in Hf, Hnd. rewrite fmap_cons in Hnd. apply Forall_cons in Hf as [_ ?].
    by apply NoDup_cons in Hnd as [_ ?]. }
  split_and!; [|done|]; rewrite Hp.
  - rewrite fmap_cons. by constructor.
  - by constructor.
Qed.

Lemma find_insert key tx h : ∀ t key', length key' = length key →
  (Trie.find_node key' (Trie.insert key tx h t) ≫= Value) =
    if bool_decide (key' = key) then Some tx else Trie.find_node key' t ≫= Value.
Proof.
  induction key as [|b key IH]; intros t [|b' key'] Hl; try done.
  cbn [Trie.find_node Trie.insert Children]. rewrite lookup_set_child.
  injection Hl as Hl. destruct (Z.eqb_spec b b') as [->|Hne].
  - cbn [mbind option_bind]. rewrite IH by done.
    destruct (decide (key' = key)) as [->|Hk].
    + by rewrite !bool_decide_eq_true_2.
    + rewrite !bool_decide_eq_false_2 by congruence.
      destruct (lookup_child b' (Children t)); [done|]. cbn.
      destruct key' as [|x key']; [by destruct key|done].
  - rewrite bool_decide_eq_false_2 by congruence. done.
Qed.

Lemma length_digest id : length (digest id) = 32%nat.
Proof. apply length_sha256. Qed.

(** A transaction is found under its id right after it was inserted, and a
    search for any other id (one with another digest) gives what it gave
    before. *)
Theorem Search_Insert (root : PatriciaNode) (tx : Transaction) (id : string) :
  Trie.Search (Trie.Insert root tx) id =
    if bool_decide (digest id = digest (TransactionID tx)) then Some tx else Trie.Search root id.
Proof. apply find_insert. by rewrite !length_digest. Qed.

(** ** Traversal *)
Lemma traverse_S n ord t :
  Trie.traverse (S n) ord t =
    (if IsLeaf t then option_list (Value t) else [])
    ++ concat ((λ c : Z * PatriciaNode, Trie.traverse n ord c.2) <$> ord (Children t)).
Proof. done. Qed.

Lemma traverse_contents ord n : fair_children ord → ∀ t, trie_ok n t →
  Trie.traverse (S n) ord t ≡ₚ (contents n t).*2.
Proof.
  intros Hord. induction n as [|n IH]; intros t (Hnd & Ht).
  - destruct Ht as (Hc & Hl & [tx Hv]). cbn. rewrite Hc, Hl, Hv. cbn.
    assert (ord [] = []) as -> by (apply Permutation_nil_r, Hord). done.
  - destruct Ht as [Hl Hf]. rewrite contents_S, traverse_S, Hl. cbn [app].
    rewrite (Hord (Children t)). clear Hnd Hl. induction Hf as [|[b c] l Hc _ IHl]; [done|].
    rewrite !fmap_cons. cbn [concat fst snd]. rewrite fmap_app, <-IHl. f_equiv.
    rewrite IH by done. unfold under. by rewrite <-list_fmap_compose.
Qed.

Lemma root_insert_ok root tx : trie_ok 32 root → trie_ok 32 (Trie.Insert root tx).
Proof.
  intros Hr. rewrite <-(length_digest (TransactionID tx)). apply insert_ok. left.
  by rewrite length_digest.
Qed.

Lemma Insert_contents root tx : trie_ok 32 root →
  contents 32 (Trie.Insert root tx) ≡ₚ
    (digest (TransactionID tx), tx)
    :: filter (λ e : bytes * Transaction, e.1 ≠ digest (TransactionID tx)) (contents 32 root).
Proof.
  intros Hr. unfold Trie.Insert. rewrite <-(length_digest (TransactionID tx)).
  apply insert_contents. left. by rewrite length_digest.
Qed.

Lemma batch_contents txs : ∀ root, trie_ok 32 root →
  NoDup ((λ tx, digest (TransactionID tx)) <$> txs) →
  Forall (λ tx, digest (TransactionID tx) ∉ (contents 32 root).*1) txs →
  trie_ok 32 (Trie.InsertBatch root txs) ∧
  (contents 32 (Trie.InsertBatch root txs)).*2 ≡ₚ txs ++ (contents 32 root).*2.
Proof.
  induction txs as [|tx txs IH]; intros root Hr Hnd Hnew; [done|].
  rewrite fmap_cons in Hnd. apply NoDup_cons in Hnd as [Htx Hnd]. apply Forall_cons in Hnew as [Hn Hnew].
  assert (contents 32 (Trie.Insert root tx) ≡ₚ (digest (TransactionID tx), tx) :: contents 32 root) as Hc.
  { rewrite Insert_contents by done. constructor. rewrite filter_none; [done|].
    apply Forall_forall. intros e He Heq. apply Hn. rewrite <-Heq. by apply list_elem_of_fmap_2. }
  destruct (IH (Trie.Insert root tx)) as [Hok Hp]; [by apply root_insert_ok|done| |].
  { rewrite Forall_forall in Hnew |- *. intros t Ht. rewrite Hc, fmap_cons, not_elem_of_cons.
    split; [|by apply Hnew]. cbn [fst]. intros Heq. apply Htx. rewrite <-Heq. by apply (list_elem_of_fmap_2 (λ tx, digest (TransactionID tx))). }
  split; [done|]. cbn [Trie.InsertBatch foldl]. unfold Trie.InsertBatch in Hp. rewrite Hp, Hc.
  rewrite fmap_cons. cbn [snd]. by rewrite <-Permutation_middle.
Qed.

Lemma new_ok : trie_ok 32 Trie.NewPatriciaTrie.
Proof. cbn. split_and!; [constructor|done|constructor]. Qed.

(** C28 A block's trie holds exactly the transactions put into it (given ids with
    distinct digests): whatever order the runtime visits the nodes in, the
    traversal returns a permutation of them, and [Len] counts them. *)
Theorem GetAll_InsertBatch (ord : child_order) (txs : list Transaction) :
  fair_children ord → NoDup ((λ tx, digest (TransactionID tx)) <$> txs) →
  Trie.GetAllTransactions ord (Trie.InsertBatch Trie.NewPatriciaTrie txs) ≡ₚ txs ∧
  Trie.Len ord (Trie.InsertBatch Trie.NewPatriciaTrie txs) = Z.of_nat (length txs).
Proof.
  intros Hord Hnd. destruct (batch_contents txs Trie.NewPatriciaTrie new_ok Hnd) as [Hok Hp].
  { apply Forall_forall. intros tx _. apply not_elem_of_nil. }
  assert (Trie.traverse 33 ord (Trie.InsertBatch Trie.NewPatriciaTrie txs) ≡ₚ txs) as Ht.
  { rewrite (traverse_contents ord 32 Hord _ Hok), Hp. by rewrite app_nil_r. }
  split; [exact Ht|]. unfold Trie.Len. by rewrite Ht.
Qed.

(** ** Cached hashes *)
Lemma Forall2_perm {A B} (R : A → B → Prop) l l' : l ≡ₚ l' → ∀ k, Forall2 R l k →
  ∃ k', Forall2 R l' k' ∧ k' ≡ₚ k.
Proof.
  induction 1 as [|x l l' Hp IH|x y l|l l' l'' _ IH1 _ IH2]; intros k Hk.
  - by exists k.
  - apply Forall2_cons_inv_l in Hk as (b & k0 & Hb & Hk & ->).
    destruct (IH k0 Hk) as (k' & Hk' & Hp'). exists (b :: k'). split; [by constructor|by constructor].
  - apply Forall2_cons_inv_l in Hk as (b & k0 & Hb & Hk & ->).
    apply Forall2_cons_inv_l in Hk as (c & k1 & Hc & Hk & ->).
    exists (c :: b :: k1). split; [by repeat constructor|apply Permutation_swap].
  - destruct (IH1 k Hk) as (k1 & H1 & Hp1). destruct (IH2 k1 H1) as (k2 & H2 & Hp2).
    exists k2. split; [done|by etrans].
Qed.

Lemma hash_of_perm n t t' h : Children t ≡ₚ Children t' →
  hash_of (S n) t h → hash_of (S n) t' h.
Proof.
  intros Hp (hs & hs' & Hf & Hs & ->). destruct (Forall2_perm _ _ _ Hp hs Hf) as (k & Hk & Hpk).
  exists k, hs'. split_and!; [done|by rewrite Hpk|done].
Qed.

(** The nodes [computeHash] leaves behind have the hashes they had. *)
Lemma hash_of_fmap n (f : PatriciaNode → PatriciaNode) t t' h :
  Children t' = (λ c : Z * PatriciaNode, (c.1, f c.2)) <$> Children t →
  Forall (λ c : Z * PatriciaNode, ∀ h, hash_of n (f c.2) h ↔ hash_of n c.2 h) (Children t) →
  hash_of (S n) t' h ↔ hash_of (S n) t h.
Proof.
  intros Hc Hf. cbn [hash_of]. rewrite Hc.
  assert (∀ hs, Forall2 (λ c h, hash_of n c.2 h) ((λ c : Z * PatriciaNode, (c.1, f c.2)) <$> Children t) hs
    ↔ Forall2 (λ c h, hash_of n c.2 h) (Children t) hs) as Heq.
  { clear Hc. induction Hf as [|c l Hc _ IH]; intros hs; [done|]. rewrite fmap_cons.
    split; intros (x & k & Hx & Hk & ->)%Forall2_cons_inv_l; constructor; try (by apply IH);
      by apply Hc. }
  by setoid_rewrite Heq.
Qed.

Lemma computeHash_S fuel ord t :
  Trie.computeHash (S fuel) ord t =
    if negb (str_eqb (hashCache t) "") then (hashCache t, t)
    else if IsLeaf t then
      (node_Hash t, Node (Children t) (Value t) (node_Hash t) (IsLeaf t) (node_Hash t))
    else
      let visited := (λ c : Z * PatriciaNode, (c.1, Trie.computeHash fuel ord c.2)) <$> ord (Children t) in
      let h := sha_hex (foldl (λ s c, s +:+ c.2.1) "" visited) in
      (h, Node ((λ c : Z * (string * PatriciaNode), (c.1, c.2.2)) <$> visited) (Value t) (node_Hash t) (IsLeaf t) h).
Proof. done. Qed.

(** What [computeHash] promises of a well-formed trie of depth [n]. *)
Definition computed (n : nat) (t : PatriciaNode) (r : string * PatriciaNode) : Prop :=
  hash_of n t r.1 ∧ trie_ok n r.2 ∧ cache_ok n r.2 ∧ ∀ h, hash_of n r.2 h ↔ hash_of n t h.

Lemma foldl_visited {A} (f : A → string) l s :
  foldl (λ s c, s +:+ f c) s l = foldl String.app s (f <$> l).
Proof. revert s. induction l as [|x l IH]; intros s; [done|]. rewrite fmap_cons. apply IH. Qed.

Lemma computeHash_ok ord n : fair_children ord → ∀ t, trie_ok n t → cache_ok n t →
  computed n t (Trie.computeHash (S n) ord t).
Proof.
  intros Hord. induction n as [|n IH]; intros t Ht Hc; rewrite computeHash_S;
    destruct (str_eqb (hashCache t) "") eqn:Hcache; cbn [negb].
  2,4: pose proof Hc as [[E|Hh] _]; [rewrite E in Hcache; done|];
    exact (conj Hh (conj Ht (conj Hc (λ h, iff_refl _)))).
  - destruct Ht as (Hnd & Hch & Hl & Hv). rewrite Hl. split_and!; cbn; try done.
    split; [by right|done].
  - destruct Ht as (Hnd & Hl & Hok). destruct Hc as [_ Hcok]. rewrite Hl. cbn zeta.
    set (f := λ t, (Trie.computeHash (S n) ord t).2).
    assert (Forall (λ c : Z * PatriciaNode, computed n c.2 (Trie.computeHash (S n) ord c.2)) (Children t)) as Hall.
    { rewrite Forall_forall in Hok, Hcok |- *. intros c Hin. apply IH; [by apply Hok|by apply Hcok]. }
    assert (hash_of (S n) t (sha_hex (foldl (λ s (c : Z * (string * PatriciaNode)), s +:+ c.2.1) ""
      ((λ c : Z * PatriciaNode, (c.1, Trie.computeHash (S n) ord c.2)) <$> ord (Children t))))) as Hhash.
    { rewrite foldl_visited, <-list_fmap_compose.
      set (g := (λ c : Z * (string * PatriciaNode), c.2.1) ∘ _).
      exists (g <$> Children t), (g <$> ord (Children t)). split_and!; [|by rewrite (Hord (Children t))|done].
      rewrite Forall2_fmap_r. apply Forall_Forall2_diag. eapply Forall_impl; [exact Hall|].
      by intros c [? _]. }
    match goal with |- computed _ _ (?h, ?t') =>
      assert (∀ h', hash_of (S n) t' h' ↔ hash_of (S n) t h') as Hiff end.
    { intros h'. rewrite <-list_fmap_compose. etrans.
      - apply (hash_of_fmap n f (Node (ord (Children t)) None "" false "")); [done|]. cbn [Children].
        rewrite (Hord (Children t)). eapply Forall_impl; [exact Hall|]. by intros c (_ & _ & _ & ?).
      - split; apply hash_of_perm; cbn [Children]; [apply Hord|symmetry; apply Hord]. }
    split_and!; [exact Hhash| | |exact Hiff].
    + cbn [trie_ok snd Children IsLeaf]. rewrite <-!list_fmap_compose. cbn [compose fst snd].
      split_and!; [|done|].
      * unfold compose. cbn [fst snd]. by rewrite (Hord (Children t)).
      * rewrite Forall_fmap, (Hord (Children t)). eapply Forall_impl; [exact Hall|]. by intros c (_ & ? & _).
    + cbn [cache_ok snd hashCache Children]. split; [right; by apply Hiff|].
      rewrite <-list_fmap_compose, Forall_fmap, (Hord (Children t)).
      eapply Forall_impl; [exact Hall|]. by intros c (_ & _ & ? & _).
Qed.

Lemma set_child_Forall (P : PatriciaNode → Prop) b x l :
  P x → Forall (λ c : Z * PatriciaNode, P c.2) l → Forall (λ c : Z * PatriciaNode, P c.2) (set_child b x l).
Proof.
  intros Hx. induction 1 as [|[c y] l Hy Hl IH]; cbn [set_child]; [by repeat constructor|].
  destruct (c =? b); by constructor.
Qed.

Lemma empty_cache_ok n : cache_ok n empty_node.
Proof. destruct n; cbn; (split; [by left|]); [done|constructor]. Qed.

(** An insertion clears the caches on its path. *)
Lemma insert_cache_ok key tx h : ∀ t, cache_ok (length key) t →
  cache_ok (length key) (Trie.insert key tx h t).
Proof.
  induction key as [|b key IH]; intros t Ht; cbn [length Trie.insert cache_ok hashCache Children].
  { by split; [left|]. }
  destruct Ht as [_ Hf]. split; [by left|]. apply (set_child_Forall (cache_ok (length key))); [|done].
  apply IH. destruct (lookup_child b (Children t)) as [y|] eqn:Hy; cbn; [|apply empty_cache_ok].
  rewrite Forall_forall in Hf. by apply (Hf (b, y)), lookup_child_Some.
Qed.

Lemma reachable_ok t : trie_reachable t → trie_ok 32 t ∧ cache_ok 32 t.
Proof.
  induction 1 as [|root tx _ [Hok Hc]|root ord Hord _ [Hok Hc]].
  - split; [apply new_ok|apply empty_cache_ok].
  - split; [by apply root_insert_ok|]. unfold Trie.Insert.
    rewrite <-(length_digest (TransactionID tx)). apply insert_cache_ok. by rewrite length_digest.
  - unfold Trie.GenerateRootHash. destruct (Children root) eqn:E; [done|].
    destruct (computeHash_ok ord 32 Hord root Hok Hc) as (_ & ? & ? & _). done.
Qed.

(** The caches of a trie are never stale: after any sequence of insertions and
    root computations, the root hash of a non-empty trie is a hash computed from
    its current leaves, without caches, in some order of the children. *)
Theorem GenerateRootHash_fresh (root : PatriciaNode) (ord : child_order) :
  trie_reachable root → fair_children ord → Children root ≠ [] →
  hash_of 32 root (Trie.GenerateRootHash ord root).1.
Proof.
  intros Hr Hord Hne. destruct (reachable_ok root Hr) as [Hok Hc]. unfold Trie.GenerateRootHash.
  destruct (Children root) eqn:E; [done|].
  exact (proj1 (computeHash_ok ord 32 Hord root Hok Hc)).
Qed.

(** Computing the root leaves the content as it was. *)
Lemma computeHash_contents ord n : fair_children ord → ∀ t,
  contents n (Trie.computeHash (S n) ord t).2 ≡ₚ contents n t.
Proof.
  intros Hord. induction n as [|n IH]; intros t; rewrite computeHash_S;
    destruct (str_eqb (hashCache t) ""); cbn [negb]; try done; destruct (IsLeaf t); try done.
  cbn zeta. rewrite !contents_S. cbn [snd Children].
  rewrite <-!list_fmap_compose. unfold compose. cbn [fst snd].
  rewrite (Hord (Children t)). induction (Children t) as [|c l IHl]; [done|].
  rewrite !fmap_cons. cbn [concat fst snd]. rewrite IHl. f_equiv. unfold under. by rewrite IH.
Qed.

Lemma InsertBatch_reachable txs : ∀ root, trie_reachable root → trie_reachable (Trie.InsertBatch root txs).
Proof. induction txs as [|tx txs IH]; intros root Hr; [done|]. apply IH. by constructor. Qed.

(** What a trie lists was in it or was inserted. *)
Lemma InsertBatch_elem txs e : ∀ root, trie_reachable root →
  e ∈ contents 32 (Trie.InsertBatch root txs) → e.2 ∈ txs ∨ e ∈ contents 32 root.
Proof.
  induction txs as [|tx txs IH]; intros root Hr Hin; [by right|]. cbn in Hin.
  destruct (IH (Trie.Insert root tx) (reach_insert _ _ Hr) Hin) as [?|Hin2].
  { left. apply elem_of_cons. by right. }
  rewrite Insert_contents in Hin2 by apply (reachable_ok root Hr).
  apply elem_of_cons in Hin2 as [->|Hin2]; [left; apply elem_of_cons; by left|].
  right. by apply list_elem_of_filter in Hin2 as [_ ?].
Qed.

Lemma hashed_contents ord root : fair_children ord →
  contents 32 (Trie.GenerateRootHash ord root).2 ≡ₚ contents 32 root.
Proof. intros Hord. unfold Trie.GenerateRootHash. destruct (Children root); [done|]. by apply computeHash_contents. Qed.

Lemma GetAll_hashed ord ord' txs : fair_children ord → fair_children ord' →
  NoDup ((λ tx, digest (TransactionID tx)) <$> txs) →
  Trie.GetAllTransactions ord (Trie.GenerateRootHash ord' (Trie.InsertBatch Trie.NewPatriciaTrie txs)).2 ≡ₚ txs.
Proof.
  intros Hord Hord' Hnd. set (root := Trie.InsertBatch Trie.NewPatriciaTrie txs).
  assert (trie_reachable root) as Hr by (apply InsertBatch_reachable; constructor).
  pose proof (reachable_ok _ (reach_hash _ _ Hord' Hr)) as [Hok _].
  unfold Trie.GetAllTransactions. rewrite (traverse_contents ord 32 Hord _ Hok), (hashed_contents ord' root Hord').
  destruct (batch_contents txs Trie.NewPatriciaTrie new_ok Hnd) as [_ Hp].
  { apply Forall_forall. intros tx _. apply not_elem_of_nil. }
  unfold root. rewrite Hp. by rewrite app_nil_r.
Qed.

Lemma GetAll_elem ord ord' txs tx : fair_children ord → fair_children ord' →
  tx ∈ Trie.GetAllTransactions ord (Trie.GenerateRootHash ord' (Trie.InsertBatch Trie.NewPatriciaTrie txs)).2 →
  tx ∈ txs.
Proof.
  intros Hord Hord' Hin. set (root := Trie.InsertBatch Trie.NewPatriciaTrie txs) in *.
  assert (trie_reachable root) as Hr by (apply InsertBatch_reachable; constructor).
  pose proof (reachable_ok _ (reach_hash _ _ Hord' Hr)) as [Hok _].
  unfold Trie.GetAllTransactions in Hin. rewrite (traverse_contents ord 32 Hord _ Hok) in Hin.
  rewrite (hashed_contents ord' root Hord') in Hin. apply list_elem_of_fmap in Hin as (e & -> & He).
  destruct (InsertBatch_elem txs e Trie.NewPatriciaTrie reach_new He) as [?|He']; [done|].
  cbn in He'. by apply elem_of_nil in He'.
Qed.

(** In a reachable trie every transaction is at the digest of its id, so no
    digest appears twice. *)
Definition keyed (l : list (bytes * Transaction)) : Prop :=
  NoDup l.*1 ∧ Forall (λ e : bytes * Transaction, e.1 = digest (TransactionID e.2)) l.

Lemma keyed_perm l l' : l ≡ₚ l' → keyed l → keyed l'.
Proof. intros Hp [Hn Hf]. split; [by rewrite <-Hp|by rewrite <-Hp]. Qed.

Lemma reachable_keyed t : trie_reachable t → keyed (contents 32 t).
Proof.
  induction 1 as [|root tx Hr [Hn Hf]|root ord Hord Hr Hk].
  - split; constructor.
  - apply (keyed_perm ((digest (TransactionID tx), tx)
      :: filter (λ e : bytes * Transaction, e.1 ≠ digest (TransactionID tx)) (contents 32 root))).
    { symmetry. apply Insert_contents. by apply reachable_ok. }
    split.
    + rewrite fmap_cons. constructor.
      * intros (e & He & Hin)%list_elem_of_fmap. apply list_elem_of_filter in Hin as [Hne _]. by apply Hne.
      * eapply sublist_NoDup; [exact Hn|]. apply fmap_sublist, sublist_filter.
    + constructor; [done|]. rewrite Forall_forall in Hf |- *. intros e [_ He]%list_elem_of_filter. by apply Hf.
  - eapply keyed_perm; [|exact Hk]. symmetry. unfold Trie.GenerateRootHash.
    destruct (Children root); [done|]. by apply computeHash_contents.
Qed.

(** The list of a reachable trie rebuilds a trie with the same list. *)
Lemma rebuild_trie ord ord' t : fair_children ord → fair_children ord' → trie_reachable t →
  trie_reachable (foldl Trie.Insert Trie.NewPatriciaTrie (Trie.GetAllTransactions ord t)) ∧
  ∀ t', trie_reachable t' →
    contents 32 t' ≡ₚ contents 32 (foldl Trie.Insert Trie.NewPatriciaTrie (Trie.GetAllTransactions ord t)) →
    Trie.GetAllTransactions ord' t' ≡ₚ Trie.GetAllTransactions ord t.
Proof.
  intros Hord Hord' Hr. split; [apply InsertBatch_reachable; constructor|]. intros t' Hr' Hc.
  destruct (reachable_ok t Hr) as [Hok _]. destruct (reachable_ok t' Hr') as [Hok' _].
  destruct (reachable_keyed t Hr) as [Hnd Hf].
  assert (Trie.GetAllTransactions ord t ≡ₚ (contents 32 t).*2) as Hg by (by apply (traverse_contents ord 32)).
  assert (NoDup ((λ tx, digest (TransactionID tx)) <$> Trie.GetAllTransactions ord t)) as Hn.
  { rewrite Hg, <-list_fmap_compose. erewrite list_fmap_ext; [exact Hnd|].
    intros i e He. cbn. rewrite Forall_forall in Hf. symmetry. by eapply Hf, list_elem_of_lookup_2. }
  destruct (batch_contents _ _ new_ok Hn) as [_ Hb].
  { apply Forall_forall. intros tx _. apply not_elem_of_nil. }
  unfold Trie.GetAllTransactions at 1. rewrite (traverse_contents ord' 32 Hord' _ Hok'), Hc.
  etrans; [exact Hb|]. by rewrite app_nil_r.
Qed.

(** Inserting a transaction that is there changes nothing. *)
Lemma Insert_present ord t tx : fair_children ord → trie_reachable t → tx ∈ Trie.GetAllTransactions ord t →
  contents 32 (Trie.Insert t tx) ≡ₚ contents 32 t.
Proof.
  intros Hord Hr Hin. destruct (reachable_ok t Hr) as [Hok _]. destruct (reachable_keyed t Hr) as [Hnd Hf].
  unfold Trie.GetAllTransactions in Hin. rewrite (traverse_contents ord 32 Hord _ Hok) in Hin.
  apply list_elem_of_fmap in Hin as ([k tx'] & -> & Hin). cbn [snd].
  assert (k = digest (TransactionID tx')) as -> by (rewrite Forall_forall in Hf; apply (Hf _ Hin)).
  rewrite (Insert_contents t tx' Hok). apply elem_of_Permutation in Hin as [l Hl].
  rewrite Hl in Hnd |- *. rewrite fmap_cons in Hnd. apply NoDup_cons in Hnd as [Hni _]. f_equiv.
  rewrite filter_cons, decide_False by (intros Hx; by apply Hx). rewrite filter_none; [done|].
  apply Forall_forall. intros e He Heq. apply Hni. cbn [fst]. rewrite <-Heq. by apply (list_elem_of_fmap_2 fst).
Qed.

Lemma reinsert_list ord t l : fair_children ord → trie_reachable t → Forall (λ tx, tx ∈ Trie.GetAllTransactions ord t) l →
  trie_reachable (foldl Trie.Insert t l) ∧ Trie.GetAllTransactions ord (foldl Trie.Insert t l) ≡ₚ Trie.GetAllTransactions ord t.
Proof.
  intros Hord. revert t. induction l as [|tx l IH]; intros t Hr Hl; [done|]. apply Forall_cons in Hl as [Htx Hl].
  assert (trie_reachable (Trie.Insert t tx)) as Hr' by (by constructor).
  assert (Trie.GetAllTransactions ord (Trie.Insert t tx) ≡ₚ Trie.GetAllTransactions ord t) as Hp.
  { unfold Trie.GetAllTransactions.
    rewrite (traverse_contents ord 32 Hord _ (proj1 (reachable_ok _ Hr'))),
      (traverse_contents ord 32 Hord _ (proj1 (reachable_ok _ Hr))).
    by rewrite (Insert_present ord t tx Hord Hr Htx). }
  cbn [foldl]. destruct (IH (Trie.Insert t tx) Hr') as [H1 H2].
  { eapply Forall_impl; [exact Hl|]. intros x Hx. by rewrite Hp. }
  split; [exact H1|]. by rewrite H2.
Qed.

(** The order of a traversal does not matter. *)
Lemma GetAll_orders ord ord' t : fair_children ord → fair_children ord' → trie_reachable t →
  Trie.GetAllTransactions ord t ≡ₚ Trie.GetAllTransactions ord' t.
Proof.
  intros Hord Hord' Hr. destruct (reachable_ok t Hr) as [Hok _]. unfold Trie.GetAllTransactions.
  by rewrite (traverse_contents ord 32 Hord _ Hok), (traverse_contents ord' 32 Hord' _ Hok).
Qed.

Lemma new_trie_empty ord : fair_children ord → Trie.GetAllTransactions ord Trie.NewPatriciaTrie = [].
Proof.
  intros Hord. unfold Trie.GetAllTransactions. rewrite traverse_S. cbn [IsLeaf Trie.NewPatriciaTrie empty_node Children app].
  assert (ord [] = []) as -> by (apply Permutation_nil_r, Hord). done.
Qed.

(** ** Concrete tries *)
Definition leaf_tx (id : string) : Transaction :=
  mkTransaction id "alice" "bob" (f64_of_Z 1) 0 0 (f64_of_Z 1) [] [] 0 0 0 0 0 0 [] "" [].

Definition demo_trie : PatriciaNode := Trie.InsertBatch Trie.NewPatriciaTrie [leaf_tx "a"; leaf_tx "b"].

Lemma fair_children_id : fair_children (λ l, l).
Proof. by intros l. Qed.

Lemma fair_children_reverse : fair_children reverse.
Proof. intros l. apply reverse_Permutation. Qed.

Lemma demo_trie_reachable : trie_reachable demo_trie.
Proof. exact (reach_insert _ _ (reach_insert _ _ reach_new)). Qed.

Lemma GetAll_InsertBatch_witness :
  Trie.GetAllTransactions reverse demo_trie ≡ₚ [leaf_tx "a"; leaf_tx "b"] ∧ Trie.Len reverse demo_trie = 2.
Proof.
  apply (GetAll_InsertBatch reverse [leaf_tx "a"; leaf_tx "b"] fair_children_reverse).
  apply (proj1 (bool_decide_eq_true _)). vm_compute. reflexivity.
Defined.

Lemma GenerateRootHash_fresh_witness :
  hash_of 32 demo_trie (Trie.GenerateRootHash reverse demo_trie).1.
Proof.
  apply (GenerateRootHash_fresh demo_trie reverse demo_trie_reachable fair_children_reverse).
  intros E. assert (match Children demo_trie with [] => true | _ => false end = false) as Hn
    by (vm_compute; reflexivity). by rewrite E in Hn.
Defined.

Lemma demo_roots_differ :
  (Trie.GenerateRootHash (λ l, l) demo_trie).1 ≠ (Trie.GenerateRootHash reverse demo_trie).1 ∧
  (Trie.GenerateRootHash (λ l, l) demo_trie).1 ≠ "".
Proof.
  assert ((λ r, negb (str_eqb r (Trie.GenerateRootHash reverse demo_trie).1) && negb (str_eqb r ""))
    (Trie.GenerateRootHash (λ l, l) demo_trie).1 = true) as H by (vm_compute; reflexivity).
  apply andb_true_iff in H as [H1 H2]. apply negb_true_iff, str_eqb_neq in H1, H2. split; [exact H1|exact H2].
Qed.

(** The root hash of a trie is not a function of its content: two runs that
    visit the children of the root in a different order compute different
    hashes for the same two transactions, so nodes need not agree on it. *)
Theorem GenerateRootHash_order_dependent :
  ∃ root ord ord', trie_reachable root ∧ fair_children ord ∧ fair_children ord' ∧
    (Trie.GenerateRootHash ord root).1 ≠ (Trie.GenerateRootHash ord' root).1.
Proof.
  exists demo_trie, (λ l, l), reverse. split_and!; [apply demo_trie_reachable|apply fair_children_id|apply fair_children_reverse|].
  apply (proj1 demo_roots_differ).
Qed.
