(* ===== verification/Stake.v ===== *)
(** * The stake pool ([stake_pool.go])

    The stakes by wallet address, the host each wallet runs on, deposits,
    removals, withdrawals after a lock period, violations, and the merge of a
    peer's pool. The pool's mutex is taken once by each operation and never
    twice, so it is left out. The stakes are shared pointers in the code: an
    update through a pointer is an update of the map here. Streams to peers are
    not modelled; what is received from one is an argument. *)

From stdpp Require Import base gmap strings list.
From Stdlib Require Import ZArith Lia.
From S2P Require Import Prelude.
From S2P Require Import Float64.

Record ValidatorPerformance := mkPerformance {
  BlocksProposed : Z;
  BlocksValidated : Z;
  MissedValidations : Z;
  UptimePercentage : float64;
  LastUpdate : Z;
}.

Record WithdrawalRequest := mkWithdrawal {
  wr_RequestTime : Z;
  wr_Amount : Z;
  wr_Status : string;
}.

Record StakeInfo := mkStake {
  st_Address : string;
  st_Amount : Z;
  StartTime : Z;
  LastRewardTime : Z;
  st_LastActive : Z;
  WithdrawalReq : option WithdrawalRequest;
  st_Violations : Z;
  st_Performance : option ValidatorPerformance;
  SelectionCount : Z;
  st_HostID : string;
  st_Timestamp : Z;
  IsValidator : bool;
}.

Record ValidatorNode := mkValidatorNode {
  vn_Address : string;
  vn_Stake : float64;
  vn_hostID : string;
}.

Definition MinStakeAge : Z := 0.
Definition MaxStakeAge : Z := 365 * 24 * hour_ns.
Definition BaseStakeWeight : Z := 100.
Definition WithdrawalLockPeriod : Z := 72 * hour_ns.
Definition MinValidatorStake : Z := 1.
Definition MaxInactivityPeriod : Z := 24 * hour_ns.
Definition SlashingThreshold : Z := 3.

(** [&ValidatorPerformance{LastUpdate: now}] *)
Definition new_performance (now : Z) : ValidatorPerformance := mkPerformance 0 0 0 f64_zero now.

(** Updates of one field. *)
Definition set_amount (v : Z) (s : StakeInfo) : StakeInfo :=
  mkStake (st_Address s) v (StartTime s) (LastRewardTime s) (st_LastActive s) (WithdrawalReq s)
    (st_Violations s) (st_Performance s) (SelectionCount s) (st_HostID s) (st_Timestamp s) (IsValidator s).
Definition set_withdrawal (v : option WithdrawalRequest) (s : StakeInfo) : StakeInfo :=
  mkStake (st_Address s) (st_Amount s) (StartTime s) (LastRewardTime s) (st_LastActive s) v
    (st_Violations s) (st_Performance s) (SelectionCount s) (st_HostID s) (st_Timestamp s) (IsValidator s).
Definition set_violations (v : Z) (s : StakeInfo) : StakeInfo :=
  mkStake (st_Address s) (st_Amount s) (StartTime s) (LastRewardTime s) (st_LastActive s) (WithdrawalReq s)
    v (st_Performance s) (SelectionCount s) (st_HostID s) (st_Timestamp s) (IsValidator s).
Definition set_registration (now : Z) (hostID : string) (s : StakeInfo) : StakeInfo :=
  mkStake (st_Address s) (st_Amount s) (StartTime s) (LastRewardTime s) now (WithdrawalReq s)
    (st_Violations s) (st_Performance s) (SelectionCount s) hostID (unix now) true.
Definition set_rewarded (now : Z) (s : StakeInfo) : StakeInfo :=
  mkStake (st_Address s) (st_Amount s) (StartTime s) now (st_LastActive s) (WithdrawalReq s)
    (st_Violations s) (st_Performance s) (SelectionCount s) (st_HostID s) (st_Timestamp s) (IsValidator s).
Definition set_activity (now : Z) (p : option ValidatorPerformance) (count : Z) (s : StakeInfo) : StakeInfo :=
  mkStake (st_Address s) (st_Amount s) (StartTime s) (LastRewardTime s) now (WithdrawalReq s)
    (st_Violations s) p count (st_HostID s) (st_Timestamp s) (IsValidator s).

Module StakePool.

Record t := mk {
  Stakes : gmap string StakeInfo;
  WalletToHost : gmap string string;
  stateRoot : string;
}.

Definition NewStakePool : t := mk ∅ ∅ "".

Definition set_stake (sp : t) (addr : string) (s : StakeInfo) : t :=
  mk (<[addr := s]> (Stakes sp)) (WalletToHost sp) (stateRoot sp).

Definition set_host (sp : t) (addr host : string) : t :=
  mk (Stakes sp) (<[addr := host]> (WalletToHost sp)) (stateRoot sp).

Section operations.
Context `{GoImpl}.

Definition AddValidator (now : Z) (sp : t) (walletAddress : string) (stake : float64) (hostID : string)
    : t * error :=
  if str_eqb walletAddress "" then (sp, Some "wallet address cannot be empty")
  else if str_eqb hostID "" then (sp, Some "host ID cannot be empty")
  else if f64_lt stake f64_zero then (sp, Some "stake amount cannot be negative")
  else
    let info :=
      match Stakes sp !! walletAddress with
      | None => mkStake walletAddress (f64_to_u64 stake) now now now None 0 (Some (new_performance now))
                  0 hostID (unix now) true
      | Some s => set_registration now hostID (set_amount (u64 (st_Amount s + f64_to_u64 stake)) s)
      end in
    (set_host (set_stake sp walletAddress info) walletAddress hostID, None).

Definition AddStake (now : Z) (sp : t) (walletAddress hostID : string) (amount : float64) : t * error :=
  if f64_le amount f64_zero then (sp, Some "stake amount must be positive")
  else
    let info :=
      match Stakes sp !! walletAddress with
      | None => mkStake walletAddress (f64_to_u64 amount) now zero_time now None 0 None 0 "" 0 false
      | Some s => set_amount (u64 (st_Amount s + f64_to_u64 amount)) s
      end in
    (set_host (set_stake sp walletAddress info) walletAddress hostID, None).

Definition RemoveStake (sp : t) (walletAddress : string) (amount : float64) : t * error :=
  match Stakes sp !! walletAddress with
  | None => (sp, Some "not enough stake to remove")
  | Some stake =>
      if st_Amount stake <? f64_to_u64 amount then (sp, Some "not enough stake to remove")
      else
        let left := u64 (st_Amount stake - f64_to_u64 amount) in
        if left =? 0
        then (mk (delete walletAddress (Stakes sp)) (delete walletAddress (WalletToHost sp)) (stateRoot sp), None)
        else (set_stake sp walletAddress (set_amount left stake), None)
  end.

Definition GetTotalStake (ro : range_order) (sp : t) : float64 :=
  foldl (λ total e, f64_add total (f64_of_Z (st_Amount e.2))) f64_zero (range ro (Stakes sp)).

(** The second loop of [SelectValidator]: the first wallet at which the
    cumulative stake reaches [r]. *)
Fixpoint pick (entries : list (string * StakeInfo)) (cumulativeStake r : float64) : option string :=
  match entries with
  | [] => None
  | (walletAddr, stake) :: entries =>
      let cumulativeStake := f64_add cumulativeStake (f64_of_Z (st_Amount stake)) in
      if f64_ge cumulativeStake r then Some walletAddr else pick entries cumulativeStake r
  end.

(** [rnd] is the value of [rand.Float64()]; the two loops over the map may run
    in different orders [ro1] and [ro2]. Announcing the choice to the peers
    never fails. *)
Definition SelectValidator (ro1 ro2 : range_order) (rnd : float64) (sp : t) : result (string * string) :=
  let host w := default "" (WalletToHost sp !! w) in
  match range ro1 (Stakes sp) with
  | [] => Err "no validators available"
  | [(walletAddr, _)] => Ok (walletAddr, host walletAddr)
  | _ =>
      let r := f64_mul rnd (GetTotalStake ro1 sp) in
      match pick (range ro2 (Stakes sp)) f64_zero r with
      | Some walletAddr => Ok (walletAddr, host walletAddr)
      | None => Err "failed to select validator"
      end
  end.

(** The sort by stake is not stable, but the order [ro] in which the map is
    read is arbitrary, which covers every order of equal stakes. *)
Definition GetValidators (now : Z) (ro : range_order) (sp : t) (count : Z)
    : outcome (result (list ValidatorNode)) :=
  match range ro (Stakes sp) with
  | [] => Done (Err "no validators available in stake pool")
  | entries =>
      let eligible := filter (λ e, (st_Amount e.2 >=? 0) && (time_since now (StartTime e.2) >=? MinStakeAge)) entries in
      let validators :=
        (λ e, mkValidatorNode e.1 (f64_of_Z (st_Amount e.2)) (default "" (WalletToHost sp !! e.1))) <$> eligible in
      match validators with
      | [] => Done (Err "no active validators available")
      | _ =>
          let validators := stable_sort (λ a b, f64_gt (vn_Stake a) (vn_Stake b)) validators in
          let len := Z.of_nat (length validators) in
          let count := if count =? 0 then len else if count >? len then len else count in
          if count <? 0 then Panic "slice bounds out of range"
          else Done (Ok (take (Z.to_nat count) validators))
      end
  end.

Definition GetStakeWeight (now : Z) (stakeInfo : option StakeInfo) : Z :=
  match stakeInfo with
  | None => 0
  | Some s =>
      let age := time_since now (StartTime s) in
      if age <? MinStakeAge then 0
      else
        let age := if age >? MaxStakeAge then MaxStakeAge else age in
        let ageWeight := f64_to_u64 (f64_div (duration_hours age) (f64_of_Z 24)) in
        let baseWeight := u64 (st_Amount s * BaseStakeWeight) / 10 ^ 9 in
        u64 (baseWeight + u64 (baseWeight * ageWeight) / 365)
  end.

Definition RequestWithdrawal (now : Z) (sp : t) (address : string) : t * error :=
  match Stakes sp !! address with
  | None => (sp, Some ("no stake found for address: " +:+ address))
  | Some stake =>
      (set_stake sp address (set_withdrawal (Some (mkWithdrawal now (st_Amount stake) "pending")) stake), None)
  end.

(** The duration in the message of a locked withdrawal is left out. *)
Definition ProcessWithdrawal (now : Z) (sp : t) (address : string) : t * result Z :=
  match Stakes sp !! address with
  | None => (sp, Err ("no stake found for address: " +:+ address))
  | Some stake =>
      match WithdrawalReq stake with
      | None => (sp, Err "no withdrawal request found")
      | Some req =>
          if time_since now (wr_RequestTime req) <? WithdrawalLockPeriod then (sp, Err "withdrawal locked")
          else (mk (delete address (Stakes sp)) (WalletToHost sp) (stateRoot sp), Ok (st_Amount stake))
      end
  end.

Definition RecordViolation (sp : t) (address : string) : t * error :=
  match Stakes sp !! address with
  | None => (sp, Some ("no stake found for address: " +:+ address))
  | Some stake =>
      let stake := set_violations (i64 (st_Violations stake + 1)) stake in
      let stake :=
        if st_Violations stake >=? SlashingThreshold
        then set_amount (u64 (st_Amount stake - st_Amount stake / 2)) stake
        else stake in
      (set_stake sp address stake, None)
  end.

Definition CreateStake (now : Z) (sp : t) (address : string) (amount : Z) : t :=
  set_stake sp address
    (mkStake address amount now now now None 0 (Some (new_performance now)) 0 "" 0 false).

(** The merge in [SyncWithPeer] once the peer's stakes are decoded; a stake the
    peer sent as [null] is [None]. *)
Definition merge_stake (sp : t) (e : string * option StakeInfo) : t :=
  match e.2 with
  | None => sp
  | Some peerStake =>
      match Stakes sp !! e.1 with
      | None => set_host (set_stake sp e.1 peerStake) e.1 (st_HostID peerStake)
      | Some existingStake =>
          if st_Amount peerStake >? st_Amount existingStake
          then set_host (set_stake sp e.1 peerStake) e.1 (st_HostID peerStake)
          else sp
      end
  end.

Definition SyncWithPeer_merge (ro : range_order) (sp : t) (peerStakes : gmap string (option StakeInfo)) : t :=
  foldl merge_stake sp (range ro peerStakes).

(** The document exchanged by [GetValidatorInfo] and [UpdateValidators]: the
    field [hostID] of a [ValidatorNode] is not exported, so it is not encoded
    and is empty after decoding. *)
Definition GetValidatorInfo (now : Z) (ro : range_order) (sp : t)
    : outcome (result (list (string * float64) * string)) :=
  let! r := GetValidators now ro sp 0 in
  match r with
  | Err e => Done (Err e)
  | Ok l => Done (Ok ((λ v, (vn_Address v, vn_Stake v)) <$> l, stateRoot sp))
  end.

Fixpoint add_validators (now : Z) (sp : t) (l : list (string * float64)) : t * error :=
  match l with
  | [] => (sp, None)
  | (address, stake) :: l =>
      match AddStake now sp address "" stake with
      | (sp, Some err) => (sp, Some err)
      | (sp, None) => add_validators now sp l
      end
  end.

Definition UpdateValidators (now : Z) (sp : t) (info : list (string * float64) * string) : t * error :=
  match add_validators now sp info.1 with
  | (sp, Some err) => (sp, Some err)
  | (sp, None) => (mk (Stakes sp) (WalletToHost sp) info.2, None)
  end.

End operations.
End StakePool.
