(* ===== verification/StakeFacts.v ===== *)
(** * Correctness of the stake pool

    The accounting of deposits, removals, withdrawals and slashes over any
    sequence of operations, the lock period of withdrawals, the merge of two
    pools as a join, and the stake-weighted choice of a validator. *)

From stdpp Require Import base gmap strings list sorting.
From Stdlib Require Import ZArith Lia.
From S2P Require Import Prelude.
From S2P Require Import Float64.
From S2P Require Import Stake.
Import StakePool.

(** ** Accounting *)

Definition stakes_total (m : gmap string StakeInfo) : Z := map_fold (λ _ s n, st_Amount s + n) 0 m.
Definition total_stake (sp : t) : Z := stakes_total (Stakes sp).
Definition amounts_ok (sp : t) : Prop := map_Forall (λ _ s, is_u64 (st_Amount s)) (Stakes sp).

Lemma stakes_total_insert_None m w s : m !! w = None →
  stakes_total (<[w := s]> m) = st_Amount s + stakes_total m.
Proof. intros Hw. unfold stakes_total. rewrite map_fold_insert_L; [done|intros; lia|done]. Qed.

Lemma stakes_total_delete m w s : m !! w = Some s →
  stakes_total m = st_Amount s + stakes_total (delete w m).
Proof.
  intros Hw. rewrite <-(stakes_total_insert_None _ w) by apply lookup_delete_eq.
  by rewrite insert_delete_id.
Qed.

Lemma stakes_total_insert m w s s' : m !! w = Some s' →
  stakes_total (<[w := s]> m) = stakes_total m + st_Amount s - st_Amount s'.
Proof.
  intros Hw. rewrite (stakes_total_delete m w s' Hw), <-insert_delete_eq,
    stakes_total_insert_None by apply lookup_delete_eq. lia.
Qed.

Lemma stakes_total_nonneg' m : map_Forall (λ _ s, 0 ≤ st_Amount s) m → 0 ≤ stakes_total m.
Proof.
  induction m as [|w s m Hw IH] using map_ind; intros Hm; [done|].
  rewrite stakes_total_insert_None by done. rewrite map_Forall_insert in Hm by done.
  destruct Hm as [? Hm]. specialize (IH Hm). lia.
Qed.

Lemma stakes_total_nonneg m : map_Forall (λ _ s, is_u64 (st_Amount s)) m → 0 ≤ stakes_total m.
Proof. intros Hm. apply stakes_total_nonneg'. intros w s Hw. by destruct (Hm w s Hw). Qed.

Lemma stakes_total_ge m w s : map_Forall (λ _ s, is_u64 (st_Amount s)) m → m !! w = Some s →
  0 ≤ st_Amount s ≤ stakes_total m.
Proof.
  intros Hm Hw. rewrite (stakes_total_delete m w s Hw). pose proof (Hm w s Hw) as [? _].
  pose proof (stakes_total_nonneg (delete w m) (map_Forall_delete _ _ _ Hm)). lia.
Qed.

(** The operations of the pool that move stake. *)
Inductive stake_op : Type :=
  | OpAddValidator (now : Z) (w : string) (stake : float64) (host : string)
  | OpAddStake (now : Z) (w host : string) (amount : float64)
  | OpRemoveStake (w : string) (amount : float64)
  | OpRequestWithdrawal (now : Z) (w : string)
  | OpProcessWithdrawal (now : Z) (w : string)
  | OpRecordViolation (w : string).

Section accounting.
Context `{GoImpl}.

(** What a third violation takes from a stake. *)
Definition slashed_by (sp : t) (w : string) : Z :=
  match Stakes sp !! w with
  | Some s => if i64 (st_Violations s + 1) >=? SlashingThreshold then st_Amount s / 2 else 0
  | None => 0
  end.

(** Run an operation and tell the stake it moved in (positive) or out. *)
Definition run_op (sp : t) (o : stake_op) : t * Z :=
  match o with
  | OpAddValidator now w stake host =>
      match AddValidator now sp w stake host with
      | (sp', None) => (sp', f64_to_u64 stake)
      | (sp', Some _) => (sp', 0)
      end
  | OpAddStake now w host amount =>
      match AddStake now sp w host amount with
      | (sp', None) => (sp', f64_to_u64 amount)
      | (sp', Some _) => (sp', 0)
      end
  | OpRemoveStake w amount =>
      match RemoveStake sp w amount with
      | (sp', None) => (sp', - f64_to_u64 amount)
      | (sp', Some _) => (sp', 0)
      end
  | OpRequestWithdrawal now w => ((RequestWithdrawal now sp w).1, 0)
  | OpProcessWithdrawal now w =>
      match ProcessWithdrawal now sp w with
      | (sp', Ok paid) => (sp', - paid)
      | (sp', Err _) => (sp', 0)
      end
  | OpRecordViolation w => ((RecordViolation sp w).1, - slashed_by sp w)
  end.

Definition deposit (o : stake_op) : Z :=
  match o with
  | OpAddValidator _ _ x _ | OpAddStake _ _ _ x => f64_to_u64 x
  | _ => 0
  end.

Fixpoint run_ops (sp : t) (l : list stake_op) : t * Z :=
  match l with
  | [] => (sp, 0)
  | o :: l =>
      let '(sp', moved) := run_op sp o in
      let '(sp'', moved') := run_ops sp' l in
      (sp'', moved + moved')
  end.

(** Replacing the stake of a wallet by one of another amount. *)
Lemma set_stake_total sp w s s' : amounts_ok sp → Stakes sp !! w = Some s → is_u64 (st_Amount s') →
  total_stake (set_stake sp w s') = total_stake sp + (st_Amount s' - st_Amount s) ∧
  amounts_ok (set_stake sp w s').
Proof.
  intros Hok Hw Hs'. unfold total_stake, amounts_ok. cbn [Stakes set_stake].
  rewrite (stakes_total_insert _ _ _ _ Hw). split; [lia|]. by apply map_Forall_insert_2.
Qed.

Lemma new_stake_total sp w s' : amounts_ok sp → Stakes sp !! w = None → is_u64 (st_Amount s') →
  total_stake (set_stake sp w s') = total_stake sp + st_Amount s' ∧ amounts_ok (set_stake sp w s').
Proof.
  intros Hok Hw Hs'. unfold total_stake, amounts_ok. cbn [Stakes set_stake].
  rewrite stakes_total_insert_None by done. split; [lia|]. by apply map_Forall_insert_2.
Qed.

Lemma delete_stake_total sp w s hosts : amounts_ok sp → Stakes sp !! w = Some s →
  total_stake (mk (delete w (Stakes sp)) hosts (stateRoot sp)) = total_stake sp - st_Amount s ∧
  amounts_ok (mk (delete w (Stakes sp)) hosts (stateRoot sp)).
Proof.
  intros Hok Hw. unfold total_stake, amounts_ok. cbn [Stakes].
  rewrite (stakes_total_delete _ _ _ Hw). split; [lia|]. by apply map_Forall_delete.
Qed.

(** A deposit into an existing stake does not wrap below [2^64]. *)
Lemma deposit_small sp w s x : amounts_ok sp → Stakes sp !! w = Some s →
  total_stake sp + f64_to_u64 x < 2 ^ 64 → u64 (st_Amount s + f64_to_u64 x) = st_Amount s + f64_to_u64 x.
Proof.
  intros Hok Hw Hlt. pose proof (stakes_total_ge _ _ _ Hok Hw). unfold total_stake in Hlt.
  pose proof (f64_to_u64_range x) as [? _]. apply u64_small. unfold is_u64. lia.
Qed.

Definition accounted (sp : t) (d : Z) (r : t * Z) : Prop :=
  total_stake r.1 = total_stake sp + r.2 ∧ amounts_ok r.1 ∧ r.2 ≤ d.

Lemma AddStake_accounted sp now w host x : amounts_ok sp → total_stake sp + f64_to_u64 x < 2 ^ 64 →
  accounted sp (f64_to_u64 x) (run_op sp (OpAddStake now w host x)).
Proof.
  intros Hok Hlt. pose proof (f64_to_u64_range x) as Hx. cbn [run_op]. unfold AddStake, accounted.
  destruct (f64_le x f64_zero); cbn [fst snd]; [unfold is_u64 in Hx; split_and!; [lia|done|lia]|].
  destruct (Stakes sp !! w) as [s|] eqn:Hw.
  - pose proof (deposit_small sp w s x Hok Hw Hlt) as Hu. pose proof (u64_range (st_Amount s + f64_to_u64 x)).
    edestruct (set_stake_total sp w s) as [Ht ?]; [done|done| |].
    2: { split_and!; [etrans; [exact Ht|]|done|lia]. cbn [set_amount st_Amount]. rewrite Hu. lia. }
    done.
  - edestruct (new_stake_total sp w) as [Ht ?]; [done|done| |].
    2: { split_and!; [exact Ht|done|lia]. }
    done.
Qed.

Lemma AddValidator_accounted sp now w x host : amounts_ok sp → total_stake sp + f64_to_u64 x < 2 ^ 64 →
  accounted sp (f64_to_u64 x) (run_op sp (OpAddValidator now w x host)).
Proof.
  intros Hok Hlt. pose proof (f64_to_u64_range x) as Hx. cbn [run_op]. unfold AddValidator, accounted.
  destruct (str_eqb w ""); [|destruct (str_eqb host ""); [|destruct (f64_lt x f64_zero)]]; cbn [fst snd].
  1-3: unfold is_u64 in Hx; split_and!; [lia|done|lia].
  destruct (Stakes sp !! w) as [s|] eqn:Hw.
  - pose proof (deposit_small sp w s x Hok Hw Hlt) as Hu. pose proof (u64_range (st_Amount s + f64_to_u64 x)).
    edestruct (set_stake_total sp w s) as [Ht ?]; [done|done| |].
    2: { split_and!; [etrans; [exact Ht|]|done|lia]. cbn [set_registration set_amount st_Amount]. rewrite Hu. lia. }
    done.
  - edestruct (new_stake_total sp w) as [Ht ?]; [done|done| |].
    2: { split_and!; [exact Ht|done|lia]. }
    done.
Qed.

Lemma RemoveStake_accounted sp w x : amounts_ok sp → accounted sp 0 (run_op sp (OpRemoveStake w x)).
Proof.
  intros Hok. pose proof (f64_to_u64_range x) as Hx. cbn [run_op]. unfold RemoveStake, accounted.
  destruct (Stakes sp !! w) as [s|] eqn:Hw; [|split_and!; cbn; [lia|done|lia]].
  pose proof (Hok w s Hw) as Hs. cbn in Hs. unfold is_u64 in *.
  destruct (Z.ltb_spec (st_Amount s) (f64_to_u64 x)); [split_and!; cbn; [lia|done|lia]|].
  rewrite u64_small by (unfold is_u64; lia).
  destruct (Z.eqb_spec (st_Amount s - f64_to_u64 x) 0); cbn [fst snd].
  - destruct (delete_stake_total sp w s (delete w (WalletToHost sp)) Hok Hw). split_and!; [lia|done|lia].
  - edestruct (set_stake_total sp w s) as [Ht ?]; [done|done| |split_and!; [etrans; [exact Ht|]|done|lia]].
    + unfold is_u64. cbn. lia.
    + cbn. lia.
Qed.

Lemma withdrawal_accounted sp now w : amounts_ok sp →
  accounted sp 0 (run_op sp (OpRequestWithdrawal now w)) ∧
  accounted sp 0 (run_op sp (OpProcessWithdrawal now w)).
Proof.
  intros Hok. cbn [run_op]. unfold RequestWithdrawal, ProcessWithdrawal, accounted.
  destruct (Stakes sp !! w) as [s|] eqn:Hw; [|split; split_and!; cbn; try lia; done].
  pose proof (Hok w s Hw) as Hs. cbn in Hs. split.
  - edestruct (set_stake_total sp w s) as [Ht ?]; [done|done| |split_and!; [etrans; [exact Ht|]|done|cbn; lia]].
    + exact Hs.
    + cbn. lia.
  - destruct (WithdrawalReq s) as [req|]; [|split_and!; cbn; try lia; done].
    destruct (time_since now (wr_RequestTime req) <? WithdrawalLockPeriod); cbn [fst snd]; [split_and!; try lia; done|].
    destruct (delete_stake_total sp w s (WalletToHost sp) Hok Hw). unfold is_u64 in Hs. split_and!; [lia|done|lia].
Qed.

Lemma RecordViolation_accounted sp w : amounts_ok sp → accounted sp 0 (run_op sp (OpRecordViolation w)).
Proof.
  intros Hok. cbn [run_op]. unfold RecordViolation, slashed_by, accounted.
  destruct (Stakes sp !! w) as [s|] eqn:Hw; [|split_and!; cbn; try lia; done].
  pose proof (Hok w s Hw) as Hs. cbn in Hs. unfold is_u64 in Hs. cbn [fst snd set_violations st_Violations].
  assert (0 ≤ st_Amount s / 2 ≤ st_Amount s) by (split; [apply Z.div_pos; lia|apply Z.div_le_upper_bound; lia]).
  destruct (i64 (st_Violations s + 1) >=? SlashingThreshold).
  - edestruct (set_stake_total sp w s) as [Ht ?]; [done|done| |split_and!; [etrans; [exact Ht|]|done|lia]].
    + cbn. apply u64_range.
    + cbn. rewrite u64_small by (unfold is_u64; lia). lia.
  - edestruct (set_stake_total sp w s) as [Ht ?]; [done|done| |split_and!; [etrans; [exact Ht|]|done|lia]].
    + exact Hs.
    + cbn. lia.
Qed.

Lemma run_op_accounted sp o : amounts_ok sp → total_stake sp + deposit o < 2 ^ 64 →
  accounted sp (deposit o) (run_op sp o).
Proof.
  intros Hok Hlt. destruct o; cbn [deposit] in *.
  - by apply AddValidator_accounted.
  - by apply AddStake_accounted.
  - by apply RemoveStake_accounted.
  - by apply withdrawal_accounted.
  - by apply withdrawal_accounted.
  - by apply RecordViolation_accounted.
Qed.

Lemma deposit_nonneg o : 0 ≤ deposit o.
Proof. destruct o; cbn; try lia; apply f64_to_u64_range. Qed.

Lemma deposits_nonneg l : 0 ≤ foldr Z.add 0 (deposit <$> l).
Proof. induction l as [|o l IH]; [done|]. rewrite fmap_cons. cbn. pose proof (deposit_nonneg o). lia. Qed.

(** C13 Stake is neither created nor lost: over any sequence of registrations,
    deposits, removals, withdrawals and violations the total of the pool changes
    by exactly what the operations report as deposited, removed, paid out and
    slashed, as long as the deposits fit in 64 bits together with the stake. *)
Theorem stake_accounting (l : list stake_op) (sp : t) :
  amounts_ok sp → total_stake sp + foldr Z.add 0 (deposit <$> l) < 2 ^ 64 →
  total_stake (run_ops sp l).1 = total_stake sp + (run_ops sp l).2 ∧ amounts_ok (run_ops sp l).1.
Proof.
  revert sp. induction l as [|o l IH]; intros sp Hok Hlt; [cbn; split; [lia|done]|].
  rewrite fmap_cons in Hlt. cbn [foldr] in Hlt. pose proof (deposits_nonneg l).
  destruct (run_op_accounted sp o Hok ltac:(lia)) as (Ht & Hok' & Hle). cbn [run_ops].
  destruct (run_op sp o) as [sp' moved]. cbn [fst snd] in *.
  destruct (IH sp' Hok') as [Ht' Hok'']; [lia|].
  destruct (run_ops sp' l) as [sp'' moved']. cbn [fst snd] in *. split; [lia|done].
Qed.

End accounting.

(** ** Withdrawals *)
Section withdrawals.
Context `{GoImpl}.









(** The lock covers the wallet, not the coins: what is deposited while a request
    is pending is paid out with it, however recent the deposit. *)
Theorem deposit_paid_without_lock (sp : t) (w host : string) (s : StakeInfo) (r : WithdrawalRequest)
    (x : float64) (now : Z) :
  Stakes sp !! w = Some s → WithdrawalReq s = Some r → f64_le x f64_zero = false →
  WithdrawalLockPeriod ≤ time_since now (wr_RequestTime r) →
  (ProcessWithdrawal now (AddStake now sp w host x).1 w).2 = Ok (u64 (st_Amount s + f64_to_u64 x)).
Proof.
  intros Hw Hr Hx Ht. unfold AddStake. rewrite Hx, Hw. unfold ProcessWithdrawal.
  cbn [fst set_host set_stake Stakes]. rewrite lookup_insert_eq. cbn [set_amount WithdrawalReq].
  rewrite Hr, (proj2 (Z.ltb_ge _ _) Ht). done.
Qed.

End withdrawals.

(** ** Merging the pool of a peer *)

(** The better of two stakes: the local one unless the peer's is higher. *)
Definition join_stake (mine peer : option StakeInfo) : option StakeInfo :=
  match mine, peer with
  | Some s, Some p => if st_Amount p >? st_Amount s then Some p else Some s
  | Some s, None => Some s
  | None, p => p
  end.

Lemma merge_stake_lookup sp e w :
  Stakes (merge_stake sp e) !! w = if decide (e.1 = w) then join_stake (Stakes sp !! w) e.2 else Stakes sp !! w.
Proof.
  destruct e as [k [p|]]; cbn [merge_stake fst snd]; unfold merge_stake; cbn [fst snd].
  2: { case_decide; [|done]. by destruct (Stakes sp !! w). }
  case_decide as Hk.
  - subst k. destruct (Stakes sp !! w) as [s|] eqn:Hw; cbn [join_stake].
    + destruct (st_Amount p >? st_Amount s); [|done]. cbn. by rewrite lookup_insert_eq.
    + cbn. by rewrite lookup_insert_eq.
  - destruct (Stakes sp !! k) as [s|]; [destruct (st_Amount p >? st_Amount s)|]; cbn;
      rewrite ?lookup_insert_ne by done; done.
Qed.

Lemma merge_list_lookup (l : list (string * option StakeInfo)) w : ∀ sp, NoDup l.*1 →
  Stakes (foldl merge_stake sp l) !! w
  = join_stake (Stakes sp !! w) (mjoin ((list_to_map l : gmap string (option StakeInfo)) !! w)).
Proof.
  induction l as [|[k p] l IH]; intros sp Hnd; cbn [foldl].
  { cbn. rewrite lookup_empty. cbn. by destruct (Stakes sp !! w). }
  rewrite fmap_cons in Hnd. apply NoDup_cons in Hnd as [Hk Hnd]. rewrite IH by done.
  rewrite merge_stake_lookup. cbn [fst snd list_to_map foldr uncurry].
  case_decide as Heq.
  - subst k. rewrite lookup_insert_eq. cbn in Hk. rewrite (not_elem_of_list_to_map_1 l w Hk). cbn.
    by destruct (join_stake (Stakes sp !! w) p).
  - by rewrite lookup_insert_ne.
Qed.

(** Merging a peer's pool is a join: whatever the order in which its entries are
    visited, every wallet ends with the higher of the two stakes (the local one
    on a tie), so no stake ever decreases and merging the same pool again
    changes no stake. *)
Theorem SyncWithPeer_merge_join (ro ro' : range_order) (sp : t) (peer : gmap string (option StakeInfo))
    (w : string) :
  fair ro → fair ro' →
  Stakes (SyncWithPeer_merge ro sp peer) !! w = join_stake (Stakes sp !! w) (mjoin (peer !! w)) ∧
  Stakes (SyncWithPeer_merge ro' (SyncWithPeer_merge ro sp peer) peer) !! w
    = Stakes (SyncWithPeer_merge ro sp peer) !! w.
Proof.
  intros Hro Hro'.
  assert (∀ ro sp, fair ro →
    Stakes (SyncWithPeer_merge ro sp peer) !! w = join_stake (Stakes sp !! w) (mjoin (peer !! w))) as Hm.
  { clear. intros ro sp Hro. unfold SyncWithPeer_merge. pose proof (range_perm ro peer Hro) as Hp.
    assert (NoDup (range ro peer).*1) as Hnd by (rewrite Hp; apply NoDup_fst_map_to_list).
    rewrite merge_list_lookup by done. do 2 f_equal.
    rewrite (list_to_map_proper (range ro peer) (map_to_list peer)) by done. by rewrite list_to_map_to_list. }
  rewrite !Hm by done. split; [done|].
  destruct (Stakes sp !! w) as [s|], (mjoin (peer !! w)) as [p|]; cbn; try done.
  - destruct (Z.gtb_spec (st_Amount p) (st_Amount s)); cbn.
    + by destruct (st_Amount p >? st_Amount p).
    + destruct (Z.gtb_spec (st_Amount p) (st_Amount s)); [lia|done].
  - by destruct (st_Amount p >? st_Amount p).
Qed.

(** A slash does not survive a synchronisation: a peer that has not recorded the
    violation gives the slashed half back. *)
Theorem slash_undone_by_peer (ro : range_order) (sp : t) (w : string) (s : StakeInfo) :
  fair ro → Stakes sp !! w = Some s → 2 ≤ st_Violations s < 100 → 2 ≤ st_Amount s < 2 ^ 64 →
  (∃ s', Stakes (RecordViolation sp w).1 !! w = Some s' ∧ st_Amount s' < st_Amount s) ∧
  Stakes (SyncWithPeer_merge ro (RecordViolation sp w).1 {[w := Some s]}) !! w = Some s.
Proof.
  intros Hro Hw Hv Ha. unfold RecordViolation. rewrite Hw.
  assert ((i64 (st_Violations s + 1) >=? SlashingThreshold) = true) as Hs.
  { rewrite i64_small by (unfold is_i64; lia). apply Z.geb_le. unfold SlashingThreshold. lia. }
  cbn [set_violations st_Violations]. rewrite Hs. cbn [fst].
  pose proof (Z.div_str_pos (st_Amount s) 2 ltac:(lia)).
  pose proof (Z.div_le_upper_bound (st_Amount s) 2 (st_Amount s) ltac:(lia) ltac:(lia)).
  set (s' := set_amount _ _).
  assert (st_Amount s' < st_Amount s) as Hlt.
  { subst s'. cbn [set_amount set_violations st_Amount]. rewrite u64_small by (unfold is_u64; lia). lia. }
  split.
  - exists s'. cbn [set_stake Stakes]. by rewrite lookup_insert_eq.
  - unfold SyncWithPeer_merge. pose proof (range_perm ro {[w := Some s]} Hro) as Hp.
    rewrite map_to_list_singleton in Hp. apply Permutation_singleton_r in Hp as ->.
    cbn [foldl]. rewrite merge_stake_lookup. cbn [fst snd]. rewrite decide_True by done.
    cbn [set_stake Stakes]. rewrite lookup_insert_eq. cbn [join_stake].
    destruct (Z.gtb_spec (st_Amount s) (st_Amount s')); [done|lia].
Qed.

(** ** Choosing validators *)

Definition entries_total (l : list (string * StakeInfo)) : Z := foldr Z.add 0 ((λ e, st_Amount e.2) <$> l).

Lemma entries_total_perm l l' : l ≡ₚ l' → entries_total l = entries_total l'.
Proof.
  unfold entries_total. induction 1 as [|x l l' _ IH|x y l|l l' l'' _ IH1 _ IH2]; rewrite ?fmap_cons; cbn in *; lia.
Qed.

Lemma entries_total_stakes m : entries_total (map_to_list m) = stakes_total m.
Proof.
  induction m as [|w s m Hw IH] using map_ind.
  { unfold stakes_total. by rewrite map_to_list_empty, map_fold_empty. }
  rewrite stakes_total_insert_None by done.
  rewrite (entries_total_perm _ _ (map_to_list_insert m w s Hw)), <-IH. done.
Qed.

(** What a range loop over the stakes visits. *)
Lemma range_stakes ro sp : fair ro → amounts_ok sp →
  Forall (λ e : string * StakeInfo, 0 ≤ st_Amount e.2) (range ro (Stakes sp)) ∧
  entries_total (range ro (Stakes sp)) = total_stake sp.
Proof.
  intros Hro Hok. pose proof (range_perm ro (Stakes sp) Hro) as Hp. split.
  - rewrite Hp. apply Forall_forall. intros [w s] Hin. apply elem_of_map_to_list in Hin.
    by destruct (Hok w s Hin).
  - rewrite (entries_total_perm _ _ Hp). apply entries_total_stakes.
Qed.

Section selection.
Context `{GoImpl}.

Lemma total_loop l c : 0 ≤ c → Forall (λ e : string * StakeInfo, 0 ≤ st_Amount e.2) l →
  c + entries_total l < 2 ^ 53 →
  foldl (λ total (e : string * StakeInfo), f64_add total (f64_of_Z (st_Amount e.2))) (f64_of_Z c) l
  = f64_of_Z (c + entries_total l).
Proof.
  intros Hc Hl. revert c Hc. induction Hl as [|e l He Hl IH]; intros c Hc Hlt.
  { cbn. by rewrite Z.add_0_r. }
  unfold entries_total in *. rewrite fmap_cons in Hlt |- *. cbn [foldl foldr] in *.
  assert (0 ≤ foldr Z.add 0 ((λ e : string * StakeInfo, st_Amount e.2) <$> l)).
  { clear -Hl. induction Hl as [|x l Hx _ IHl]; [done|]. rewrite fmap_cons. cbn [foldr]. lia. }
  rewrite f64_add_of_Z, IH by lia. f_equal. lia.
Qed.

(** The total stake is the exact sum of the stakes, in any map order, as long as
    it stays below [2^53]. *)
Lemma GetTotalStake_exact (ro : range_order) (sp : t) :
  fair ro → amounts_ok sp → total_stake sp < 2 ^ 53 → GetTotalStake ro sp = f64_of_Z (total_stake sp).
Proof.
  intros Hro Hok Hlt. destruct (range_stakes ro sp Hro Hok) as [Hf Ht]. unfold GetTotalStake.
  change f64_zero with (f64_of_Z 0). rewrite total_loop by (done || lia). by rewrite Z.add_0_l, Ht.
Qed.

(** The loop stops at the first wallet whose cumulative stake reaches the target. *)
Definition bracketed (l : list (string * StakeInfo)) (c : Z) (r : float64) (w : string) : Prop :=
  ∃ l1 s l2, l = l1 ++ (w, s) :: l2 ∧
    f64_ge (f64_of_Z (c + entries_total l1 + st_Amount s)) r = true ∧
    (l1 = [] ∨ f64_ge (f64_of_Z (c + entries_total l1)) r = false).

Lemma pick_spec l c r : 0 ≤ c → Forall (λ e : string * StakeInfo, 0 ≤ st_Amount e.2) l →
  c + entries_total l < 2 ^ 53 →
  match pick l (f64_of_Z c) r with
  | Some w => bracketed l c r w
  | None => l = [] ∨ f64_ge (f64_of_Z (c + entries_total l)) r = false
  end.
Proof.
  intros Hc Hl. revert c Hc. induction Hl as [|[w s] l He Hl IH]; intros c Hc Hlt; [by left|].
  unfold entries_total in Hlt. rewrite fmap_cons in Hlt. cbn [foldr snd] in Hlt, He.
  fold (entries_total l) in Hlt.
  assert (0 ≤ entries_total l).
  { clear -Hl. unfold entries_total. induction Hl as [|x l Hx _ IHl]; [done|]. rewrite fmap_cons. cbn [foldr]. lia. }
  cbn [pick]. rewrite f64_add_of_Z by lia.
  destruct (f64_ge (f64_of_Z (c + st_Amount s)) r) eqn:Hge.
  - exists [], s, l. split_and!; [done| |by left]. change (entries_total []) with 0. by rewrite Z.add_0_r.
  - specialize (IH (c + st_Amount s) ltac:(lia) ltac:(lia)).
    assert (∀ l1, c + entries_total ((w, s) :: l1) = c + st_Amount s + entries_total l1) as Hcons.
    { intros l1. unfold entries_total. rewrite fmap_cons. cbn [foldr snd]. lia. }
    destruct (pick l (f64_of_Z (c + st_Amount s)) r) as [w'|].
    + destruct IH as (l1 & s' & l2 & -> & Hr & Hb). exists ((w, s) :: l1), s', l2.
      rewrite Hcons. split_and!; [done|done|right]. destruct Hb as [->|Hb]; [|done].
      change (entries_total []) with 0. by rewrite Z.add_0_r.
    + right. rewrite Hcons. destruct IH as [->|Hb]; [|done].
      change (entries_total []) with 0. by rewrite Z.add_0_r.
Qed.

(** The choice of a validator is weighted by stake: whatever the orders of the two
    loops, when the drawn target does not exceed the total, the wallet chosen is
    the one whose stake covers the target in the cumulative sums of the visited
    entries, and it is returned with its host. *)
Theorem SelectValidator_weighted (ro1 ro2 : range_order) (rnd : float64) (sp : t) :
  fair ro1 → fair ro2 → amounts_ok sp → total_stake sp < 2 ^ 53 → (2 ≤ size (Stakes sp))%nat →
  f64_ge (f64_of_Z (total_stake sp)) (f64_mul rnd (f64_of_Z (total_stake sp))) = true →
  ∃ w, SelectValidator ro1 ro2 rnd sp = Ok (w, default "" (WalletToHost sp !! w)) ∧
    bracketed (range ro2 (Stakes sp)) 0 (f64_mul rnd (f64_of_Z (total_stake sp))) w.
Proof.
  intros Hro1 Hro2 Hok Hlt Hsize Hr. unfold SelectValidator.
  assert (∀ ro, fair ro → length (range ro (Stakes sp)) = size (Stakes sp)) as Hlen.
  { intros ro Hro. by rewrite (range_perm ro (Stakes sp) Hro), length_map_to_list. }
  pose proof (Hlen ro1 Hro1) as Hl1. pose proof (Hlen ro2 Hro2) as Hl2.
  destruct (range_stakes ro2 sp Hro2 Hok) as [Hf Ht].
  pose proof (GetTotalStake_exact ro1 sp Hro1 Hok Hlt) as Htot.
  pose proof (pick_spec (range ro2 (Stakes sp)) 0 (f64_mul rnd (f64_of_Z (total_stake sp)))
    ltac:(lia) Hf ltac:(lia)) as Hp.
  rewrite Htot. change f64_zero with (f64_of_Z 0).
  destruct (pick (range ro2 (Stakes sp)) (f64_of_Z 0) _) as [w|] eqn:E.
  - exists w. split; [|done].
    destruct (range ro1 (Stakes sp)) as [|[w1 s1] [|e l]]; cbn in Hl1; [lia|lia|done].
  - exfalso. rewrite Z.add_0_l, Ht in Hp. destruct Hp as [Hn|Hn]; [|congruence].
    rewrite Hn in Hl2. cbn in Hl2. lia.
Qed.

(** The node listed for a stake. *)
Definition node_of (sp : t) (e : string * StakeInfo) : ValidatorNode :=
  mkValidatorNode e.1 (f64_of_Z (st_Amount e.2)) (default "" (WalletToHost sp !! e.1)).

Definition by_stake (a b : ValidatorNode) : bool := f64_gt (vn_Stake a) (vn_Stake b).

Definition started (now : Z) (sp : t) : Prop := map_Forall (λ _ s, StartTime s ≤ now) (Stakes sp).

Lemma by_stake_sorted l : Forall (λ v, f64_is_nan (vn_Stake v) = false) l →
  StronglySorted (sort_rel by_stake) (stable_sort by_stake l).
Proof.
  apply stable_sort_sorted.
  - intros a b. apply f64_lt_asym.
  - unfold sort_rel, by_stake, f64_gt. intros a b c Ha Hb Hc H1 H2.
    by apply (f64_nlt_trans (vn_Stake c) (vn_Stake b)).
Qed.

Lemma all_eligible now l : Forall (λ e : string * StakeInfo, 0 ≤ st_Amount e.2 ∧ StartTime e.2 ≤ now) l →
  filter (λ e : string * StakeInfo, (st_Amount e.2 >=? 0) && (time_since now (StartTime e.2) >=? MinStakeAge)) l = l.
Proof.
  induction 1 as [|e l [Ha Hs] _ IH]; [done|]. rewrite filter_cons_True; [by rewrite IH|].
  apply Is_true_true, andb_true_iff. rewrite !Z.geb_le. unfold time_since, MinStakeAge. lia.
Qed.

(** The validators of a pool in which every stake has begun. *)
Lemma GetValidators_all now ro sp count : fair ro → amounts_ok sp → total_stake sp < 2 ^ 53 →
  started now sp → Stakes sp ≠ ∅ → 0 ≤ count →
  let sorted := stable_sort by_stake (node_of sp <$> range ro (Stakes sp)) in
  GetValidators now ro sp count = Done (Ok
    (take (if count =? 0 then length sorted else Z.to_nat count) sorted)).
Proof.
  intros Hro Hok Hlt Hst Hne Hc sorted. destruct (range_stakes ro sp Hro Hok) as [Hf _].
  pose proof (range_perm ro (Stakes sp) Hro) as Hp.
  assert (Forall (λ e : string * StakeInfo, 0 ≤ st_Amount e.2 ∧ StartTime e.2 ≤ now) (range ro (Stakes sp))) as Hall.
  { rewrite Forall_forall in Hf |- *. intros [w s] Hin. split; [by apply Hf|].
    rewrite Hp in Hin. apply elem_of_map_to_list in Hin. by apply (Hst w s). }
  unfold GetValidators.
  assert (range ro (Stakes sp) ≠ []) as Hnil.
  { intros E. rewrite E in Hp. symmetry in Hp. apply Permutation_nil_r, map_to_list_empty_iff in Hp. done. }
  destruct (range ro (Stakes sp)) as [|e l] eqn:E; [done|]. rewrite (all_eligible now) by done.
  fold by_stake. fold (node_of sp). rewrite fmap_cons. cbv zeta.
  change (stable_sort by_stake (node_of sp e :: (node_of sp <$> l))) with sorted.
  destruct (Z.eqb_spec count 0) as [->|]; cbn [orb].
  - rewrite (proj2 (Z.ltb_ge _ _)) by lia. by rewrite Nat2Z.id.
  - destruct (Z.gtb_spec count (Z.of_nat (length sorted))).
    + rewrite (proj2 (Z.ltb_ge _ _)) by lia. rewrite Nat2Z.id.
      rewrite take_ge by done. rewrite take_ge; [done|lia].
    + rewrite (proj2 (Z.ltb_ge _ _)) by lia. done.
Qed.

(** [GetValidators] returns the wallets with the highest stakes: the list it
    returns can be completed to all stakes of the pool, sorted from the highest,
    and has the requested length (all of them for zero). *)
Theorem GetValidators_top (now count : Z) (ro : range_order) (sp : t) :
  fair ro → amounts_ok sp → total_stake sp < 2 ^ 53 → started now sp → Stakes sp ≠ ∅ → 0 ≤ count →
  ∃ l rest, GetValidators now ro sp count = Done (Ok l) ∧
    l ++ rest ≡ₚ (node_of sp <$> map_to_list (Stakes sp)) ∧
    StronglySorted (sort_rel by_stake) (l ++ rest) ∧
    length l = if count =? 0 then size (Stakes sp) else Nat.min (Z.to_nat count) (size (Stakes sp)).
Proof.
  intros Hro Hok Hlt Hst Hne Hc. pose proof (range_perm ro (Stakes sp) Hro) as Hp.
  pose proof (GetValidators_all now ro sp count Hro Hok Hlt Hst Hne Hc) as Hg. cbv zeta in Hg.
  set (sorted := stable_sort by_stake (node_of sp <$> range ro (Stakes sp))) in *.
  set (n := if count =? 0 then length sorted else Z.to_nat count) in *.
  assert (length sorted = size (Stakes sp)) as Hlen.
  { unfold sorted. by rewrite length_stable_sort, length_fmap, Hp, length_map_to_list. }
  exists (take n sorted), (drop n sorted). rewrite take_drop. split_and!; [done| | |].
  - unfold sorted. by rewrite stable_sort_perm, Hp.
  - apply by_stake_sorted. apply Forall_fmap, Forall_forall. intros [w s] Hin.
    rewrite Hp in Hin. apply elem_of_map_to_list in Hin. cbn.
    apply f64_of_Z_not_nan. pose proof (stakes_total_ge _ _ _ Hok Hin). unfold total_stake in Hlt. lia.
  - rewrite length_take. unfold n. destruct (count =? 0); lia.
Qed.

(** What [UpdateValidators] does with a list of distinct staked wallets. *)
Lemma add_validators_doubles now (l : list (string * StakeInfo)) : ∀ sp,
  NoDup l.*1 → Forall (λ e : string * StakeInfo, Stakes sp !! e.1 = Some e.2 ∧ 0 < st_Amount e.2 < 2 ^ 52) l →
  ∃ sp', add_validators now sp ((λ e : string * StakeInfo, (e.1, f64_of_Z (st_Amount e.2))) <$> l) = (sp', None) ∧
    ∀ w, Stakes sp' !! w = (if bool_decide (w ∈ l.*1)
                            then (λ s, set_amount (2 * st_Amount s) s) <$> Stakes sp !! w else Stakes sp !! w) ∧
         WalletToHost sp' !! w = (if bool_decide (w ∈ l.*1) then Some "" else WalletToHost sp !! w).
Proof.
  induction l as [|[k s] l IH]; intros sp Hnd Hl.
  { exists sp. split; [done|]. intros w. rewrite !bool_decide_eq_false_2 by apply not_elem_of_nil. done. }
  rewrite fmap_cons in Hnd. apply NoDup_cons in Hnd as [Hk Hnd]. apply Forall_cons in Hl as [[Hks Ha] Hl].
  cbn [fst snd] in *. rewrite fmap_cons. cbn [add_validators fst snd]. unfold AddStake.
  rewrite f64_le_of_Z_zero, Hks by lia.
  rewrite f64_to_u64_of_Z, u64_small by (unfold is_u64; lia).
  set (sp1 := set_host (set_stake sp k (set_amount (st_Amount s + st_Amount s) s)) k "").
  destruct (IH sp1 Hnd) as (sp' & He & Hw).
  { rewrite Forall_forall in Hl |- *. intros e Hin. destruct (Hl e Hin) as [Hes ?]. split; [|done].
    unfold sp1. cbn. rewrite lookup_insert_ne; [done|]. intros Heq. apply Hk. rewrite Heq. by apply list_elem_of_fmap_2. }
  exists sp'. split; [done|]. intros w. destruct (Hw w) as [-> ->].
  rewrite fmap_cons. cbn [fst]. unfold sp1; cbn.
  destruct (decide (w = k)) as [->|Hne].
  - rewrite (bool_decide_eq_false_2 _ Hk), bool_decide_eq_true_2 by (apply elem_of_cons; by left).
    rewrite !lookup_insert_eq, Hks. cbn. split; [|done]. do 2 f_equal. lia.
  - rewrite !lookup_insert_ne by done.
    rewrite (bool_decide_ext (w ∈ k :: l.*1) (w ∈ l.*1)); [done|]. rewrite elem_of_cons. tauto.
Qed.

(** The exchange of validator information is not idempotent: a node that receives
    the very information it would send adds every stake a second time and forgets
    the host of every wallet. *)
Theorem validator_info_doubles (now : Z) (ro : range_order) (sp : t) :
  fair ro → total_stake sp < 2 ^ 52 → started now sp → Stakes sp ≠ ∅ →
  map_Forall (λ _ s, 0 < st_Amount s) (Stakes sp) →
  ∃ info sp', GetValidatorInfo now ro sp = Done (Ok info) ∧ UpdateValidators now sp info = (sp', None) ∧
    Stakes sp' = (λ s, set_amount (2 * st_Amount s) s) <$> Stakes sp ∧
    ∀ w, is_Some (Stakes sp !! w) → WalletToHost sp' !! w = Some "".
Proof.
  intros Hro Hlt Hst Hne Hpos. set (sorted := stable_sort by_stake (node_of sp <$> range ro (Stakes sp))).
  assert (∀ w s, Stakes sp !! w = Some s → 0 < st_Amount s < 2 ^ 52) as Hamt.
  { intros w s Hw. assert (0 < st_Amount s) by apply (Hpos w s Hw). split; [done|].
    eapply Z.le_lt_trans; [|exact Hlt]. unfold total_stake.
    rewrite (stakes_total_delete _ _ _ Hw).
    assert (0 ≤ stakes_total (delete w (Stakes sp))); [|lia].
    apply stakes_total_nonneg'. intros w' s' Hw'. apply lookup_delete_Some in Hw' as [_ Hw'].
    specialize (Hpos w' s' Hw'). cbn in Hpos. lia. }
  assert (amounts_ok sp) as Hok by (intros w s Hw; specialize (Hamt w s Hw); unfold is_u64; lia).
  pose proof (GetValidators_all now ro sp 0 Hro Hok ltac:(lia) Hst Hne ltac:(lia)) as Hg.
  cbn in Hg. fold sorted in Hg. rewrite take_ge in Hg by done.
  unfold GetValidatorInfo. rewrite Hg. cbn [obind].
  pose proof (range_perm ro (Stakes sp) Hro) as Hp.
  assert (sorted ≡ₚ (node_of sp <$> map_to_list (Stakes sp))) as Hs by (unfold sorted; by rewrite stable_sort_perm, Hp).
  destruct (Permutation_map_inv (node_of sp) _ Hs) as (l & Hl & Hpl). symmetry in Hpl.
  destruct (add_validators_doubles now l sp) as (sp' & He & Hw).
  - rewrite Hpl. apply NoDup_fst_map_to_list.
  - rewrite Hpl. apply Forall_forall. intros [w s] Hin. apply elem_of_map_to_list in Hin.
    split; [done|]. by apply (Hamt w).
  - eexists _, (mk (Stakes sp') (WalletToHost sp') (stateRoot sp)). split_and!; [done| | |].
    + unfold UpdateValidators. cbn [fst snd]. rewrite Hl, <-list_fmap_compose.
      change ((λ v, (vn_Address v, vn_Stake v)) ∘ node_of sp)
        with (λ e : string * StakeInfo, (e.1, f64_of_Z (st_Amount e.2))). by rewrite He.
    + cbn [Stakes]. apply map_eq. intros w. rewrite lookup_fmap. destruct (Hw w) as [-> _].
      case_bool_decide as Hin; [done|]. destruct (Stakes sp !! w) as [s|] eqn:Es; [|done].
      exfalso. apply Hin. rewrite Hpl. by apply (list_elem_of_fmap_2 fst _ (w, s)), elem_of_map_to_list.
    + intros w [s Hws]. cbn [WalletToHost]. destruct (Hw w) as [_ ->].
      rewrite bool_decide_eq_true_2; [done|]. rewrite Hpl.
      by apply (list_elem_of_fmap_2 fst _ (w, s)), elem_of_map_to_list.
Qed.

End selection.

(** ** Concrete pools *)
Lemma fair_same : fair (λ l, l).
Proof. by intros l. Qed.

Lemma fair_rev : fair reverse.
Proof. intros l. apply reverse_Permutation. Qed.

Definition demo_ops : list stake_op :=
  [OpAddValidator 1000 "a" (f64_of_Z 40) "h1"; OpAddStake 1000 "b" "h2" (f64_of_Z 9);
   OpRequestWithdrawal 2000 "a"; OpRecordViolation "a"; OpRecordViolation "a"; OpRecordViolation "a";
   OpRemoveStake "b" (f64_of_Z 2)].

Definition demo_pool : t := (run_ops NewStakePool demo_ops).1.

Lemma demo_amounts : amounts_ok demo_pool.
Proof. apply (proj1 (bool_decide_eq_true _)). vm_compute. reflexivity. Qed.

Lemma stake_accounting_witness :
  total_stake (run_ops NewStakePool demo_ops).1 = total_stake NewStakePool + (run_ops NewStakePool demo_ops).2.
Proof.
  apply (stake_accounting demo_ops NewStakePool); [|vm_compute; reflexivity].
  apply (proj1 (bool_decide_eq_true _)). vm_compute. reflexivity.
Defined.


Lemma SyncWithPeer_merge_join_witness :
  Stakes (SyncWithPeer_merge reverse NewStakePool (Some <$> Stakes demo_pool)) !! "b"
  = join_stake None (mjoin ((Some <$> Stakes demo_pool) !! "b")).
Proof.
  apply (SyncWithPeer_merge_join reverse (λ l, l) NewStakePool (Some <$> Stakes demo_pool) "b"
    fair_rev fair_same).
Defined.

Lemma SelectValidator_weighted_witness :
  ∃ w, SelectValidator (λ l, l) reverse (f64_ratio 1 2) demo_pool = Ok (w, default "" (WalletToHost demo_pool !! w)) ∧
    bracketed (range reverse (Stakes demo_pool)) 0 (f64_mul (f64_ratio 1 2) (f64_of_Z (total_stake demo_pool))) w.
Proof.
  apply (SelectValidator_weighted (λ l, l) reverse (f64_ratio 1 2) demo_pool fair_same fair_rev demo_amounts).
  - vm_compute. reflexivity.
  - apply (proj1 (bool_decide_eq_true _)). vm_compute. reflexivity.
  - vm_compute. reflexivity.
Defined.

Lemma demo_started : started 5000 demo_pool.
Proof. apply (proj1 (bool_decide_eq_true _)). vm_compute. reflexivity. Qed.

Lemma demo_nonempty : Stakes demo_pool ≠ ∅.
Proof. apply (proj1 (bool_decide_eq_true _)). vm_compute. reflexivity. Qed.

Lemma GetValidators_top_witness :
  ∃ l rest, GetValidators 5000 reverse demo_pool 1 = Done (Ok l) ∧
    l ++ rest ≡ₚ (node_of demo_pool <$> map_to_list (Stakes demo_pool)) ∧ length l = 1%nat.
Proof.
  destruct (GetValidators_top 5000 1 reverse demo_pool fair_rev demo_amounts ltac:(vm_compute; reflexivity)
    demo_started demo_nonempty ltac:(lia)) as (l & rest & E & Hp & _ & Hl).
  exists l, rest. split_and!; [exact E|exact Hp|]. rewrite Hl. vm_compute. reflexivity.
Defined.

Lemma validator_info_doubles_witness :
  ∃ info sp', GetValidatorInfo 5000 reverse demo_pool = Done (Ok info) ∧
    UpdateValidators 5000 demo_pool info = (sp', None) ∧
    Stakes sp' = (λ s, set_amount (2 * st_Amount s) s) <$> Stakes demo_pool.
Proof.
  destruct (validator_info_doubles 5000 reverse demo_pool fair_rev ltac:(vm_compute; reflexivity)
    demo_started demo_nonempty) as (info & sp' & E & E' & Es & _).
  - apply (proj1 (bool_decide_eq_true _)). vm_compute. reflexivity.
  - exists info, sp'. split_and!; [exact E|exact E'|exact Es].
Defined.

(** A deposit below one token passes the check of [AddStake] and creates a stake
    of nothing. *)
Example fractional_stake_is_zero :
  st_Amount <$> (Stakes (AddStake 0 NewStakePool "a" "h" (f64_ratio 1 2)).1 !! "a") = Some 0.
Proof. vm_compute. reflexivity. Qed.

(** Two deposits of [2^63] wrap to nothing. *)
Example deposits_wrap :
  st_Amount <$> (Stakes (run_ops NewStakePool
    [OpAddStake 0 "a" "h" (f64_of_Z (2 ^ 63)); OpAddStake 0 "a" "h" (f64_of_Z (2 ^ 63))]).1 !! "a") = Some 0.
Proof. vm_compute. reflexivity. Qed.
