(* ===== verification/Block.v ===== *)
(** * Blocks ([block.go])

    Headers, the cached hash, the roots, the assembly of a block from the
    mempool, the search for a nonce, the checks of [ValidateBlock], the exchange
    format and the Merkle proofs of a block. A block's header and body are
    pointers that are never nil here. [ord] is the order in which the runtime
    ranges over the children of a trie node, [now] the time in seconds and
    [now_ns] in nanoseconds; what a validator answers over the network is an
    argument. *)

From stdpp Require Import base gmap strings list.
From Stdlib Require Import ZArith Lia.
From S2P Require Import Prelude.
From S2P Require Import Float64.
From S2P Require Import Sha256.
From S2P Require Import Gas.
From S2P Require Import P256.
From S2P Require Import Crypto.
From S2P Require Import Transaction.
From S2P Require Import Merkle.
From S2P Require Import Utxo.
From S2P Require Import Mempool.
From S2P Require Import Trie.
From S2P Require Import Stake.

Definition BaseGasLimit : Z := 15000000.
Definition CheckpointInterval : Z := 2.
Definition EmptyBlockSize : Z := 10 * 1024.

Definition zero_root : string := "0x0000000000000000000000000000000000000000000000000000000000000000".

Record SelectionProof := mkSelectionProof {
  sel_Seed : option bytes;
  sel_Timestamp : Z;
  sel_Weight : Z;
  sel_Score : Z;
}.

Record BlockHeader := mkHeader {
  Version : Z;
  BlockNumber : Z;
  PreviousHash : string;
  hdr_Timestamp : Z;
  MerkleRoot : string;
  StateRoot : string;
  ReceiptsRoot : string;
  Difficulty : Z;
  hdr_Nonce : Z;
  hdr_GasLimit : Z;
  hdr_GasUsed : Z;
  MinedBy : string;
  ValidatedBy : string;
  ExtraData : bytes;
  ValidatorProof : option SelectionProof;
  ValidatorAddress : string;
  ValidatorSig : bytes;
}.

Record TxReceipt := mkReceipt {
  rc_TxHash : string;
  rc_BlockHash : string;
  rc_BlockNumber : Z;
  rc_GasUsed : Z;
  rc_Status : Z;
  rc_CumulativeGas : Z;
}.

Record Block := mkBlock {
  Header : BlockHeader;
  block_Transactions : PatriciaNode;
  Receipts : list TxReceipt;
  block_hash : string;
  block_size : Z;
  numTx : Z;
  CumulativeDifficulty : Z;
  originalHash : string;
}.

Record Checkpoint := mkCheckpoint {
  cp_Height : Z;
  cp_Hash : string;
  cp_StateRoot : string;
  cp_UTXORoot : string;
  cp_Timestamp : Z;
}.

(** Updates of one field. *)
Definition set_header (b : Block) (h : BlockHeader) : Block :=
  mkBlock h (block_Transactions b) (Receipts b) (block_hash b) (block_size b) (numTx b)
    (CumulativeDifficulty b) (originalHash b).
Definition set_hashes (b : Block) (h o : string) : Block :=
  mkBlock (Header b) (block_Transactions b) (Receipts b) h (block_size b) (numTx b)
    (CumulativeDifficulty b) o.
Definition set_nonce (h : BlockHeader) (difficulty nonce : Z) : BlockHeader :=
  mkHeader (Version h) (BlockNumber h) (PreviousHash h) (hdr_Timestamp h) (MerkleRoot h) (StateRoot h)
    (ReceiptsRoot h) difficulty nonce (hdr_GasLimit h) (hdr_GasUsed h) (MinedBy h) (ValidatedBy h)
    (ExtraData h) (ValidatorProof h) (ValidatorAddress h) (ValidatorSig h).
Definition set_validated (h : BlockHeader) (addr : string) (sig : bytes) : BlockHeader :=
  mkHeader (Version h) (BlockNumber h) (PreviousHash h) (hdr_Timestamp h) (MerkleRoot h) (StateRoot h)
    (ReceiptsRoot h) (Difficulty h) (hdr_Nonce h) (hdr_GasLimit h) (hdr_GasUsed h) (MinedBy h) addr
    (ExtraData h) (ValidatorProof h) (ValidatorAddress h) sig.
Definition set_merkle (h : BlockHeader) (root : string) : BlockHeader :=
  mkHeader (Version h) (BlockNumber h) (PreviousHash h) (hdr_Timestamp h) root (StateRoot h)
    (ReceiptsRoot h) (Difficulty h) (hdr_Nonce h) (hdr_GasLimit h) (hdr_GasUsed h) (MinedBy h) (ValidatedBy h)
    (ExtraData h) (ValidatorProof h) (ValidatorAddress h) (ValidatorSig h).

Module Blk.

(** ** Hashes *)
Definition hash_fields (h : BlockHeader) : list string :=
  [fmt_d (Version h); fmt_d (BlockNumber h); PreviousHash h; fmt_d (hdr_Timestamp h); MerkleRoot h;
   StateRoot h; ReceiptsRoot h; fmt_d (hdr_Nonce h); fmt_d (hdr_GasUsed h); fmt_d (Difficulty h);
   fmt_d (hdr_GasLimit h); MinedBy h].

(** Every field followed by a bar, then the extra data. *)
Definition hash_input (h : BlockHeader) : string :=
  foldr (λ f rest, f +:+ "|" +:+ rest)
    (match ExtraData h with [] => "[]" | bs => fmt_v_bytes bs end) (hash_fields h).

Definition CalculateHash (b : Block) : string := sha_hex (hash_input (Header b)).

(** The hash, computed the first time and kept. *)
Definition Hash (b : Block) : string * Block :=
  if negb (str_eqb (originalHash b) "") then (originalHash b, b)
  else let h := CalculateHash b in (h, set_hashes b h h).

(** ** Accessors *)
Definition Number (b : Block) : Z := BlockNumber (Header b).
Definition GasInfo (b : Block) : Z * Z := (hdr_GasUsed (Header b), hdr_GasLimit (Header b)).

Definition calculateBlockSize (b : Block) : Z :=
  u64 (u64 (Z.of_nat (String.length (PreviousHash (Header b))) + Z.of_nat (String.length (Hash b).1) + 16)
       + EmptyBlockSize).

Definition Size (b : Block) : Z * Block :=
  if block_size b =? 0 then
    let s := calculateBlockSize b in
    (s, mkBlock (Header b) (block_Transactions b) (Receipts b) (block_hash b) s (numTx b)
          (CumulativeDifficulty b) (originalHash b))
  else (block_size b, b).

Definition TransactionCount (ord : child_order) (b : Block) : Z * Block :=
  if numTx b =? 0 then
    let n := u32 (Trie.Len ord (block_Transactions b)) in
    (n, mkBlock (Header b) (block_Transactions b) (Receipts b) (block_hash b) (block_size b) n
          (CumulativeDifficulty b) (originalHash b))
  else (numTx b, b).

Definition CreateCheckpoint (b : Block) : Checkpoint :=
  mkCheckpoint (BlockNumber (Header b)) (Hash b).1 (StateRoot (Header b)) (StateRoot (Header b))
    (hdr_Timestamp (Header b)).

Definition Copy (ord : child_order) (b : Block) : Block :=
  mkBlock (Header b)
    (foldl Trie.Insert Trie.NewPatriciaTrie (Trie.GetAllTransactions ord (block_Transactions b)))
    (Receipts b) (block_hash b) (block_size b) (numTx b) (CumulativeDifficulty b) (originalHash b).

(** ** Roots *)
Definition calculateMerkleRoot (hashes : list string) : string :=
  match hashes with
  | [] => zero_root
  | _ => "0x" +:+ merkle_root hashes
  end.

Definition utxo_leaf (u : UTXO) : string :=
  sha_hex (utxo_TransactionID u +:+ "-" +:+ fmt_d (utxo_OutputIndex u) +:+ "-" +:+ utxo_Owner u +:+ "-"
           +:+ fmt_f 8 (utxo_Amount u)).

Definition calculateStateRoot (utxoSet : utxo_set) : string :=
  if bool_decide (utxoSet = ∅) then zero_root
  else calculateMerkleRoot (omap (λ k, utxo_leaf <$> utxoSet !! k) (sort_strings (map_keys utxoSet))).

(** [fmt.Sprintf("%v", receipt)] of a pointer to the struct *)
Definition receipt_text (r : TxReceipt) : string :=
  "&{" +:+ join " " [rc_TxHash r; rc_BlockHash r; fmt_d (rc_BlockNumber r); fmt_d (rc_GasUsed r);
                     fmt_d (rc_Status r); fmt_d (rc_CumulativeGas r)] +:+ "}".

Definition calculateReceiptsRoot (receipts : list TxReceipt) : string :=
  match receipts with
  | [] => zero_root
  | _ => calculateMerkleRoot ((λ r, sha_hex (receipt_text r)) <$> receipts)
  end.

(** ** Gas and size *)
Definition calculateGas (tx : Transaction) : Z :=
  let n := Z.of_nat (length (Tx.GetData tx)) in
  let gasUsed := if n >? 0 then u64 (21000 + u64 (n * 16)) else 21000 in
  u64 (gasUsed + 2000).

Definition calculateDynamicBlockSize `{GoImpl} (txCount : Z) : Z :=
  i64 (BlockGasCalculator.CalculateBlockSize txCount).

(** ** Assembling a block *)

(** What the loop of [NewBlock] carries: the trie, the receipts, the gas and the
    UTXO set, which is the caller's map and is updated in place. *)
Record draft := mkDraft {
  d_trie : PatriciaNode;
  d_receipts : list TxReceipt;
  d_gas : Z;
  d_utxos : utxo_set;
}.

Fixpoint fill_block `{ECDSA} (tbl : key_table) (number gasLimit : Z) (txs : list Transaction) (d : draft)
    : outcome draft :=
  match txs with
  | [] => Done d
  | tx :: txs =>
      let gasNeeded := calculateGas tx in
      if u64 (d_gas d + gasNeeded) >? gasLimit then Done d
      else
        let! valid := Mempool.ValidateTransaction tbl tx (d_utxos d) in
        if (valid : bool) then
          fill_block tbl number gasLimit txs
            (mkDraft (Trie.Insert (d_trie d) tx)
               (d_receipts d ++ [mkReceipt (Tx.Hash tx) "" number gasNeeded 1 (u64 (d_gas d + gasNeeded))])
               (u64 (d_gas d + gasNeeded)) (UpdateUTXOSet tx (d_utxos d)))
        else fill_block tbl number gasLimit txs d
  end.

Definition NewBlock `{ECDSA} `{GoImpl} (tbl : key_table) (ord : child_order) (now_ns : Z) (previousBlock : Block)
    (mempool : Mempool.t) (utxoSet : utxo_set) (difficulty : Z) (validator : string)
    : outcome (Block * utxo_set) :=
  let number := u64 (BlockNumber (Header previousBlock) + 1) in
  let limit := calculateDynamicBlockSize (Z.of_nat (length (Mempool.GetTransactions mempool))) in
  let! txs := Mempool.GetPrioritizedTransactions now_ns mempool limit in
  let! d := fill_block tbl number BaseGasLimit txs (mkDraft Trie.NewPatriciaTrie [] 0 utxoSet) in
  let '(root, trie) := Trie.GenerateRootHash ord (d_trie d) in
  Done (mkBlock
          (mkHeader 1 number (Hash previousBlock).1 (unix now_ns) root (calculateStateRoot (d_utxos d))
             (calculateReceiptsRoot (d_receipts d)) difficulty 0 BaseGasLimit (d_gas d) "" validator [] None "" [])
          trie (d_receipts d) "" 0 0 (u64 (CumulativeDifficulty previousBlock + difficulty)) "",
        d_utxos d).

(** ** Proof of work *)
Definition isHashValid (hash : string) (difficulty : Z) : bool :=
  has_prefix hash (string_repeat "0" (Z.to_nat difficulty)).

(** The search of [MineBlock]: [None] when [fuel] nonces were not enough. *)
Fixpoint mine (fuel : nat) (b : Block) (difficulty : Z) : option Block :=
  match fuel with
  | O => None
  | S fuel =>
      let hash := CalculateHash b in
      if isHashValid hash difficulty then Some (set_hashes b hash (originalHash b))
      else mine fuel (set_header b (set_nonce (Header b) (Difficulty (Header b)) (u64 (hdr_Nonce (Header b) + 1)))) difficulty
  end.

(** A validator's reply: an error of the stream or the decoding, or a verdict
    with the signature when it decodes. *)
Inductive reply : Type :=
  | NoReply (err : string)
  | Verdict (valid : bool) (sig : option bytes).

Definition requestValidation (b : Block) (validator : ValidatorNode) (r : reply) : result bool * Block :=
  if str_eqb (vn_hostID validator) "" then (Err "validator host ID not found", b)
  else match r with
  | NoReply e => (Err e, b)
  | Verdict true sig =>
      (Ok true, set_header b (set_validated (Header b) (vn_Address validator)
                                (default (ValidatorSig (Header b)) sig)))
  | Verdict false _ => (Ok false, b)
  end.

(** The loop over the validators: the validations counted and the block. *)
Fixpoint collect_validations (replies : ValidatorNode → reply) (vs : list ValidatorNode) (b : Block) (n : Z)
    : Z * Block :=
  match vs with
  | [] => (n, b)
  | v :: vs =>
      match requestValidation b v (replies v) with
      | (Ok true, b) => collect_validations replies vs b (n + 1)
      | (_, b) => collect_validations replies vs b n
      end
  end.

(** [None] when the nonces ran out; else the block and its error. *)
Definition MineBlock (fuel : nat) (now_ns : Z) (ro : range_order) (replies : ValidatorNode → reply)
    (b : Block) (stakePool : StakePool.t) (difficulty : Z) : outcome (option (Block * error)) :=
  match mine fuel (set_header b (set_nonce (Header b) difficulty (hdr_Nonce (Header b)))) difficulty with
  | None => Done None
  | Some b =>
      let! validators := StakePool.GetValidators now_ns ro stakePool 3 in
      match validators with
      | Err e => Done (Some (b, Some e))
      | Ok vs =>
          let '(validations, b) := collect_validations replies vs b 0 in
          if validations <? Z.of_nat (length vs) / 2 + 1 then Done (Some (b, Some "insufficient validations"))
          else Done (Some (b, None))
      end
  end.

(** ** Validation *)
Definition check_tx `{ECDSA} (tbl : key_table) (tx : Transaction) : outcome bool :=
  if Tx.IsCoinbase tx then
    Done (str_eqb (Sender tx) "coinbase" && (length (Outputs tx) =? 1)%nat)
  else if Tx.IsValidatorReward tx then
    Done (str_eqb (Sender tx) "system" && (length (Outputs tx) =? 1)%nat)
  else Tx.VerifySignature tbl tx.

Fixpoint check_txs `{ECDSA} (tbl : key_table) (txs : list Transaction) : outcome bool :=
  match txs with
  | [] => Done true
  | tx :: txs =>
      let! ok := check_tx tbl tx in
      if (ok : bool) then check_txs tbl txs else Done false
  end.

Definition ValidateBlock `{ECDSA} (tbl : key_table) (ord : child_order) (b previousBlock : Block)
    : outcome bool :=
  if negb (BlockNumber (Header b) =? u64 (BlockNumber (Header previousBlock) + 1)) then Done false
  else if negb (str_eqb (PreviousHash (Header b)) (block_hash previousBlock)) then Done false
  else if negb (isHashValid (block_hash b) (Difficulty (Header b))) then Done false
  else check_txs tbl (Trie.GetAllTransactions ord (block_Transactions b)).

Definition GenesisBlock (now : Z) : Block :=
  mkBlock
    (mkHeader 1 0 "0x00000000000000000000000000000000" now zero_root zero_root zero_root 1 0 BaseGasLimit 0
       "" "" [] None "" [])
    Trie.NewPatriciaTrie [] "" 0 0 0 "".

Definition verifyProof (proof1 proof2 : option SelectionProof) : bool :=
  match proof1, proof2 with
  | Some p1, Some p2 =>
      match sel_Seed p1 with
      | None => false
      | Some seed => bool_decide (seed = default [] (sel_Seed p2)) && (sel_Weight p1 =? sel_Weight p2)
                     && (sel_Score p1 =? sel_Score p2)
      end
  | _, _ => false
  end.

(** ** The exchange format

    The struct [SimplifiedBlock] that [MarshalJSON] encodes and [UnmarshalJSON]
    decodes: the transactions as a list. The text of the document is the
    standard library's. *)
Record SimplifiedBlock := mkSimplified {
  sb_Hash : string;
  sb_OriginalHash : string;
  sb_Header : BlockHeader;
  sb_RootHash : string;
  sb_TxList : list Transaction;
  sb_Receipts : list TxReceipt;
  sb_CumulativeDifficulty : Z;
}.

Definition MarshalJSON (ord : child_order) (b : Block) : SimplifiedBlock :=
  mkSimplified (block_hash b) (originalHash b) (Header b) (MerkleRoot (Header b))
    (Trie.GetAllTransactions ord (block_Transactions b)) (Receipts b) (CumulativeDifficulty b).

Definition UnmarshalJSON (ord : child_order) (s : SimplifiedBlock) : Block :=
  let hash := if str_eqb (sb_Hash s) "" then sb_OriginalHash s else sb_Hash s in
  let trie := foldl Trie.Insert Trie.NewPatriciaTrie (sb_TxList s) in
  let txCount := Z.of_nat (length (sb_TxList s)) in
  let '(calculatedRoot, trie) := Trie.GenerateRootHash ord trie in
  let header :=
    if negb (str_eqb (MerkleRoot (sb_Header s)) "") && negb (str_eqb calculatedRoot (MerkleRoot (sb_Header s)))
       && (txCount >? 0)
    then set_merkle (sb_Header s) calculatedRoot else sb_Header s in
  mkBlock header trie (sb_Receipts s) hash 0 (u32 txCount) (sb_CumulativeDifficulty s) (sb_OriginalHash s).

(** ** Merkle proofs *)

(** One level of [generateMerkleProofForIndex]: the next level, the index on it
    (the position of the last pair built when the path was met) and the sibling. *)
Fixpoint proof_level (lvl : list bytes) (i currentIndex : nat) (built : nat)
    : list bytes * nat * list string :=
  match lvl with
  | a :: b :: rest =>
      let parent := sha256 (a ++ b) in
      let hit := ((i =? currentIndex) || (i + 1 =? currentIndex))%nat in
      let sibling := if (i =? currentIndex)%nat then hex_encode b else hex_encode a in
      let '(next, index, siblings) :=
        proof_level rest (i + 2) (if hit then built else currentIndex) (built + 1) in
      (parent :: next, index, if hit then sibling :: siblings else siblings)
  | _ => ([], currentIndex, [])
  end.

Fixpoint proof_loop (fuel : nat) (lvl : list bytes) (index : nat) : list string :=
  match fuel with
  | O => []
  | S fuel =>
      if (1 <? length lvl)%nat then
        let lvl := if Nat.odd (length lvl) then lvl ++ option_list (last lvl) else lvl in
        let '(next, index, siblings) := proof_level lvl 0 index 0 in
        siblings ++ proof_loop fuel next (index / 2)%nat
      else []
  end.

Definition generateMerkleProofForIndex (hashes : list string) (index : nat) : list string :=
  proof_loop (length hashes) (digest <$> hashes) index.

(** The proof part of [GenerateMerkleProof]; the other fields copy the header. *)
Definition GenerateMerkleProof (ord : child_order) (b : Block) (txID : string) : result (list string) :=
  match Trie.GetTransaction (block_Transactions b) txID with
  | (Some _, true) =>
      let txHashes := TransactionID <$> Trie.GetAllTransactions ord (block_Transactions b) in
      match last (filter (λ p : nat * string, p.2 = txID) (zip (seq 0 (length txHashes)) txHashes)) with
      | None => Err "transaction found in trie but not in list"
      | Some (targetIndex, _) => Ok (generateMerkleProofForIndex txHashes targetIndex)
      end
  | _ => Err ("transaction " +:+ txID +:+ " not found in block")
  end.

End Blk.
