(* ===== verification/BlockJson.v ===== *)
(** * JSON forms of transactions, headers and blocks

    Two documents exist for a block: the one of its [MarshalJSON]
    ([simplified_document], used through a pointer by the store and on the wire)
    and the default one of a [Block] value ([block_document], what
    [Block.Serialize] writes); [Block.UnmarshalJSON] reads both. [Codec] is what
    the encoder and the decoder promise for a type. Go matches the names of
    fields without regard to case. A nil and an empty slice are not told apart. *)

From stdpp Require Import base gmap strings list.
From Stdlib Require Import ZArith Lia Ascii.
From S2P Require Import Prelude.
From S2P Require Import Float64.
From S2P Require Import Sha256.
From S2P Require Import Json.
From S2P Require Import Transaction.
From S2P Require Import Trie.
From S2P Require Import Block.

(** ** Codecs

    [storable] values can be written and are read back; whatever is read is
    [typed]: its integers have their widths. [null] is read as the zero value. *)
Class Codec (A : Type) := {
  enc : A → option json;
  dec : json → option A;
  zero : A;
  storable : A → Prop;
  typed : A → Prop;
}.

Class CodecLaws (A : Type) `{Codec A} := {
  dec_enc : ∀ a, storable a → ∃ j, enc a = Some j ∧ dec j = Some a;
  dec_null : dec JNull = Some zero;
  dec_typed : ∀ j a, dec j = Some a → typed a;
  zero_typed : typed zero;
}.

Definition get {A} `{Codec A} (fs : list (string * json)) (k : string) : option A :=
  match field_fold fs k with None => Some zero | Some j => dec j end.

Lemma get_typed {A} `{CodecLaws A} fs k a : get fs k = Some a → typed a.
Proof. unfold get. destruct (field_fold fs k); [apply dec_typed|]. intros [= <-]. apply zero_typed. Qed.

Lemma get_enc {A} `{Codec A} fs k j (a : A) : field_fold fs k = Some j → dec j = Some a → get fs k = Some a.
Proof. unfold get. by intros ->. Qed.

(** ** Scalars *)
#[global] Instance string_codec : Codec string := {|
  enc := marshal_string;
  dec j := match j with JNull => Some "" | _ => read_string j end;
  zero := "";
  storable s := utf8_valid s = true;
  typed _ := True;
|}.
#[global] Instance string_laws : CodecLaws string.
Proof.
  split; [|done|done|done]. intros s Hs. exists (JStr s). split; [|done].
  unfold enc, string_codec, marshal_string. by rewrite (utf8_valid_text _ Hs).
Qed.

#[global] Instance bool_codec : Codec bool := {|
  enc := marshal_bool;
  dec j := match j with JNull => Some false | _ => read_bool j end;
  zero := false;
  storable _ := True;
  typed _ := True;
|}.
#[global] Instance bool_laws : CodecLaws bool.
Proof. split; [|done|done|done]. intros b _. by exists (JBool b). Qed.

#[global] Instance float_codec : Codec float64 := {|
  enc := marshal_float;
  dec j := match j with JNull => Some f64_zero | _ => read_float j end;
  zero := f64_zero;
  storable x := f64_is_finite x = true;
  typed _ := True;
|}.
#[global] Instance float_laws : CodecLaws float64.
Proof. split; [|done|done|done]. intros x Hx. exists (JFloat x). cbn. unfold marshal_float. by rewrite Hx. Qed.

(** Integers of a machine type: reading a number out of its range is an error. *)
Record int_type := mkIntType { int_lo : Z; int_hi : Z }.
Definition uint64 : int_type := mkIntType 0 (2 ^ 64).
Definition uint32 : int_type := mkIntType 0 (2 ^ 32).
Definition int64 : int_type := mkIntType (- 2 ^ 63) (2 ^ 63).
Definition int_fits (t : int_type) (z : Z) : bool := (int_lo t <=? z) && (z <? int_hi t).

Definition int_codec (t : int_type) : Codec Z := {|
  enc := marshal_int;
  dec j := match j with JNull => Some 0 | JInt z => if int_fits t z then Some z else None | _ => None end;
  zero := 0;
  storable z := int_fits t z = true;
  typed z := int_fits t z = true;
|}.

Lemma int_laws t : int_fits t 0 = true → @CodecLaws Z (int_codec t).
Proof.
  intros H0. split; [|done| |done].
  - intros z Hz. exists (JInt z). split; [done|]. cbn in *. by rewrite Hz.
  - intros j z E. cbn in *. destruct j as [| |w| | | | | |]; try done; [by injection E as <-|].
    destruct (int_fits t w) eqn:Hw; [|done]. by injection E as <-.
Qed.

Definition u64_codec : Codec Z := int_codec uint64.
Definition u32_codec : Codec Z := int_codec uint32.
Definition i64_codec : Codec Z := int_codec int64.
Lemma u64_laws : @CodecLaws Z u64_codec. Proof. by apply int_laws. Qed.
Lemma u32_laws : @CodecLaws Z u32_codec. Proof. by apply int_laws. Qed.
Lemma i64_laws : @CodecLaws Z i64_codec. Proof. by apply int_laws. Qed.

(** Byte slices and times. *)
#[global] Instance bytes_codec : Codec bytes := {|
  enc bs := Some (JBytes bs);
  dec j := match j with JNull => Some [] | JBytes bs => Some bs | _ => None end;
  zero := [];
  storable _ := True;
  typed _ := True;
|}.
#[global] Instance bytes_laws : CodecLaws bytes.
Proof. split; [|done|done|done]. intros bs _. by exists (JBytes bs). Qed.

Definition time_codec : Codec Z := {|
  enc t := Some (JTime t);
  dec j := match j with JNull => Some zero_time | JTime t => Some t | _ => None end;
  zero := zero_time;
  storable _ := True;
  typed _ := True;
|}.
Lemma time_laws : @CodecLaws Z time_codec.
Proof. split; [|done|done|done]. intros t _. by exists (JTime t). Qed.

(** ** Slices and pointers *)
Section containers.
Context {A : Type} `{CodecLaws A}.

#[global] Instance list_codec : Codec (list A) := {|
  enc l := JArr <$> mapM enc l;
  dec j := match j with JNull => Some [] | JArr l => mapM dec l | _ => None end;
  zero := [];
  storable l := Forall storable l;
  typed l := Forall typed l;
|}.

#[global] Instance list_laws : CodecLaws (list A).
Proof.
  split; [|done| |constructor].
  - intros l Hl. cut (∃ js, mapM enc l = Some js ∧ mapM dec js = Some l).
    { intros (js & E & D). exists (JArr js). cbn. by rewrite E. }
    induction Hl as [|a l Ha _ (js & E & D)]; [by exists []|].
    destruct (dec_enc a Ha) as (j & Ej & Dj). exists (j :: js). cbn. by rewrite Ej, E, Dj, D.
  - intros j l. destruct j as [| | | | | | |js|]; try done; cbn; [intros [= <-]; constructor|].
    revert l. induction js as [|j js IH]; cbn; intros l.
    + intros [= <-]. constructor.
    + destruct (dec j) as [a|] eqn:E; [|done]. destruct (mapM dec js) as [l'|] eqn:E'; [|done].
      intros [= <-]. constructor; [by eapply dec_typed|by apply IH].
Qed.

#[global] Instance pointer_codec : Codec (option A) := {|
  enc o := match o with None => Some JNull | Some a => enc a end;
  dec j := match j with JNull => Some None | _ => Some <$> dec j end;
  zero := None;
  storable o := match o with None => True | Some a => storable a ∧ enc a ≠ Some JNull end;
  typed o := match o with None => True | Some a => typed a end;
|}.

#[global] Instance pointer_laws : CodecLaws (option A).
Proof.
  split; [|done| |done].
  - intros [a|]; [|by exists JNull]. intros [Ha Hn]. destruct (dec_enc a Ha) as (j & E & D). exists j.
    split; [done|]. cbn. destruct j; by rewrite ?D.
  - intros j [a|] E; [|done]. cbn in *. destruct j; try done; apply fmap_Some in E as (w & E & [= ->]);
      by eapply dec_typed.
Qed.

End containers.

(** ** Structs

    A struct is described by its fields: name, codec and projection, over the
    type of its constructor. *)
Inductive sfields (A : Type) : Type → Type :=
  | FEnd : sfields A A
  | FCons {B K : Type} (name : string) (c : Codec B) (proj : A → B) (rest : sfields A K) : sfields A (B → K).
Arguments FEnd {A}.
Arguments FCons {A B K} name c proj rest.

Fixpoint field_names {A K} (f : sfields A K) : list string :=
  match f with FEnd => [] | FCons name _ _ rest => name :: field_names rest end.

Fixpoint write_fields {A K} (f : sfields A K) (a : A) : list (string * option json) :=
  match f with
  | FEnd => []
  | FCons name c proj rest => (name, @enc _ c (proj a)) :: write_fields rest a
  end.

Fixpoint read_fields {A K} (f : sfields A K) : K → list (string * json) → option A :=
  match f with
  | FEnd => λ a _, Some a
  | FCons name c _ rest => λ mk fs, b ← @get _ c fs name; read_fields rest (mk b) fs
  end.

(** The value rebuilt from its projections. *)
Fixpoint rebuild {A K} (f : sfields A K) (a : A) : K → A :=
  match f with
  | FEnd => λ x, x
  | FCons _ _ proj rest => λ mk, rebuild rest a (mk (proj a))
  end.

Fixpoint fields_storable {A K} (f : sfields A K) (a : A) : Prop :=
  match f with
  | FEnd => True
  | FCons _ c proj rest => @storable _ c (proj a) ∧ fields_storable rest a
  end.

Fixpoint fields_typed {A K} (f : sfields A K) (a : A) : Prop :=
  match f with
  | FEnd => True
  | FCons _ c proj rest => @typed _ c (proj a) ∧ fields_typed rest a
  end.

(** A value made by the constructor from typed fields. *)
Fixpoint made_of {A K} (f : sfields A K) : K → A → Prop :=
  match f with
  | FEnd => λ x a, a = x
  | FCons _ c _ rest => λ mk a, ∃ b, @typed _ c b ∧ made_of rest (mk b) a
  end.

Fixpoint fields_laws {A K} (f : sfields A K) : Prop :=
  match f with
  | FEnd => True
  | FCons _ c _ rest => @CodecLaws _ c ∧ fields_laws rest
  end.

Definition struct_codec {A K} (f : sfields A K) (mk : K) (z : A) : Codec A := {|
  enc a := marshal_struct (write_fields f a);
  dec j := match j with JNull => Some z | JObj fs => read_fields f mk fs | _ => None end;
  zero := z;
  storable := fields_storable f;
  typed := made_of f mk;
|}.

(** An entry that comes after, under another name, does not matter. *)
Lemma field_fold_app fs1 fs2 k : field_fold (fs1 ++ fs2) k =
  match field_fold fs2 k with Some j => Some j | None => field_fold fs1 k end.
Proof.
  unfold field_fold. rewrite foldl_app. generalize (foldl (λ acc f, if str_eqb (lower f.1) (lower k) then Some f.2 else acc)
    None fs1) as x. induction fs2 as [|f fs2 IH] using rev_ind; intros x; [done|].
  rewrite !foldl_app. cbn. destruct (str_eqb _ _); [done|]. apply IH.
Qed.

Lemma field_fold_fresh fs k : lower k ∉ (lower ∘ fst <$> fs) → field_fold fs k = None.
Proof.
  induction fs as [|f fs IH] using rev_ind; [done|]. rewrite fmap_app, not_elem_of_app. intros [Hfs Hf].
  rewrite field_fold_app, (IH Hfs). unfold field_fold. cbn. rewrite (proj2 (str_eqb_neq _ _)); [done|].
  intros E. apply Hf. cbn. rewrite E. by left.
Qed.

Section struct_round_trip.
Context {A K0 : Type} (f0 : sfields A K0) (mk0 : K0) (z : A).

(** The fields written after a prefix that uses other names are read back. *)
Lemma read_written {K} (f : sfields A K) (a : A) : fields_laws f → fields_storable f a →
  NoDup (lower <$> field_names f) →
  ∃ fs, mapM (λ kv : string * option json, (kv.1,.) <$> kv.2) (write_fields f a) = Some fs ∧
    (lower ∘ fst <$> fs) = (lower <$> field_names f) ∧
    ∀ mk pre, Forall (λ k, k ∉ (lower <$> field_names f)) (lower ∘ fst <$> pre) →
      read_fields f mk (pre ++ fs) = Some (rebuild f a mk).
Proof.
  induction f as [|B K name c proj rest IH]; intros Hl Hs Hn.
  { exists []. split_and!; [done|done|]. by intros mk pre _. }
  destruct Hl as [Hc Hl], Hs as [Hb Hs]. cbn in Hn. apply NoDup_cons in Hn as [Hfresh Hn].
  destruct (@dec_enc _ c Hc _ Hb) as (j & E & D). destruct (IH Hl Hs Hn) as (fs & Em & Hnames & Hread).
  exists ((name, j) :: fs). split_and!.
  - cbn. rewrite E. cbn. by rewrite Em.
  - cbn. by rewrite Hnames.
  - intros mk pre Hpre. cbn. unfold get. rewrite field_fold_app.
    change ((name, j) :: fs) with ([(name, j)] ++ fs). rewrite (field_fold_app [(name, j)] fs).
    rewrite (field_fold_fresh fs) by (by rewrite Hnames). unfold field_fold at 1. cbn. rewrite str_eqb_refl, D. cbn.
    change (pre ++ (name, j) :: fs) with (pre ++ [(name, j)] ++ fs). rewrite app_assoc. apply Hread. rewrite fmap_app, Forall_app. split.
    + eapply Forall_impl; [exact Hpre|]. cbn. intros k Hk. apply not_elem_of_cons in Hk. apply Hk.
    + cbn. by constructor; [|constructor].
Qed.

Lemma read_made {K} (f : sfields A K) mk fs a : fields_laws f → read_fields f mk fs = Some a → made_of f mk a.
Proof.
  revert mk. induction f as [|B K name c proj rest IH]; intros mk Hl E; [by injection E as <-|].
  destruct Hl as [Hc Hl]. cbn in E. apply bind_Some in E as (b & Eb & E). exists b.
  split; [by eapply (@get_typed _ c)|]. by apply IH.
Qed.

Lemma made_of_projections {K} (f : sfields A K) mk a : fields_typed f a → made_of f mk (rebuild f a mk).
Proof.
  revert mk. induction f as [|B K name c proj rest IH]; intros mk; [done|]. intros [Hb Ht].
  exists (proj a). split; [done|]. by apply IH.
Qed.

Lemma struct_laws : fields_laws f0 → (∀ a, rebuild f0 a mk0 = a) → NoDup (lower <$> field_names f0) →
  fields_typed f0 z → @CodecLaws A (struct_codec f0 mk0 z).
Proof.
  intros Hl Heta Hn Hz. pose proof (made_of_projections f0 mk0 z Hz) as Hmade. rewrite Heta in Hmade.
  split; [| done| |exact Hmade].
  - intros a Ha. destruct (read_written f0 a Hl Ha Hn) as (fs & E & _ & Hread). exists (JObj fs).
    cbn. unfold marshal_struct. rewrite E. split; [done|]. specialize (Hread mk0 []). rewrite Heta in Hread.
    by apply Hread.
  - intros j a E. cbn in *. destruct j; try done; [by injection E as <-|]. by eapply read_made.
Qed.
End struct_round_trip.

(** ** The structs of a block *)
Definition input_fields : sfields TransactionInput _ :=
  FCons "TransactionID" string_codec in_TransactionID (FCons "OutputIndex" i64_codec in_OutputIndex
  (FCons "Signature" string_codec in_Signature FEnd)).
#[global] Instance input_codec : Codec TransactionInput :=
  struct_codec input_fields mkTransactionInput (mkTransactionInput "" 0 "").

Definition output_fields : sfields TransactionOutput _ :=
  FCons "Receiver" string_codec out_Receiver (FCons "Amount" float_codec out_Amount
  (FCons "ScriptPubKey" string_codec out_ScriptPubKey FEnd)).
#[global] Instance output_codec : Codec TransactionOutput :=
  struct_codec output_fields mkTransactionOutput (mkTransactionOutput "" f64_zero "").

Definition transaction_fields : sfields Transaction _ :=
  FCons "TransactionID" string_codec TransactionID (FCons "Sender" string_codec Sender
  (FCons "Receiver" string_codec Receiver (FCons "Amount" float_codec Amount
  (FCons "Timestamp" i64_codec Timestamp (FCons "Nonce" u64_codec Nonce
  (FCons "GasFee" float_codec GasFee (FCons "Inputs" list_codec Inputs
  (FCons "Outputs" list_codec Outputs (FCons "TxType" i64_codec TxType
  (FCons "GasLimit" u64_codec GasLimit (FCons "GasPrice" u64_codec GasPrice
  (FCons "GasUsed" u64_codec GasUsed (FCons "Priority" i64_codec Priority
  (FCons "max_fee_per_gas" u64_codec MaxFeePerGas (FCons "Data" bytes_codec Data
  (FCons "Signature" string_codec Signature (FCons "SenderPubKey" bytes_codec SenderPubKey FEnd))))))))))))))))).

Definition zero_transaction : Transaction :=
  mkTransaction "" "" "" f64_zero 0 0 f64_zero [] [] 0 0 0 0 0 0 [] "" [].

#[global] Instance transaction_codec : Codec Transaction :=
  struct_codec transaction_fields mkTransaction zero_transaction.

Definition receipt_fields : sfields TxReceipt _ :=
  FCons "TxHash" string_codec rc_TxHash (FCons "BlockHash" string_codec rc_BlockHash
  (FCons "BlockNumber" u64_codec rc_BlockNumber (FCons "GasUsed" u64_codec rc_GasUsed
  (FCons "Status" u64_codec rc_Status (FCons "CumulativeGas" u64_codec rc_CumulativeGas FEnd))))).
#[global] Instance receipt_codec : Codec TxReceipt := struct_codec receipt_fields mkReceipt (mkReceipt "" "" 0 0 0 0).

(** The seed is a byte slice that may be nil. *)
Definition seed_codec : Codec (option bytes) := {|
  enc o := match o with None => Some JNull | Some bs => Some (JBytes bs) end;
  dec j := match j with JNull => Some None | JBytes bs => Some (Some bs) | _ => None end;
  zero := None;
  storable _ := True;
  typed _ := True;
|}.

Definition proof_fields : sfields SelectionProof _ :=
  FCons "Seed" seed_codec sel_Seed (FCons "Timestamp" time_codec sel_Timestamp
  (FCons "Weight" u64_codec sel_Weight (FCons "Score" u64_codec sel_Score FEnd))).
#[global] Instance proof_codec : Codec SelectionProof :=
  struct_codec proof_fields mkSelectionProof (mkSelectionProof None zero_time 0 0).

Definition header_fields : sfields BlockHeader _ :=
  FCons "Version" u32_codec Version (FCons "BlockNumber" u64_codec BlockNumber
  (FCons "PreviousHash" string_codec PreviousHash (FCons "Timestamp" i64_codec hdr_Timestamp
  (FCons "MerkleRoot" string_codec MerkleRoot (FCons "StateRoot" string_codec StateRoot
  (FCons "ReceiptsRoot" string_codec ReceiptsRoot (FCons "Difficulty" u32_codec Difficulty
  (FCons "Nonce" u64_codec hdr_Nonce (FCons "GasLimit" u64_codec hdr_GasLimit
  (FCons "GasUsed" u64_codec hdr_GasUsed (FCons "MinedBy" string_codec MinedBy
  (FCons "ValidatedBy" string_codec ValidatedBy (FCons "ExtraData" bytes_codec ExtraData
  (FCons "ValidatorProof" pointer_codec ValidatorProof (FCons "ValidatorAddress" string_codec ValidatorAddress
  (FCons "ValidatorSig" bytes_codec ValidatorSig FEnd)))))))))))))))).

Definition zero_header : BlockHeader := mkHeader 0 0 "" 0 "" "" "" 0 0 0 0 "" "" [] None "" [].

#[global] Instance header_codec : Codec BlockHeader := struct_codec header_fields mkHeader zero_header.

(** ** The document of [MarshalJSON] *)
Record WireBlock := mkWire {
  wb_Hash : string;
  wb_OriginalHash : string;
  wb_Header : option BlockHeader;
  wb_Body : (string * list Transaction) * list TxReceipt;
  wb_CumulativeDifficulty : Z;
}.

Definition txs_fields : sfields (string * list Transaction) _ :=
  FCons "rootHash" string_codec fst (FCons "txList" list_codec snd FEnd).
Definition txs_codec : Codec (string * list Transaction) := struct_codec txs_fields pair ("", []).

Definition body_fields : sfields ((string * list Transaction) * list TxReceipt) _ :=
  FCons "transactions" txs_codec fst (FCons "receipts" list_codec snd FEnd).
Definition body_codec : Codec ((string * list Transaction) * list TxReceipt) :=
  struct_codec body_fields pair (("", []), []).

Definition wire_fields : sfields WireBlock _ :=
  FCons "hash" string_codec wb_Hash (FCons "originalHash" string_codec wb_OriginalHash
  (FCons "header" pointer_codec wb_Header (FCons "body" body_codec wb_Body
  (FCons "cumulativeDifficulty" u64_codec wb_CumulativeDifficulty FEnd)))).
#[global] Instance wire_codec : Codec WireBlock :=
  struct_codec wire_fields mkWire (mkWire "" "" None (("", []), []) 0).

Definition wire_of (s : Blk.SimplifiedBlock) : WireBlock :=
  mkWire (Blk.sb_Hash s) (Blk.sb_OriginalHash s) (Some (Blk.sb_Header s))
    ((Blk.sb_RootHash s, Blk.sb_TxList s), Blk.sb_Receipts s) (Blk.sb_CumulativeDifficulty s).

(** [json.Marshal] of a [*Block]. *)
Definition simplified_document (ord : child_order) (b : Block) : option json :=
  enc (wire_of (Blk.MarshalJSON ord b)).

(** [json.Unmarshal] into a [Block]: [None] is an error of the decoder. A document
    without a header makes [UnmarshalJSON] dereference nil. *)
Definition read_block (ord : child_order) (j : json) : outcome (option Block) :=
  match dec j with
  | None => Done None
  | Some w =>
      match wb_Header w with
      | None => Panic "nil pointer dereference"
      | Some h => Done (Some (Blk.UnmarshalJSON ord
          (Blk.mkSimplified (wb_Hash w) (wb_OriginalHash w) h (wb_Body w).1.1 (wb_Body w).1.2 (wb_Body w).2
             (wb_CumulativeDifficulty w))))
      end
  end.

(** ** The default document of a [Block] value

    The key of a node is never set; children are listed by the text of their
    byte. [fuel] bounds the depth, which is 33 nodes. *)
Fixpoint node_document (fuel : nat) (n : PatriciaNode) : option json :=
  match fuel with
  | O => None
  | S fuel =>
      marshal_struct
        [("Key", Some JNull);
         ("Children", JObj <$> mapM (λ c, (fmt_d c.1,.) <$> node_document fuel c.2)
                                (stable_sort (λ a b, String.ltb (fmt_d a.1) (fmt_d b.1)) (Children n)));
         ("Value", enc (Value n)); ("Hash", enc (node_Hash n)); ("IsLeaf", enc (IsLeaf n))]
  end.

(** [Block.Serialize]: [MarshalJSON] has a pointer receiver and is not used. *)
Definition block_document (b : Block) : option json :=
  marshal_struct
    [("Header", enc (Header b));
     ("Body", marshal_struct
        [("Transactions", marshal_struct [("Root", node_document 33 (block_Transactions b))]);
         ("Receipts", enc (Receipts b))]);
     ("CumulativeDifficulty", marshal_int (CumulativeDifficulty b))].

(** ** Laws *)
Create HintDb codec.
#[global] Hint Resolve string_laws bool_laws float_laws u64_laws u32_laws i64_laws bytes_laws time_laws : codec.

(** Laws of a struct: those of its fields, distinct names, the rest computes.
    [zeros] proves that nested zero values are typed. *)
Ltac struct_laws zeros :=
  apply struct_laws;
  [ cbn [fields_laws]; repeat apply conj; eauto with codec typeclass_instances
  | by intros []
  | apply (proj1 (bool_decide_eq_true _)); vm_compute; reflexivity
  | repeat apply conj; first [done | solve [constructor] | zeros] ].

#[global] Instance input_laws : CodecLaws TransactionInput.
Proof. struct_laws idtac. Qed.
#[global] Instance output_laws : CodecLaws TransactionOutput.
Proof. struct_laws idtac. Qed.
#[global] Instance transaction_laws : CodecLaws Transaction.
Proof. struct_laws idtac. Qed.
#[global] Instance receipt_laws : CodecLaws TxReceipt.
Proof. struct_laws idtac. Qed.
Lemma seed_laws : @CodecLaws _ seed_codec.
Proof. split; [|done|done|done]. intros [bs|] _; eexists; done. Qed.
#[global] Hint Resolve seed_laws : codec.
#[global] Instance proof_laws : CodecLaws SelectionProof.
Proof. struct_laws idtac. Qed.
#[global] Instance header_laws : CodecLaws BlockHeader.
Proof. struct_laws idtac. Qed.
Lemma txs_laws : @CodecLaws _ txs_codec.
Proof. struct_laws idtac. Qed.
#[global] Hint Resolve txs_laws : codec.
Lemma body_laws : @CodecLaws _ body_codec.
Proof. struct_laws ltac:(exact (@zero_typed _ _ txs_laws)). Qed.
#[global] Hint Resolve body_laws : codec.
#[global] Instance wire_laws : CodecLaws WireBlock.
Proof. struct_laws ltac:(exact (@zero_typed _ _ body_laws)). Qed.
