(* ===== verification/BlockFacts.v ===== *)
(** * Correctness of blocks

    What the hash of a block binds, what the assembly of a block guarantees,
    when the search for a nonce succeeds, that an assembled and mined block
    passes validation, and what the exchange format keeps. *)

From stdpp Require Import base gmap strings list pretty.
From Stdlib Require Import ZArith Lia Ascii.
From S2P Require Import Prelude.
From S2P Require Import Float64.
From S2P Require Import Sha256.
From S2P Require Import Gas.
From S2P Require Import P256.
From S2P Require Import Crypto.
From S2P Require Import Transaction.
From S2P Require Import Merkle.
From S2P Require Import Utxo.
From S2P Require Import Mempool.
From S2P Require Import MempoolFacts.
From S2P Require Import Trie.
From S2P Require Import TrieFacts.
From S2P Require Import Stake.
From S2P Require Import StakeFacts.
From S2P Require Import Block.

(** ** The hash of a header *)

(** A string without the separator. *)
Definition no_bar : string → bool := no_char "|".

Lemma split_bar a b x y : no_bar a = true → no_bar b = true →
  a +:+ "|" +:+ x = b +:+ "|" +:+ y → a = b ∧ x = y.
Proof. exact (split_first "|" a b x y). Qed.

Lemma split_fields l1 l2 x y : length l1 = length l2 →
  forallb no_bar l1 = true → forallb no_bar l2 = true →
  foldr (λ f rest, f +:+ "|" +:+ rest) x l1 = foldr (λ f rest, f +:+ "|" +:+ rest) y l2 →
  l1 = l2 ∧ x = y.
Proof.
  revert l2. induction l1 as [|a l1 IH]; intros [|b l2] Hl H1 H2 E; try done.
  cbn [foldr forallb] in *. apply andb_true_iff in H1 as [Ha H1]. apply andb_true_iff in H2 as [Hb H2].
  destruct (split_bar a b _ _ Ha Hb E) as [-> E'].
  destruct (IH l2 ltac:(by injection Hl) H1 H2 E') as [-> ->]. done.
Qed.

Lemma no_bar_fmt_d z : no_bar (fmt_d z) = true.
Proof.
  assert (∀ n : N, no_bar (pretty n) = true) as Hn.
  { intros n. apply no_char_pretty_N. intros d. unfold pretty_N_char. by repeat case_match. }
  unfold fmt_d, pretty, pretty_Z. destruct z; [done|apply Hn|]. cbn. apply Hn.
Qed.

Definition header_strings (h : BlockHeader) : list string :=
  [PreviousHash h; MerkleRoot h; StateRoot h; ReceiptsRoot h; MinedBy h].

(** The text that is hashed for a header determines the header: two headers whose
    strings contain no separator and that give the same text agree on every
    hashed field, so a change of one of them changes what is hashed. *)
Theorem hash_input_injective (h1 h2 : BlockHeader) :
  forallb no_bar (header_strings h1) = true → forallb no_bar (header_strings h2) = true →
  Blk.hash_input h1 = Blk.hash_input h2 →
  Version h1 = Version h2 ∧ BlockNumber h1 = BlockNumber h2 ∧ PreviousHash h1 = PreviousHash h2 ∧
  hdr_Timestamp h1 = hdr_Timestamp h2 ∧ MerkleRoot h1 = MerkleRoot h2 ∧ StateRoot h1 = StateRoot h2 ∧
  ReceiptsRoot h1 = ReceiptsRoot h2 ∧ hdr_Nonce h1 = hdr_Nonce h2 ∧ hdr_GasUsed h1 = hdr_GasUsed h2 ∧
  Difficulty h1 = Difficulty h2 ∧ hdr_GasLimit h1 = hdr_GasLimit h2 ∧ MinedBy h1 = MinedBy h2.
Proof.
  intros H1 H2 E. unfold Blk.hash_input in E.
  assert (∀ h, forallb no_bar (header_strings h) = true → forallb no_bar (Blk.hash_fields h) = true) as Hf.
  { intros h. cbn. rewrite !no_bar_fmt_d, !andb_true_iff. cbn. tauto. }
  destruct (split_fields (Blk.hash_fields h1) (Blk.hash_fields h2) _ _ eq_refl (Hf h1 H1) (Hf h2 H2) E) as [El _].
  unfold Blk.hash_fields, fmt_d in El. injection El. intros. simplify_eq. done.
Qed.

(** What the hash does not cover: the validator of a block, its address, proof
    and signature. *)
Theorem hash_ignores_validator (b : Block) (addr : string) (sig : bytes) :
  Blk.CalculateHash (set_header b (set_validated (Header b) addr sig)) = Blk.CalculateHash b.
Proof. done. Qed.

Lemma CalculateHash_not_empty b : Blk.CalculateHash b ≠ "".
Proof. unfold Blk.CalculateHash. apply sha_hex_not_empty. Qed.

(** Once a hash is cached it stays, whatever happens to the header. *)
Lemma Hash_cached b h : (Blk.Hash (set_header (Blk.Hash b).2 h)).1 = (Blk.Hash b).1.
Proof.
  unfold Blk.Hash. destruct (str_eqb (originalHash b) "") eqn:E;
    cbn [negb fst snd set_hashes set_header originalHash].
  - destruct (str_eqb (Blk.CalculateHash b) "") eqn:E'; [|done].
    apply str_eqb_eq in E'. by destruct (CalculateHash_not_empty b).
  - by rewrite E.
Qed.

(** ** Assembling a block *)
Section assembly.
Context `{ECDSA} (tbl : key_table).

(** A sequence of transactions, each valid against the set the ones before it
    left behind. *)
Inductive applies : utxo_set → list Transaction → utxo_set → Prop :=
  | applies_nil s : applies s [] s
  | applies_cons s tx txs s' :
      Mempool.ValidateTransaction tbl tx s = Done true →
      applies (UpdateUTXOSet tx s) txs s' → applies s (tx :: txs) s'.

Definition gas_total (txs : list Transaction) : Z := foldr Z.add 0 (Blk.calculateGas <$> txs).

(** The receipts of a sequence of transactions. *)
Fixpoint receipts_of (number gas : Z) (txs : list Transaction) : list TxReceipt :=
  match txs with
  | [] => []
  | tx :: txs =>
      mkReceipt (Tx.Hash tx) "" number (Blk.calculateGas tx) 1 (gas + Blk.calculateGas tx)
      :: receipts_of number (gas + Blk.calculateGas tx) txs
  end.

(** Data of a size whose gas does not wrap. *)
Definition small_data (tx : Transaction) : Prop := Z.of_nat (length (Tx.GetData tx)) < 2 ^ 50.

Lemma calculateGas_small tx : small_data tx →
  Blk.calculateGas tx = 23000 + 16 * Z.of_nat (length (Tx.GetData tx)).
Proof.
  intros Hs. unfold small_data in Hs. unfold Blk.calculateGas.
  set (n := Z.of_nat (length (Tx.GetData tx))) in *. destruct (Z.gtb_spec n 0).
  - rewrite (u64_small (n * 16)), (u64_small (21000 + n * 16)), u64_small; unfold is_u64; lia.
  - rewrite u64_small; unfold is_u64; lia.
Qed.

Lemma fill_block_spec number limit txs : 0 ≤ limit < 2 ^ 63 → Forall small_data txs → ∀ d d',
  0 ≤ Blk.d_gas d ≤ limit →
  Blk.fill_block tbl number limit txs d = Done d' →
  ∃ inc, inc `sublist_of` txs ∧ applies (Blk.d_utxos d) inc (Blk.d_utxos d') ∧
    Blk.d_trie d' = Trie.InsertBatch (Blk.d_trie d) inc ∧
    Blk.d_receipts d' = Blk.d_receipts d ++ receipts_of number (Blk.d_gas d) inc ∧
    Blk.d_gas d' = Blk.d_gas d + gas_total inc ∧ Blk.d_gas d' ≤ limit.
Proof.
  intros Hlim Hsmall. induction Hsmall as [|tx txs Hs _ IH]; intros d d' Hgas E; cbn [Blk.fill_block] in E.
  { injection E as <-. exists []. split_and!; [done|constructor|done|by rewrite app_nil_r|cbn; lia|lia]. }
  pose proof (calculateGas_small tx Hs) as Hg. unfold small_data in Hs.
  rewrite u64_small in E by (unfold is_u64; lia).
  destruct (Z.gtb_spec (Blk.d_gas d + Blk.calculateGas tx) limit) as [|Hle].
  { injection E as <-. exists []. split_and!; [apply sublist_nil_l|constructor|done|by rewrite app_nil_r|cbn; lia|lia]. }
  apply obind_Done_inv in E as (valid & Hv & E). destruct valid.
  - edestruct (λ H, IH _ d' H E) as (inc & Hsub & Happ & Ht & Hr & Hgd & Hmax); [cbn; lia|].
    cbn [Blk.d_utxos Blk.d_trie Blk.d_gas Blk.d_receipts] in *.
    exists (tx :: inc). split_and!; [by constructor|by econstructor|done| | |done].
    + rewrite Hr, <-app_assoc. done.
    + unfold gas_total in *. rewrite fmap_cons. cbn [foldr]. lia.
  - destruct (IH d d' Hgas E) as (inc & Hsub & Hrest). exists inc. split; [by constructor|done].
Qed.

Lemma GetPrioritized_sub now_ns m limit txs : Mempool.GetPrioritizedTransactions now_ns m limit = Done txs →
  ∀ tx, tx ∈ txs → tx ∈ Mempool.Transactions m.
Proof.
  unfold Mempool.GetPrioritizedTransactions. cbv zeta. case_match; [done|]. intros [= <-] tx Hin.
  apply elem_of_take in Hin as (i & Hi & _). apply list_elem_of_lookup_2 in Hi.
  by rewrite stable_sort_perm in Hi.
Qed.

(** The block [NewBlock] returns, in terms of the transactions it includes. *)
Lemma NewBlock_inv `{GoImpl} ord now_ns prev m utxoSet utxoSet' difficulty validator b :
  Forall small_data (Mempool.Transactions m) → is_u64 (BlockNumber (Header prev) + 1) →
  Blk.NewBlock tbl ord now_ns prev m utxoSet difficulty validator = Done (b, utxoSet') →
  ∃ inc, inc ⊆ Mempool.Transactions m ∧ applies utxoSet inc utxoSet' ∧ gas_total inc ≤ BaseGasLimit ∧
    let '(root, trie) := Trie.GenerateRootHash ord (Trie.InsertBatch Trie.NewPatriciaTrie inc) in
    let receipts := receipts_of (BlockNumber (Header prev) + 1) 0 inc in
    b = mkBlock
          (mkHeader 1 (BlockNumber (Header prev) + 1) (Blk.Hash prev).1 (unix now_ns) root
             (Blk.calculateStateRoot utxoSet') (Blk.calculateReceiptsRoot receipts) difficulty 0 BaseGasLimit
             (gas_total inc) "" validator [] None "" [])
          trie receipts "" 0 0 (u64 (CumulativeDifficulty prev + difficulty)) "".
Proof.
  intros Hsmall Hnum E. unfold Blk.NewBlock in E.
  apply obind_Done_inv in E as (txs & Htxs & E). apply obind_Done_inv in E as (d & Hd & E).
  pose proof (GetPrioritized_sub _ _ _ _ Htxs) as Hsub. rewrite (u64_small _ Hnum) in *.
  assert (Forall small_data txs) as Hst.
  { rewrite Forall_forall in Hsmall |- *. intros tx Hin. by apply Hsmall, Hsub. }
  assert (0 ≤ BaseGasLimit < 2 ^ 63) as Hlim by done.
  edestruct (λ H, fill_block_spec (BlockNumber (Header prev) + 1) BaseGasLimit txs Hlim Hst _ _ H Hd)
    as (inc & Hinc & Happ & Ht & Hr & Hg & Hmax); [done|].
  cbn in Ht, Hr, Hg, Happ. rewrite Ht, Hr, Hg in E. rewrite Hg in Hmax. exists inc.
  destruct (Trie.GenerateRootHash ord (Trie.InsertBatch Trie.NewPatriciaTrie inc)) as [root trie].
  injection E as <- <-. split_and!; [|done|done|done].
  intros tx Hin. apply Hsub. by eapply elem_of_sublist.
Qed.

(** C7 A block that [NewBlock] assembles holds only transactions of the mempool, each
    valid against the UTXO set its predecessors in the block left behind; the
    header continues the previous block, commits to that final set, to the
    receipts and to the gas, which is the sum of the transactions' gas and
    within the block limit. *)
Theorem NewBlock_spec `{GoImpl} (ord : child_order) (now_ns : Z) (prev : Block) (m : Mempool.t)
    (utxoSet utxoSet' : utxo_set) (difficulty : Z) (validator : string) (b : Block) :
  Forall small_data (Mempool.Transactions m) → is_u64 (BlockNumber (Header prev) + 1) →
  Blk.NewBlock tbl ord now_ns prev m utxoSet difficulty validator = Done (b, utxoSet') →
  ∃ inc, inc ⊆ Mempool.Transactions m ∧ applies utxoSet inc utxoSet' ∧
    block_Transactions b = (Trie.GenerateRootHash ord (Trie.InsertBatch Trie.NewPatriciaTrie inc)).2 ∧
    MerkleRoot (Header b) = (Trie.GenerateRootHash ord (Trie.InsertBatch Trie.NewPatriciaTrie inc)).1 ∧
    BlockNumber (Header b) = BlockNumber (Header prev) + 1 ∧ PreviousHash (Header b) = (Blk.Hash prev).1 ∧
    StateRoot (Header b) = Blk.calculateStateRoot utxoSet' ∧
    Receipts b = receipts_of (BlockNumber (Header b)) 0 inc ∧
    ReceiptsRoot (Header b) = Blk.calculateReceiptsRoot (Receipts b) ∧
    hdr_GasUsed (Header b) = gas_total inc ∧ gas_total inc ≤ hdr_GasLimit (Header b).
Proof.
  intros Hsmall Hnum E. destruct (NewBlock_inv _ _ _ _ _ _ _ _ _ Hsmall Hnum E) as (inc & Hin & Happ & Hg & Hb).
  exists inc. destruct (Trie.GenerateRootHash ord (Trie.InsertBatch Trie.NewPatriciaTrie inc)) as [root trie].
  cbv beta iota zeta in Hb. rewrite Hb. done.
Qed.

(** *** Validation of an assembled block *)

Lemma check_txs_all txs : Forall (λ tx, Blk.check_tx tbl tx = Done true) txs → Blk.check_txs tbl txs = Done true.
Proof. induction 1 as [|tx txs Htx _ IH]; [done|]. cbn. by rewrite Htx. Qed.

(** A regular transaction that the mempool's validation accepts passes the check
    of a block. *)
Lemma valid_check_tx tx s : Tx.is_system tx = false → Mempool.ValidateTransaction tbl tx s = Done true →
  Blk.check_tx tbl tx = Done true.
Proof.
  unfold Tx.is_system. intros Hsys Hv. unfold Mempool.ValidateTransaction in Hv. rewrite Hsys in Hv.
  apply orb_false_iff in Hsys as [Hc Hr]. unfold Blk.check_tx. rewrite Hc, Hr.
  destruct (Tx.ValidateGas tx); [done|]. destruct (_ && _); [done|].
  destruct (Mempool.input_sum s (Sender tx) (Inputs tx) f64_zero); [|done]. by destruct (f64_lt _ _).
Qed.

Lemma applies_checked s txs s' : Forall (λ tx, Tx.is_system tx = false) txs → applies s txs s' →
  Forall (λ tx, Blk.check_tx tbl tx = Done true) txs.
Proof.
  intros Hsys Happ. induction Happ as [|s tx txs s' Hv _ IH]; [done|].
  apply Forall_cons in Hsys as [Htx Hsys]. constructor; [by eapply valid_check_tx|by apply IH].
Qed.

End assembly.

(** ** Proof of work *)

(** The block [k] nonces further. *)
Definition with_nonce (b : Block) (k : nat) : Block :=
  set_header b (set_nonce (Header b) (Difficulty (Header b)) (u64 (hdr_Nonce (Header b) + Z.of_nat k))).

Definition solves (b : Block) (difficulty : Z) (k : nat) : bool :=
  Blk.isHashValid (Blk.CalculateHash (with_nonce b k)) difficulty.

Lemma with_nonce_0 b : is_u64 (hdr_Nonce (Header b)) → with_nonce b 0 = b.
Proof.
  intros Hn. unfold with_nonce. rewrite Z.add_0_r, u64_small by done. by destruct b as [[]].
Qed.

Lemma with_nonce_S b k : with_nonce (with_nonce b 1) k = with_nonce b (S k).
Proof.
  unfold with_nonce, set_header, set_nonce. cbn. do 2 f_equal. unfold u64.
  rewrite Zplus_mod_idemp_l. f_equal. lia.
Qed.

(** The search stops at the first nonce that solves the block; it finds one
    whenever there is one within its range. *)
Lemma mine_first fuel difficulty : ∀ b, is_u64 (hdr_Nonce (Header b)) →
  match Blk.mine fuel b difficulty with
  | Some b' => ∃ k, (k < fuel)%nat ∧ solves b difficulty k = true ∧
      (∀ j, (j < k)%nat → solves b difficulty j = false) ∧
      b' = set_hashes (with_nonce b k) (Blk.CalculateHash (with_nonce b k)) (originalHash b)
  | None => ∀ k, (k < fuel)%nat → solves b difficulty k = false
  end.
Proof.
  induction fuel as [|fuel IH]; intros b Hn; cbn [Blk.mine]; [intros; lia|].
  assert (solves b difficulty 0 = Blk.isHashValid (Blk.CalculateHash b) difficulty) as H0.
  { unfold solves. by rewrite with_nonce_0. }
  destruct (Blk.isHashValid (Blk.CalculateHash b) difficulty) eqn:Hv.
  { exists 0%nat. rewrite (with_nonce_0 b Hn). split_and!; [lia|done|lia|done]. }
  change (set_header b (set_nonce (Header b) (Difficulty (Header b)) (u64 (hdr_Nonce (Header b) + 1))))
    with (with_nonce b 1).
  specialize (IH (with_nonce b 1) (u64_range _)).
  assert (∀ k, solves (with_nonce b 1) difficulty k = solves b difficulty (S k)) as HS.
  { intros k. unfold solves. by rewrite with_nonce_S. }
  destruct (Blk.mine fuel (with_nonce b 1) difficulty) as [b'|].
  - destruct IH as (k & Hk & Hs & Hj & ->). exists (S k). rewrite with_nonce_S. rewrite HS in Hs.
    split_and!; [lia|done| |done]. intros [|j] Hjk; [done|]. rewrite <-HS. apply Hj. lia.
  - intros [|k] Hk; [done|]. rewrite <-HS. apply IH. lia.
Qed.

(** The validators of a list that answered that the block is valid. *)
Definition approving (replies : ValidatorNode → Blk.reply) (vs : list ValidatorNode) : list ValidatorNode :=
  filter (λ v, negb (str_eqb (vn_hostID v) "") && match replies v with Blk.Verdict b _ => b | _ => false end) vs.

(** A block and its header's validator after the requests. *)
Definition same_work (b b' : Block) : Prop :=
  ∃ addr sig, b' = set_header b (set_validated (Header b) addr sig).

Lemma same_work_refl b : same_work b b.
Proof. exists (ValidatedBy (Header b)), (ValidatorSig (Header b)). by destruct b as [[]]. Qed.

Lemma same_work_trans a b c : same_work a b → same_work b c → same_work a c.
Proof. intros (x & s & ->) (y & s' & ->). by exists y, s'. Qed.

Lemma collect_validations_spec replies vs : ∀ b n,
  let r := Blk.collect_validations replies vs b n in
  r.1 = n + Z.of_nat (length (approving replies vs)) ∧ same_work b r.2 ∧
  match last (approving replies vs) with
  | Some v => ValidatedBy (Header r.2) = vn_Address v
  | None => ValidatedBy (Header r.2) = ValidatedBy (Header b)
  end.
Proof.
  induction vs as [|v vs IH]; intros b n; cbn [Blk.collect_validations].
  { cbn. split_and!; [lia|apply same_work_refl|done]. }
  unfold approving. rewrite filter_cons. fold (approving replies vs). unfold Blk.requestValidation.
  destruct (str_eqb (vn_hostID v) ""); cbn [negb andb]; [apply IH|].
  destruct (replies v) as [e|[] sig]; [apply IH| |apply IH].
  rewrite decide_True by done. cbn [length]. set (b1 := set_header b _).
  destruct (IH b1 (n + 1)) as (Hn & Hw & Hv). cbv zeta. split_and!.
  - rewrite Hn. lia.
  - eapply same_work_trans; [|exact Hw]. by eexists _, _.
  - rewrite last_cons. by destruct (last (approving replies vs)).
Qed.

(** What a successful search and collection leave: the block at a nonce that
    solves it, with its hash, and only the validator's fields changed after. *)
Lemma MineBlock_inv fuel now_ns ro replies b stakePool difficulty b' :
  is_u64 (hdr_Nonce (Header b)) →
  Blk.MineBlock fuel now_ns ro replies b stakePool difficulty = Done (Some (b', None)) →
  ∃ k, let b1 := with_nonce (set_header b (set_nonce (Header b) difficulty (hdr_Nonce (Header b)))) k in
    Blk.isHashValid (Blk.CalculateHash b1) difficulty = true ∧
    same_work (set_hashes b1 (Blk.CalculateHash b1) (originalHash b)) b'.
Proof.
  intros Hn Hmine. unfold Blk.MineBlock in Hmine.
  pose proof (mine_first fuel difficulty (set_header b (set_nonce (Header b) difficulty (hdr_Nonce (Header b)))) Hn) as Hm.
  destruct (Blk.mine fuel _ difficulty) as [b1|]; [|done].
  destruct Hm as (k & _ & Hs & _ & ->). exists k. split; [exact Hs|].
  apply obind_Done_inv in Hmine as (r & Hr & Hmine). destruct r as [vs|e]; [|done].
  match type of Hmine with context [Blk.collect_validations replies vs ?x 0] =>
    destruct (collect_validations_spec replies vs x 0) as (_ & Hw & _);
    destruct (Blk.collect_validations replies vs x 0) as [validations b2] end.
  destruct (validations <? _); [done|]. by injection Hmine as <-.
Qed.

(** C15 A block that [MineBlock] returns without error carries the hash of its header,
    which meets the difficulty at the first nonce that does, and a majority of
    the validators consulted found it valid, one of them named in its header;
    nothing else of the block has changed. When one of the tried nonces solves
    the block, the search ends. *)
Theorem MineBlock_spec (fuel : nat) (now_ns : Z) (ro : range_order) (replies : ValidatorNode → Blk.reply)
    (b : Block) (stakePool : StakePool.t) (difficulty : Z) :
  is_u64 (hdr_Nonce (Header b)) →
  let b0 := set_header b (set_nonce (Header b) difficulty (hdr_Nonce (Header b))) in
  (∀ b', Blk.MineBlock fuel now_ns ro replies b stakePool difficulty = Done (Some (b', None)) →
    block_hash b' = Blk.CalculateHash b' ∧ Blk.isHashValid (block_hash b') difficulty = true ∧
    ∃ k vs v, (∀ j, (j < k)%nat → solves b0 difficulty j = false) ∧
      same_work (set_hashes (with_nonce b0 k) (block_hash b') (originalHash b)) b' ∧
      StakePool.GetValidators now_ns ro stakePool 3 = Done (Ok vs) ∧
      Z.of_nat (length vs) < 2 * Z.of_nat (length (approving replies vs)) ∧
      v ∈ approving replies vs ∧ ValidatedBy (Header b') = vn_Address v) ∧
  (∀ k, (k < fuel)%nat → solves b0 difficulty k = true →
    Blk.MineBlock fuel now_ns ro replies b stakePool difficulty ≠ Done None).
Proof.
  intros Hn b0. unfold Blk.MineBlock. fold b0.
  pose proof (mine_first fuel difficulty b0 Hn) as Hm.
  destruct (Blk.mine fuel b0 difficulty) as [b1|].
  2: { split; [done|]. intros k Hk Hs. by rewrite Hm in Hs. }
  destruct Hm as (k & Hk & Hs & Hj & ->). split.
  - intros b' E. apply obind_Done_inv in E as (r & Hr & E). destruct r as [vs|e]; [|done].
    set (b1 := set_hashes _ _ _) in E.
    destruct (collect_validations_spec replies vs b1 0) as (Hc & Hw & Hv).
    destruct (Blk.collect_validations replies vs b1 0) as [validations b2]. cbn [fst snd] in *. subst validations.
    rewrite Z.add_0_l in E.
    destruct (Z.ltb_spec (Z.of_nat (length (approving replies vs))) (Z.of_nat (length vs) / 2 + 1)); [done|].
    injection E as <-. pose proof (Z.div_mod (Z.of_nat (length vs)) 2 ltac:(lia)).
    pose proof (Z.mod_pos_bound (Z.of_nat (length vs)) 2 ltac:(lia)).
    assert (block_hash b2 = Blk.CalculateHash (with_nonce b0 k)) as Hh by (by destruct Hw as (? & ? & ->)).
    assert (Blk.CalculateHash b2 = Blk.CalculateHash (with_nonce b0 k)) as Hh2 by (by destruct Hw as (? & ? & ->)).
    destruct (last (approving replies vs)) as [v|] eqn:Hl.
    2: { apply last_None in Hl. rewrite Hl in *. cbn [length] in *. lia. }
    split_and!; [by rewrite Hh, Hh2|by rewrite Hh|]. exists k, vs, v.
    split_and!; [done|by rewrite Hh|done|lia| |done].
    rewrite last_lookup in Hl. by eapply list_elem_of_lookup_2.
  - intros k' Hk' Hs'. destruct (StakePool.GetValidators now_ns ro stakePool 3) as [[vs|e]| |]; cbn; try done.
    destruct (Blk.collect_validations replies vs _ 0) as [validations b2]. by case_match.
Qed.

(** C6 A block that is assembled from a mempool without coinbases and rewards and is
    mined without error passes [ValidateBlock] against its predecessor, if the
    predecessor has its hash recorded (the genesis block of a new chain has not, see
    [unhashed_predecessor_refuses]); the data of every transaction is below 2^50
    bytes, so that no gas wraps, and the block's number fits in 64 bits. *)
Theorem mined_block_validates `{ECDSA} `{GoImpl} (tbl : key_table) (ord ord' : child_order) (now_ns : Z)
    (prev b b' : Block) (m : Mempool.t) (s s' : utxo_set) (difficulty : Z) (validator : string)
    (fuel : nat) (ro : range_order) (replies : ValidatorNode → Blk.reply) (stakePool : StakePool.t) :
  fair_children ord → fair_children ord' →
  Forall small_data (Mempool.Transactions m) →
  Forall (λ tx, Tx.is_system tx = false) (Mempool.Transactions m) →
  is_u64 (BlockNumber (Header prev) + 1) → block_hash prev = (Blk.Hash prev).1 →
  Blk.NewBlock tbl ord now_ns prev m s difficulty validator = Done (b, s') →
  Blk.MineBlock fuel now_ns ro replies b stakePool difficulty = Done (Some (b', None)) →
  Blk.ValidateBlock tbl ord' b' prev = Done true.
Proof.
  intros Hord Hord' Hsmall Hreg Hnum Hprev Hnew Hmine.
  destruct (NewBlock_inv tbl _ _ _ _ _ _ _ _ _ Hsmall Hnum Hnew) as (inc & Hin & Happ & _ & Hb).
  pose proof (GetAll_elem ord' ord inc) as Hall.
  destruct (Trie.GenerateRootHash ord (Trie.InsertBatch Trie.NewPatriciaTrie inc)) as [root trie].
  cbv beta iota zeta in Hb. cbn [snd] in Hall.
  apply MineBlock_inv in Hmine as (k & Hs & addr & sig & ->); [|by rewrite Hb].
  unfold Blk.ValidateBlock. cbn [Header set_header set_hashes with_nonce set_nonce set_validated BlockNumber
    PreviousHash Difficulty block_hash block_Transactions].
  rewrite Hs.
  assert (BlockNumber (Header b) = BlockNumber (Header prev) + 1) as -> by (by rewrite Hb).
  assert (PreviousHash (Header b) = (Blk.Hash prev).1) as -> by (by rewrite Hb).
  assert (block_Transactions b = trie) as -> by (by rewrite Hb).
  rewrite (u64_small _ Hnum), Z.eqb_refl, <-Hprev, str_eqb_refl. cbn [negb].
  apply check_txs_all. apply Forall_forall. intros tx Htx.
  assert (Forall (λ tx, Tx.is_system tx = false) inc) as Hsys.
  { rewrite Forall_forall in Hreg |- *. intros x Hx. by apply Hreg, Hin. }
  pose proof (applies_checked tbl s inc s' Hsys Happ) as Hc. rewrite Forall_forall in Hc.
  apply Hc. by apply Hall.
Qed.

(** A predecessor whose hash field was never filled (a fresh genesis block) has no
    successor that validates. *)
Theorem unhashed_predecessor_refuses `{ECDSA} (tbl : key_table) (ord : child_order) (b prev : Block) :
  block_hash prev = "" → PreviousHash (Header b) = (Blk.Hash prev).1 →
  Blk.ValidateBlock tbl ord b prev = Done false.
Proof.
  intros Hp Hb. unfold Blk.ValidateBlock. destruct (_ =? _); cbn [negb]; [|done].
  assert ((Blk.Hash prev).1 ≠ "") as Hne.
  { unfold Blk.Hash. destruct (str_eqb (originalHash prev) "") eqn:E; cbn [negb fst].
    - apply CalculateHash_not_empty.
    - by apply str_eqb_neq in E. }
  rewrite Hb, Hp, (proj2 (str_eqb_neq _ _) Hne). done.
Qed.

(** ** The exchange format *)

(** A block survives the exchange format: the decoded block has the same hash,
    difficulty, receipts and transactions (in some order). Its header is the
    same but for the Merkle root, which the decoder may replace. *)
Theorem Unmarshal_Marshal (ord ord' ord'' : child_order) (b : Block) :
  fair_children ord → fair_children ord' → fair_children ord'' → trie_reachable (block_Transactions b) →
  block_hash b ≠ "" →
  let b' := Blk.UnmarshalJSON ord' (Blk.MarshalJSON ord b) in
  block_hash b' = block_hash b ∧ originalHash b' = originalHash b ∧
  CumulativeDifficulty b' = CumulativeDifficulty b ∧ Receipts b' = Receipts b ∧
  Trie.GetAllTransactions ord'' (block_Transactions b') ≡ₚ Trie.GetAllTransactions ord (block_Transactions b) ∧
  ∃ root, Header b' = set_merkle (Header b) root.
Proof.
  intros Hord Hord' Hord'' Hr Hh b'. unfold b', Blk.UnmarshalJSON, Blk.MarshalJSON.
  cbn [Blk.sb_Hash Blk.sb_OriginalHash Blk.sb_Header Blk.sb_RootHash Blk.sb_TxList Blk.sb_Receipts
    Blk.sb_CumulativeDifficulty].
  destruct (rebuild_trie ord ord'' (block_Transactions b) Hord Hord'' Hr) as [Hr1 Hall].
  set (trie := foldl Trie.Insert _ _) in *.
  assert (trie_reachable (Trie.GenerateRootHash ord' trie).2 ∧
    contents 32 (Trie.GenerateRootHash ord' trie).2 ≡ₚ contents 32 trie) as [Hr2 Hc].
  { split; [by constructor|]. unfold Trie.GenerateRootHash. destruct (Children trie); [done|].
    by apply computeHash_contents. }
  destruct (Trie.GenerateRootHash ord' trie) as [root trie2]. cbn [snd] in *.
  rewrite (proj2 (str_eqb_neq (block_hash b) "") Hh).
  cbn [block_hash originalHash CumulativeDifficulty Receipts block_Transactions Header].
  split_and!; [done..|by apply Hall|]. destruct (_ && _); [by exists root|].
  exists (MerkleRoot (Header b)). by destruct (Header b).
Qed.

(** ** Merkle proofs *)

(** The proof of the third of four transactions lists the transaction's own
    parent where its uncle belongs: the index is halved twice per level. *)
Theorem merkle_proof_wrong_uncle (a b c d : string) :
  Blk.generateMerkleProofForIndex [a; b; c; d] 2 =
    [hex_encode (digest d); hex_encode (sha256 (digest c ++ digest d))].
Proof. done. Qed.

(** ** Concrete blocks *)
Definition demo_block : Block :=
  let r := Trie.GenerateRootHash (λ l, l) demo_trie in
  (Blk.Hash (mkBlock (set_merkle (Header (Blk.GenesisBlock 100)) r.1) r.2 [] "" 0 0 1 "")).2.

Lemma Hash_transactions b : block_Transactions (Blk.Hash b).2 = block_Transactions b.
Proof. unfold Blk.Hash. by destruct (negb _). Qed.

(** Headers that differ in their Merkle root alone are hashed as different texts. *)
Lemma hash_input_merkle (h : BlockHeader) : ∃ pre post, ∀ r, Blk.hash_input (set_merkle h r) = pre +:+ r +:+ post.
Proof.
  exists (fmt_d (Version h) +:+ "|" +:+ fmt_d (BlockNumber h) +:+ "|" +:+ PreviousHash h +:+ "|"
          +:+ fmt_d (hdr_Timestamp h) +:+ "|").
  eexists. intros r. rewrite <-!sapp_assoc. unfold Blk.hash_input, Blk.hash_fields.
  cbn [set_merkle Version BlockNumber PreviousHash hdr_Timestamp MerkleRoot StateRoot ReceiptsRoot hdr_Nonce
    hdr_GasUsed Difficulty hdr_GasLimit MinedBy ExtraData foldr]. reflexivity.
Qed.

Lemma set_merkle_id h : set_merkle h (MerkleRoot h) = h.
Proof. by destruct h. Qed.

(** A decoded block whose rebuilt trie has another root is not the block that was
    hashed. *)
Lemma decoded_root_differs (ord ord' : child_order) (b : Block) :
  let txs := Trie.GetAllTransactions ord (block_Transactions b) in
  let root := (Trie.GenerateRootHash ord' (foldl Trie.Insert Trie.NewPatriciaTrie txs)).1 in
  MerkleRoot (Header b) ≠ "" → root ≠ MerkleRoot (Header b) → txs ≠ [] →
  Blk.hash_input (Header (Blk.UnmarshalJSON ord' (Blk.MarshalJSON ord b))) ≠ Blk.hash_input (Header b).
Proof.
  intros txs root Hm Hr Ht. unfold Blk.UnmarshalJSON, Blk.MarshalJSON.
  cbn [Blk.sb_TxList Blk.sb_Header]. fold txs. subst root.
  destruct (Trie.GenerateRootHash ord' (foldl Trie.Insert Trie.NewPatriciaTrie txs)) as [root trie].
  cbn [fst] in Hr. rewrite (proj2 (str_eqb_neq _ _) Hm), (proj2 (str_eqb_neq _ _) Hr). cbn [negb andb Header].
  destruct (Z.gtb_spec (Z.of_nat (length txs)) 0) as [_|Hl]; [|destruct txs; [done|cbn [length] in Hl; lia]].
  destruct (hash_input_merkle (Header b)) as (pre & post & Hin). rewrite Hin, <-(set_merkle_id (Header b)), Hin.
  intros E. apply sapp_inj_l, sapp_inj_r in E. done.
Qed.

(** A block with two transactions that is decoded in another order of iteration
    gets another Merkle root: the hash it carries is the one of the sender's
    header, but its own header is hashed as another text. *)
Theorem exchange_breaks_hash :
  ∃ b ord ord', trie_reachable (block_Transactions b) ∧ fair_children ord ∧ fair_children ord' ∧
    let b' := Blk.UnmarshalJSON ord' (Blk.MarshalJSON ord b) in
    originalHash b' = sha_hex (Blk.hash_input (Header b)) ∧
    Blk.hash_input (Header b') ≠ Blk.hash_input (Header b).
Proof.
  exists demo_block, (λ l, l), reverse. split_and!; [|apply fair_children_id|apply fair_children_reverse|].
  { unfold demo_block. rewrite Hash_transactions. apply (reach_hash _ (λ l, l) fair_children_id demo_trie_reachable). }
  cbv zeta. assert (Trie.GetAllTransactions (λ l, l) (block_Transactions demo_block) = [leaf_tx "a"; leaf_tx "b"]) as Ht
    by (vm_compute; reflexivity).
  split.
  - unfold Blk.UnmarshalJSON, Blk.MarshalJSON. destruct (Trie.GenerateRootHash _ _). reflexivity.
  - apply decoded_root_differs; rewrite ?Ht; [exact (proj2 demo_roots_differ)| |done].
    exact (not_eq_sym (proj1 demo_roots_differ)).
Qed.

Lemma hash_input_injective_witness :
  MinedBy (Header (Blk.GenesisBlock 100)) = MinedBy (set_validated (Header (Blk.GenesisBlock 100)) "v" []).
Proof.
  apply (hash_input_injective (Header (Blk.GenesisBlock 100)) (set_validated (Header (Blk.GenesisBlock 100)) "v" []));
    vm_compute; reflexivity.
Defined.

Definition genesis : Block := set_hashes (Blk.GenesisBlock 100) "g" "g".

Definition demo_new : outcome (Block * utxo_set) :=
  Blk.NewBlock ∅ (λ l, l) 5000 genesis small_pool payer_set 1 "a".

Lemma small_pool_data : Forall small_data (Mempool.Transactions small_pool).
Proof. repeat constructor. Qed.

Lemma NewBlock_spec_witness :
  ∃ b s', demo_new = Done (b, s') ∧ ∃ inc, applies ∅ payer_set inc s' ∧ hdr_GasUsed (Header b) = gas_total inc.
Proof.
  destruct (is_Done_inv demo_new ltac:(vm_compute; reflexivity)) as [[b s'] E].
  exists b, s'. split; [exact E|].
  destruct (NewBlock_spec ∅ (λ l, l) 5000 genesis small_pool payer_set s' 1 "a" b
    small_pool_data ltac:(vm_compute; by split) E) as (inc & _ & Happ & _ & _ & _ & _ & _ & _ & _ & Hg & _).
  exists inc. split; [exact Happ|exact Hg].
Defined.

Definition all_agree (v : ValidatorNode) : Blk.reply := Blk.Verdict true None.

Lemma MineBlock_spec_witness :
  ∃ b', Blk.MineBlock 64 5000 (λ l, l) all_agree genesis demo_pool 1 = Done (Some (b', None)) ∧
    block_hash b' = Blk.CalculateHash b' ∧ Blk.isHashValid (block_hash b') 1 = true.
Proof.
  assert (match Blk.MineBlock 64 5000 (λ l, l) all_agree genesis demo_pool 1 with
          | Done (Some (_, None)) => true | _ => false end = true) as Hd by (vm_compute; reflexivity).
  destruct (Blk.MineBlock 64 5000 (λ l, l) all_agree genesis demo_pool 1) as [[[b' [|]]|]| |] eqn:E;
    [discriminate| |discriminate..].
  exists b'. split; [done|].
  destruct (MineBlock_spec 64 5000 (λ l, l) all_agree genesis demo_pool 1 ltac:(vm_compute; by split)) as [Hm _].
  destruct (Hm b' E) as (Hh & Hv & _). split; [exact Hh|exact Hv].
Defined.

Lemma mined_block_validates_witness :
  ∃ b b' s', demo_new = Done (b, s') ∧
    Blk.MineBlock 64 5000 (λ l, l) all_agree b demo_pool 1 = Done (Some (b', None)) ∧
    Blk.ValidateBlock ∅ reverse b' genesis = Done true.
Proof.
  assert (match demo_new with
          | Done (b, _) => match Blk.MineBlock 64 5000 (λ l, l) all_agree b demo_pool 1 with
              | Done (Some (_, None)) => true | _ => false end
          | _ => false end = true) as Hd by (vm_compute; reflexivity).
  destruct demo_new as [[b s']| |] eqn:E; [|discriminate..].
  destruct (Blk.MineBlock 64 5000 (λ l, l) all_agree b demo_pool 1) as [[[b' [|]]|]| |] eqn:E';
    [discriminate| |discriminate..].
  exists b, b', s'. split; [reflexivity|]. split; [exact E'|].
  apply (mined_block_validates ∅ (λ l, l) reverse 5000 genesis b b' small_pool payer_set s' 1 "a" 64 (λ l, l)
    all_agree demo_pool fair_children_id fair_children_reverse small_pool_data); [repeat constructor|vm_compute; by split| |exact E|exact E'].
  vm_compute. reflexivity.
Defined.

Lemma demo_block_trie : trie_reachable (block_Transactions demo_block).
Proof. unfold demo_block. rewrite Hash_transactions. apply (reach_hash _ (λ l, l) fair_children_id demo_trie_reachable). Qed.

Lemma demo_block_hashed : block_hash demo_block ≠ "".
Proof. apply (proj1 (bool_decide_eq_true _)). vm_compute. reflexivity. Qed.

Lemma Unmarshal_Marshal_witness :
  block_hash (Blk.UnmarshalJSON reverse (Blk.MarshalJSON (λ l, l) demo_block)) = block_hash demo_block.
Proof.
  exact (proj1 (Unmarshal_Marshal (λ l, l) reverse reverse demo_block fair_children_id fair_children_reverse fair_children_reverse
    demo_block_trie demo_block_hashed)).
Defined.
