(* ===== verification/Chain.v ===== *)
(** * The chain ([blockchain.go])

    The list of blocks with its tip, additions with and without checks, fork
    resolution, rollbacks, checkpoints and the reward schedule. A block of the
    chain that is hashed keeps the hash ([Blk.Hash]): operations that hash
    blocks in place return the chain with these caches. The serialised form of a
    block is a parameter [block_document] (the encoder of the standard library
    applied to a block; [BlockJson] defines it). Reading blocks back is in
    [ChainStore], the mining round in [Mining]. *)

From stdpp Require Import base gmap strings list.
From Stdlib Require Import ZArith Lia.
From S2P Require Import Prelude.
From S2P Require Import Float64.
From S2P Require Import Sha256.
From S2P Require Import Json.
From S2P Require Import Database.
From S2P Require Import Transaction.
From S2P Require Import Account.
From S2P Require Import Utxo.
From S2P Require Import UtxoSync.
From S2P Require Import Trie.
From S2P Require Import Block.

Section chain.
Context `{KV}.

Record Blockchain := mkBlockchain {
  Chain : list Block;
  currentHash : string;
  utxoPool : option UTXOPool;
  world : World;
  lastValidatorAddress : string;
  balances : gmap string float64;
}.

Definition set_chain (bc : Blockchain) (l : list Block) : Blockchain :=
  mkBlockchain l (currentHash bc) (utxoPool bc) (world bc) (lastValidatorAddress bc) (balances bc).
Definition set_tip (bc : Blockchain) (l : list Block) (h : string) : Blockchain :=
  mkBlockchain l h (utxoPool bc) (world bc) (lastValidatorAddress bc) (balances bc).
Definition set_world (bc : Blockchain) (w : World) : Blockchain :=
  mkBlockchain (Chain bc) (currentHash bc) (utxoPool bc) w (lastValidatorAddress bc) (balances bc).

(** The hash of a block, and the block once hashed. *)
Definition hash_of_block (b : Block) : string := (Blk.Hash b).1.
Definition hashed (b : Block) : Block := (Blk.Hash b).2.

(** The chain once its tip is hashed. *)
Definition hash_last (l : list Block) : list Block :=
  match last l with
  | None => l
  | Some p => take (length l - 1) l ++ [hashed p]
  end.

Definition wrong_parent (l : list Block) (b : Block) : bool :=
  match last l with
  | None => false
  | Some p => negb (str_eqb (PreviousHash (Header b)) (hash_of_block p))
  end.

Definition GetHeight (bc : Blockchain) : Z :=
  match last (Chain bc) with None => 0 | Some b => BlockNumber (Header b) end.

(** ** Adding blocks *)
Section adding.
Context (block_document : Block → option json).

Definition block_key (h : string) : string := string_of_bytes (CreateKey 1 (bytes_of_string h)).

(** Storing a block and the pointer to it ([saveBlock], the end of
    [addBlockWithoutValidation]); [what] is the verb of the message. *)
Definition store_block (what : string) (ldb : levelDB.t) (b : Block) : levelDB.t * error :=
  match block_document b with
  | None => (ldb, Some "failed to serialize block")
  | Some j =>
      match levelDB.Put ldb (block_key (hash_of_block b)) (DJson j) with
      | (ldb, Some e) => (ldb, Some ("failed to " +:+ what +:+ " block: " +:+ e))
      | (ldb, None) =>
          match levelDB.Put ldb "latest_block" (DRaw (hash_of_block b)) with
          | (ldb, Some e) => (ldb, Some ("failed to update latest block: " +:+ e))
          | (ldb, None) => (ldb, None)
          end
      end
  end.

(** The hash is computed before the cached one is read, so a block that was
    never hashed compares with itself. *)
Definition addBlockWithoutValidation (bc : Blockchain) (b : Block) : Blockchain * error :=
  let h := hash_of_block b in
  let b := hashed b in
  if negb (str_eqb h (block_hash b)) then (bc, Some "invalid block hash")
  else if negb (BlockNumber (Header b) =? Z.of_nat (length (Chain bc))) then (bc, Some "invalid block number")
  else
    let chain := hash_last (Chain bc) in
    if wrong_parent (Chain bc) b then (set_chain bc chain, Some "invalid previous hash")
    else
      let lastValidator := if str_eqb (ValidatedBy (Header b)) "" then lastValidatorAddress bc else ValidatedBy (Header b) in
      let bc := mkBlockchain (chain ++ [b]) h (utxoPool bc) (world bc) lastValidator (balances bc) in
      match w_db (world bc) with
      | None => (bc, None)
      | Some ldb =>
          let '(ldb, e) := store_block "store" ldb b in
          (set_world bc (mkWorld (Some ldb) (w_am (world bc))), e)
      end.

(** Reading the block back to log it changes nothing. *)
Definition saveBlock (bc : Blockchain) (b : Block) : Blockchain * error :=
  match w_db (world bc) with
  | None => (bc, Some "database not initialized")
  | Some ldb =>
      let '(ldb, e) := store_block "save" ldb b in
      (set_world bc (mkWorld (Some ldb) (w_am (world bc))), e)
  end.

(** [wallet] is the address of the node's wallet, [utxoSet] the chain's own map. *)
Definition InitializeChain (now : Z) (wallet : option string) (utxoSet : utxo_set) (bc : Blockchain)
    : Blockchain * error :=
  if GetHeight bc >? 0 then (bc, None)
  else
    let g := Blk.GenesisBlock now in
    let addr := default "" wallet in
    let h := Header g in
    let g := hashed (set_header g
      (mkHeader (Version h) (BlockNumber h) (PreviousHash h) (hdr_Timestamp h) (MerkleRoot h)
         (Blk.calculateStateRoot utxoSet) (ReceiptsRoot h) (Difficulty h) (hdr_Nonce h) (hdr_GasLimit h)
         (hdr_GasUsed h) (MinedBy h) addr (ExtraData h) (ValidatorProof h) addr (ValidatorSig h))) in
    match saveBlock bc g with
    | (bc, Some e) => (bc, Some ("failed to save genesis block: " +:+ e))
    | (bc, None) =>
        let bc := set_tip bc [g] (block_hash g) in
        match w_db (world bc) with
        | None => (bc, Some "nil pointer dereference")
        | Some ldb =>
            let '(ldb, e) := levelDB.Put ldb "latest_block" (DRaw (block_hash g)) in
            (set_world bc (mkWorld (Some ldb) (w_am (world bc))),
             (λ e, "failed to save latest block hash: " +:+ e) <$> e)
        end
    end.

(** The transactions of a block as the UTXO pool sees them. *)
Definition view (ord : child_order) (b : Block) : block_view :=
  mkBlockView (Trie.GetAllTransactions ord (block_Transactions b)) (BlockNumber (Header b)) (hash_of_block b).

(** The UTXO update that follows a block; its error is only logged. *)
Definition process_utxos (ro ro' : range_order) (ord : child_order) (now : Z) (bc : Blockchain) (b : Block)
    : outcome (Blockchain * error) :=
  match utxoPool bc with
  | None => Done (bc, None)
  | Some p =>
      let! (p, w, e) := ProcessBlockTransactions ro ro' now p (world bc) (Some (view ord b)) in
      Done (mkBlockchain (Chain bc) (currentHash bc) (Some p) w (lastValidatorAddress bc) (balances bc), e)
  end.

Definition AddBlockWithoutValidation (ro ro' : range_order) (ord : child_order) (now : Z) (bc : Blockchain)
    (b : Block) : outcome (Blockchain * error) :=
  let! (bc, _) := process_utxos ro ro' ord now (set_tip bc (Chain bc ++ [b]) (block_hash b)) b in
  Done (bc, None).

Definition ProcessBlockUTXOs (ro ro' : range_order) (ord : child_order) (now : Z) (bc : Blockchain)
    (block : option Block) : outcome (Blockchain * error) :=
  match block with
  | None => Done (bc, Some "cannot process UTXOs for nil block")
  | Some b => process_utxos ro ro' ord now bc b
  end.

Definition ValidateBlockHash (b : Block) : bool := str_eqb (Blk.CalculateHash b) (hash_of_block b).

(** [ValidateTransaction] of the chain accepts everything. *)
Definition ValidateTransaction (tx : Transaction) : error := None.

(** On a chain that has blocks in memory. *)
Definition ValidateBlock (ord : child_order) (bc : Blockchain) (b : Block) : outcome error :=
  if negb (ValidateBlockHash b) then Done (Some "invalid block hash")
  else match last (Chain bc) with
  | None => Panic "nil pointer dereference"
  | Some prev =>
      if negb (str_eqb (PreviousHash (Header b)) (hash_of_block prev)) then Done (Some "invalid previous hash")
      else if negb (BlockNumber (Header b) =? u64 (BlockNumber (Header prev) + 1)) then Done (Some "invalid block number")
      else Done (foldl (λ e tx, match e with Some _ => e | None => ValidateTransaction tx end) None
                   (Trie.GetAllTransactions ord (block_Transactions b)))
  end.

Definition AddBlockWithUTXOProcessing (ro ro' : range_order) (ord : child_order) (now : Z) (bc : Blockchain)
    (b : Block) : outcome (Blockchain * error) :=
  let! e := ValidateBlock ord bc b in
  match e with
  | Some e => Done (bc, Some e)
  | None =>
      match addBlockWithoutValidation bc b with
      | (bc, Some e) => Done (bc, Some e)
      | (bc, None) =>
          let! (bc, _) := process_utxos ro ro' ord now bc (hashed b) in
          Done (bc, None)
      end
  end.

End adding.

(** ** Forks *)

(** [validateChainSegment]: the links, numbers and difficulties of a segment. *)
Definition link_ok (prev b : Block) : bool :=
  str_eqb (PreviousHash (Header b)) (hash_of_block prev)
  && (BlockNumber (Header b) =? u64 (BlockNumber (Header prev) + 1))
  && (CumulativeDifficulty b =? u64 (CumulativeDifficulty prev + Difficulty (Header b))).

Fixpoint links_ok (l : list Block) : bool :=
  match l with
  | prev :: ((b :: _) as l') => link_ok prev b && links_ok l'
  | _ => true
  end.

Definition validateChainSegment (segment : list Block) : bool := links_ok segment.

Definition ValidateCandidateChain (l : list Block) : bool :=
  match l with
  | [] => false
  | g :: _ =>
      negb ((BlockNumber (Header g) =? 0)
            && (negb (str_eqb (PreviousHash (Header g)) "0x00000000000000000000000000000000")
                || negb (CumulativeDifficulty g =? Difficulty (Header g))))
      && links_ok l
  end.

(** The inner loop of [findCommonAncestor], from position [j] down, hashing the
    blocks of the chain as it goes. *)
Fixpoint find_in (h : string) (j : nat) (chain : list Block) : option nat * list Block :=
  match j with
  | O => (None, chain)
  | S j =>
      match chain !! j with
      | None => (None, chain)
      | Some b =>
          let chain := <[j := hashed b]> chain in
          if str_eqb (hash_of_block b) h then (Some j, chain) else find_in h j chain
      end
  end.

Fixpoint find_common (i : nat) (candidateChain chain : list Block) : option nat * list Block :=
  match i with
  | O => (None, chain)
  | S i =>
      match candidateChain !! i with
      | None => (None, chain)
      | Some c =>
          match find_in (hash_of_block c) (length chain) chain with
          | (Some j, chain) => (Some j, chain)
          | (None, chain) => find_common i candidateChain chain
          end
      end
  end.

Definition findCommonAncestor (candidateChain chain : list Block) : option nat * list Block :=
  find_common (length candidateChain) candidateChain chain.

(** The blocks of a validated segment are hashed, except the last. *)
Definition hash_segment (from : nat) (l : list Block) : list Block :=
  take from l ++ (hashed <$> take (length l - 1 - from) (drop from l)) ++ drop (length l - 1) l.

Definition reorganizeChain (chain newChain : list Block) (commonAncestorIndex : nat) : bool * list Block :=
  let merged := take (commonAncestorIndex + 1) chain ++ drop (commonAncestorIndex + 1) newChain in
  if ValidateCandidateChain merged then (true, merged) else (false, chain).

Definition last_difficulty (l : list Block) : Z := default 0 (CumulativeDifficulty <$> last l).

(** On a chain that has blocks: the tip of the candidate, which is longer, exists. *)
Definition ResolveFork (bc : Blockchain) (candidateChain : list Block) : outcome (bool * Blockchain) :=
  if (length candidateChain <=? length (Chain bc))%nat then Done (false, bc)
  else match findCommonAncestor candidateChain (Chain bc) with
  | (None, chain) => Done (false, set_chain bc chain)
  | (Some j, chain) =>
      let bc := set_chain bc chain in
      if negb (validateChainSegment (drop j candidateChain)) then Done (false, bc)
      else
        let candidateChain := hash_segment j candidateChain in
        match last chain with
        | None => Panic "index out of range"
        | Some tip =>
            if last_difficulty candidateChain <=? CumulativeDifficulty tip then Done (false, bc)
            else
              let '(ok, chain) := reorganizeChain chain candidateChain j in
              Done (ok, set_chain bc chain)
        end
  end.

Definition ReplaceChain (bc : Blockchain) (newChain : list Block) : Blockchain :=
  if (length newChain <=? length (Chain bc))%nat then bc
  else if ValidateCandidateChain newChain then set_chain bc newChain else bc.

Definition ResolveChainConflict (bc : Blockchain) (receivedChain : list Block) : outcome (bool * Blockchain) :=
  match last (Chain bc), last receivedChain with
  | Some local, Some remote =>
      if CumulativeDifficulty remote >? CumulativeDifficulty local
      then Done (true, set_chain bc receivedChain) else Done (false, bc)
  | _, _ => Panic "index out of range"
  end.

Definition RollbackToHeight (bc : Blockchain) (height : Z) : Blockchain * error :=
  if height >=? Z.of_nat (length (Chain bc)) then (bc, Some "invalid rollback height")
  else (set_chain bc (take (Z.to_nat (height + 1)) (Chain bc)), None).

Definition ValidateGenesisBlock (bc : Blockchain) (genesis : Block) : outcome bool :=
  match Chain bc with
  | [] => Panic "index out of range"
  | g :: _ =>
      if str_eqb (block_hash g) "" || str_eqb (block_hash genesis) ""
      then Done (str_eqb (Blk.CalculateHash g) (Blk.CalculateHash genesis))
      else Done (str_eqb (block_hash g) (block_hash genesis))
  end.

(** ** Checkpoints *)
Definition verifyCheckpoint (cp : option Checkpoint) : error :=
  match cp with
  | None => Some "nil checkpoint"
  | Some cp =>
      if negb (cp_Height cp mod CheckpointInterval =? 0) then Some "invalid checkpoint height"
      else if str_eqb (cp_StateRoot cp) "" || str_eqb (cp_UTXORoot cp) "" then Some "missing state roots"
      else None
  end.

Definition FastForwardToCheckpoint (bc : Blockchain) (cp : option Checkpoint) : Blockchain * error :=
  match verifyCheckpoint cp, cp with
  | None, Some cp =>
      let b := mkBlock
        (mkHeader 1 (cp_Height cp) "0x00000000000000000000000000000000" (cp_Timestamp cp) "" "" "" 0 0 0 0
           "" "" [] None "" [])
        Trie.NewPatriciaTrie [] "" 0 0 0 "" in
      (set_tip bc [b] (cp_Hash cp), None)
  | Some e, _ => (bc, Some ("invalid checkpoint: " +:+ e))
  | None, None => (bc, None)
  end.

(** ** Rewards *)
Definition InitialBlockReward : float64 := f64_of_Z 50.
Definition RewardHalvingBlocks : Z := 210000.
Definition MinerRewardPercentage : float64 := f64_ratio 7 10.
Definition ValidatorRewardPercentage : float64 := f64_ratio 3 10.
Definition min_reward : float64 := f64_ratio 1 100000000.

Fixpoint halve (n : nat) (reward : float64) : float64 :=
  match n with O => reward | S n => halve n (f64_div reward (f64_of_Z 2)) end.

Definition at_least_min (reward : float64) : float64 := if f64_lt reward min_reward then min_reward else reward.

Definition calculateBlockReward (ord : child_order) (b : Block) : float64 :=
  if BlockNumber (Header b) =? 0 then InitialBlockReward
  else
    let halvings := BlockNumber (Header b) / RewardHalvingBlocks in
    let reward := halve (Z.to_nat halvings) InitialBlockReward in
    let fees := foldl (λ fees tx, if TxType tx =? TX_COINBASE then fees else f64_add fees (GasFee tx)) f64_zero
                  (Trie.GetAllTransactions ord (block_Transactions b)) in
    at_least_min (f64_add reward fees).

Definition calculateValidatorReward (blockReward : float64) : float64 :=
  at_least_min (f64_mul blockReward ValidatorRewardPercentage).

Definition calculateMinerReward (blockReward : float64) : float64 :=
  at_least_min (f64_mul blockReward MinerRewardPercentage).

(** ** Balances *)
Definition AddBalance (bc : Blockchain) (address : string) (amount : float64) : Blockchain :=
  mkBlockchain (Chain bc) (currentHash bc) (utxoPool bc) (world bc) (lastValidatorAddress bc)
    (<[address := f64_add (default f64_zero (balances bc !! address)) amount]> (balances bc)).

Definition GetBalance (bc : Blockchain) (address : string) : float64 :=
  default f64_zero (balances bc !! address).

Definition VerifyBalance (bc : Blockchain) (address : string) (amount : float64) : bool :=
  f64_ge (GetBalance bc address) amount.

End chain.
