(* ===== verification/ChainFacts.v ===== *)
(** * Correctness of the chain

    The chain only grows by linked blocks, a fork is adopted only if it is a
    linked chain with more work, and the reward follows its schedule. *)

From stdpp Require Import base gmap strings list.
From Stdlib Require Import ZArith Lia Floats.SpecFloat.
From S2P Require Import Prelude.
From S2P Require Import Float64.
From S2P Require Import Sha256.
From S2P Require Import Json.
From S2P Require Import Database.
From S2P Require Import Transaction.
From S2P Require Import Account.
From S2P Require Import Utxo.
From S2P Require Import UtxoSync.
From S2P Require Import Trie.
From S2P Require Import TrieFacts.
From S2P Require Import Block.
From S2P Require Import BlockFacts.
From S2P Require Import Chain.

(** ** Hashing a block in place *)
Lemma hash_hashed b : hash_of_block (hashed b) = hash_of_block b.
Proof.
  unfold hash_of_block, hashed. rewrite <-(Hash_cached b (Header b)). f_equal. f_equal.
  unfold Blk.Hash. destruct b as [[]]. cbn. by destruct (negb _).
Qed.

Lemma header_hashed b : Header (hashed b) = Header b.
Proof. unfold hashed, Blk.Hash. by destruct (negb _). Qed.

Lemma difficulty_hashed b : CumulativeDifficulty (hashed b) = CumulativeDifficulty b.
Proof. unfold hashed, Blk.Hash. by destruct (negb _). Qed.

Lemma hash_not_empty b : hash_of_block b ≠ "".
Proof.
  unfold hash_of_block, Blk.Hash. destruct (str_eqb (originalHash b) "") eqn:E; cbn [negb fst].
  - apply CalculateHash_not_empty.
  - by apply str_eqb_neq in E.
Qed.

(** The same block, possibly hashed since. *)
Definition same_block (b b' : Block) : Prop := b' = b ∨ b' = hashed b.

Lemma same_block_header b b' : same_block b b' → Header b' = Header b.
Proof. intros [->| ->]; [done|apply header_hashed]. Qed.

Lemma same_block_hash b b' : same_block b b' → hash_of_block b' = hash_of_block b.
Proof. intros [->| ->]; [done|apply hash_hashed]. Qed.

Lemma same_block_difficulty b b' : same_block b b' → CumulativeDifficulty b' = CumulativeDifficulty b.
Proof. intros [->| ->]; [done|apply difficulty_hashed]. Qed.

Definition same_blocks : list Block → list Block → Prop := Forall2 same_block.

Lemma same_blocks_refl l : same_blocks l l.
Proof. induction l; constructor; [by left|done]. Qed.

(** ** The invariant: numbers are positions and each block names the hash of the
    one before *)
Definition chain_ok (l : list Block) : Prop :=
  ∀ i b, l !! i = Some b → BlockNumber (Header b) = Z.of_nat i ∧
    ∀ p, l !! (i - 1)%nat = Some p → (0 < i)%nat → PreviousHash (Header b) = hash_of_block p.

Lemma chain_ok_same l l' : same_blocks l l' → chain_ok l → chain_ok l'.
Proof.
  intros Hs Hok i b' Hb'. destruct (Forall2_lookup_r _ _ _ _ _ Hs Hb') as (b & Hb & Hsb).
  destruct (Hok i b Hb) as [Hn Hp]. rewrite (same_block_header b b' Hsb). split; [done|].
  intros p' Hp' Hi. destruct (Forall2_lookup_r _ _ _ _ _ Hs Hp') as (p & Hpp & Hsp).
  rewrite (same_block_hash p p' Hsp). by apply Hp.
Qed.

Lemma chain_ok_snoc l b : chain_ok l → BlockNumber (Header b) = Z.of_nat (length l) →
  (∀ p, last l = Some p → PreviousHash (Header b) = hash_of_block p) → chain_ok (l ++ [b]).
Proof.
  intros Hok Hn Hp i x Hx. apply lookup_app_Some in Hx as [Hx|[Hge Hx]].
  - destruct (Hok i x Hx) as [? Hprev]. split; [done|]. intros p Hpx Hi. apply Hprev; [|done].
    apply lookup_lt_Some in Hx. rewrite lookup_app_l in Hpx by lia. done.
  - apply list_lookup_singleton_Some in Hx as [Hi <-]. assert (i = length l) as -> by lia.
    split; [done|]. intros p Hpx Hi'. rewrite lookup_app_l in Hpx by lia. apply Hp.
    rewrite last_lookup. by replace (pred (length l)) with (length l - 1)%nat by lia.
Qed.

Lemma chain_ok_take n l : chain_ok l → chain_ok (take n l).
Proof.
  intros Hok i b Hb. apply lookup_take_Some in Hb as [Hb Hi]. destruct (Hok i b Hb) as [? Hp].
  split; [done|]. intros p Hpp Hi'. apply lookup_take_Some in Hpp as [Hpp _]. by apply Hp.
Qed.

(** Hashing the tip in place. *)
Lemma hash_tip l : same_blocks l (hash_last l).
Proof.
  unfold hash_last. destruct l as [|x l _] using rev_ind; [constructor|]. rewrite last_snoc, length_app, Nat.add_sub, take_app_length. apply Forall2_app; [apply same_blocks_refl|].
  constructor; [by right|constructor].
Qed.

Section adding.
Context `{KV} (doc : Block → option json).

(** What is in the database after a block was stored. *)
Definition stored (ldb : levelDB.t) (b : Block) : Prop :=
  levelDB.Get ldb "latest_block" = Ok (DRaw (hash_of_block b)) ∧
  ∃ j, doc b = Some j ∧ levelDB.Get ldb (block_key (hash_of_block b)) = Ok (DJson j).

Lemma block_key_not_latest h : block_key h ≠ "latest_block".
Proof. unfold block_key, CreateKey. cbn. intros E. discriminate E. Qed.

Lemma store_block_stored what ldb ldb' b :
  store_block doc what ldb b = (ldb', None) → stored ldb' b.
Proof.
  unfold store_block, stored. destruct (doc b) as [j|] eqn:Hd; [|done].
  destruct (levelDB.Put ldb _ _) as [ldb1 [e|]] eqn:E1; [done|].
  destruct (levelDB.Put ldb1 _ _) as [ldb2 [e|]] eqn:E2; [done|]. intros [= <-].
  rewrite !(levelDB.Get_Put _ _ _ _ _ E2), str_eqb_refl. split; [done|]. exists j. split; [done|].
  rewrite (proj2 (str_eqb_neq "latest_block" _)) by (intros Heq; by apply (block_key_not_latest (hash_of_block b))).
  by rewrite (levelDB.Get_Put _ _ _ _ _ E1), str_eqb_refl.
Qed.

(** C9 Adding a block keeps the chain linked and only ever appends: the blocks that
    were there stay, and the new one is added exactly when its number is the
    length of the chain and it names the hash of the tip. On success it is the
    tip, and the database holds the block and the pointer to it. *)
Theorem addBlock_extends (bc bc' : Blockchain) (b : Block) (e : error) :
  chain_ok (Chain bc) → addBlockWithoutValidation doc bc b = (bc', e) →
  chain_ok (Chain bc') ∧
  (∃ l ext, Chain bc' = l ++ ext ∧ same_blocks (Chain bc) l ∧ (ext = [] ∨ ext = [hashed b]) ∧
     (ext = [] → is_Some e)) ∧
  (e = None → last (Chain bc') = Some (hashed b) ∧ currentHash bc' = hash_of_block b ∧
     ∀ ldb, w_db (world bc') = Some ldb → stored ldb (hashed b)).
Proof.
  intros Hok E. unfold addBlockWithoutValidation in E. rewrite !header_hashed in E.
  assert (∀ bc1 e1, e1 ≠ None → same_blocks (Chain bc) (Chain bc1) → (bc1, e1) = (bc', e) →
    chain_ok (Chain bc') ∧ (∃ l ext, Chain bc' = l ++ ext ∧ same_blocks (Chain bc) l ∧
      (ext = [] ∨ ext = [hashed b]) ∧ (ext = [] → is_Some e)) ∧
    (e = None → last (Chain bc') = Some (hashed b) ∧ currentHash bc' = hash_of_block b ∧
      ∀ ldb, w_db (world bc') = Some ldb → stored ldb (hashed b))) as Hrefuse.
  { intros bc1 e1 Hne Hs [= -> ->]. destruct e as [e|]; [|done]. split_and!; [by eapply chain_ok_same| |done].
    exists (Chain bc'), []. rewrite app_nil_r. split_and!; [done|done|by left|by eexists]. }
  destruct (negb (str_eqb _ _)); [eapply Hrefuse; [|apply same_blocks_refl|exact E]; done|].
  destruct (Z.eqb_spec (BlockNumber (Header b)) (Z.of_nat (length (Chain bc)))) as [Hn|]; cbn [negb] in E.
  2: { eapply Hrefuse; [|apply same_blocks_refl|exact E]. done. }
  pose proof (hash_tip (Chain bc)) as Hs.
  unfold wrong_parent in E. rewrite header_hashed in E. fold (wrong_parent (Chain bc) b) in E.
  destruct (wrong_parent (Chain bc) b) eqn:Hprev.
  { refine (Hrefuse _ _ _ _ E); [done|exact Hs]. }
  clear Hrefuse. pose proof (chain_ok_same _ _ Hs Hok) as Hok1.
  assert (chain_ok (hash_last (Chain bc) ++ [hashed b])) as Hok2.
  { apply chain_ok_snoc; [done| |].
    - rewrite header_hashed, Hn. by rewrite (Forall2_length _ _ _ Hs).
    - intros p Hp. rewrite header_hashed. unfold hash_last in Hp. unfold wrong_parent in Hprev.
      destruct (last (Chain bc)) as [q|] eqn:Hl; [|congruence].
      rewrite last_snoc in Hp. injection Hp as <-. rewrite hash_hashed.
      apply negb_false_iff, str_eqb_eq in Hprev. done. }
  cbn [world w_db] in E. destruct (w_db (world bc)) as [ldb|] eqn:Hdb.
  - destruct (store_block doc "store" ldb (hashed b)) as [ldb' e'] eqn:Est. injection E as <- <-.
    cbn [set_world Chain currentHash world w_db]. split_and!; [done| |].
    + exists (hash_last (Chain bc)), [hashed b]. split_and!; [done|done|by right|done].
    + intros ->. rewrite last_snoc. split_and!; [done..|]. intros ldb0 [= <-]. by eapply store_block_stored.
  - injection E as <- <-. cbn [Chain currentHash world]. split_and!; [done| |].
    + exists (hash_last (Chain bc)), [hashed b]. split_and!; [done|done|by right|done].
    + intros _. rewrite last_snoc. split_and!; [done..|]. intros ldb. by rewrite Hdb.
Qed.

(** The check of the hash does not look at the header: with the same non-empty
    [hash] and [originalHash] a block is judged on its number and predecessor
    alone, whatever its roots, difficulty, nonce, gas or miner. *)
Theorem forged_header_accepted (bc : Blockchain) (b : Block) :
  originalHash b ≠ "" → block_hash b = originalHash b → w_db (world bc) = None →
  BlockNumber (Header b) = Z.of_nat (length (Chain bc)) →
  (∀ p, last (Chain bc) = Some p → PreviousHash (Header b) = hash_of_block p) →
  (addBlockWithoutValidation doc bc b).2 = None ∧
  last (Chain (addBlockWithoutValidation doc bc b).1) = Some b.
Proof.
  intros Ho Hh Hdb Hn Hp. unfold addBlockWithoutValidation.
  assert (hashed b = b ∧ hash_of_block b = originalHash b) as [-> ->].
  { unfold hashed, hash_of_block, Blk.Hash. by rewrite (proj2 (str_eqb_neq _ _) Ho). }
  rewrite Hh, str_eqb_refl, Hn, Z.eqb_refl. cbn [negb].
  assert (wrong_parent (Chain bc) b = false) as ->.
  { unfold wrong_parent. destruct (last (Chain bc)) as [p|]; [|done]. by rewrite (Hp p eq_refl), str_eqb_refl. }
  cbn [world]. rewrite Hdb. cbn [fst snd Chain]. by rewrite last_snoc.
Qed.

End adding.

(** ** Forks *)

Lemma same_blocks_trans l1 l2 l3 : same_blocks l1 l2 → same_blocks l2 l3 → same_blocks l1 l3.
Proof.
  intros H1. revert l3. induction H1 as [|a b l1 l2 Hab _ IH]; intros l3 H2.
  { apply Forall2_nil_inv_l in H2 as ->. constructor. }
  apply Forall2_cons_inv_l in H2 as (c & l & Hbc & H2 & ->). constructor; [|by apply IH].
  destruct Hab as [->| ->]; [done|]. destruct Hbc as [->| ->]; [by right|]. right.
  unfold hashed, Blk.Hash. destruct (str_eqb (originalHash a) "") eqn:E; cbn [negb snd].
  - cbn [originalHash set_hashes].
    rewrite (proj2 (str_eqb_neq (Blk.CalculateHash a) "") (CalculateHash_not_empty a)). done.
  - by rewrite E.
Qed.

Lemma same_blocks_insert l j b : l !! j = Some b → same_blocks l (<[j := hashed b]> l).
Proof.
  revert j. induction l as [|x l IH]; intros [|j] Hj; try done; cbn.
  - injection Hj as ->. constructor; [by right|apply same_blocks_refl].
  - constructor; [by left|by apply IH].
Qed.

Lemma same_blocks_last l l' : same_blocks l l' → last_difficulty l' = last_difficulty l.
Proof.
  intros Hs. unfold last_difficulty. rewrite !last_lookup, (Forall2_length _ _ _ Hs).
  destruct (l !! pred (length l')) as [b|] eqn:Hb.
  - destruct (Forall2_lookup_l _ _ _ _ _ Hs Hb) as (b' & -> & Hbb). cbn. by apply same_block_difficulty.
  - apply lookup_ge_None in Hb. rewrite (Forall2_length _ _ _ Hs) in Hb.
    by rewrite (proj2 (lookup_ge_None l' (pred (length l'))) Hb).
Qed.

Lemma find_in_spec h j : ∀ chain r chain', find_in h j chain = (r, chain') →
  same_blocks chain chain' ∧
  ∀ k, r = Some k → (k < j)%nat ∧ ∃ b, chain !! k = Some b ∧ hash_of_block b = h.
Proof.
  induction j as [|j IH]; intros chain r chain' E; cbn in E.
  { injection E as <- <-. split; [apply same_blocks_refl|done]. }
  destruct (chain !! j) as [b|] eqn:Hb.
  2: { injection E as <- <-. split; [apply same_blocks_refl|done]. }
  pose proof (same_blocks_insert chain j b Hb) as Hs.
  destruct (str_eqb (hash_of_block b) h) eqn:Hh.
  - injection E as <- <-. split; [done|]. intros k [= <-]. split; [lia|]. exists b. split; [done|].
    by apply str_eqb_eq.
  - destruct (IH _ _ _ E) as [Hs' Hk]. split; [by eapply same_blocks_trans|]. intros k Hr.
    destruct (Hk k Hr) as (Hlt & b' & Hb' & Hhb). split; [lia|].
    destruct (Forall2_lookup_r _ _ _ _ _ Hs Hb') as (b0 & Hb0 & Hsb). exists b0.
    split; [done|]. by rewrite <-(same_block_hash b0 b').
Qed.

Lemma find_common_spec i cand : ∀ chain r chain', find_common i cand chain = (r, chain') →
  same_blocks chain chain' ∧
  ∀ k, r = Some k → ∃ b c, chain !! k = Some b ∧ c ∈ cand ∧ hash_of_block b = hash_of_block c.
Proof.
  induction i as [|i IH]; intros chain r chain' E; cbn in E.
  { injection E as <- <-. split; [apply same_blocks_refl|done]. }
  destruct (cand !! i) as [c|] eqn:Hc.
  2: { injection E as <- <-. split; [apply same_blocks_refl|done]. }
  destruct (find_in (hash_of_block c) (length chain) chain) as [[k|] chain1] eqn:Ef;
    destruct (find_in_spec _ _ _ _ _ Ef) as [Hs Hk].
  - injection E as <- <-. split; [done|]. intros k' [= <-]. destruct (Hk k eq_refl) as (_ & b & Hb & Hh).
    exists b, c. split_and!; [done|by eapply list_elem_of_lookup_2|done].
  - destruct (IH _ _ _ E) as [Hs' Hk']. split; [by eapply same_blocks_trans|]. intros k Hr.
    destruct (Hk' k Hr) as (b & c' & Hb & Hin & Hh).
    destruct (Forall2_lookup_r _ _ _ _ _ Hs Hb) as (b0 & Hb0 & Hsb). exists b0, c'.
    split_and!; [done|done|]. by rewrite <-(same_block_hash b0 b).
Qed.

Lemma hash_segment_same n l : (n ≤ length l - 1)%nat → same_blocks l (hash_segment n l).
Proof.
  intros Hn. unfold hash_segment.
  rewrite <-(take_drop n l) at 1. apply Forall2_app; [apply same_blocks_refl|].
  rewrite <-(take_drop (length l - 1 - n) (drop n l)) at 1. apply Forall2_app.
  - apply Forall2_fmap_r. induction (take (length l - 1 - n) (drop n l)); constructor; [by right|done].
  - rewrite drop_drop. replace (n + (length l - 1 - n))%nat with (length l - 1)%nat by lia. apply same_blocks_refl.
Qed.

(** [l'] continues [chain] after position [j] with the blocks of [cand]. *)
Definition spliced (chain cand l' : list Block) (j : nat) : Prop :=
  same_blocks (take (j + 1) chain ++ drop (j + 1) cand) l' ∧
  ∃ b c, chain !! j = Some b ∧ c ∈ cand ∧ hash_of_block b = hash_of_block c.

Section forks.
Context `{KV}.

(** C8 A fork is adopted only for a good reason: when [ResolveFork] reports success
    the new chain keeps the old one up to a block both have, continues with the
    candidate's blocks, is correctly linked from its first block on, is longer,
    and ends with a strictly higher cumulative difficulty. In every other case
    the blocks of the chain stay as they were. *)
Theorem ResolveFork_sound (bc bc' : Blockchain) (cand : list Block) (ok : bool) :
  ResolveFork bc cand = Done (ok, bc') →
  if ok then
    ValidateCandidateChain (Chain bc') = true ∧ (length (Chain bc) < length (Chain bc'))%nat ∧
    last_difficulty (Chain bc) < last_difficulty (Chain bc') ∧
    ∃ j, spliced (Chain bc) cand (Chain bc') j
  else same_blocks (Chain bc) (Chain bc').
Proof.
  unfold ResolveFork. destruct (Nat.leb_spec (length cand) (length (Chain bc))) as [|Hlen].
  { intros [= <- <-]. apply same_blocks_refl. }
  destruct (findCommonAncestor cand (Chain bc)) as [[j|] chain] eqn:Ef;
    destruct (find_common_spec _ _ _ _ _ Ef) as [Hs Hj].
  2: { by intros [= <- <-]. }
  destruct (negb _); [by intros [= <- <-]|].
  destruct (last chain) as [tip|] eqn:Htip; [|done].
  destruct (Z.leb_spec (last_difficulty (hash_segment j cand)) (CumulativeDifficulty tip)) as [|Hd].
  { by intros [= <- <-]. }
  unfold reorganizeChain. destruct (ValidateCandidateChain _) eqn:Hv; intros [= <- <-]; [|done].
  destruct (Hj j eq_refl) as (b & c & Hb & Hc & Hh). pose proof (lookup_lt_Some _ _ _ Hb) as Hjlt.
  pose proof (hash_segment_same j cand ltac:(lia)) as Hseg.
  pose proof (Forall2_length _ _ _ Hs) as Hl1. pose proof (Forall2_length _ _ _ Hseg) as Hl2.
  cbn [set_chain Chain]. split_and!; [done| | |].
  - rewrite length_app, length_take, length_drop. lia.
  - assert (last_difficulty (take (j + 1) chain ++ drop (j + 1) (hash_segment j cand))
      = last_difficulty (hash_segment j cand)) as ->.
    { unfold last_difficulty. f_equal. f_equal. rewrite !last_lookup, length_app, length_take, length_drop.
      rewrite lookup_app_r by (rewrite length_take; lia). rewrite length_take, lookup_drop. f_equal. lia. }
    rewrite <-(same_blocks_last _ _ Hs). unfold last_difficulty at 1. rewrite Htip. cbn. done.
  - exists j. split; [|by exists b, c]. apply Forall2_app; [by apply Forall2_take|by apply Forall2_drop].
Qed.

(** A node whose chain starts with the block that [GenesisBlock] builds never
    reorganises: that block's cumulative difficulty is 0 while the validation of
    a chain demands its difficulty 1, so [ResolveFork] refuses every candidate. *)
Theorem genesis_never_reorganises (bc : Blockchain) (now : Z) (l cand : list Block) (g : Block) :
  Chain bc = g :: l → same_block (Blk.GenesisBlock now) g →
  ∃ bc', ResolveFork bc cand = Done (false, bc').
Proof.
  intros Hc Hg. unfold ResolveFork. destruct (_ <=? _)%nat; [by eexists|].
  destruct (findCommonAncestor cand (Chain bc)) as [[j|] chain] eqn:Ef; [|by eexists].
  destruct (find_common_spec _ _ _ _ _ Ef) as [Hs _]. destruct (negb _); [by eexists|].
  rewrite Hc in Hs. apply Forall2_cons_inv_l in Hs as (g' & l' & Hgg & _ & ->).
  destruct (last (g' :: l')) as [tip|] eqn:Htip; [|by apply last_None in Htip].
  destruct (_ <=? _); [by eexists|]. unfold reorganizeChain.
  replace (j + 1)%nat with (S j) by lia. cbn [take app].
  assert (ValidateCandidateChain (g' :: take j l' ++ drop (S j) (hash_segment j cand)) = false) as ->.
  { unfold ValidateCandidateChain.
    rewrite (same_block_header g g' Hgg), (same_block_header _ g Hg).
    rewrite (same_block_difficulty g g' Hgg), (same_block_difficulty _ g Hg). done. }
  by eexists.
Qed.

Lemma links_ok_cons a b l : links_ok (a :: b :: l) = link_ok a b && links_ok (b :: l).
Proof. done. Qed.

(** Cumulative difficulty is work: along a linked chain whose numbers do not
    overflow, the last block's cumulative difficulty is the first one's plus the
    difficulties of all blocks in between. *)
Theorem links_work (g : Block) (l : list Block) :
  links_ok (g :: l) = true → 0 ≤ CumulativeDifficulty g → Forall (λ b, 0 ≤ Difficulty (Header b)) l →
  CumulativeDifficulty g + foldr Z.add 0 ((λ b, Difficulty (Header b)) <$> l) < 2 ^ 64 →
  last_difficulty (g :: l) = CumulativeDifficulty g + foldr Z.add 0 ((λ b, Difficulty (Header b)) <$> l).
Proof.
  revert g. induction l as [|b l IH]; intros g Hl Hg Hd Hlt; [cbn; lia|].
  rewrite links_ok_cons in Hl. apply andb_true_iff in Hl as [Hlink Hl].
  apply Forall_cons in Hd as [Hb Hd]. rewrite fmap_cons in Hlt |- *. cbn [foldr] in *.
  assert (0 ≤ foldr Z.add 0 ((λ b, Difficulty (Header b)) <$> l)).
  { clear -Hd. induction Hd as [|x l Hx _ IHl]; [done|]. rewrite fmap_cons. cbn [foldr]. lia. }
  unfold link_ok in Hlink. apply andb_true_iff in Hlink as [_ Hcum]. apply Z.eqb_eq in Hcum.
  rewrite u64_small in Hcum by (unfold is_u64; lia).
  change (last_difficulty (g :: b :: l)) with (last_difficulty (b :: l)). rewrite IH; [lia|done|lia|done|lia].
Qed.

(** A rollback keeps a linked chain linked and cuts it at the given height. *)
Theorem RollbackToHeight_spec (bc : Blockchain) (height : Z) : 0 ≤ height →
  chain_ok (Chain bc) →
  chain_ok (Chain (RollbackToHeight bc height).1) ∧
  ((RollbackToHeight bc height).2 = None → GetHeight (RollbackToHeight bc height).1 = height).
Proof.
  intros Hh Hok. unfold RollbackToHeight. destruct (Z.geb_spec height (Z.of_nat (length (Chain bc)))); [done|].
  cbn [fst snd set_chain Chain]. split; [by apply chain_ok_take|]. intros _. unfold GetHeight. cbn [Chain set_chain].
  rewrite last_lookup, length_take. replace (pred _) with (Z.to_nat height) by lia.
  rewrite lookup_take_lt by lia. destruct (Chain bc !! Z.to_nat height) as [b|] eqn:Hb.
  - destruct (Hok _ _ Hb) as [Hn _]. cbn. lia.
  - apply lookup_ge_None in Hb. lia.
Qed.

(** After a fast forward to a checkpoint the only block the chain can be extended
    with is one numbered 1. *)
Theorem fast_forward_stuck (doc : Block → option json) (bc bc' : Blockchain) (cp : Checkpoint) (b : Block) :
  FastForwardToCheckpoint bc (Some cp) = (bc', None) →
  (addBlockWithoutValidation doc bc' b).2 = None → BlockNumber (Header b) = 1.
Proof.
  unfold FastForwardToCheckpoint. destruct (verifyCheckpoint (Some cp)); [done|]. intros [= <-].
  unfold addBlockWithoutValidation. rewrite !header_hashed. cbn [set_tip Chain length].
  destruct (negb _); [done|]. by destruct (Z.eqb_spec (BlockNumber (Header b)) (Z.of_nat 1)).
Qed.

End forks.

(** ** Rewards *)
Lemma halve_add m n x : halve (m + n) x = halve n (halve m x).
Proof. revert x. induction m as [|m IH]; intros x; [done|]. apply IH. Qed.

Lemma halve_zero n : halve n f64_zero = f64_zero.
Proof. induction n as [|n IH]; [done|]. cbn [halve]. change (f64_div f64_zero (f64_of_Z 2)) with f64_zero. done. Qed.

(** A property of every reward of the schedule, checked in one pass over it. *)
Fixpoint every_halving (P : nat → float64 → bool) (steps from : nat) (x : float64) : bool :=
  match steps with
  | O => true
  | S steps => P from x && every_halving P steps (S from) (f64_div x (f64_of_Z 2))
  end.

Lemma every_halving_spec P steps : ∀ from x, every_halving P steps from x = true →
  ∀ i, (i < steps)%nat → P (from + i)%nat (halve i x) = true.
Proof.
  induction steps as [|steps IH]; intros from x Hall i Hi; [lia|].
  cbn [every_halving] in Hall. apply andb_true_iff in Hall as [H0 Hall]. destruct i as [|i]; [by rewrite Nat.add_0_r|].
  replace (from + S i)%nat with (S from + i)%nat by lia. cbn [halve]. apply IH; [done|lia].
Qed.

(** After 33 halvings the reward is below the minimum, for good. *)
Lemma halve_small n : (33 ≤ n)%nat → f64_lt (halve n InitialBlockReward) min_reward = true.
Proof.
  intros Hn.
  assert (every_halving (λ n x, ((n <? 33)%nat || f64_lt x min_reward) && ((n <? 1100)%nat || bool_decide (x = f64_zero)))
    1101 0 InitialBlockReward = true) as Hall by (vm_compute; reflexivity).
  pose proof (every_halving_spec _ _ _ _ Hall) as Hstep. clear Hall. destruct (le_lt_dec 1100 n) as [Hbig|Hlt].
  - specialize (Hstep 1100%nat ltac:(lia)). apply andb_true_iff in Hstep as [_ Hz].
    replace n with (1100 + (n - 1100))%nat by lia. rewrite halve_add. cbn [Nat.add] in Hz.
    rewrite Nat.ltb_irrefl in Hz. cbn [orb] in Hz. apply bool_decide_eq_true in Hz. rewrite Hz, halve_zero.
    vm_compute. reflexivity.
  - specialize (Hstep n ltac:(lia)). apply andb_true_iff in Hstep as [Hs _]. cbn [Nat.add] in Hs.
    rewrite (proj2 (Nat.ltb_ge n 33)) in Hs by lia. exact Hs.
Qed.

(** 50 / 2^n: the number 25 * 2^(1-n), which a float64 represents exactly. *)
Definition fifty_halved (n : nat) : float64 := S754_finite false (25 * 2 ^ 48) (- 47 - Z.of_nat n).

Lemma halve_exact n : (n ≤ 32)%nat → halve n InitialBlockReward = fifty_halved n ∧
  f64_lt (halve n InitialBlockReward) min_reward = false.
Proof.
  intros Hn.
  assert (every_halving (λ n x, bool_decide (x = fifty_halved n) && negb (f64_lt x min_reward)) 33 0
    InitialBlockReward = true) as Hall by (vm_compute; reflexivity).
  pose proof (every_halving_spec _ _ _ _ Hall n ltac:(lia)) as Hstep. clear Hall.
  apply andb_true_iff in Hstep as [H1 H2]. split; [by apply bool_decide_eq_true in H1|by apply negb_true_iff].
Qed.

(** The reward of a block without transactions follows the halving schedule
    exactly: after [k] periods of 210000 blocks it is 50 / 2^k without any
    rounding, until it would fall below the minimum (after 33 periods), which it
    then stays at for ever. *)
Theorem calculateBlockReward_schedule (ord : child_order) (b : Block) :
  fair_children ord → block_Transactions b = Trie.NewPatriciaTrie → 0 < BlockNumber (Header b) →
  let k := Z.to_nat (BlockNumber (Header b) / RewardHalvingBlocks) in
  calculateBlockReward ord b = if (k <=? 32)%nat then fifty_halved k else min_reward.
Proof.
  intros Hord Htrie Hn k. unfold calculateBlockReward. rewrite (proj2 (Z.eqb_neq _ _)) by lia. fold k. rewrite Htrie.
  rewrite (new_trie_empty ord Hord).
  cbn [foldl]. assert (∀ x, f64_add x f64_zero = x ∨ f64_is_nan x = true ∨ x = S754_zero true) as Hadd.
  { intros [[]|[]| |s m e]; cbn; auto. }
  destruct (Nat.leb_spec k 32) as [Hk|Hk].
  - destruct (halve_exact k Hk) as [-> Hlt]. destruct (Hadd (fifty_halved k)) as [->|[?|?]]; [|done|done].
    unfold at_least_min. destruct (halve_exact k Hk) as [<- ->]. done.
  - pose proof (halve_small k ltac:(lia)) as Hs. destruct (f64_lt_not_nan _ _ Hs) as [Hnan _].
    unfold at_least_min. destruct (Hadd (halve k InitialBlockReward)) as [->|[?|E]]; [by rewrite Hs|congruence|].
    rewrite E. vm_compute. reflexivity.
Qed.

Section processing.
Context `{KV} (doc : Block → option json).

(** Unlike [addBlockWithoutValidation], the checked addition binds a block to its
    header: when [AddBlockWithUTXOProcessing] reports success, the block's hash is
    the hash of its header, and the block stands at the end of the chain, linked
    to its predecessor. *)
Theorem AddBlockWithUTXOProcessing_binds (ro ro' : range_order) (ord : child_order) (now : Z)
    (bc bc' : Blockchain) (b : Block) :
  AddBlockWithUTXOProcessing doc ro ro' ord now bc b = Done (bc', None) →
  hash_of_block b = Blk.CalculateHash b ∧
  ∃ l prev, Chain bc' = l ++ [hashed prev; hashed b] ∧ last (Chain bc) = Some prev ∧
    PreviousHash (Header b) = hash_of_block prev ∧ BlockNumber (Header b) = Z.of_nat (length (Chain bc)).
Proof.
  unfold AddBlockWithUTXOProcessing. intros E. apply obind_Done_inv in E as (e & Hv & E).
  destruct e; [done|]. unfold ValidateBlock in Hv.
  destruct (ValidateBlockHash b) eqn:Hh; [|done]. cbn [negb] in Hv.
  destruct (last (Chain bc)) as [prev|] eqn:Hl; [|done].
  destruct (str_eqb (PreviousHash (Header b)) (hash_of_block prev)) eqn:Hp; [|done].
  apply str_eqb_eq in Hp. unfold ValidateBlockHash in Hh. apply str_eqb_eq in Hh. split; [done|].
  destruct (addBlockWithoutValidation doc bc b) as [bc1 [e|]] eqn:Ea; [done|].
  apply obind_Done_inv in E as ([bc2 e2] & Hu & [= <-]).
  assert (Chain bc2 = Chain bc1) as ->.
  { unfold process_utxos in Hu. destruct (utxoPool bc1); [|by injection Hu as <- _].
    apply obind_Done_inv in Hu as ([[p w] e'] & _ & [= <- _]). done. }
  unfold addBlockWithoutValidation in Ea. rewrite !header_hashed in Ea. destruct (negb (str_eqb _ _)); [done|].
  destruct (Z.eqb_spec (BlockNumber (Header b)) (Z.of_nat (length (Chain bc)))) as [Hn|]; [|done].
  cbn [negb] in Ea. destruct (wrong_parent _ _); [done|].
  exists (take (length (Chain bc) - 1) (Chain bc)), prev. split_and!; [|done|done|done].
  assert (Chain bc1 = hash_last (Chain bc) ++ [hashed b]) as ->.
  { cbn [world w_db] in Ea. destruct (w_db (world bc)); [|by injection Ea as <-].
    destruct (store_block doc "store" t (hashed b)) as [ldb' e']. by injection Ea as <- _. }
  unfold hash_last. rewrite Hl, <-app_assoc. done.
Qed.

(** A block that was never hashed has the hash of its header. *)
Lemma fresh_hash b : originalHash b = "" → hash_of_block b = Blk.CalculateHash b ∧
  block_hash (hashed b) = hash_of_block b.
Proof. intros Ho. unfold hash_of_block, hashed, Blk.Hash. by rewrite Ho. Qed.

Lemma no_transaction_refused (l : list Transaction) :
  foldl (λ e tx, match e with Some _ => e | None => ValidateTransaction tx end) None l = None.
Proof. by induction l. Qed.

(** The checked addition accepts every new block that continues the tip. *)
Lemma fresh_block_accepted ro ro' ord now bc b prev :
  originalHash b = "" → last (Chain bc) = Some prev → PreviousHash (Header b) = hash_of_block prev →
  BlockNumber (Header b) = Z.of_nat (length (Chain bc)) →
  u64 (BlockNumber (Header prev) + 1) = Z.of_nat (length (Chain bc)) → utxoPool bc = None → w_db (world bc) = None →
  ∃ bc', AddBlockWithUTXOProcessing doc ro ro' ord now bc b = Done (bc', None).
Proof.
  intros Ho Hl Hp Hn Hu Hpool Hdb. destruct (fresh_hash b Ho) as [Hh Hc].
  unfold AddBlockWithUTXOProcessing, ValidateBlock, ValidateBlockHash.
  rewrite <-Hh, str_eqb_refl, Hl, Hp, str_eqb_refl, Hn, Hu, Z.eqb_refl. cbn [negb].
  rewrite no_transaction_refused. cbn [obind].
  unfold addBlockWithoutValidation. rewrite Hc, str_eqb_refl, header_hashed, Hn, Z.eqb_refl. cbn [negb].
  unfold wrong_parent. rewrite Hl, header_hashed, Hp, str_eqb_refl. cbn [negb world w_db].
  rewrite Hdb. unfold process_utxos. cbn [utxoPool]. rewrite Hpool. by eexists.
Qed.

(** The conflict rule looks at one number: a single made-up block replaces the
    chain, although it would not pass the validation of a chain. *)
Theorem ResolveChainConflict_unchecked (bc : Blockchain) (tip : Block) :
  last (Chain bc) = Some tip → CumulativeDifficulty tip < 2 ^ 64 - 1 →
  ∃ l bc', ResolveChainConflict bc l = Done (true, bc') ∧ Chain bc' = l ∧ ValidateCandidateChain l = false.
Proof.
  intros Hl Hd.
  exists [mkBlock (Header (Blk.GenesisBlock 0)) Trie.NewPatriciaTrie [] "" 0 0 (2 ^ 64 - 1) ""].
  unfold ResolveChainConflict. rewrite Hl. cbn [last CumulativeDifficulty].
  destruct (Z.gtb_spec (2 ^ 64 - 1) (CumulativeDifficulty tip)); [|lia].
  eexists. split_and!; [done|done|vm_compute; reflexivity].
Qed.

End processing.

(** ** Concrete chains

    Blocks that carry their hash already, as those read from a peer do. *)
Definition no_doc (b : Block) : option json := Some JNull.

Definition child (p : Block) (h : string) (cumulative : Z) : Block :=
  mkBlock (mkHeader 1 (BlockNumber (Header p) + 1) (hash_of_block p) 200 "" "" "" 1 0 0 0 "m" "" [] None "" [])
    Trie.NewPatriciaTrie [] h 0 0 cumulative h.

Definition start (g : Block) (l : list Block) : @Blockchain mem_kv :=
  mkBlockchain (g :: l) "" None (mkWorld (Some (levelDB.mk (∅ : @kv mem_kv) false)) None) "" ∅.

(** A genesis block of the given cumulative difficulty, with its hash. *)
Definition gen (cumulative : Z) : Block :=
  mkBlock (Header (Blk.GenesisBlock 100)) Trie.NewPatriciaTrie [] "g" 0 0 cumulative "g".

Lemma start_ok g : BlockNumber (Header g) = 0 → chain_ok (Chain (start g [])).
Proof. intros Hg [|i] b Hb; [|done]. injection Hb as <-. split; [done|]. intros p _ Hi. lia. Qed.

Lemma addBlock_extends_witness :
  ∃ bc', addBlockWithoutValidation no_doc (start (gen 0) []) (child (gen 0) "c" 1) = (bc', None) ∧
    chain_ok (Chain bc') ∧ last (Chain bc') = Some (hashed (child (gen 0) "c" 1)).
Proof.
  assert (match (addBlockWithoutValidation no_doc (start (gen 0) []) (child (gen 0) "c" 1)).2 with
          | None => true | _ => false end = true) as Hd by (vm_compute; reflexivity).
  destruct (addBlockWithoutValidation no_doc (start (gen 0) []) (child (gen 0) "c" 1)) as [bc' [e|]] eqn:E; [discriminate|].
  exists bc'. split; [reflexivity|].
  destruct (addBlock_extends no_doc (start (gen 0) []) bc' (child (gen 0) "c" 1) None (start_ok (gen 0) eq_refl) E)
    as (Hok & _ & Ht). split; [exact Hok|]. exact (proj1 (Ht eq_refl)).
Defined.

Definition fork : list Block := [gen 1; child (gen 1) "c" 2; child (child (gen 1) "c" 2) "d" 3].

Lemma ResolveFork_sound_witness :
  ∃ bc', ResolveFork (start (gen 1) [child (gen 1) "e" 2]) fork = Done (true, bc') ∧
    last_difficulty (Chain (start (gen 1) [child (gen 1) "e" 2])) < last_difficulty (Chain bc').
Proof.
  assert (match ResolveFork (start (gen 1) [child (gen 1) "e" 2]) fork with
          | Done (true, _) => true | _ => false end = true) as Hd by (vm_compute; reflexivity).
  destruct (ResolveFork (start (gen 1) [child (gen 1) "e" 2]) fork) as [[[|] bc']| |] eqn:E; [|discriminate..].
  exists bc'. split; [reflexivity|].
  destruct (ResolveFork_sound (start (gen 1) [child (gen 1) "e" 2]) bc' fork true E) as (_ & _ & Hlt & _). exact Hlt.
Defined.

Lemma genesis_never_reorganises_witness :
  ∃ bc', ResolveFork (start (Blk.GenesisBlock 100) []) fork = Done (false, bc').
Proof.
  apply (genesis_never_reorganises (start (Blk.GenesisBlock 100) []) 100 [] fork (Blk.GenesisBlock 100));
    [reflexivity|left; reflexivity].
Defined.

Lemma links_work_witness :
  last_difficulty fork = CumulativeDifficulty (gen 1) + foldr Z.add 0 ((λ b, Difficulty (Header b)) <$> tail fork).
Proof.
  apply (links_work (gen 1) (tail fork)); [vm_compute; reflexivity|vm_compute; discriminate| |vm_compute; reflexivity].
  repeat constructor; vm_compute; discriminate.
Defined.

Lemma calculateBlockReward_schedule_witness :
  calculateBlockReward (λ l, l) (child (gen 0) "c" 1) = fifty_halved 0.
Proof.
  exact (calculateBlockReward_schedule (λ l, l) (child (gen 0) "c" 1) fair_children_id eq_refl ltac:(vm_compute; reflexivity)).
Defined.

Definition memory_only : @Blockchain mem_kv := mkBlockchain [gen 0] "g" None (mkWorld None None) "" ∅.

Lemma AddBlockWithUTXOProcessing_binds_witness :
  ∃ bc', AddBlockWithUTXOProcessing no_doc (λ l, l) (λ l, l) (λ l, l) 300 memory_only (child (gen 0) "" 1)
           = Done (bc', None) ∧ hash_of_block (child (gen 0) "" 1) = Blk.CalculateHash (child (gen 0) "" 1).
Proof.
  destruct (fresh_block_accepted no_doc (λ l, l) (λ l, l) (λ l, l) 300 memory_only (child (gen 0) "" 1) (gen 0)
    eq_refl eq_refl eq_refl eq_refl eq_refl eq_refl eq_refl) as [bc' E].
  exists bc'. split; [exact E|].
  exact (proj1 (AddBlockWithUTXOProcessing_binds no_doc (λ l, l) (λ l, l) (λ l, l) 300 memory_only bc'
    (child (gen 0) "" 1) E)).
Defined.
