(* ===== verification/ChainStore.v ===== *)
(** * Stored blocks, transactions and state ([store.go], [state.go]) and the
      lookups of [blockchain.go] that fall back on the database

    [Module State]: the summary of the chain; [Module Store]: the typed access to
    the database; then the chain's lookups by hash and height, in memory first.
    A lookup that hashes a block of the chain keeps the hash, so it returns the
    chain. *)

From stdpp Require Import base gmap strings list.
From Stdlib Require Import ZArith Lia.
From S2P Require Import Prelude.
From S2P Require Import Float64.
From S2P Require Import Sha256.
From S2P Require Import Json.
From S2P Require Import Database.
From S2P Require Import Transaction.
From S2P Require Import Account.
From S2P Require Import Utxo.
From S2P Require Import Trie.
From S2P Require Import Block.
From S2P Require Import BlockJson.
From S2P Require Import Chain.

(** ** State *)
Module State.

Record t := mk {
  Height : Z;
  LastBlockHash : string;
  LastBlockTime : Z;
  TotalTransactions : Z;
  TotalBlocks : Z;
  TotalSupply : Z;
  UTXOSetRoot : string;
  UTXOCount : Z;
  StateRoot : string;
  ValidatorRoot : string;
  st_Difficulty : Z;
  st_GasPrice : Z;
  NetworkVersion : Z;
  LastUpdate : Z;
}.

Definition NewState (now : Z) : t := mk 0 "" now 0 0 0 "" 0 "" "" 1 1000 1 now.

(** The gas price after a block: [used] of [limit]. *)
Definition adjusted_price (used limit price : Z) : Z :=
  if used >? 0 then
    let usage := f64_div (f64_of_Z used) (f64_of_Z limit) in
    if f64_gt usage (f64_ratio 8 10) then u64 (price * 110) / 100
    else if f64_lt usage (f64_ratio 3 10) then u64 (price * 90) / 100
    else price
  else price.

(** [now] in nanoseconds; the block is hashed on the way. *)
Definition UpdateWithBlock (ord : child_order) (now : Z) (s : t) (b : Block) : t :=
  mk (BlockNumber (Header b)) (Blk.Hash b).1 (hdr_Timestamp (Header b) * 10 ^ 9)
    (u64 (TotalTransactions s + Z.of_nat (length (Trie.GetAllTransactions ord (block_Transactions b)))))
    (u64 (TotalBlocks s + 1)) (TotalSupply s) (UTXOSetRoot s) (UTXOCount s) (StateRoot s) (ValidatorRoot s)
    (Difficulty (Header b)) (adjusted_price (hdr_GasUsed (Header b)) (hdr_GasLimit (Header b)) (st_GasPrice s))
    (NetworkVersion s) now.

Definition Copy (s : t) : t := s.

Definition Validate (s : t) : error :=
  if Height s <? 0 then Some ("invalid height: " +:+ fmt_d (Height s))
  else if TotalBlocks s <? Height s then Some "total blocks less than height"
  else if st_Difficulty s <? 1 then Some ("invalid difficulty: " +:+ fmt_d (st_Difficulty s))
  else if st_GasPrice s <? 1 then Some ("invalid gas price: " +:+ fmt_d (st_GasPrice s))
  else None.

Definition state_fields : sfields t _ :=
  FCons "height" u64_codec Height (FCons "last_block_hash" string_codec LastBlockHash
  (FCons "last_block_time" time_codec LastBlockTime (FCons "total_transactions" u64_codec TotalTransactions
  (FCons "total_blocks" u64_codec TotalBlocks (FCons "total_supply" u64_codec TotalSupply
  (FCons "utxo_set_root" string_codec UTXOSetRoot (FCons "utxo_count" u64_codec UTXOCount
  (FCons "state_root" string_codec StateRoot (FCons "validator_root" string_codec ValidatorRoot
  (FCons "difficulty" u64_codec st_Difficulty (FCons "gas_price" u64_codec st_GasPrice
  (FCons "network_version" u32_codec NetworkVersion (FCons "last_update" time_codec LastUpdate FEnd))))))))))))).

#[global] Instance state_codec : Codec t :=
  struct_codec state_fields mk (mk 0 "" zero_time 0 0 0 "" 0 "" "" 0 0 0 zero_time).

#[global] Instance state_laws : CodecLaws t.
Proof. struct_laws idtac. Qed.

End State.

Section store.
Context `{KV}.

(** [json.Unmarshal] of a stored value into a block. *)
Definition value_block (ord : child_order) (v : dbval) : outcome (option Block) :=
  match document v with None => Done None | Some j => read_block ord j end.

Definition prefixed (prefix : Z) (key : bytes) : string := string_of_bytes (CreateKey prefix key).

(** The key of a block by number. *)
Definition height_key (h : Z) : string := prefixed 1 (bytes_of_string (fmt_d_pad 20 h)).
Definition tx_key (hash : string) : string := prefixed 2 (bytes_of_string hash).
(** [byte(outputIndex)] *)
Definition utxo_db_key (txID : string) (index : Z) : string :=
  prefixed 3 (bytes_of_string txID ++ [index mod 256]).
Definition state_key : string := prefixed 4 (bytes_of_string "current").
End store.

(** ** Store *)
Module Store.
Section operations.
Context `{KV}.

(** Writing a document: [what] is the thing in the messages. *)
Definition save (what : string) (ldb : levelDB.t) (key : string) (doc : option json) : levelDB.t * error :=
  match doc with
  | None => (ldb, Some ("failed to marshal " +:+ what +:+ ": " +:+ JsonUnsupported))
  | Some j =>
      let '(ldb, e) := levelDB.Put ldb key (DJson j) in
      (ldb, (λ e, "failed to save " +:+ what +:+ ": " +:+ e) <$> e)
  end.

(** Reading a document with a decoder; [absent] is the message when there is none. *)
Definition load {A} (what absent : string) (ldb : levelDB.t) (key : string) (decode : dbval → outcome (option A))
    : outcome (result A) :=
  match levelDB.Get ldb key with
  | Err e => Done (Err (if str_eqb e ErrKeyNotFound then absent else "failed to get " +:+ what +:+ ": " +:+ e))
  | Ok v =>
      let! r := decode v in
      Done (match r with Some a => Ok a | None => Err ("failed to unmarshal " +:+ what +:+ ": " +:+ JsonBadInput) end)
  end.

Definition decode {A} `{Codec A} (v : dbval) : outcome (option A) := Done (document v ≫= dec).

Definition NewStore (database : option levelDB.t) : result levelDB.t :=
  match database with None => Err "database cannot be nil" | Some ldb => Ok ldb end.

Definition SaveBlock (ord : child_order) (ldb : levelDB.t) (b : Block) : levelDB.t * error :=
  save "block" ldb (height_key (Blk.Number b)) (simplified_document ord b).

Definition GetBlock (ord : child_order) (ldb : levelDB.t) (height : Z) : outcome (result Block) :=
  load "block" ("block not found at height " +:+ fmt_d height) ldb (height_key height) (value_block ord).

Definition SaveTransaction (ldb : levelDB.t) (tx : Transaction) : levelDB.t * error :=
  save "transaction" ldb (tx_key (Tx.Hash tx)) (enc tx).

Definition GetTransaction (ldb : levelDB.t) (hashStr : string) : outcome (result Transaction) :=
  load "transaction" ("transaction not found with hash " +:+ hashStr) ldb (tx_key hashStr) decode.

Definition SaveUTXO (ldb : levelDB.t) (u : UTXO) : levelDB.t * error :=
  save "UTXO" ldb (utxo_db_key (utxo_TransactionID u) (utxo_OutputIndex u)) (marshal_UTXO u).

Definition GetUTXO (ldb : levelDB.t) (txID : string) (outputIndex : Z) : outcome (result UTXO) :=
  load "UTXO" ("UTXO not found for tx " +:+ txID +:+ " output " +:+ fmt_d outputIndex) ldb
    (utxo_db_key txID outputIndex) (λ v, Done (document v ≫= read_UTXO)).

Definition SaveState (ldb : levelDB.t) (s : State.t) : levelDB.t * error :=
  save "state" ldb state_key (enc s).

Definition GetState (ldb : levelDB.t) : outcome (result State.t) :=
  load "state" "blockchain state not found" ldb state_key decode.

Definition Close (ldb : levelDB.t) : levelDB.t * error := levelDB.Close ldb.

End operations.
End Store.

(** ** Lookups of the chain *)
Section lookups.
Context `{KV}.

(** A block of the database; an error of the database or the decoder is none. *)
Definition db_block (ord : child_order) (bc : Blockchain) (key : string) : outcome (option Block) :=
  match w_db (world bc) with
  | None => Done None
  | Some ldb =>
      match levelDB.Get ldb key with
      | Err _ => Done None
      | Ok v => value_block ord v
      end
  end.

Definition GetLatestBlock (ord : child_order) (bc : Blockchain) : outcome (option Block) :=
  match last (Chain bc) with
  | Some b => Done (Some b)
  | None =>
      match w_db (world bc) with
      | None => Done None
      | Some ldb =>
          match levelDB.Get ldb "latest_block" with
          | Ok (DRaw h) => if str_eqb h "" then Done None else db_block ord bc (block_key h)
          | _ => Done None
          end
      end
  end.

(** The loop variable is a copy: the chain's own blocks are not hashed. *)
Definition GetBlock (ord : child_order) (bc : Blockchain) (hash : string) : outcome (result Block) :=
  match find (λ b, str_eqb (hash_of_block b) hash) (Chain bc) with
  | Some b => Done (Ok (hashed b))
  | None =>
      match w_db (world bc) with
      | None => Done (Err ("block with hash " +:+ hash +:+ " not found"))
      | Some ldb =>
          match levelDB.Get ldb (block_key hash) with
          | Err e =>
              Done (Err (if str_eqb e ErrKeyNotFound then "block with hash " +:+ hash +:+ " not found"
                         else "failed to retrieve block from database: " +:+ e))
          | Ok v =>
              let! r := value_block ord v in
              Done (match r with Some b => Ok b | None => Err ("failed to deserialize block data: " +:+ JsonBadInput) end)
          end
      end
  end.

Definition GetBlockByHeight (ord : child_order) (bc : Blockchain) (h : Z) : outcome (option Block * Blockchain) :=
  match list_find (λ b, BlockNumber (Header b) = h) (Chain bc) with
  | Some (i, b) =>
      let b := hashed b in
      let b := set_hashes b (hash_of_block b) (originalHash b) in
      Done (Some b, set_chain bc (<[i := b]> (Chain bc)))
  | None =>
      let! r := db_block ord bc (height_key h) in
      Done ((λ b, set_hashes b (Blk.CalculateHash b) (originalHash b)) <$> r, bc)
  end.

Definition CalculateCumulativeDifficulty (ord : child_order) (bc : Blockchain) (b : Block) : outcome (result Z) :=
  let! r := GetBlock ord bc (PreviousHash (Header b)) in
  Done match r with
  | Err e => Err ("parent block not found: " +:+ e)
  | Ok parent =>
      if BlockNumber (Header b) =? 0 then Ok (Difficulty (Header b))
      else if negb (u64 (BlockNumber (Header parent) + 1) =? BlockNumber (Header b)) then Err "block number mismatch"
      else Ok (u64 (CumulativeDifficulty parent + Difficulty (Header b)))
  end.

(** The blocks from the newest down to number 1. *)
Fixpoint find_in_blocks (ord : child_order) (height : nat) (bc : Blockchain) (txID : string)
    : outcome (option Transaction * Blockchain) :=
  match height with
  | O => Done (None, bc)
  | S below =>
      let! (r, bc) := GetBlockByHeight ord bc (Z.of_nat height) in
      match (b ← r; Trie.Search (block_Transactions b) txID) with
      | Some tx => Done (Some tx, bc)
      | None => find_in_blocks ord below bc txID
      end
  end.

(** [mempool] is [None] for a nil mempool. *)
Definition FindTransaction (ord : child_order) (bc : Blockchain) (mempool : option (list Transaction)) (txID : string)
    : outcome (result Transaction * Blockchain) :=
  if str_eqb txID "" then Done (Err "transaction ID cannot be empty", bc)
  else match find (λ tx, str_eqb (TransactionID tx) txID) (default [] mempool) with
  | Some tx => Done (Ok tx, bc)
  | None =>
      let! (r, bc) := find_in_blocks ord (Z.to_nat (GetHeight bc)) bc txID in
      Done (match r with Some tx => Ok tx | None => Err ("transaction " +:+ txID +:+ " not found") end, bc)
  end.

(** [verifyBlockInDB]: the block read back has the hash of the one expected. *)
Definition verifyBlockInDB (ord : child_order) (bc : Blockchain) (hash : string) (expectedBlock : Block) : outcome error :=
  match w_db (world bc) with
  | None => Done (Some "database not initialized")
  | Some ldb =>
      match levelDB.Get ldb (block_key hash) with
      | Err e => Done (Some ("failed to retrieve block from database: " +:+ e))
      | Ok v =>
          let! r := value_block ord v in
          Done match r with
          | None => Some ("failed to deserialize block data: " +:+ JsonBadInput)
          | Some b =>
              if str_eqb (hash_of_block b) (hash_of_block expectedBlock) then None
              else Some ("block hash mismatch: expected " +:+ hash_of_block expectedBlock +:+ ", got " +:+ hash_of_block b)
          end
      end
  end.

(** The heights from [lo] to [hi]; for [hi] below the largest [uint64], at which
    the loops of the source would not end. *)
Definition heights (lo hi : Z) : list Z := (λ i, lo + Z.of_nat i) <$> seq 0 (Z.to_nat (hi - lo + 1)).

Definition checkpoint_at (ord : child_order) (acc : outcome (list Checkpoint * Blockchain)) (h : Z)
    : outcome (list Checkpoint * Blockchain) :=
  let! (cps, bc) := acc in
  let! (r, bc) := GetBlockByHeight ord bc h in
  Done (match r with
        | Some b => if h mod CheckpointInterval =? 0 then cps ++ [Blk.CreateCheckpoint b] else cps
        | None => cps
        end, bc).

Definition GetCheckpoints (ord : child_order) (bc : Blockchain) (startHeight endHeight : Z)
    : outcome (list Checkpoint * Blockchain) :=
  foldl (checkpoint_at ord) (Done ([], bc)) (heights startHeight endHeight).

(** The header without what concerns its validator's proof. *)
Definition plain_header (h : BlockHeader) : BlockHeader :=
  mkHeader (Version h) (BlockNumber h) (PreviousHash h) (hdr_Timestamp h) (MerkleRoot h) (StateRoot h)
    (ReceiptsRoot h) (Difficulty h) (hdr_Nonce h) (hdr_GasLimit h) (hdr_GasUsed h) (MinedBy h) (ValidatedBy h)
    (ExtraData h) None "" [].

Definition header_at (ord : child_order) (acc : outcome (list BlockHeader * Blockchain)) (h : Z)
    : outcome (list BlockHeader * Blockchain) :=
  let! (hs, bc) := acc in
  let! (r, bc) := GetBlockByHeight ord bc h in
  Done (match r with Some b => hs ++ [plain_header (Header b)] | None => hs end, bc).

Definition GetHeadersSinceCheckpoint (ord : child_order) (bc : Blockchain) (checkpointHeight endHeight : Z)
    : outcome (list BlockHeader * Blockchain) :=
  foldl (header_at ord) (Done ([], bc)) (heights (u64 (checkpointHeight + 1)) endHeight).

End lookups.
