(* ===== verification/ChainStoreFacts.v ===== *)
(** * Correctness of stored blocks, outputs and state *)

From stdpp Require Import base gmap strings list.
From Stdlib Require Import ZArith Lia Ascii.
From S2P Require Import Prelude.
From S2P Require Import Float64.
From S2P Require Import Sha256.
From S2P Require Import Json.
From S2P Require Import Database.
From S2P Require Import Transaction.
From S2P Require Import Account.
From S2P Require Import Utxo.
From S2P Require Import UtxoFacts.
From S2P Require Import Trie.
From S2P Require Import TrieFacts.
From S2P Require Import Block.
From S2P Require Import BlockJson.
From S2P Require Import BlockFacts.
From S2P Require Import Chain.
From S2P Require Import ChainFacts.
From S2P Require Import ChainStore.

(** ** Blocks *)
Definition block_storable (ord : child_order) (b : Block) : Prop := storable (wire_of (Blk.MarshalJSON ord b)).

Lemma simplified_round_trip ord ord' b : block_storable ord b →
  ∃ j, simplified_document ord b = Some j ∧
    read_block ord' j = Done (Some (Blk.UnmarshalJSON ord' (Blk.MarshalJSON ord b))).
Proof.
  intros Hb. destruct (dec_enc _ Hb) as (j & E & D). exists j. split; [done|]. unfold read_block. rewrite D. done.
Qed.

Section store.
Context `{KV}.

Lemma save_load {A} what absent what' ldb ldb' key doc (decode : dbval → outcome (option A)) :
  Store.save what ldb key doc = (ldb', None) →
  ∃ j, doc = Some j ∧ Store.load what' absent ldb' key decode =
    let! r := decode (DJson j) in
    Done (match r with Some a => Ok a | None => Err ("failed to unmarshal " +:+ what' +:+ ": " +:+ JsonBadInput) end).
Proof.
  unfold Store.save, Store.load. destruct doc as [j|]; [|done].
  destruct (levelDB.Put ldb key (DJson j)) as [ldb1 e] eqn:Ep. intros [= <- He]. destruct e; [done|].
  exists j. split; [done|]. by rewrite (levelDB.Get_Put _ _ _ _ key Ep), str_eqb_refl.
Qed.

(** The header of a block that was decoded: if it has transactions and a Merkle root,
    the decoder replaces the root by the one of the trie it has built. *)
Definition decoded_header (ord : child_order) (h : BlockHeader) (txs : list Transaction) : BlockHeader :=
  if str_eqb (MerkleRoot h) "" || bool_decide (txs = []) then h
  else set_merkle h (Trie.GenerateRootHash ord (Trie.InsertBatch Trie.NewPatriciaTrie txs)).1.

Lemma Unmarshal_header ord s : Header (Blk.UnmarshalJSON ord s) = decoded_header ord (Blk.sb_Header s) (Blk.sb_TxList s).
Proof.
  unfold Blk.UnmarshalJSON, decoded_header, Trie.InsertBatch. destruct (Trie.GenerateRootHash ord _) as [root trie]. cbn [Header fst].
  destruct (str_eqb (MerkleRoot (Blk.sb_Header s)) ""); [done|]. cbn [negb andb orb].
  destruct (Blk.sb_TxList s) as [|tx txs]; [by rewrite andb_false_r|]. rewrite bool_decide_eq_false_2 by done.
  rewrite (proj2 (Z.gtb_lt (Z.of_nat (length (tx :: txs))) 0)) by (cbn [length]; lia). rewrite andb_true_r.
  destruct (str_eqb root _) eqn:E; [|done]. apply str_eqb_eq in E. subst root. by destruct (Blk.sb_Header s).
Qed.

(** C20 A block saved in the store, with a hash and with values that JSON can hold, is
    read back under its number: same hash, receipts, cumulative difficulty and
    transactions (in some order), and the same header, except that for a block with
    transactions and a Merkle root the root is the one of the trie that the decoder
    has built from the transactions. *)
Theorem store_block_round_trip (ord ord' ord'' : child_order) (ldb ldb' : levelDB.t) (b : Block) :
  fair_children ord → fair_children ord' → fair_children ord'' → trie_reachable (block_Transactions b) →
  block_hash b ≠ "" → block_storable ord b → Store.SaveBlock ord ldb b = (ldb', None) →
  ∃ b', Store.GetBlock ord' ldb' (BlockNumber (Header b)) = Done (Ok b') ∧
    block_hash b' = block_hash b ∧ Receipts b' = Receipts b ∧ CumulativeDifficulty b' = CumulativeDifficulty b ∧
    Trie.GetAllTransactions ord'' (block_Transactions b') ≡ₚ Trie.GetAllTransactions ord (block_Transactions b) ∧
    Header b' = decoded_header ord' (Header b) (Trie.GetAllTransactions ord (block_Transactions b)).
Proof.
  intros Hord Hord' Hord'' Hr Hh Hb Hs.
  destruct (save_load _ ("block not found at height " +:+ fmt_d (BlockNumber (Header b))) "block" _ _ _ _ (value_block ord') Hs)
    as (j & Ej & El).
  destruct (simplified_round_trip ord ord' b Hb) as (j' & Ej' & Er). rewrite Ej in Ej'. injection Ej' as <-.
  destruct (Unmarshal_Marshal ord ord' ord'' b Hord Hord' Hord'' Hr Hh) as (H1 & _ & H3 & H4 & H5 & _).
  exists (Blk.UnmarshalJSON ord' (Blk.MarshalJSON ord b)). split; [|split_and!; try done; apply Unmarshal_header].
  unfold Store.GetBlock. etrans; [exact El|]. unfold value_block. cbn [document]. by rewrite Er.
Qed.

(** ** What the chain writes *)
Lemma empty_trie_root ord : Trie.GenerateRootHash ord Trie.NewPatriciaTrie = (sha_hex "", Trie.NewPatriciaTrie).
Proof. done. Qed.

Lemma get_absent {A} `{Codec A} fs k : field_fold fs k = None → get fs k = Some (zero : A).
Proof. unfold get. by intros ->. Qed.

(** The default document of a block, read as a block: its fields are found, up to
    case, except the transactions, which are not a list there, and the hash, which
    is not exported. *)
Lemma default_document_read ord b j : storable (Header b) → storable (Receipts b) →
  int_fits uint64 (CumulativeDifficulty b) = true → block_document b = Some j →
  read_block ord j = Done (Some (mkBlock (Header b) Trie.NewPatriciaTrie (Receipts b) "" 0 0 (CumulativeDifficulty b) "")).
Proof.
  intros Hh Hr Hc Hj. destruct (dec_enc _ Hh) as (jh & Eh & Dh). destruct (dec_enc _ Hr) as (jr & Er & Dr).
  unfold block_document in Hj. rewrite Eh, Er in Hj. destruct (node_document 33 (block_Transactions b)) as [jn|]; [|done].
  cbn in Hj. injection Hj as <-.
  assert (@dec _ pointer_codec jh = Some (Some (Header b))) as Dp.
  { cbn [dec pointer_codec]. destruct jh; rewrite ?Dh; try done. cbn in Eh. by apply fmap_Some in Eh as (? & _ & ?). }
  set (bs := [("Transactions", JObj [("Root", jn)]); ("Receipts", jr)]).
  assert (@dec _ body_codec (JObj bs) = Some (("", []), Receipts b)) as Db.
  { cbn [dec body_codec struct_codec read_fields body_fields].
    rewrite (@get_enc _ txs_codec bs "transactions" (JObj [("Root", jn)]) ("", []) eq_refl eq_refl). cbn [mbind option_bind].
    by rewrite (@get_enc _ list_codec bs "receipts" jr (Receipts b) eq_refl Dr). }
  unfold read_block. set (fs := [("Header", jh); _; _]).
  assert (@dec _ wire_codec (JObj fs) = Some (mkWire "" "" (Some (Header b)) (("", []), Receipts b) (CumulativeDifficulty b))) as ->.
  { cbn [dec wire_codec struct_codec read_fields wire_fields].
    rewrite (@get_absent _ string_codec fs "hash" eq_refl), (@get_absent _ string_codec fs "originalHash" eq_refl).
    cbn [mbind option_bind]. rewrite (@get_enc _ pointer_codec fs "header" jh _ eq_refl Dp). cbn [mbind option_bind].
    rewrite (@get_enc _ body_codec fs "body" _ _ eq_refl Db). cbn [mbind option_bind].
    rewrite (@get_enc _ u64_codec fs "cumulativeDifficulty" (JInt (CumulativeDifficulty b)) (CumulativeDifficulty b)); [done|done|].
    cbn. by rewrite Hc. }
  cbn [wb_Header wb_Hash wb_OriginalHash wb_Body wb_CumulativeDifficulty fst snd]. unfold Blk.UnmarshalJSON.
  cbn [Blk.sb_TxList Blk.sb_Header Blk.sb_Receipts Blk.sb_CumulativeDifficulty Blk.sb_Hash Blk.sb_OriginalHash foldl length].
  rewrite empty_trie_root. change (0 >? 0) with false. rewrite andb_false_r. done.
Qed.

(** A block that the chain has saved comes back from the database without its
    transactions: after a restart, a lookup by hash returns a block with the same
    header, receipts and cumulative difficulty, and an empty trie. Its hash is
    recomputed from the header. *)
Theorem saved_block_loses_transactions (ord ord' : child_order) (bc bc' bc2 : Blockchain) (b : Block) :
  fair_children ord' → storable (Header b) → storable (Receipts b) → int_fits uint64 (CumulativeDifficulty b) = true →
  saveBlock block_document bc b = (bc', None) → world bc2 = world bc' → Chain bc2 = [] →
  ∃ b', GetBlock ord bc2 (hash_of_block b) = Done (Ok b') ∧ Header b' = Header b ∧ Receipts b' = Receipts b ∧
    CumulativeDifficulty b' = CumulativeDifficulty b ∧ hash_of_block b' = Blk.CalculateHash b ∧
    Trie.GetAllTransactions ord' (block_Transactions b') = [].
Proof.
  intros Hord' Hh Hr Hc Hs Hw Hch. unfold saveBlock in Hs. destruct (w_db (world bc)) as [ldb|] eqn:Hdb; [|done].
  destruct (store_block block_document "save" ldb b) as [ldb' e] eqn:Est. injection Hs as <- ->.
  destruct (store_block_stored block_document "save" ldb ldb' b Est) as (_ & j & Ej & Eg).
  unfold GetBlock. rewrite Hch, Hw. cbn [find world set_world w_db]. rewrite Eg. unfold value_block. cbn [document].
  rewrite (default_document_read ord b j Hh Hr Hc Ej). cbn [obind]. eexists. split; [reflexivity|]. split_and!; try done.
  by apply new_trie_empty.
Qed.

(** ** Outputs *)
Lemma bytes_of_string_of_bytes bs : Forall is_byte bs → bytes_of_string (string_of_bytes bs) = bs.
Proof.
  induction 1 as [|b bs Hb _ IH]; [done|]. cbn. rewrite IH. f_equal. unfold byte_of_ascii, ascii_of_byte, is_byte in *.
  rewrite N_ascii_embedding by lia. lia.
Qed.

Lemma utxo_db_key_inj t i t' i' : utxo_db_key t i = utxo_db_key t' i' ↔ t = t' ∧ i mod 256 = i' mod 256.
Proof.
  unfold utxo_db_key, prefixed, CreateKey. split; [|by intros [-> ->]].
  intros E. apply (f_equal bytes_of_string) in E. rewrite !bytes_of_string_of_bytes in E.
  - injection E as E. apply app_inj_2 in E as [E1 E2]; [|done]. split; [by apply (inj bytes_of_string)|by injection E2].
  - constructor; [by split|]. apply Forall_app. split; [apply bytes_of_string_range|].
    constructor; [|constructor]. apply Z.mod_pos_bound. lia.
  - constructor; [by split|]. apply Forall_app. split; [apply bytes_of_string_range|].
    constructor; [|constructor]. apply Z.mod_pos_bound. lia.
Qed.

(** A saved output is read back, and only lookups of the same transaction with
    the same low byte of the index are affected: the key holds one byte of the
    index, so outputs 0 and 256 of a transaction overwrite each other. *)
Theorem SaveUTXO_spec (ldb ldb' : levelDB.t) (u : UTXO) (txID : string) (i : Z) :
  utxo_storable u → Store.SaveUTXO ldb u = (ldb', None) →
  Store.GetUTXO ldb' txID i =
    if bool_decide (txID = utxo_TransactionID u ∧ i mod 256 = utxo_OutputIndex u mod 256) then Done (Ok u)
    else Store.GetUTXO ldb txID i.
Proof.
  intros Hu Hs. unfold Store.SaveUTXO, Store.save in Hs. destruct (marshal_UTXO u) as [j|] eqn:Ej; [|done].
  destruct (levelDB.Put ldb _ (DJson j)) as [ldb1 e] eqn:Ep. injection Hs as <- He. destruct e; [done|].
  unfold Store.GetUTXO, Store.load. rewrite (levelDB.Get_Put _ _ _ _ _ Ep).
  destruct (str_eqb _ _) eqn:Ek.
  - apply str_eqb_eq, utxo_db_key_inj in Ek as [<- Hi]. rewrite bool_decide_true by done. cbn [document mbind option_bind obind].
    by rewrite (read_marshal_UTXO u j Hu Ej).
  - apply str_eqb_neq in Ek. rewrite bool_decide_false; [done|]. intros [-> Hi]. apply Ek. by apply utxo_db_key_inj.
Qed.

(** ** State *)
Definition follow (ord : child_order) (now : Z) : State.t → list Block → State.t := foldl (State.UpdateWithBlock ord now).

(** The summary follows the chain: fed with blocks of consecutive numbers, its
    height and its count of blocks both are the last number, and it is valid
    exactly when the last difficulty and the gas price are positive. *)
Theorem state_follows_chain (ord : child_order) (now : Z) (s : State.t) (l : list Block) :
  0 ≤ State.Height s → State.TotalBlocks s = State.Height s → State.Height s + Z.of_nat (length l) < 2 ^ 64 →
  (∀ i b, l !! i = Some b → BlockNumber (Header b) = State.Height s + Z.of_nat i + 1) →
  let s' := follow ord now s l in
  State.Height s' = State.Height s + Z.of_nat (length l) ∧ State.TotalBlocks s' = State.Height s' ∧
  (State.Validate s' = None ↔ 1 ≤ State.st_Difficulty s' ∧ 1 ≤ State.st_GasPrice s').
Proof.
  intros H0 Ht Hb Hn s'. assert (State.Height s' = State.Height s + Z.of_nat (length l) ∧
    State.TotalBlocks s' = State.Height s + Z.of_nat (length l)) as [HH HT].
  { subst s'. revert s H0 Ht Hb Hn. induction l as [|b l IH]; intros s H0 Ht Hb Hn; [cbn; lia|].
    cbn [follow foldl length] in *. fold (follow ord now) in *.
    pose proof (Hn 0%nat b eq_refl) as Hb0. set (s1 := State.UpdateWithBlock ord now s b).
    assert (State.Height s1 = State.Height s + 1) as H1 by (cbn; lia).
    assert (State.TotalBlocks s1 = State.Height s + 1) as H2.
    { cbn. rewrite u64_small; [lia|]. unfold is_u64. lia. }
    destruct (IH s1) as [HH HT]; [lia..| |].
    - intros i c Hc. rewrite (Hn (S i) c Hc), H1. lia.
    - unfold follow in *. cbn [foldl]. fold s1. rewrite HH, HT, H1. lia. }
  split_and!; [done|lia|]. unfold State.Validate.
  rewrite (proj2 (Z.ltb_ge (State.Height s') 0)), (proj2 (Z.ltb_ge (State.TotalBlocks s') (State.Height s'))) by lia.
  destruct (Z.ltb_spec (State.st_Difficulty s') 1), (Z.ltb_spec (State.st_GasPrice s') 1); split; intros; try done; lia.
Qed.

End store.

(** Blocks that use little gas bring the gas price down to 0, where it stays, and
    the state is no longer valid. *)
Theorem gas_price_dies : Nat.iter 60 (State.adjusted_price 21000 15000000) 1000 = 0.
Proof. vm_compute. reflexivity. Qed.

(** ** Concrete documents *)
Definition plain_block : Block := mkBlock (Header (Blk.GenesisBlock 100)) Trie.NewPatriciaTrie [] "h" 0 0 1 "h".

Definition open_db : @levelDB.t mem_kv := levelDB.mk (∅ : @kv mem_kv) false.

Lemma struct_not_null {A K} (f : sfields A K) mk z a : @enc _ (struct_codec f mk z) a ≠ Some JNull.
Proof. cbn. unfold marshal_struct. intros E. by apply fmap_Some in E as (? & _ & ?). Qed.

(** Decides that a concrete value is storable. *)
Ltac storable := repeat apply conj;
  first [exact I | apply struct_not_null | apply List.Forall_nil | vm_compute; reflexivity].

Lemma plain_block_storable : block_storable (λ l, l) plain_block.
Proof. unfold block_storable, storable. storable. Qed.

(** A block with a transaction, whose Merkle root was never set to that of its trie. *)
Definition stored_tx : Transaction :=
  mkTransaction "id" "from" "to" (f64_of_Z 5) 7 0 f64_zero [mkTransactionInput "c" 0 ""] [mkTransactionOutput "to" (f64_of_Z 5) ""]
    TX_REGULAR 21000 20 0 1 40 [] "ab" [].
Definition stored_trie : PatriciaNode := Trie.Insert Trie.NewPatriciaTrie stored_tx.
Definition full_block : Block := mkBlock (set_merkle (Header (Blk.GenesisBlock 100)) "old") stored_trie [] "h" 0 1 1 "h".

Lemma full_block_storable : block_storable (λ l, l) full_block.
Proof.
  unfold block_storable.
  change (Blk.MarshalJSON (λ l, l) full_block) with
    (Blk.mkSimplified "h" "h" (Header full_block) "old" (Trie.GetAllTransactions (λ l, l) stored_trie) [] 1).
  replace (Trie.GetAllTransactions (λ l, l) stored_trie) with [stored_tx] by (vm_compute; reflexivity).
  unfold storable. repeat (apply conj || apply List.Forall_cons); storable.
Qed.

Lemma store_block_round_trip_witness :
  ∃ ldb' b', Store.SaveBlock (λ l, l) open_db full_block = (ldb', None) ∧ Store.GetBlock reverse ldb' 0 = Done (Ok b') ∧
    Trie.GetAllTransactions reverse (block_Transactions b') ≡ₚ [stored_tx] ∧ MerkleRoot (Header b') ≠ "old".
Proof.
  destruct (Store.SaveBlock (λ l, l) open_db full_block) as [ldb' e] eqn:E.
  assert (e = None) as ->. { change e with (ldb', e).2. rewrite <-E. vm_compute. reflexivity. }
  assert (trie_reachable stored_trie) as Hr by (apply reach_insert, reach_new).
  destruct (store_block_round_trip (λ l, l) reverse reverse open_db ldb' full_block fair_children_id
    fair_children_reverse fair_children_reverse Hr ltac:(discriminate) full_block_storable E) as (b' & Eg & _ & _ & _ & Ht & Hh).
  assert (Trie.GetAllTransactions (λ l, l) (block_Transactions full_block) = [stored_tx]) as Htx by (vm_compute; reflexivity).
  rewrite Htx in Ht, Hh. exists ldb', b'. split; [reflexivity|]. split; [exact Eg|]. split; [exact Ht|]. rewrite Hh. vm_compute. discriminate.
Defined.

Definition one_output (i : Z) : UTXO := mkUTXO "t" i (f64_of_Z 5) "o" false 1 0 "".

Lemma SaveUTXO_spec_witness :
  ∃ ldb', Store.SaveUTXO open_db (one_output 256) = (ldb', None) ∧ Store.GetUTXO ldb' "t" 0 = Done (Ok (one_output 256)).
Proof.
  destruct (Store.SaveUTXO open_db (one_output 256)) as [ldb' e] eqn:E.
  assert (e = None) as ->. { change e with (ldb', e).2. rewrite <-E. vm_compute. reflexivity. }
  exists ldb'. split; [reflexivity|].
  exact (SaveUTXO_spec open_db ldb' (one_output 256) "t" 0 ltac:(split_and!; vm_compute; reflexivity) E).
Defined.

Lemma state_follows_chain_witness :
  State.TotalBlocks (follow (λ l, l) 0 (State.NewState 0) [child (gen 0) "c" 1]) = 1.
Proof.
  destruct (state_follows_chain (λ l, l) 0 (State.NewState 0) [child (gen 0) "c" 1]) as (HH & HT & _).
  - cbn. lia.
  - reflexivity.
  - cbn. lia.
  - intros [|i] b Hb; [injection Hb as <-; reflexivity|discriminate].
  - etrans; [exact HT|exact HH].
Defined.

Definition with_db : @Blockchain mem_kv := mkBlockchain [] "" None (mkWorld (Some open_db) None) "" ∅.

Lemma saved_block_loses_transactions_witness :
  ∃ bc' b', saveBlock block_document with_db demo_block = (bc', None) ∧
    GetBlock (λ l, l) (set_chain bc' []) (hash_of_block demo_block) = Done (Ok b') ∧
    Trie.GetAllTransactions reverse (block_Transactions b') = [].
Proof.
  destruct (saveBlock block_document with_db demo_block) as [bc' e] eqn:E.
  assert (e = None) as ->. { change e with (bc', e).2. rewrite <-E. vm_compute. reflexivity. }
  destruct (saved_block_loses_transactions (λ l, l) reverse with_db bc' (set_chain bc' []) demo_block fair_children_reverse)
    as (b' & Eg & _ & _ & _ & _ & Ht).
  - storable.
  - apply List.Forall_nil.
  - vm_compute. reflexivity.
  - exact E.
  - reflexivity.
  - reflexivity.
  - exists bc', b'. split; [reflexivity|]. split; [exact Eg|exact Ht].
Defined.
