(* ===== verification/Validator.v ===== *)
(** * Validators, slashing, rewards and selection
    ([validator.go], [slashing.go], [rewards.go], [validator_selection.go])

    The state machine of a validator, the penalties and rewards, and the choice
    of the next validator. A validator and a selector carry their mutex, since
    some of their methods take it twice. [now] is the time in nanoseconds. *)

From stdpp Require Import base gmap strings list.
From Stdlib Require Import ZArith Lia.
From S2P Require Import Prelude.
From S2P Require Import Float64.
From S2P Require Import Sha256.
From S2P Require Import Json.
From S2P Require Import Database.
From S2P Require Import Stake.
From S2P Require Import Block.

(** ** validator.go *)
Definition ValidatorStatusPending : Z := 0.
Definition ValidatorStatusActive : Z := 1.
Definition ValidatorStatusProbation : Z := 2.
Definition ValidatorStatusSlashed : Z := 3.
Definition ValidatorStatusInactive : Z := 4.

Record ValidatorConfig := mkConfig {
  cfg_Stake : float64;
  MinStake : float64;
  RewardRate : float64;
  SlashingRate : float64;
  BlockTimeout : Z;
  MaxMissed : Z;
}.

Record Validator := mkValidator {
  val_Address : string;
  Status : Z;
  Score : Z;
  val_LastActive : Z;
  val_Performance : option ValidatorPerformance;
  val_Violations : Z;
  Timeouts : Z;
  ProbationEndTime : Z;
  ConsensusFailures : Z;
  val_config : ValidatorConfig;
  val_mu : mutex;
  isValidating : bool;
  missedBlocks : Z;
  rewards : float64;
  slashed : bool;
  isSelected : bool;
  selectionProof : option SelectionProof;
}.

Module Val.

Definition set_status (v : Validator) (status score : Z) : Validator :=
  mkValidator (val_Address v) status score (val_LastActive v) (val_Performance v) (val_Violations v) (Timeouts v)
    (ProbationEndTime v) (ConsensusFailures v) (val_config v) (val_mu v) (isValidating v) (missedBlocks v)
    (rewards v) (slashed v) (isSelected v) (selectionProof v).
Definition set_performance (v : Validator) (p : option ValidatorPerformance) (active : Z) : Validator :=
  mkValidator (val_Address v) (Status v) (Score v) active p (val_Violations v) (Timeouts v)
    (ProbationEndTime v) (ConsensusFailures v) (val_config v) (val_mu v) (isValidating v) (missedBlocks v)
    (rewards v) (slashed v) (isSelected v) (selectionProof v).
Definition set_violations (v : Validator) (n until : Z) : Validator :=
  mkValidator (val_Address v) (Status v) (Score v) (val_LastActive v) (val_Performance v) n (Timeouts v)
    until (ConsensusFailures v) (val_config v) (val_mu v) (isValidating v) (missedBlocks v)
    (rewards v) (slashed v) (isSelected v) (selectionProof v).
Definition set_mu (v : Validator) (m : mutex) : Validator :=
  mkValidator (val_Address v) (Status v) (Score v) (val_LastActive v) (val_Performance v) (val_Violations v) (Timeouts v)
    (ProbationEndTime v) (ConsensusFailures v) (val_config v) m (isValidating v) (missedBlocks v)
    (rewards v) (slashed v) (isSelected v) (selectionProof v).
Definition set_running (v : Validator) (running : bool) : Validator :=
  mkValidator (val_Address v) (Status v) (Score v) (val_LastActive v) (val_Performance v) (val_Violations v) (Timeouts v)
    (ProbationEndTime v) (ConsensusFailures v) (val_config v) (val_mu v) running (missedBlocks v)
    (rewards v) (slashed v) (isSelected v) (selectionProof v).
Definition set_missed (v : Validator) (n : Z) : Validator :=
  mkValidator (val_Address v) (Status v) (Score v) (val_LastActive v) (val_Performance v) (val_Violations v) (Timeouts v)
    (ProbationEndTime v) (ConsensusFailures v) (val_config v) (val_mu v) (isValidating v) n
    (rewards v) (slashed v) (isSelected v) (selectionProof v).
Definition set_stake (v : Validator) (stake rewards : float64) (slashed : bool) : Validator :=
  let c := val_config v in
  mkValidator (val_Address v) (Status v) (Score v) (val_LastActive v) (val_Performance v) (val_Violations v) (Timeouts v)
    (ProbationEndTime v) (ConsensusFailures v)
    (mkConfig stake (MinStake c) (RewardRate c) (SlashingRate c) (BlockTimeout c) (MaxMissed c))
    (val_mu v) (isValidating v) (missedBlocks v) rewards slashed (isSelected v) (selectionProof v).
Definition set_selected (now : Z) (v : Validator) (proof : option SelectionProof) : Validator :=
  mkValidator (val_Address v) (Status v) (Score v) now (val_Performance v) (val_Violations v) (Timeouts v)
    (ProbationEndTime v) (ConsensusFailures v) (val_config v) (val_mu v) (isValidating v) (missedBlocks v)
    (rewards v) (slashed v) true proof.

(** [v.mu.Lock(); defer v.mu.Unlock()] around a body. *)
Definition locked {A} (v : Validator) (body : Validator → outcome (Validator * A)) : outcome (Validator * A) :=
  let! m := mutex_Lock (val_mu v) in
  let! (v, a) := body (set_mu v m) in
  Done (set_mu v Unlocked, a).

Definition default_config : ValidatorConfig :=
  mkConfig f64_zero f64_zero (f64_ratio 1 100) (f64_ratio 1 2) (30 * 10 ^ 9) 10.

(** [existing] is the entry of the chain's validator map. *)
Definition NewValidator (now : Z) (config : option ValidatorConfig) (existing : option Validator)
    (walletAddress : string) : Validator :=
  match existing with
  | Some v => v
  | None =>
      mkValidator walletAddress ValidatorStatusPending 0 now (Some (new_performance now)) 0 0 zero_time 0
        (default default_config config) Unlocked false 0 f64_zero false false None
  end.

(** [syncing] tells whether the node is still synchronising. *)
Definition Start (syncing : bool) (v : Validator) : outcome (Validator * error) :=
  locked v (λ v,
    if isValidating v then Done (v, None)
    else if Status v =? ValidatorStatusSlashed
    then Done (v, Some "validator has been slashed and cannot participate")
    else if syncing then Done (v, Some "cannot start validation while blockchain is syncing")
    else Done (set_status (set_running v true) ValidatorStatusActive (Score v), None)).

Definition Stop (v : Validator) : outcome (Validator * error) :=
  locked v (λ v, if isValidating v then Done (set_running v false, None) else Done (v, None)).

(** [slash] stops the validator when its stake is too low; it is called with the
    mutex held, and [Stop] takes it again. *)
Definition slash (v : Validator) : outcome Validator :=
  let c := val_config v in
  let stake := f64_sub (cfg_Stake c) (f64_mul (cfg_Stake c) (SlashingRate c)) in
  let v := set_stake v stake (rewards v) true in
  if f64_lt stake (MinStake c) then let! (v, _) := Stop v in Done v else Done v.

Definition handleMissedBlocks (missed : Z) (v : Validator) : outcome Validator :=
  let! (v, _) := locked v (λ v,
    let v := set_missed v (i64 (missedBlocks v + missed)) in
    if missedBlocks v >=? MaxMissed (val_config v) then let! v := slash v in Done (v, tt) else Done (v, tt)) in
  Done v.

(** [reward] is the reward of the block. *)
Definition distributeRewards (reward : float64) (v : Validator) : Validator :=
  set_stake v (f64_add (cfg_Stake (val_config v)) reward) (f64_add (rewards v) reward) (slashed v).

Definition updateStatus (v : Validator) : Validator :=
  if Score v <? 100 then set_status v ValidatorStatusProbation (Score v)
  else if negb (Status v =? ValidatorStatusSlashed) then set_status v ValidatorStatusActive (Score v)
  else v.

(** The score of a record of validations. *)
Definition score_of `{GoImpl} (p : ValidatorPerformance) : Z :=
  let baseScore := u64 (BlocksValidated p * 10) in
  let penalties := u64 (MissedValidations p * 20) in
  let uptimeScore := f64_to_u64 (f64_mul (UptimePercentage p) (f64_of_Z 100)) in
  if penalties >? baseScore then 0 else u64 (u64 (baseScore - penalties) + uptimeScore).

Definition UpdateValidatorScore `{GoImpl} (now : Z) (v : Validator) : Validator :=
  match val_Performance v with
  | None => set_performance v (Some (new_performance now)) (val_LastActive v)
  | Some p => updateStatus (set_status v (Status v) (score_of p))
  end.

Definition RecordValidation `{GoImpl} (now : Z) (success : bool) (v : Validator) : Validator :=
  let p := default (mkPerformance 0 0 0 f64_zero zero_time) (val_Performance v) in
  let validated := if success then u64 (BlocksValidated p + 1) else BlocksValidated p in
  let missed := if success then MissedValidations p else u64 (MissedValidations p + 1) in
  let total := u64 (validated + missed) in
  let uptime :=
    if total >? 0 then f64_mul (f64_div (f64_of_Z validated) (f64_of_Z total)) (f64_of_Z 100)
    else UptimePercentage p in
  UpdateValidatorScore now
    (set_performance v (Some (mkPerformance (BlocksProposed p) validated missed uptime (LastUpdate p)))
       (if success then now else val_LastActive v)).

Definition CheckSelectionEligibility (v : Validator) : error :=
  if negb (Status v =? ValidatorStatusActive) then Some "validator not active"
  else if Score v <? 100 then Some "validator score too low"
  else if slashed v then Some "validator has been slashed"
  else None.

Definition NotifySelection (now : Z) (proof : option SelectionProof) (v : Validator)
    : outcome (Validator * error) :=
  locked v (λ v,
    match CheckSelectionEligibility v with
    | Some e => Done (v, Some e)
    | None => Done (set_selected now v proof, None)
    end).

Definition ProcessSelection : Z → option SelectionProof → Validator → outcome (Validator * error) :=
  NotifySelection.

Definition IsReady (v : Validator) : outcome bool :=
  let! _ := mutex_RLock (val_mu v) in
  Done (isValidating v && negb (slashed v) && (Status v =? ValidatorStatusActive)).

Definition IsSlashed (v : Validator) : bool := Status v =? ValidatorStatusSlashed.

(** [broadcast] is what the network layer returns. *)
Definition Vote (broadcast : error) (v : Validator) : outcome error :=
  let! ready := IsReady v in
  Done (if (ready : bool) then broadcast else Some "validator not ready to vote").

Definition Recover (now : Z) (v : Validator) : outcome (Validator * error) :=
  locked v (λ v,
    if negb (Status v =? ValidatorStatusProbation) && negb (Status v =? ValidatorStatusSlashed)
    then Done (v, Some "validator not in recoverable state")
    else Done (mkValidator (val_Address v) ValidatorStatusActive 100 now (val_Performance v) (val_Violations v) 0
                 (ProbationEndTime v) (ConsensusFailures v) (val_config v) (val_mu v) (isValidating v) (missedBlocks v)
                 (rewards v) (slashed v) (isSelected v) (selectionProof v), None)).

End Val.

(** ** slashing.go *)
Definition ProbationPeriod : Z := 24 * hour_ns.
Definition MaxTimeoutViolations : Z := 5.
Definition MaxConsensusFailures : Z := 3.

Record SlashingEvidence := mkEvidence {
  ev_ValidatorAddress : string;
  ev_ViolationType : string;
  ev_BlockHeight : Z;
  ev_Timestamp : Z;
  ev_Description : string;
}.

Module Slashing.
Section slashing.
Context `{KV} `{GoImpl}.
(** The document of a slashing event, as the encoder writes it. *)
Context (event_document : Z → Validator → float64 → list SlashingEvidence → option json).

(** What the manager changes: its evidence, the stakes, the community pool of the
    chain and the database. *)
Record t := mk {
  evidence : gmap string (list SlashingEvidence);
  stakePool : StakePool.t;
  communityPool : float64;
  db : levelDB.t;
}.

Definition recordSlashingEvent (now : Z) (sm : t) (v : Validator) (amount : float64) : t * error :=
  match event_document now v amount (default [] (evidence sm !! val_Address v)) with
  | None => (sm, Some "json: unsupported value")
  | Some j =>
      let '(db, e) := levelDB.Put (db sm) ("slash:" +:+ val_Address v +:+ ":" +:+ fmt_d (unix now)) (DJson j) in
      (mk (evidence sm) (stakePool sm) (communityPool sm) db, e)
  end.

Definition SlashValidator (now : Z) (sm : t) (v : Validator) : t * Validator * error :=
  match StakePool.Stakes (stakePool sm) !! val_Address v with
  | None => (sm, v, Some ("no stake found for validator " +:+ val_Address v))
  | Some stake =>
      let penaltyAmount := f64_mul (f64_of_Z (st_Amount stake)) f64_half in
      let stake := set_amount (u64 (st_Amount stake - f64_to_u64 penaltyAmount)) stake in
      let v := Val.set_status v ValidatorStatusSlashed 0 in
      let sm := mk (evidence sm) (StakePool.set_stake (stakePool sm) (val_Address v) stake)
                  (f64_add (communityPool sm) penaltyAmount) (db sm) in
      match recordSlashingEvent now sm v penaltyAmount with
      | (sm, Some e) => (sm, v, Some ("failed to record slashing event: " +:+ e))
      | (sm, None) => (sm, v, None)
      end
  end.

(** [height] is the number of the latest block. *)
Definition HandleViolation (now height : Z) (sm : t) (v : Validator) (violationType : string)
    : t * Validator * error :=
  let v := Val.set_violations v (i64 (val_Violations v + 1)) (ProbationEndTime v) in
  let ev := mkEvidence (val_Address v) violationType height now
    ("Violation " +:+ fmt_d (val_Violations v) +:+ " of type " +:+ violationType) in
  let sm := mk (<[val_Address v := default [] (evidence sm !! val_Address v) ++ [ev]]> (evidence sm))
              (stakePool sm) (communityPool sm) (db sm) in
  if val_Violations v >=? SlashingThreshold then SlashValidator now sm v
  else (sm, Val.set_violations (Val.set_status v ValidatorStatusProbation (Score v)) (val_Violations v)
              (now + ProbationPeriod), None).

Definition CheckTimeoutViolations (now height : Z) (sm : t) (v : Validator) : t * Validator * error :=
  if Timeouts v >=? MaxTimeoutViolations then HandleViolation now height sm v "timeout" else (sm, v, None).

Definition CheckConsensusViolations (now height : Z) (sm : t) (v : Validator) : t * Validator * error :=
  if ConsensusFailures v >=? MaxConsensusFailures then HandleViolation now height sm v "consensus" else (sm, v, None).

Definition ClearExpiredProbation (now : Z) (v : Validator) : Validator :=
  if (Status v =? ValidatorStatusProbation) && (now >? ProbationEndTime v)
  then Val.set_violations (Val.set_status v ValidatorStatusActive (Score v)) 0 (ProbationEndTime v)
  else v.

End slashing.
End Slashing.

(** ** rewards.go *)
Definition BaseBlockReward : float64 := f64_of_Z 50.
Definition StakeRewardRate : float64 := f64_ratio 5 100.
Definition ValidatorRewardShare : float64 := f64_ratio 70 100.
Definition StakerRewardShare : float64 := f64_ratio 30 100.
Definition RewardHalvingPeriod : Z := 210000.
Definition MinStakeTime : Z := 24 * hour_ns.
Definition MaxRewardMultiplier : float64 := f64_of_Z 2.

Record RewardEvent := mkRewardEvent {
  re_Address : string;
  re_Amount : float64;
  re_Type : string;
  re_BlockHeight : Z;
  re_Timestamp : Z;
}.

Module Reward.

(** [math.Pow(2, n)]: exact up to 2^1023, infinite above. *)
Definition pow2 (n : Z) : float64 :=
  if n <=? 1023 then f64_of_Z (2 ^ n) else f64_div (f64_of_Z 1) f64_zero.

Definition CalculateBlockReward (blockHeight : Z) : float64 :=
  let halvings := blockHeight / RewardHalvingPeriod in
  f64_max (f64_div BaseBlockReward (pow2 halvings)) f64_zero.

Definition calculatePerformanceMultiplier (v : Validator) : float64 :=
  if Score v <? 50 then f64_half
  else f64_min (f64_div (f64_of_Z (Score v)) (f64_of_Z 100)) MaxRewardMultiplier.

Definition CalculateValidatorReward (v : option Validator) (blockReward : float64) : float64 :=
  match v with
  | None => f64_zero
  | Some v => f64_mul (f64_mul blockReward ValidatorRewardShare) (calculatePerformanceMultiplier v)
  end.

Definition CalculateStakeReward (ro : range_order) (now : Z) (sp : StakePool.t) (stake : StakeInfo)
    (blockReward : float64) : float64 :=
  if st_Amount stake =? 0 then f64_zero
  else if time_since now (StartTime stake) <? MinStakeTime then f64_zero
  else
    let annualReward := f64_mul (f64_of_Z (st_Amount stake)) StakeRewardRate in
    let timeBasedReward :=
      f64_div (f64_mul annualReward (duration_hours (time_since now (LastRewardTime stake)))) (f64_of_Z (24 * 365)) in
    let totalStake := StakePool.GetTotalStake ro sp in
    if f64_eq totalStake f64_zero then timeBasedReward
    else f64_add timeBasedReward
           (f64_mul (f64_mul blockReward StakerRewardShare) (f64_div (f64_of_Z (st_Amount stake)) totalStake)).

(** What a distribution changes: the balances, the stakes and the history. *)
Record t := mk {
  balances : gmap string float64;
  pool : StakePool.t;
  rewardHistory : gmap string (list RewardEvent);
}.

(** Credit an address and record it. *)
Definition pay (now height : Z) (kind addr : string) (amount : float64) (s : t) : t :=
  mk (<[addr := f64_add (default f64_zero (balances s !! addr)) amount]> (balances s)) (pool s)
    (<[addr := default [] (rewardHistory s !! addr) ++ [mkRewardEvent addr amount kind height now]]> (rewardHistory s)).

Definition pay_stake (ro : range_order) (now height : Z) (blockReward : float64) (s : t)
    (e : string * StakeInfo) : t :=
  let stakeReward := CalculateStakeReward ro now (pool s) e.2 blockReward in
  if f64_gt stakeReward f64_zero then
    let s := pay now height "stake" e.1 stakeReward s in
    mk (balances s) (StakePool.set_stake (pool s) e.1 (set_rewarded now e.2)) (rewardHistory s)
  else s.

Definition DistributeRewards (ro ro' : range_order) (now height : Z) (v : option Validator) (s : t) : t :=
  let blockReward := CalculateBlockReward height in
  let validatorReward := CalculateValidatorReward v blockReward in
  let s :=
    match v with
    | Some v => if f64_gt validatorReward f64_zero then pay now height "validator" (val_Address v) validatorReward s else s
    | None => s
    end in
  foldl (pay_stake ro' now height blockReward) s (range ro (StakePool.Stakes (pool s))).

End Reward.

(** ** validator_selection.go *)
Module Selector.
Section selector.
Context `{GoImpl}.

Record t := mk { stakePool : StakePool.t; mu : mutex }.

Definition isEligible (now : Z) (stake : StakeInfo) : bool :=
  negb (time_since now (StartTime stake) <? MinStakeAge)
  && negb (st_Violations stake >=? SlashingThreshold)
  && negb (bool_decide (is_Some (WithdrawalReq stake)))
  && negb (st_Amount stake <? MinValidatorStake)
  && negb (time_since now (st_LastActive stake) >? MaxInactivityPeriod).

Definition calculateValidatorScore (stake : StakeInfo) : Z :=
  match st_Performance stake with
  | None => 0
  | Some p => Val.score_of p
  end.

(** The validator built for a stake; the fields the code leaves out are zero. *)
Definition validator_of (addr : string) (stake : StakeInfo) : Validator :=
  mkValidator addr ValidatorStatusActive (calculateValidatorScore stake) (st_LastActive stake)
    (st_Performance stake) 0 0 zero_time 0 Val.default_config Unlocked false 0 f64_zero false false None.

Definition eligible (now : Z) (ro : range_order) (sp : StakePool.t) : list Validator :=
  omap (λ e, if isEligible now e.2 then Some (validator_of e.1 e.2) else None) (range ro (StakePool.Stakes sp)).

Definition getEligibleValidators (now : Z) (ro : range_order) (vs : t) : outcome (list Validator) :=
  let! _ := mutex_RLock (mu vs) in
  Done (eligible now ro (stakePool vs)).

Definition calculateWeight (now : Z) (sp : StakePool.t) (v : Validator) : Z :=
  match StakePool.Stakes sp !! val_Address v with
  | None => 0
  | Some stake =>
      let baseWeight := StakePool.GetStakeWeight now (Some stake) in
      match val_Performance v with
      | None => baseWeight
      | Some p =>
          let m := f64_of_Z 1 in
          let m := if f64_ge (UptimePercentage p) (f64_of_Z 99) then f64_mul m (f64_ratio 12 10) else m in
          let ratio := f64_div (f64_of_Z (BlocksValidated p))
                         (f64_of_Z (u64 (BlocksValidated p + MissedValidations p))) in
          let m := if f64_ge ratio (f64_ratio 95 100) then f64_mul m (f64_ratio 11 10) else m in
          let m := if time_since now (LastUpdate p) <? hour_ns then f64_mul m (f64_ratio 11 10) else m in
          f64_to_u64 (f64_mul (f64_of_Z baseWeight) m)
      end
  end.

Definition generateSeed (height : Z) (prevHash : string) : bytes :=
  sha256 (be_bytes 8 height ++ bytes_of_string prevHash).

Definition generateRandomUint64 (seed : bytes) : Z := be_value (take 8 (sha256 seed)).

(** The selection loop over validators with their weights. *)
Fixpoint pick (l : list (Validator * Z)) (cumulative target : Z) : option (Validator * Z * Z) :=
  match l with
  | [] => None
  | (v, w) :: l =>
      let cumulative := u64 (cumulative + w) in
      if cumulative >=? target then Some (v, w, cumulative) else pick l cumulative target
  end.

Definition weightedSelection (now : Z) (sp : StakePool.t) (validators : list Validator) (seed : bytes)
    : outcome (option (Validator * SelectionProof)) :=
  let weighted := (λ v, (v, calculateWeight now sp v)) <$> validators in
  let totalWeight := foldl (λ n e, u64 (n + e.2)) 0 weighted in
  if totalWeight =? 0 then Panic "integer divide by zero"
  else
    let target := generateRandomUint64 seed mod totalWeight in
    Done ((λ r, (r.1.1, mkSelectionProof (Some seed) now r.1.2 r.2)) <$> pick weighted 0 target).

(** The mutex is held for writing when the eligible validators are read. *)
Definition SelectValidator (now : Z) (ro : range_order) (vs : t) (blockHeight : Z) (previousHash : string)
    : outcome (t * result (Validator * SelectionProof)) :=
  let! m := mutex_Lock (mu vs) in
  let vs := mk (stakePool vs) m in
  let seed := generateSeed blockHeight previousHash in
  let! validators := getEligibleValidators now ro vs in
  match validators with
  | [] => Done (mk (stakePool vs) Unlocked, Err "no eligible validators")
  | _ =>
      let! sel := weightedSelection now (stakePool vs) validators seed in
      match sel with
      | None => Done (mk (stakePool vs) Unlocked, Err "validator selection failed")
      | Some (v, proof) =>
          let v := Val.set_selected now v (Some proof) in
          let sp :=
            match StakePool.Stakes (stakePool vs) !! val_Address v with
            | None => stakePool vs
            | Some s => StakePool.set_stake (stakePool vs) (val_Address v)
                          (set_activity now (st_Performance s) (u64 (SelectionCount s + 1)) s)
            end in
          Done (mk sp Unlocked, Ok (v, proof))
      end
  end.

Definition UpdateValidatorPerformance (now : Z) (vs : t) (address : string) (metrics : ValidatorPerformance)
    : outcome (t * error) :=
  let! _ := mutex_Lock (mu vs) in
  match StakePool.Stakes (stakePool vs) !! address with
  | None => Done (mk (stakePool vs) Unlocked, Some ("no stake found for validator " +:+ address))
  | Some s =>
      Done (mk (StakePool.set_stake (stakePool vs) address (set_activity now (Some metrics) (SelectionCount s) s)) Unlocked, None)
  end.

Definition UpdateValidatorActivity (now : Z) (vs : t) (address : string) : outcome (t * error) :=
  let! _ := mutex_Lock (mu vs) in
  match StakePool.Stakes (stakePool vs) !! address with
  | None => Done (mk (stakePool vs) Unlocked, Some ("no stake found for validator " +:+ address))
  | Some s =>
      let p := (λ p, mkPerformance (BlocksProposed p) (BlocksValidated p) (MissedValidations p) (UptimePercentage p) now)
                 <$> st_Performance s in
      Done (mk (StakePool.set_stake (stakePool vs) address (set_activity now p (SelectionCount s) s)) Unlocked, None)
  end.

End selector.
End Selector.
