(* ===== verification/Consensus.v ===== *)
(** * The consensus engine ([consensus.go])

    Rounds and votes. The engine, its round state and the selector have a mutex
    each. Adding the finalised block to the chain and announcing it are the
    chain's and the network's work: here the engine's operations return the block
    they hand over ([finalised]). *)

From stdpp Require Import base gmap strings list.
From Stdlib Require Import ZArith Lia.
From S2P Require Import Prelude.
From S2P Require Import Float64.
From S2P Require Import Stake.
From S2P Require Import Block.
From S2P Require Import Validator.

Definition MinValidatorQuorum : float64 := f64_ratio 2 3.

Record ConsensusState := mkConsensusState {
  Round : Z;
  CurrentValidator : string;
  ProposedBlock : option Block;
  ValidatorVotes : gmap string bool;
  VotingStartTime : Z;
  ConsensusReached : bool;
  state_mu : mutex;
}.

(** The block handed to the chain: none, or the proposed one (possibly nil). *)
Inductive finalised : Type :=
  | NotFinalised
  | Finalised (b : option Block).

Module Consensus.

Record t := mk {
  validators : gmap string Validator;
  selector : Selector.t;
  state : ConsensusState;
  votes : gmap string (gmap string bool);
  mu : mutex;
}.

Definition newConsensusState (now : Z) : ConsensusState :=
  mkConsensusState 0 "" None ∅ now false Unlocked.

Definition NewConsensusEngine (now : Z) (selector : Selector.t) : t :=
  mk ∅ selector (newConsensusState now) ∅ Unlocked.

Definition set_state (ce : t) (s : ConsensusState) : t := mk (validators ce) (selector ce) s (votes ce) (mu ce).

Definition newRound (now : Z) (s : ConsensusState) (b : Block) (validator : string) : outcome ConsensusState :=
  let! _ := mutex_Lock (state_mu s) in
  Done (mkConsensusState (u64 (Round s + 1)) validator (Some b) ∅ now false (state_mu s)).

(** Counting the positive votes among all votes. *)
Definition tally (ro : range_order) (votes : gmap string bool) : Z * Z :=
  (foldl (λ n e, if (e.2 : bool) then n + 1 else n) 0 (range ro votes), Z.of_nat (size votes)).

Definition hasReachedConsensus (ro : range_order) (s : ConsensusState) : bool :=
  let '(positiveVotes, totalVotes) := tally ro (ValidatorVotes s) in
  f64_ge (f64_of_Z positiveVotes) (f64_mul (f64_of_Z totalVotes) MinValidatorQuorum).

Definition isEligibleVoter (ce : t) (addr : string) : outcome bool :=
  match validators ce !! addr with
  | None => Done false
  | Some v =>
      let! ready := Val.IsReady v in
      Done (ready && negb (Val.IsSlashed v))
  end.

Definition finalizeBlock (s : ConsensusState) : finalised :=
  if ConsensusReached s then Finalised (ProposedBlock s) else NotFinalised.

Definition with_votes (s : ConsensusState) (votes : gmap string bool) (reached : bool) : ConsensusState :=
  mkConsensusState (Round s) (CurrentValidator s) (ProposedBlock s) votes (VotingStartTime s) reached (state_mu s).

Definition ProcessValidatorVote (ro : range_order) (ce : t) (validatorAddr : string) (vote : bool)
    : outcome (t * error * finalised) :=
  let! _ := mutex_Lock (state_mu (state ce)) in
  let! eligible := isEligibleVoter ce validatorAddr in
  if negb eligible then Done (ce, Some ("ineligible validator: " +:+ validatorAddr), NotFinalised)
  else
    let s := with_votes (state ce) (<[validatorAddr := vote]> (ValidatorVotes (state ce))) (ConsensusReached (state ce)) in
    if hasReachedConsensus ro s then
      let s := with_votes s (ValidatorVotes s) true in
      Done (set_state ce s, None, finalizeBlock s)
    else Done (set_state ce s, None, NotFinalised).

(** One turn of the loop of [collectValidatorVotes] before its timeout: whether
    the loop ends, and what it hands over. *)
Definition collect_turn (ro : range_order) (ce : t) : bool * finalised :=
  if hasReachedConsensus ro (state ce) then (true, finalizeBlock (state ce)) else (false, NotFinalised).

Definition handleConsensusTimeout (now : Z) (ce : t) : outcome t :=
  let! _ := mutex_Lock (state_mu (state ce)) in
  Done (if ConsensusReached (state ce) then ce else set_state ce (newConsensusState now)).

(** [broadcast] is what announcing the selection returns. *)
Definition StartConsensusRound `{GoImpl} (now : Z) (ro : range_order) (broadcast : error) (ce : t) (b : Block)
    : outcome (t * error) :=
  let! _ := mutex_Lock (mu ce) in
  let! (sel, r) := Selector.SelectValidator now ro (selector ce) (BlockNumber (Header b)) (PreviousHash (Header b)) in
  let ce := mk (validators ce) sel (state ce) (votes ce) (mu ce) in
  match r with
  | Err e => Done (ce, Some ("validator selection failed: " +:+ e))
  | Ok (v, _) =>
      let! s := newRound now (state ce) b (val_Address v) in
      Done (set_state ce s, (λ e, "failed to broadcast validator selection: " +:+ e) <$> broadcast)
  end.

Definition IsConsensusReached (ro : range_order) (ce : t) (blockHash : string) : outcome bool :=
  let! _ := mutex_RLock (mu ce) in
  match votes ce !! blockHash with
  | None => Done false
  | Some vs =>
      let '(trueVotes, totalVotes) := tally ro vs in
      Done ((totalVotes >? 0) && f64_ge (f64_div (f64_of_Z trueVotes) (f64_of_Z totalVotes)) MinValidatorQuorum)
  end.

Definition SubmitVote (ro : range_order) (ce : t) (validatorAddr blockHash : string) (vote : bool)
    : outcome (t * error * finalised) :=
  let! m := mutex_Lock (mu ce) in
  let forBlock := <[validatorAddr := vote]> (default ∅ (votes ce !! blockHash)) in
  let s := with_votes (state ce) (<[validatorAddr := vote]> (ValidatorVotes (state ce))) (ConsensusReached (state ce)) in
  let ce := mk (validators ce) (selector ce) s (<[blockHash := forBlock]> (votes ce)) m in
  let! reached := IsConsensusReached ro ce blockHash in
  let s := if (reached : bool) then with_votes s (ValidatorVotes s) true else s in
  Done (mk (validators ce) (selector ce) s (votes ce) Unlocked, None,
        if (reached : bool) then finalizeBlock s else NotFinalised).

End Consensus.
