(* ===== verification/ValidatorFacts.v ===== *)
(** * Correctness of validators, penalties, rewards, selection and consensus *)

From stdpp Require Import base gmap strings list.
From Stdlib Require Import ZArith Lia Floats.SpecFloat.
From S2P Require Import Prelude.
From S2P Require Import Float64.
From S2P Require Import Sha256.
From S2P Require Import Json.
From S2P Require Import Database.
From S2P Require Import Stake.
From S2P Require Import StakeFacts.
From S2P Require Import Block.
From S2P Require Import Validator.
From S2P Require Import Consensus.

(** ** Validators *)

(** Missing blocks costs stake: below the limit only the count changes; at the limit
    the validator is marked as slashed and loses its share of the stake. But when
    what is left is below the minimum stake, [slash] calls [Stop], which waits for
    the mutex its caller holds: the validator hangs for ever instead of stopping. *)
Theorem handleMissedBlocks_spec (v : Validator) (missed : Z) :
  val_mu v = Unlocked → is_i64 (missedBlocks v + missed) →
  let c := val_config v in
  let left := f64_sub (cfg_Stake c) (f64_mul (cfg_Stake c) (SlashingRate c)) in
  Val.handleMissedBlocks missed v =
    if missedBlocks v + missed <? MaxMissed c then Done (Val.set_missed v (missedBlocks v + missed))
    else if f64_lt left (MinStake c) then Deadlock
    else Done (Val.set_stake (Val.set_missed v (missedBlocks v + missed)) left (rewards v) true).
Proof.
  intros Hmu Hi c left. destruct v. cbn in Hmu, c, left, Hi. subst val_mu. unfold Val.handleMissedBlocks, Val.locked.
  cbn -[f64_lt f64_sub f64_mul i64 Z.geb Z.ltb]. rewrite (i64_small _ Hi).
  unfold Val.slash. cbn -[f64_lt f64_sub f64_mul Z.geb Z.ltb]. fold c. fold left.
  destruct (Z.geb_spec (missedBlocks + missed) (MaxMissed c)), (Z.ltb_spec (missedBlocks + missed) (MaxMissed c));
    try lia; [|done].
  destruct (f64_lt left (MinStake c)); done.
Qed.

(** The status follows the score: after an update a validator is on probation
    exactly when its score is below 100; otherwise it is active, unless it had
    been slashed. *)
Theorem UpdateValidatorScore_status `{GoImpl} (now : Z) (v : Validator) (p : ValidatorPerformance) :
  val_Performance v = Some p →
  let v' := Val.UpdateValidatorScore now v in
  Score v' = Val.score_of p ∧
  (Status v' = ValidatorStatusProbation ↔ Score v' < 100) ∧
  (100 ≤ Score v' → Status v' = if Status v =? ValidatorStatusSlashed then ValidatorStatusSlashed else ValidatorStatusActive).
Proof.
  intros Hp v'. unfold v', Val.UpdateValidatorScore. rewrite Hp. unfold Val.updateStatus.
  cbn [Val.set_status Score Status].
  destruct (Z.ltb_spec (Val.score_of p) 100); [|destruct (Z.eqb_spec (Status v) ValidatorStatusSlashed)];
    cbn [negb Val.set_status Score Status].
  - split_and!; [done|done|lia].
  - rewrite e. split_and!; [done|split; [done|lia]|done].
  - split_and!; [done|split; [done|lia]|done].
Qed.

(** A run of recorded validations. *)
Definition record_all `{GoImpl} (now : Z) (l : list bool) (v : Validator) : Validator :=
  foldl (λ v ok, Val.RecordValidation now ok v) v l.

(** ** Penalties *)
Section slashing.
Context `{KV} `{GoImpl} (doc : Z → Validator → float64 → list SlashingEvidence → option json).

(** A third violation halves the stake: [HandleViolation] records the evidence;
    before the threshold the validator goes on probation for a day and its stake
    is untouched; from the threshold on the validator is slashed, its score
    is zero, its stake loses half (rounded down) and the community pool receives
    the exact half, whether or not the event could be recorded. *)
Theorem HandleViolation_spec (now height : Z) (sm sm' : Slashing.t) (v v' : Validator) (kind : string)
    (s : StakeInfo) (e : error) :
  StakePool.Stakes (Slashing.stakePool sm) !! val_Address v = Some s → 0 ≤ st_Amount s < 2 ^ 53 →
  is_i64 (val_Violations v + 1) →
  Slashing.HandleViolation doc now height sm v kind = (sm', v', e) →
  val_Violations v' = val_Violations v + 1 ∧
  (∃ ev, Slashing.evidence sm' !! val_Address v = Some (default [] (Slashing.evidence sm !! val_Address v) ++ [ev])) ∧
  if val_Violations v + 1 <? SlashingThreshold then
    e = None ∧ Status v' = ValidatorStatusProbation ∧ ProbationEndTime v' = now + ProbationPeriod ∧
    Slashing.stakePool sm' = Slashing.stakePool sm ∧ Slashing.communityPool sm' = Slashing.communityPool sm
  else
    Status v' = ValidatorStatusSlashed ∧ Score v' = 0 ∧
    StakePool.Stakes (Slashing.stakePool sm') =
      <[val_Address v := set_amount (st_Amount s - st_Amount s / 2) s]> (StakePool.Stakes (Slashing.stakePool sm)) ∧
    Slashing.communityPool sm' =
      f64_add (Slashing.communityPool sm) (f64_mul (f64_of_Z (st_Amount s)) f64_half).
Proof.
  intros Hs Ha Hi E. unfold Slashing.HandleViolation in E.
  cbn [Val.set_violations val_Violations val_Address ProbationEndTime Score] in E. rewrite (i64_small _ Hi) in E.
  destruct (Z.geb_spec (val_Violations v + 1) SlashingThreshold) as [Hge|Hlt].
  - rewrite (proj2 (Z.ltb_ge _ _)) by lia. unfold Slashing.SlashValidator in E.
    cbn [Slashing.stakePool Slashing.evidence Slashing.communityPool Slashing.db val_Address Val.set_violations
      Val.set_status] in E.
    rewrite Hs in E.
    assert (f64_to_u64 (f64_mul (f64_of_Z (st_Amount s)) f64_half) = st_Amount s / 2) as Hhalf.
    { unfold f64_to_u64. rewrite f64_trunc_half by done.
      assert (0 ≤ st_Amount s / 2 < 2 ^ 53) by (split; [apply Z.div_pos|apply Z.div_lt_upper_bound]; lia).
      rewrite (proj2 (Z.leb_le _ _)), (proj2 (Z.ltb_lt _ _)) by lia. done. }
    rewrite Hhalf, u64_small in E.
    2: { assert (0 ≤ st_Amount s / 2 ≤ st_Amount s)
           by (split; [apply Z.div_pos|apply Z.div_le_upper_bound]; lia). unfold is_u64. lia. }
    match type of E with context [Slashing.recordSlashingEvent doc now ?sm ?v ?x] =>
      assert (∀ sm1 e1, Slashing.recordSlashingEvent doc now sm v x = (sm1, e1) →
        Slashing.evidence sm1 = Slashing.evidence sm ∧ Slashing.stakePool sm1 = Slashing.stakePool sm ∧
        Slashing.communityPool sm1 = Slashing.communityPool sm) as Hrec;
      [|destruct (Slashing.recordSlashingEvent doc now sm v x) as [sm1 [e1|]] eqn:Er;
        destruct (Hrec _ _ eq_refl) as (Hev & Hsp & Hcp)] end.
    { intros sm1 e1. unfold Slashing.recordSlashingEvent. destruct (doc _ _ _ _); [|by intros [= <- <-]].
      destruct (levelDB.Put _ _ _). by intros [= <- <-]. }
    all: injection E as <- <- <-; rewrite Hev, Hsp, Hcp;
      cbn [Slashing.evidence Slashing.stakePool Slashing.communityPool]; split_and!; try done;
      eexists; by rewrite lookup_insert_eq.
  - rewrite (proj2 (Z.ltb_lt _ _)) by lia. injection E as <- <- <-. split_and!; try done.
    eexists. cbn [Slashing.evidence]. by rewrite lookup_insert_eq.
Qed.

End slashing.

(** ** Selection *)
Section selection.
Context `{GoImpl}.

(** [ValidatorSelector.SelectValidator] never returns: it takes the selector's mutex
    for writing and then calls [getEligibleValidators], which waits for the same
    mutex, and with it every consensus round that is started. *)
Theorem selection_deadlocks (now : Z) (ro : range_order) (ce : Consensus.t) (b : Block) (bcast : error)
    (vs : Selector.t) (height : Z) (prev : string) :
  Selector.SelectValidator now ro vs height prev = Deadlock ∧
  Consensus.StartConsensusRound now ro bcast ce b = Deadlock.
Proof.
  assert (∀ vs height prev, Selector.SelectValidator now ro vs height prev = Deadlock) as Hs.
  { intros [sp []] h p; done. }
  split; [apply Hs|]. unfold Consensus.StartConsensusRound. destruct (Consensus.mu ce); cbn; [|done|done].
  by rewrite Hs.
Qed.

Definition weights_total (l : list (Validator * Z)) : Z := foldr Z.add 0 (snd <$> l).

Lemma weights_total_nonneg l : Forall (λ e : Validator * Z, 0 ≤ e.2) l → 0 ≤ weights_total l.
Proof. unfold weights_total. induction 1; [done|]. rewrite fmap_cons. cbn. lia. Qed.

Lemma weights_total_app l1 l2 : weights_total (l1 ++ l2) = weights_total l1 + weights_total l2.
Proof. unfold weights_total. induction l1 as [|e l1 IH]; [done|]. cbn in *. lia. Qed.

Lemma weight_loop l c : Forall (λ e : Validator * Z, 0 ≤ e.2) l → 0 ≤ c → c + weights_total l < 2 ^ 64 →
  foldl (λ n (e : Validator * Z), u64 (n + e.2)) c l = c + weights_total l.
Proof.
  intros Hl. revert c. induction Hl as [|e l He Hl IH]; intros c Hc Hlt; [cbn; lia|].
  unfold weights_total in *. rewrite fmap_cons in Hlt |- *. cbn [foldl foldr] in *.
  pose proof (weights_total_nonneg l Hl) as Hn. unfold weights_total in Hn.
  rewrite u64_small by (unfold is_u64; lia). rewrite IH by lia. lia.
Qed.

Lemma weighted_pick_spec l c target : Forall (λ e : Validator * Z, 0 ≤ e.2) l → 0 ≤ c → c + weights_total l < 2 ^ 64 →
  l ≠ [] → target ≤ c + weights_total l →
  ∃ l1 v w l2, l = l1 ++ (v, w) :: l2 ∧ Selector.pick l c target = Some (v, w, c + weights_total l1 + w) ∧
    target ≤ c + weights_total l1 + w ∧ (l1 = [] ∨ c + weights_total l1 < target).
Proof.
  intros Hl. revert c. induction Hl as [|[v w] l He Hl IH]; intros c Hc Hlt Hne Ht; [done|].
  pose proof (weights_total_nonneg l Hl) as Hn.
  assert (weights_total ((v, w) :: l) = w + weights_total l) as Hcons by done. rewrite Hcons in Hlt, Ht.
  cbn [Selector.pick snd] in *. rewrite u64_small by (unfold is_u64; lia).
  destruct (Z.geb_spec (c + w) target).
  - exists [], v, w, l. change (weights_total []) with 0. rewrite Z.add_0_r. split_and!; [done|done|lia|by left].
  - destruct l as [|e l]; [change (weights_total []) with 0 in Ht; lia|].
    destruct (IH (c + w) ltac:(lia) ltac:(lia) ltac:(done) ltac:(lia)) as (l1 & v' & w' & l2 & -> & -> & Hle & Hb).
    exists ((v, w) :: l1), v', w', l2.
    assert (weights_total ((v, w) :: l1) = w + weights_total l1) as -> by done.
    split_and!; [done|do 2 f_equal; lia|lia|right].
    destruct Hb as [->|Hb]; [change (weights_total []) with 0; lia|lia].
Qed.

(** The weighted choice, on the validators it is given: with a positive total weight
    that fits in 64 bits it always selects one, the one whose interval of the
    cumulative weights holds the target drawn from the seed, and the proof names
    its weight and the cumulative weight. With a total of zero it panics. *)
Theorem weightedSelection_spec (now : Z) (sp : StakePool.t) (validators : list Validator) (seed : bytes) :
  let weighted := (λ v, (v, Selector.calculateWeight now sp v)) <$> validators in
  let total := weights_total weighted in
  Forall (λ e : Validator * Z, 0 ≤ e.2) weighted → total < 2 ^ 64 →
  if total =? 0 then Selector.weightedSelection now sp validators seed = Panic "integer divide by zero"
  else
    let target := Selector.generateRandomUint64 seed mod total in
    ∃ l1 v w l2, weighted = l1 ++ (v, w) :: l2 ∧
      Selector.weightedSelection now sp validators seed =
        Done (Some (v, mkSelectionProof (Some seed) now w (weights_total l1 + w))) ∧
      target ≤ weights_total l1 + w ∧ (l1 = [] ∨ weights_total l1 < target).
Proof.
  intros weighted total Hw Hlt. unfold Selector.weightedSelection. fold weighted.
  pose proof (weight_loop weighted 0 Hw ltac:(lia) ltac:(fold total; lia)) as ->. fold total. rewrite Z.add_0_l.
  destruct (Z.eqb_spec total 0); [done|]. pose proof (weights_total_nonneg _ Hw) as Hn. fold total in Hn.
  assert (weighted ≠ []) as Hne by (intros E; unfold total in n; by rewrite E in n).
  pose proof (Z.mod_pos_bound (Selector.generateRandomUint64 seed) total ltac:(lia)) as Hm. cbv zeta.
  destruct (weighted_pick_spec weighted 0 (Selector.generateRandomUint64 seed mod total) Hw) as (l1 & v & w & l2 & E & -> & H1 & H2);
    [lia|fold total; lia|done|fold total; lia|].
  exists l1, v, w, l2. rewrite Z.add_0_l in *. done.
Qed.

(** Stakes below ten million weigh nothing: whatever their age and performance
    bonus, so a selection among such validators divides by zero. *)
Theorem small_stakes_weigh_nothing (now : Z) (sp : StakePool.t) (validators : list Validator) (seed : bytes) :
  map_Forall (λ _ s, 0 ≤ st_Amount s < 10 ^ 7) (StakePool.Stakes sp) →
  Selector.weightedSelection now sp validators seed = Panic "integer divide by zero".
Proof.
  intros Hs. unfold Selector.weightedSelection.
  assert (∀ s, 0 ≤ st_Amount s < 10 ^ 7 → StakePool.GetStakeWeight now (Some s) = 0) as Hz.
  { intros s Ha. unfold StakePool.GetStakeWeight. destruct (_ <? _); [done|].
    assert (u64 (st_Amount s * BaseStakeWeight) / 10 ^ 9 = 0) as ->; [|done].
    unfold BaseStakeWeight. rewrite u64_small by (unfold is_u64; lia). apply Z.div_small. lia. }
  assert (Forall (λ e : Validator * Z, e.2 = 0) ((λ v, (v, Selector.calculateWeight now sp v)) <$> validators)) as Hw.
  { apply Forall_fmap, Forall_forall. intros v _. cbn [compose snd]. unfold Selector.calculateWeight.
    destruct (StakePool.Stakes sp !! val_Address v) as [s|] eqn:E; [|done]. rewrite Hz by apply (Hs _ _ E).
    destruct (val_Performance v) as [p|]; [|done]. cbv zeta.
    destruct (f64_ge (UptimePercentage p) _), (f64_ge (f64_div _ _) _), (_ <? hour_ns); vm_compute; reflexivity. }
  assert (foldl (λ n (e : Validator * Z), u64 (n + e.2)) 0 ((λ v, (v, Selector.calculateWeight now sp v)) <$> validators) = 0) as ->; [|done].
  induction Hw as [|e l He _ IH]; [done|]. cbn [foldl]. rewrite He. exact IH.
Qed.

End selection.
