(* ===== verification/ConsensusFacts.v ===== *)
(** * Correctness of the consensus engine

    When a block is finalised, who may vote, and which operations block; then
    concrete validators, pools and engines on which the theorems of this file and
    of the previous one are applied. *)

From stdpp Require Import base gmap strings list.
From Stdlib Require Import ZArith Lia.
From S2P Require Import Prelude.
From S2P Require Import Float64.
From S2P Require Import Sha256.
From S2P Require Import Json.
From S2P Require Import Database.
From S2P Require Import Stake.
From S2P Require Import StakeFacts.
From S2P Require Import Block.
From S2P Require Import BlockFacts.
From S2P Require Import Chain.
From S2P Require Import ChainFacts.
From S2P Require Import Validator.
From S2P Require Import ValidatorFacts.
From S2P Require Import Consensus.

(** ** Counting votes *)
Definition positive (votes : gmap string bool) : Z := Z.of_nat (size (filter (λ e : string * bool, e.2 = true) votes)).

Lemma tally_spec ro votes : fair ro → Consensus.tally ro votes = (positive votes, Z.of_nat (size votes)).
Proof.
  intros Hro. unfold Consensus.tally, positive. rewrite (count_foldl (λ e : string * bool, e.2)). f_equal.
  rewrite Z.add_0_l. f_equal. rewrite (range_perm ro votes Hro).
  induction votes as [|k b votes Hk IH] using map_ind; [by rewrite map_to_list_empty|].
  rewrite (map_to_list_insert votes k b Hk), filter_cons. cbn [snd]. destruct b.
  - rewrite decide_True by done. cbn [length]. rewrite IH, map_filter_insert_True by done.
    rewrite map_size_insert_None; [done|]. apply map_lookup_filter_None. by left.
  - rewrite decide_False by (by intros []). rewrite IH, map_filter_insert_False by done.
    by rewrite delete_id.
Qed.

Lemma positive_le votes : 0 ≤ positive votes ≤ Z.of_nat (size votes).
Proof.
  unfold positive. split; [lia|]. apply inj_le, map_size_filter.
Qed.

(** The least number of votes that is two thirds of [n]. *)
Definition two_thirds (n : Z) : Z := (2 * n + 2) / 3.

(** The comparison in floating point is the comparison with two thirds: it holds
    for the least number that is enough and fails for the one below. *)
Lemma quorum_exact p n : 0 ≤ p ≤ n → n ≤ 200 →
  f64_ge (f64_of_Z p) (f64_mul (f64_of_Z n) MinValidatorQuorum) = (2 * n <=? 3 * p).
Proof.
  intros Hp Hn.
  assert (forallb (λ n, let q := f64_mul (f64_of_Z (Z.of_nat n)) MinValidatorQuorum in
      let c := two_thirds (Z.of_nat n) in
      f64_le q (f64_of_Z c) && ((n =? 0)%nat || f64_lt (f64_of_Z (c - 1)) q)) (seq 0 201) = true) as Hall
    by (vm_compute; reflexivity).
  rewrite forallb_forall in Hall. specialize (Hall (Z.to_nat n) ltac:(apply in_seq; lia)).
  cbv zeta in Hall. rewrite !Z2Nat.id in Hall by lia. apply andb_true_iff in Hall as [Hle Hlt].
  change (f64_ge (f64_of_Z p) ?q) with (f64_le q (f64_of_Z p)).
  set (q := f64_mul _ _) in *.
  assert (3 * two_thirds n ≤ 2 * n + 2 < 3 * two_thirds n + 3) as Hc.
  { unfold two_thirds. pose proof (Z.mul_div_le (2 * n + 2) 3). pose proof (Z.mul_succ_div_gt (2 * n + 2) 3). lia. }
  generalize dependent (two_thirds n). intros c Hle Hlt Hc.
  destruct (Z.leb_spec (2 * n) (3 * p)) as [H|H].
  - apply (f64_le_trans _ (f64_of_Z c)); [done|]. rewrite f64_le_of_Z by lia. apply Z.leb_le. lia.
  - destruct (Nat.eqb_spec (Z.to_nat n) 0); [lia|]. cbn [orb] in Hlt.
    destruct (f64_le q (f64_of_Z p)) eqn:E; [|done]. exfalso.
    assert (f64_le q (f64_of_Z (c - 1)) = true) as E2.
    { apply (f64_le_trans _ (f64_of_Z p)); [done|]. rewrite f64_le_of_Z by lia. apply Z.leb_le. lia. }
    destruct (f64_lt_not_nan _ _ Hlt) as [Hn1 Hn2]. rewrite f64_le_nlt, Hlt in E2 by done. done.
Qed.

Lemma reached_quorum ro s : fair ro → Z.of_nat (size (ValidatorVotes s)) ≤ 200 →
  Consensus.hasReachedConsensus ro s =
    (2 * Z.of_nat (size (ValidatorVotes s)) <=? 3 * positive (ValidatorVotes s)).
Proof.
  intros Hro Hn. unfold Consensus.hasReachedConsensus. rewrite tally_spec by done.
  apply quorum_exact; [apply positive_le|done].
Qed.

(** ** Votes *)

(** C16 A vote counts only if its validator is registered, running, active and not
    slashed; then it replaces the validator's former vote, and the proposed block
    is handed to the chain exactly when at least two thirds of the votes cast so
    far are positive. (The exact threshold is checked for up to 200 votes.) *)
Theorem ProcessValidatorVote_spec (ro : range_order) (ce : Consensus.t) (addr : string) (vote : bool) :
  fair ro → state_mu (Consensus.state ce) = Unlocked → Z.of_nat (size (ValidatorVotes (Consensus.state ce))) < 200 →
  (∀ v, Consensus.validators ce !! addr = Some v → val_mu v = Unlocked) →
  let votes := <[addr := vote]> (ValidatorVotes (Consensus.state ce)) in
  match Consensus.validators ce !! addr with
  | Some v =>
      if isValidating v && negb (slashed v) && (Status v =? ValidatorStatusActive) then
        ∃ ce', Consensus.ProcessValidatorVote ro ce addr vote =
          Done (ce', None, if 2 * Z.of_nat (size votes) <=? 3 * positive votes
                           then Finalised (ProposedBlock (Consensus.state ce)) else NotFinalised) ∧
          ValidatorVotes (Consensus.state ce') = votes
      else Consensus.ProcessValidatorVote ro ce addr vote =
        Done (ce, Some ("ineligible validator: " +:+ addr), NotFinalised)
  | None => Consensus.ProcessValidatorVote ro ce addr vote =
        Done (ce, Some ("ineligible validator: " +:+ addr), NotFinalised)
  end.
Proof.
  intros Hro Hmu Hn Hv votes. unfold Consensus.ProcessValidatorVote, Consensus.isEligibleVoter. rewrite Hmu.
  cbn [mutex_Lock obind]. destruct (Consensus.validators ce !! addr) as [v|]; [|done].
  unfold Val.IsReady, Val.IsSlashed. rewrite (Hv v eq_refl). cbn [mutex_RLock obind].
  destruct (isValidating v && negb (slashed v) && (Status v =? ValidatorStatusActive)) eqn:Hready; [|done].
  assert ((Status v =? ValidatorStatusSlashed) = false) as ->.
  { apply andb_true_iff in Hready as [_ Ha]. apply Z.eqb_eq in Ha. by rewrite Ha. }
  cbn [andb negb].
  assert (Z.of_nat (size votes) ≤ 200) as Hn'.
  { unfold votes. rewrite map_size_insert. destruct (_ !! addr); cbn; lia. }
  rewrite reached_quorum by done. cbn [Consensus.with_votes ValidatorVotes].
  fold votes. destruct (2 * Z.of_nat (size votes) <=? 3 * positive votes); by eexists.
Qed.

(** Quorum is counted over the votes cast, not over the validators: in a new round
    the first positive vote of any eligible validator finalises the block, however
    many validators there are. *)
Theorem first_vote_finalises (ro : range_order) (ce : Consensus.t) (addr : string) (v : Validator) (b : Block) :
  fair ro → state_mu (Consensus.state ce) = Unlocked → ValidatorVotes (Consensus.state ce) = ∅ →
  Consensus.validators ce !! addr = Some v → Val.IsReady v = Done true →
  ProposedBlock (Consensus.state ce) = Some b →
  ∃ ce', Consensus.ProcessValidatorVote ro ce addr true = Done (ce', None, Finalised (Some b)).
Proof.
  intros Hro Hmu Hvotes Hv Hready Hb. unfold Consensus.ProcessValidatorVote, Consensus.isEligibleVoter.
  rewrite Hmu. cbn [mutex_Lock obind]. rewrite Hv, Hready. cbn [obind].
  assert (Val.IsSlashed v = false) as ->.
  { unfold Val.IsReady in Hready. destruct (mutex_RLock (val_mu v)); [|done..]. injection Hready as Hr.
    apply andb_true_iff in Hr as [_ Ha]. apply Z.eqb_eq in Ha. unfold Val.IsSlashed. by rewrite Ha. }
  assert (positive (<[addr := true]> ∅) = 1 ∧ size (<[addr := true]> (∅ : gmap string bool)) = 1%nat) as [Hp Hsz].
  { unfold positive. rewrite insert_empty, map_filter_singleton_True by done. by rewrite !map_size_singleton. }
  cbn [andb negb]. rewrite Hvotes. rewrite reached_quorum; cbn [Consensus.with_votes ValidatorVotes];
    [|done|by rewrite Hsz].
  rewrite Hp, Hsz. unfold Consensus.finalizeBlock. cbn [Consensus.with_votes ConsensusReached ProposedBlock].
  rewrite Hb. by eexists.
Qed.

(** The engine as it is created accepts no vote, since nothing registers a
    validator with it; the vote collector stops at its first turn, before any
    vote, without finalising anything; and [SubmitVote] blocks for ever, as it
    checks the votes under the mutex it holds. *)
Theorem engine_inert (now : Z) (ro : range_order) (sel : Selector.t) (addr hash : string) (vote : bool)
    (ce : Consensus.t) :
  fair ro →
  Consensus.ProcessValidatorVote ro (Consensus.NewConsensusEngine now sel) addr vote =
    Done (Consensus.NewConsensusEngine now sel, Some ("ineligible validator: " +:+ addr), NotFinalised) ∧
  Consensus.collect_turn ro (Consensus.NewConsensusEngine now sel) = (true, NotFinalised) ∧
  Consensus.SubmitVote ro ce addr hash vote = Deadlock.
Proof.
  intros Hro. split_and!.
  - unfold Consensus.ProcessValidatorVote, Consensus.isEligibleVoter. cbn. by rewrite lookup_empty.
  - unfold Consensus.collect_turn. rewrite reached_quorum; done.
  - unfold Consensus.SubmitVote. by destruct (Consensus.mu ce).
Qed.

(** ** Rewards *)

(** The two reward schedules agree: the closed form of the reward calculator,
    50 / 2^k, gives the same number as the chain's loop of [k] halvings, for the
    first thousand halving periods. *)
Theorem reward_schedules_agree (height : Z) :
  0 ≤ height / RewardHalvingPeriod ≤ 1000 →
  Reward.CalculateBlockReward height = halve (Z.to_nat (height / RewardHalvingPeriod)) InitialBlockReward.
Proof.
  intros Hk. unfold Reward.CalculateBlockReward. set (k := height / RewardHalvingPeriod) in *.
  assert (every_halving (λ n x, bool_decide (f64_max (f64_div BaseBlockReward (Reward.pow2 (Z.of_nat n))) f64_zero = x))
    1001 0 InitialBlockReward = true) as Hall by (vm_compute; reflexivity).
  pose proof (every_halving_spec _ _ _ _ Hall (Z.to_nat k) ltac:(lia)) as Hstep. clear Hall.
  apply bool_decide_eq_true in Hstep. cbn [Nat.add] in Hstep. by rewrite Z2Nat.id in Hstep by lia.
Qed.

(** ** Concrete validators *)
Definition demo_config : ValidatorConfig :=
  mkConfig (f64_of_Z 100) (f64_of_Z 60) (f64_ratio 1 100) (f64_ratio 1 2) 0 10.

Definition demo_validator (status : Z) (p : ValidatorPerformance) : Validator :=
  mkValidator "a" status 0 0 (Some p) 2 0 zero_time 0 demo_config Unlocked true 9 f64_zero false false None.

Definition even_record : ValidatorPerformance := mkPerformance 0 1 1 f64_zero 0.

(** A missed block takes a slashed validator with a bad record to probation, and
    three validated ones make it active again. *)
Theorem slashed_validator_returns :
  let v := demo_validator ValidatorStatusSlashed even_record in
  Status (record_all 0 [false] v) = ValidatorStatusProbation ∧
  Status (record_all 0 [false; true; true; true] v) = ValidatorStatusActive.
Proof. split; vm_compute; reflexivity. Qed.

(** The first reward of a stake made with [AddStake], whose last reward time is the
    year 1, is more than fourteen times the stake. *)
Theorem first_reward_exceeds_stake :
  let start := 1700000000 * 10 ^ 9 in
  let sp := (StakePool.AddStake start StakePool.NewStakePool "a" "h" (f64_of_Z 1000)).1 in
  ∃ s, StakePool.Stakes sp !! "a" = Some s ∧
    f64_gt (Reward.CalculateStakeReward (λ l, l) (start + MinStakeTime) sp s f64_zero) (f64_of_Z 14000) = true.
Proof.
  intros start sp. destruct (StakePool.Stakes sp !! "a") as [s|] eqn:E.
  - exists s. split; [done|].
    assert (Some s = StakePool.Stakes sp !! "a") as Hs by done.
    assert (match StakePool.Stakes sp !! "a" with
      | Some s => f64_gt (Reward.CalculateStakeReward (λ l, l) (start + MinStakeTime) sp s f64_zero) (f64_of_Z 14000)
      | None => false end = true) as Hm by (vm_compute; reflexivity).
    by rewrite <-Hs in Hm.
  - exfalso. assert (bool_decide (StakePool.Stakes sp !! "a" = None) = false) as Hn by (vm_compute; reflexivity).
    apply bool_decide_eq_false in Hn. done.
Qed.

Lemma handleMissedBlocks_spec_witness :
  Val.handleMissedBlocks 1 (demo_validator ValidatorStatusActive even_record) = Deadlock.
Proof.
  rewrite (handleMissedBlocks_spec (demo_validator ValidatorStatusActive even_record) 1 eq_refl ltac:(vm_compute; by split)).
  vm_compute. reflexivity.
Defined.

Lemma UpdateValidatorScore_status_witness :
  Score (Val.UpdateValidatorScore 0 (demo_validator ValidatorStatusActive even_record)) = Val.score_of even_record.
Proof.
  apply (UpdateValidatorScore_status 0 (demo_validator ValidatorStatusActive even_record) even_record). reflexivity.
Defined.

Definition demo_stakes : StakePool.t := (StakePool.AddStake 0 StakePool.NewStakePool "a" "h" (f64_of_Z 41)).1.

Definition demo_slashing : @Slashing.t mem_kv :=
  Slashing.mk ∅ demo_stakes f64_zero (levelDB.mk (∅ : @kv mem_kv) false).

Definition event_null (_ : Z) (_ : Validator) (_ : float64) (_ : list SlashingEvidence) : option json := Some JNull.

Lemma HandleViolation_spec_witness :
  ∃ sm v e s, Slashing.HandleViolation event_null 7 3 demo_slashing (demo_validator ValidatorStatusActive even_record) "timeout"
      = (sm, v, e) ∧ StakePool.Stakes demo_stakes !! "a" = Some s ∧
    StakePool.Stakes (Slashing.stakePool sm) = <["a" := set_amount (st_Amount s - st_Amount s / 2) s]> (StakePool.Stakes demo_stakes).
Proof.
  destruct (Slashing.HandleViolation event_null 7 3 demo_slashing (demo_validator ValidatorStatusActive even_record) "timeout")
    as [[sm v] e] eqn:E.
  assert (StakePool.Stakes demo_stakes !! "a" =
    Some (mkStake "a" 41 0 zero_time 0 None 0 None 0 "" 0 false)) as Hs by (vm_compute; reflexivity).
  exists sm, v, e, (mkStake "a" 41 0 zero_time 0 None 0 None 0 "" 0 false). split; [reflexivity|]. split; [exact Hs|].
  destruct (HandleViolation_spec event_null 7 3 demo_slashing sm (demo_validator ValidatorStatusActive even_record) v
    "timeout" _ e Hs ltac:(cbn; lia) ltac:(vm_compute; by split) E) as (_ & _ & _ & _ & Hst & _). exact Hst.
Defined.

Definition rich_stakes : StakePool.t :=
  (StakePool.AddStake 0 (StakePool.AddStake 0 StakePool.NewStakePool "a" "h" (f64_of_Z 30000000)).1
     "b" "h" (f64_of_Z 20000000)).1.

Definition two_validators : list Validator :=
  [demo_validator ValidatorStatusActive even_record; Selector.validator_of "b" (mkStake "b" 0 0 0 0 None 0 None 0 "" 0 true)].

Lemma weightedSelection_spec_witness :
  ∃ v proof, Selector.weightedSelection 0 rich_stakes two_validators [1] = Done (Some (v, proof)).
Proof.
  pose proof (weightedSelection_spec 0 rich_stakes two_validators [1]) as Hsel. cbv zeta in Hsel.
  assert ((weights_total ((λ v, (v, Selector.calculateWeight 0 rich_stakes v)) <$> two_validators) =? 0) = false) as Hz
    by (vm_compute; reflexivity).
  rewrite Hz in Hsel. destruct Hsel as (l1 & v & w & l2 & _ & E & _).
  - apply (proj1 (bool_decide_eq_true _)). vm_compute. reflexivity.
  - vm_compute. reflexivity.
  - eexists _, _. exact E.
Defined.

Lemma small_stakes_weigh_nothing_witness :
  Selector.weightedSelection 0 demo_stakes two_validators [1] = Panic "integer divide by zero".
Proof.
  apply (small_stakes_weigh_nothing 0 demo_stakes two_validators [1]).
  apply (proj1 (bool_decide_eq_true _)). vm_compute. reflexivity.
Defined.

Definition demo_engine : Consensus.t :=
  Consensus.mk {["a" := demo_validator ValidatorStatusActive even_record]} (Selector.mk demo_stakes Unlocked)
    (mkConsensusState 1 "a" (Some (Blk.GenesisBlock 100)) ∅ 0 false Unlocked) ∅ Unlocked.

Lemma demo_engine_validator :
  Consensus.validators demo_engine !! "a" = Some (demo_validator ValidatorStatusActive even_record).
Proof. apply lookup_singleton_eq. Qed.

Lemma ProcessValidatorVote_spec_witness :
  ∃ ce', Consensus.ProcessValidatorVote (λ l, l) demo_engine "a" false = Done (ce', None, NotFinalised).
Proof.
  pose proof (ProcessValidatorVote_spec (λ l, l) demo_engine "a" false fair_same eq_refl ltac:(vm_compute; reflexivity)) as H.
  cbv zeta in H. rewrite demo_engine_validator in H. cbn [andb] in H.
  destruct H as (ce' & E & _); [by intros v [= <-]|]. exists ce'. etrans; [exact E|]. vm_compute. reflexivity.
Defined.

Lemma first_vote_finalises_witness :
  ∃ ce', Consensus.ProcessValidatorVote (λ l, l) demo_engine "a" true
    = Done (ce', None, Finalised (Some (Blk.GenesisBlock 100))).
Proof.
  apply (first_vote_finalises (λ l, l) demo_engine "a" (demo_validator ValidatorStatusActive even_record)
    (Blk.GenesisBlock 100) fair_same eq_refl eq_refl demo_engine_validator); reflexivity.
Defined.

Lemma engine_inert_witness :
  Consensus.SubmitVote (λ l, l) demo_engine "a" "h" true = Deadlock.
Proof. apply (engine_inert 0 (λ l, l) (Selector.mk demo_stakes Unlocked) "a" "h" true demo_engine fair_same). Defined.

Lemma reward_schedules_agree_witness :
  Reward.CalculateBlockReward 500000 = halve 2 InitialBlockReward.
Proof. apply (reward_schedules_agree 500000). vm_compute. split; discriminate. Defined.
