(* ===== verification/Mining.v ===== *)
(** * The mining round and the checks of a validator
      ([blockchain.go]: [MineBlock], [AddBlock], [updateUTXOSet]; [validator.go]:
      [validateBlock])

    Here the components meet: a round selects transactions of the mempool, adds
    the rewards, applies everything to a clone of the UTXO pool, searches a nonce,
    asks the validators, and then commits the clone, the chain, the database and
    the mempool. The node's own UTXO pool starts as the chain's and is a clone of
    it from the first round on; both pools share the database and the account
    manager. [fuel] bounds the nonces tried. Announcing the block to the network
    changes none of this state and is left out. *)

From stdpp Require Import base gmap strings list.
From Stdlib Require Import ZArith Lia Floats.SpecFloat.
From S2P Require Import Prelude.
From S2P Require Import Float64.
From S2P Require Import Sha256.
From S2P Require Import Json.
From S2P Require Import Database.
From S2P Require Import P256.
From S2P Require Import Crypto.
From S2P Require Import Transaction.
From S2P Require Import Account.
From S2P Require Import Utxo.
From S2P Require Import UtxoSync.
From S2P Require Import Mempool.
From S2P Require Import Trie.
From S2P Require Import Stake.
From S2P Require Import Block.
From S2P Require Import BlockJson.
From S2P Require Import Chain.
From S2P Require Import ChainStore.
From S2P Require Import Validator.
From S2P Require Import Consensus.

(** ** The unsorted root of the pool *)

(** [math.Float64bits]; the bits of a NaN are the processor's. *)
Definition float64_bits (nan_bits : Z) (x : float64) : Z :=
  match x with
  | S754_zero s => if s then 2 ^ 63 else 0
  | S754_infinity s => (if s then 2 ^ 63 else 0) + 0x7FF * 2 ^ 52
  | S754_nan => nan_bits
  | S754_finite s m e =>
      (if s then 2 ^ 63 else 0) +
      (if Z.pos m <? 2 ^ 52 then Z.pos m else (e + 1075) * 2 ^ 52 + (Z.pos m - 2 ^ 52))
  end.

(** [binary.BigEndian], eight bytes. *)
Definition be_bytes8 (z : Z) : bytes := (λ i, Z.shiftr z (8 * (7 - i)) mod 256) <$> [0; 1; 2; 3; 4; 5; 6; 7].

Definition GetRootHash (nan_bits : Z) (ro : range_order) (p : UTXOPool) : outcome string :=
  Pool.rlocked p (Done (hex_encode (sha256 (concat ((λ e,
    bytes_of_string e.1 ++ bytes_of_string (utxo_Owner e.2) ++ be_bytes8 (float64_bits nan_bits (utxo_Amount e.2)))
    <$> range ro (utxos p)))))).

(** The orders the runtime chooses in one round: of the receivers and of the
    accounts in [AddUTXO], of the outputs in [GetRootHash], of the stakes, and of
    the children in the traversals of tries. *)
Record Orders := mkOrders {
  o_owners : range_order;
  o_batch : range_order;
  o_root : range_order;
  o_stakes : range_order;
  o_fees : child_order;
  o_trie : child_order;
  o_list : child_order;
  o_list2 : child_order;
}.

Section round.
Context `{KV} `{GoImpl}.

(** A node: the chain, its mempool and stakes, and [bc.Node] with its pool. *)
Record Miner := mkMiner {
  m_bc : Blockchain;
  m_mempool : option Mempool.t;
  m_stakePool : StakePool.t;
  m_node : option (option UTXOPool);
}.

Definition set_pool (bc : Blockchain) (p : option UTXOPool) (w : World) : Blockchain :=
  mkBlockchain (Chain bc) (currentHash bc) p w (lastValidatorAddress bc) (balances bc).

Definition calculateDifficulty (previousBlock : Block) : Z := Difficulty (Header previousBlock).

Section env.
Context (nan_bits : Z) (o : Orders) (now : Z).

(** [AddUTXO] for a list of transactions. *)
Definition add_all (pw : UTXOPool * World) (txs : list Transaction) (height : Z) : outcome (UTXOPool * World) :=
  foldl (λ acc tx, let! (p, w) := acc in AddUTXO (o_owners o) (o_batch o) now p w tx height) (Done pw) txs.

(** ** Updating after a block *)

(** The node's pool after an update; it is replaced when the roots differ. *)
Definition resync (p np : UTXOPool) : outcome UTXOPool :=
  if str_eqb (merkleRoot p) (merkleRoot np) then Done np else Clone p.

Definition updateUTXOSet (s : Miner) (b : Block) : outcome Miner :=
  let bc := m_bc s in
  let number := BlockNumber (Header b) in
  let p := default Pool.NewUTXOPool (utxoPool bc) in
  let! (p, w) := add_all (p, world bc) (Trie.GetAllTransactions (o_list o) (block_Transactions b)) number in
  let! (node, w) :=
    match m_node s with
    | Some (Some np) =>
        let! (np, w) := add_all (np, w) (Trie.GetAllTransactions (o_list2 o) (block_Transactions b)) number in
        let! np := resync p np in
        Done (Some (Some np), w)
    | node => Done (node, w)
    end in
  let! w :=
    if number mod 10 =? 0 then let! (w, _) := CreateSnapshot now p w number (hash_of_block b) in Done w
    else Done w in
  Done (mkMiner (set_pool bc (Some p) w) (m_mempool s) (m_stakePool s) node).

(** ** The block of a round *)

(** At most 200 transactions, by fee. *)
Definition select_pending (m : option Mempool.t) : list Transaction :=
  match m with
  | None => []
  | Some m => take 200 (stable_sort Mempool.by_fee (Mempool.GetTransactions m))
  end.

Definition next_height (prev : Block) : Z := u64 (BlockNumber (Header prev) + 1).

Definition coinbase_of (prev : Block) (minerAddress : string) : Transaction :=
  Tx.NewCoinbaseTransaction now minerAddress
    (calculateMinerReward (calculateBlockReward (o_fees o) prev)) (next_height prev).

(** The reward of the validator of the previous block, from the second block on. *)
Definition reward_of (prev : Block) : option Transaction :=
  if negb (str_eqb (ValidatedBy (Header prev)) "") && (next_height prev >? 1) then
    Some (Tx.NewValidatorRewardTransaction now (ValidatedBy (Header prev))
      (calculateValidatorReward (calculateBlockReward (o_fees o) prev)) (next_height prev))
  else None.

Definition round_txs (prev : Block) (minerAddress : string) (pending : list Transaction) : list Transaction :=
  coinbase_of prev minerAddress :: option_list (reward_of prev) ++ pending.

(** The block with the given state and receipts roots. *)
Definition round_block (prev : Block) (minerAddress : string) (txs : list Transaction) (stateRoot receiptsRoot : string)
    : Block :=
  let '(root, trie) := Trie.GenerateRootHash (o_trie o) (Trie.InsertBatch Trie.NewPatriciaTrie txs) in
  mkBlock
    (mkHeader 1 (next_height prev) (block_hash prev) now root stateRoot receiptsRoot (calculateDifficulty prev) 0
       BaseGasLimit 0 minerAddress "" [] None "" [])
    trie [] "" 0 0 (u64 (CumulativeDifficulty prev + calculateDifficulty prev)) "".

(** The clone with the transactions applied, and the roots of the block. *)
Definition prepare (bc : Blockchain) (txs : list Transaction) (height : Z)
    : outcome (option UTXOPool * World * string * string) :=
  match utxoPool bc with
  | None => Done (None, world bc, "", zero_root)
  | Some p =>
      let! tmp := Clone p in
      let! (tmp, w) := add_all (tmp, world bc) txs height in
      let! root := GetRootHash nan_bits (o_root o) tmp in
      Done (Some tmp, w, root, root)
  end.

(** The node's pool receives the two rewards. *)
Definition sync_node (tmp np : UTXOPool) (w : World) (prev : Block) (minerAddress : string)
    : outcome (UTXOPool * World) :=
  let! (np, w) := add_all (np, w) (option_list (reward_of prev) ++ [coinbase_of prev minerAddress]) (next_height prev) in
  let! np := resync tmp np in
  Done (np, w).

(** The end of a successful round. *)
Definition commit (s : Miner) (prev b : Block) (tmp : option UTXOPool) (w : World) (minerAddress : string)
    (pending : list Transaction) : outcome Miner :=
  let bc := m_bc s in
  let b := hashed b in
  let! (node, w) :=
    match tmp, m_node s with
    | Some t, Some (Some np) =>
        let! (np, w) := sync_node t np w prev minerAddress in Done (Some (Some np), w)
    | _, node => Done (node, w)
    end in
  let bc := mkBlockchain (Chain bc ++ [b]) (hash_of_block b) tmp w (lastValidatorAddress bc) (balances bc) in
  let '(bc, _) := saveBlock block_document bc b in
  let mempool := (λ m, foldl (λ m tx, Mempool.RemoveTransaction m (TransactionID tx)) m pending) <$> m_mempool s in
  let s := mkMiner bc mempool (m_stakePool s) node in
  let! s :=
    match utxoPool bc with
    | None => Done s
    | Some _ =>
        let! s := updateUTXOSet s b in
        match w_am (world (m_bc s)) with
        | None => Done s
        | Some am =>
            let! (am, db, _) := GetAccountState am (w_db (world (m_bc s))) minerAddress in
            Done (mkMiner (set_world (m_bc s) (mkWorld db (Some am))) (m_mempool s) (m_stakePool s) (m_node s))
        end
    end in
  match reward_of prev, utxoPool (m_bc s) with
  | Some _, None => Panic "nil pointer dereference"
  | _, _ => Done s
  end.

(** [None] when the nonces ran out. On a chain with blocks in memory. *)
Definition MineBlock (fuel : nat) (now_ns : Z) (replies : ValidatorNode → Blk.reply) (s : Miner) (minerAddress : string)
    : outcome (option (Miner * result Block)) :=
  let bc := m_bc s in
  match last (Chain bc) with
  | None => Panic "nil pointer dereference"
  | Some prev =>
      let pending := select_pending (m_mempool s) in
      let txs := round_txs prev minerAddress pending in
      let! (tmp, w, stateRoot, receiptsRoot) := prepare bc txs (next_height prev) in
      let b := round_block prev minerAddress txs stateRoot receiptsRoot in
      match m_node s with
      | None => Panic "nil pointer dereference"
      | Some _ =>
          let! mined := Blk.MineBlock fuel now_ns (o_stakes o) replies b (m_stakePool s) (calculateDifficulty prev) in
          match mined with
          | None => Done None
          | Some (_, Some e) =>
              Done (Some (mkMiner (set_world bc w) (m_mempool s) (m_stakePool s) (m_node s), Err e))
          | Some (b, None) =>
              let! s := commit s prev b tmp w minerAddress pending in
              Done (Some (s, Ok (hashed b)))
          end
      end
  end.

End env.
End round.

(** ** The checks of a validator ([validator.go]) *)
Section checks.
Context `{KV} `{ECDSA} `{GoImpl}.

(** The number of outputs the address ever had. *)
Definition GetNonce (ro : range_order) (bc : Blockchain) (address : string) : outcome Z :=
  match utxoPool bc with
  | None => Panic "nil pointer dereference"
  | Some p => let! us := GetUTXOsForAddress ro p address in Done (Z.of_nat (length us))
  end.

(** The common check of the two kinds of reward. *)
Definition check_reward (what sender : string) (tx : Transaction) : error :=
  if negb (str_eqb (Sender tx) sender) then Some ("invalid " +:+ sender +:+ " sender: " +:+ Sender tx)
  else match Outputs tx with
  | [out] => if f64_le (out_Amount out) f64_zero then Some (what +:+ " amount must be positive") else None
  | _ => Some (what +:+ " must have exactly one output")
  end.

Definition validateTransaction (ro : range_order) (tbl : key_table) (bc : Blockchain) (tx : Transaction) : outcome error :=
  if Tx.IsCoinbase tx then Done (check_reward "coinbase" "coinbase" tx)
  else if Tx.IsValidatorReward tx then Done (check_reward "validator reward" "system" tx)
  else
    let! ok := Tx.VerifySignature tbl tx in
    if negb ok then Done (Some ("invalid transaction signature in tx " +:+ TransactionID tx))
    else if negb (VerifyBalance bc (Sender tx) (f64_add (Amount tx) (GasFee tx)))
    then Done (Some ("insufficient balance for tx " +:+ TransactionID tx))
    else
      let! expectedNonce := GetNonce ro bc (Sender tx) in
      Done (if Nonce tx =? expectedNonce then None else Some ("invalid nonce in tx " +:+ TransactionID tx)).

Fixpoint validate_txs (ro : range_order) (tbl : key_table) (bc : Blockchain) (txs : list Transaction) : outcome error :=
  match txs with
  | [] => Done None
  | tx :: txs =>
      let! e := validateTransaction ro tbl bc tx in
      match e with
      | Some e => Done (Some ("transaction validation failed: " +:+ e))
      | None => validate_txs ro tbl bc txs
      end
  end.

(** The clone shares the database and the accounts: the world changes. *)
Definition validateStateTransitions (o : Orders) (now : Z) (bc : Blockchain) (b : Block) : outcome (Blockchain * error) :=
  match utxoPool bc with
  | None => Panic "nil pointer dereference"
  | Some p =>
      let! tempPool := Clone p in
      let! (tempPool, w) := add_all o now (tempPool, world bc)
        (Trie.GetAllTransactions (o_list2 o) (block_Transactions b)) (BlockNumber (Header b)) in
      Done (set_world bc w,
            if str_eqb (merkleRoot tempPool) (StateRoot (Header b)) then None else Some "invalid state root")
  end.

Definition validateBlock (o : Orders) (now : Z) (tbl : key_table) (bc : Blockchain) (b : Block)
    : outcome (Blockchain * error) :=
  if negb (str_eqb (Blk.CalculateHash b) (hash_of_block b)) then Done (bc, Some "invalid block hash")
  else if hdr_Timestamp (Header b) >? now then Done (bc, Some "block timestamp is in the future")
  else
    let! e := validate_txs (o_root o) tbl bc (Trie.GetAllTransactions (o_list o) (block_Transactions b)) in
    match e with
    | Some e => Done (bc, Some e)
    | None =>
        let! (bc, e) := validateStateTransitions o now bc b in
        Done (bc, (λ e, "state transition validation failed: " +:+ e) <$> e)
    end.

(** ** Adding a block as a validator ([AddBlock]) *)

(** The senders' nonces: every account is changed in place, then written. *)
Definition bump_nonce (acc : outcome (AccountManager * Database * gmap string AccountState)) (tx : Transaction)
    : outcome (AccountManager * Database * gmap string AccountState) :=
  let! (am, db, updates) := acc in
  let! (am, db, st) := GetAccountState am db (Sender tx) in
  let st := mkAccountState (acc_Address st) (u64 (acc_Nonce st + 1)) (acc_Balance st) (acc_LastActivity st)
    (acc_UTXOs st) (acc_PendingTxs st) in
  Done (set_account am (Sender tx) st, db, <[Sender tx := st]> updates).

(** The state that [AddBlock] works on; [a_validator] is [IsInitializedValidator]
    of [bc.Node], [None] for a nil node. *)
Record Adder := mkAdder {
  a_bc : Blockchain;
  a_mempool : Mempool.t;
  a_stakePool : StakePool.t;
  a_utxos : utxo_set;
  a_consensus : Consensus.t;
  a_validator : option bool;
}.

Definition set_bc (s : Adder) (bc : Blockchain) : Adder :=
  mkAdder bc (a_mempool s) (a_stakePool s) (a_utxos s) (a_consensus s) (a_validator s).

(** The end of [AddBlock], once consensus has been started. *)
Definition accept_block (o : Orders) (now : Z) (tbl : key_table) (s : Adder) (prev b : Block) : outcome (Adder * error) :=
  let! valid := Blk.ValidateBlock tbl (o_list o) b prev in
  if negb valid then Done (s, None)
  else
    let bc := set_chain (a_bc s) (Chain (a_bc s) ++ [b]) in
    let txs := Trie.GetAllTransactions (o_list2 o) (block_Transactions b) in
    let mempool := foldl (λ m tx, Mempool.RemoveTransaction m (TransactionID tx)) (a_mempool s) txs in
    match a_validator s, w_am (world bc) with
    | Some _, Some am =>
        let! (am, db, updates) := foldl bump_nonce (Done (am, w_db (world bc), ∅)) txs in
        let! (am, db, _) := BatchUpdateAccounts (o_batch o) now am db updates in
        Done (mkAdder (set_world bc (mkWorld db (Some am))) mempool (a_stakePool s) (a_utxos s) (a_consensus s)
                (a_validator s), None)
    | _, _ => Panic "nil pointer dereference"
    end.

(** [rnd] is the draw of [SelectValidator], [hasHost] whether a host was given;
    [None] when the nonces ran out. *)
Definition AddBlock (o : Orders) (ro1 ro2 : range_order) (rnd : float64) (fuel : nat) (now now_ns : Z) (tbl : key_table)
    (replies : ValidatorNode → Blk.reply) (broadcast : error) (hasHost : bool) (s : Adder) (b : Block)
    : outcome (option (Adder * error)) :=
  let! latest := GetLatestBlock (o_list o) (a_bc s) in
  match a_validator s with
  | Some false => let '(bc, e) := addBlockWithoutValidation block_document (a_bc s) b in Done (Some (set_bc s bc, e))
  | node =>
      if (size (StakePool.Stakes (a_stakePool s)) =? 0)%nat then
        match node, hasHost with
        | None, true => Panic "nil pointer dereference"
        | _, _ => Done (Some (s, Some "no validators available"))
        end
      else match StakePool.SelectValidator ro1 ro2 rnd (a_stakePool s) with
      | Err e => Done (Some (s, Some e))
      | Ok (wallet, _) =>
          match latest with
          | None => Panic "nil pointer dereference"
          | Some prev =>
              let! (nb, utxos) := Blk.NewBlock tbl (o_trie o) now_ns prev (a_mempool s) (a_utxos s)
                (Difficulty (Header prev)) wallet in
              let s := mkAdder (a_bc s) (a_mempool s) (a_stakePool s) utxos (a_consensus s) (a_validator s) in
              let! mined := Blk.MineBlock fuel now_ns (o_stakes o) replies nb (a_stakePool s) 10 in
              match mined with
              | None => Done None
              | Some (_, Some e) => Done (Some (s, Some e))
              | Some (nb, None) =>
                  let! (ce, e) := Consensus.StartConsensusRound now_ns (o_stakes o) broadcast (a_consensus s) nb in
                  let s := mkAdder (a_bc s) (a_mempool s) (a_stakePool s) (a_utxos s) ce (a_validator s) in
                  match e with
                  | Some e => Done (Some (s, Some ("consensus failed: " +:+ e)))
                  | None => let! r := accept_block o now tbl s prev nb in Done (Some r)
                  end
              end
          end
      end
  end.

(** One tick of [processBlocks]: a block is assembled and handed to [AddBlock]. *)
Definition process_tick (o : Orders) (ro1 ro2 : range_order) (rnd : float64) (fuel : nat) (now now_ns : Z)
    (tbl : key_table) (replies : ValidatorNode → Blk.reply) (broadcast : error) (hasHost : bool) (s : Adder)
    : outcome (option Adder) :=
  match Mempool.GetTransactions (a_mempool s) with
  | [] => Done (Some s)
  | _ =>
      let! prev := GetLatestBlock (o_list o) (a_bc s) in
      match prev with
      | None => Panic "nil pointer dereference"
      | Some prev =>
          let! (nb, utxos) := Blk.NewBlock tbl (o_trie o) now_ns prev (a_mempool s) (a_utxos s)
            (calculateDifficulty prev) (CurrentValidator (Consensus.state (a_consensus s))) in
          let s := mkAdder (a_bc s) (a_mempool s) (a_stakePool s) utxos (a_consensus s) (a_validator s) in
          let! r := AddBlock o ro1 ro2 rnd fuel now now_ns tbl replies broadcast hasHost s nb in
          Done (fst <$> r)
      end
  end.

(** ** The validator set *)
Definition VerifyStake (now_ns : Z) (sp : StakePool.t) (address : string) : error :=
  match StakePool.Stakes sp !! address with
  | None => Some ("no stake found for address: " +:+ address)
  | Some stake =>
      if time_since now_ns (StartTime stake) <? MinStakeAge then Some "stake not mature yet" else None
  end.

Definition ValidateValidator (now_ns : Z) (sp : StakePool.t) (v : Validator) : error :=
  match VerifyStake now_ns sp (val_Address v) with
  | Some e => Some ("stake verification failed: " +:+ e)
  | None =>
      if Status v =? ValidatorStatusSlashed then Some "validator has been slashed"
      else if (Status v =? ValidatorStatusActive) && (Score v <? 100)
      then Some ("validator score too low: " +:+ fmt_d (Score v))
      else None
  end.

Definition UpdateValidatorSet (now_ns : Z) (sp : StakePool.t) (vs : gmap string Validator) : gmap string Validator :=
  (λ v, match ValidateValidator now_ns sp v with
        | Some _ => Val.set_status v ValidatorStatusProbation (Score v)
        | None => v
        end) <$> vs.

(** The first active validator met. *)
Definition GetGenesisValidator (ro : range_order) (hasStakePool : bool) (vs : gmap string Validator) : option Validator :=
  if hasStakePool then find (λ v, Status v =? ValidatorStatusActive) ((range ro vs).*2) else None.

End checks.
