(* ===== verification/MiningFacts.v ===== *)
(** * Correctness of a mining round

    A round extends the chain by one block that carries the selected
    transactions, and leaves the pools at the state that the transactions lead
    to, although it applies them several times in different orders. *)

From stdpp Require Import base gmap strings list.
From Stdlib Require Import ZArith Lia Floats.SpecFloat.
From S2P Require Import Prelude.
From S2P Require Import Float64.
From S2P Require Import Sha256.
From S2P Require Import Json.
From S2P Require Import Database.
From S2P Require Import P256.
From S2P Require Import Crypto.
From S2P Require Import Transaction.
From S2P Require Import Account.
From S2P Require Import Utxo.
From S2P Require Import UtxoSync.
From S2P Require Import UtxoFacts.
From S2P Require Import UtxoSyncFacts.
From S2P Require Import Mempool.
From S2P Require Import Trie.
From S2P Require Import TrieFacts.
From S2P Require Import Stake.
From S2P Require Import StakeFacts.
From S2P Require Import Block.
From S2P Require Import BlockJson.
From S2P Require Import BlockFacts.
From S2P Require Import Chain.
From S2P Require Import ChainFacts.
From S2P Require Import ChainStore.
From S2P Require Import Validator.
From S2P Require Import Consensus.
From S2P Require Import ValidatorFacts.
From S2P Require Import Mining.

(** ** The effect of a set of transactions *)

Definition consumes (tx : Transaction) (k : string) : bool :=
  negb (Tx.is_system tx) && bool_decide (k ∈ input_key <$> Inputs tx).

(** The output at a key after transactions that do not depend on each other:
    created by one of them, consumed by one of them, or as before. *)
Definition block_effect (h : Z) (txs : list Transaction) (m : utxo_set) (k : string) : option UTXO :=
  match head (omap (λ tx, created tx h k) txs) with
  | Some u => Some u
  | None => if existsb (λ tx, consumes tx k) txs then mark_spent <$> m !! k else m !! k
  end.

(** No transaction consumes an output of another one, or of itself. *)
Definition unchained (txs : list Transaction) : Prop :=
  ∀ tx tx' i k, tx ∈ txs → tx' ∈ txs → consumes tx k = true → k ≠ Pool.output_key tx' i.

Lemma created_unique txs h k u u' : NoDup (TransactionID <$> txs) →
  u ∈ omap (λ tx, created tx h k) txs → u' ∈ omap (λ tx, created tx h k) txs → u = u'.
Proof.
  intros Hnd (tx & Htx & Hc)%list_elem_of_omap (tx' & Htx' & Hc')%list_elem_of_omap.
  assert (tx = tx') as ->; [|congruence].
  apply created_Some in Hc as (i & o & _ & -> & _). apply created_Some in Hc' as (j & o' & _ & E & _).
  apply utxo_key_split in E as [E _]; [|lia..].
  apply list_elem_of_lookup in Htx as [n Hn]. apply list_elem_of_lookup in Htx' as [n' Hn'].
  assert (n = n') as ->; [|congruence].
  eapply (NoDup_lookup (TransactionID <$> txs)); [done|rewrite list_lookup_fmap, Hn|rewrite list_lookup_fmap, Hn'];
    cbn; [done|by rewrite E].
Qed.

Lemma block_effect_perm h txs txs' m k : NoDup (TransactionID <$> txs) → txs ≡ₚ txs' →
  block_effect h txs m k = block_effect h txs' m k.
Proof.
  intros Hnd Hp. unfold block_effect.
  assert (existsb (λ tx, consumes tx k) txs = existsb (λ tx, consumes tx k) txs') as Hs.
  { apply eq_bool_prop_intro. rewrite !Is_true_true, !existsb_exists. setoid_rewrite <-list_elem_of_In.
    split; intros (tx & Ht & Hc); exists tx; (split; [|done]); [by rewrite <-Hp|by rewrite Hp]. }
  rewrite Hs.
  assert (omap (λ tx, created tx h k) txs ≡ₚ omap (λ tx, created tx h k) txs') as Ho by (by apply omap_Permutation).
  destruct (omap (λ tx, created tx h k) txs) as [|u l] eqn:E.
  { by apply Permutation_nil_l in Ho as ->. }
  destruct (omap (λ tx, created tx h k) txs') as [|u' l'] eqn:E'; [by apply Permutation_nil_r in Ho|].
  cbn. f_equal. apply (created_unique txs h k); [done|rewrite E; apply elem_of_cons; by left|].
  rewrite E, Ho. apply elem_of_cons; by left.
Qed.

Lemma apply_all_snoc now h p txs tx : apply_all now h p (txs ++ [tx]) = apply_tx now (apply_all now h p txs) tx h.
Proof. unfold apply_all. by rewrite foldl_app. Qed.

Lemma mark_spent_idemp (x : option UTXO) : mark_spent <$> (mark_spent <$> x) = mark_spent <$> x.
Proof. by destruct x. Qed.

(** Independent transactions have the effect of their set. *)
Lemma apply_all_effect now h p txs k : NoDup (TransactionID <$> txs) → unchained txs →
  utxos (apply_all now h p txs) !! k = block_effect h txs (utxos p) k.
Proof.
  intros Hnd Hun. induction txs as [|tx txs IH] using rev_ind; [done|].
  rewrite apply_all_snoc, apply_tx_lookup.
  rewrite (block_effect_perm h _ (tx :: txs)) by (done || by rewrite Permutation_app_comm).
  unfold block_effect at 1. cbn [omap list_omap].
  destruct (created tx h k) as [u|] eqn:Hc; [done|].
  rewrite fmap_app in Hnd. apply NoDup_app in Hnd as (Hnd & _).
  assert (unchained txs) as Hun'.
  { intros t t' i k' Ht Ht'. apply Hun; apply elem_of_app; by left. }
  rewrite (IH Hnd Hun'). fold (consumes tx k). cbn [existsb].
  change (list_omap _ _ (λ tx0, created tx0 h k) txs) with (omap (λ tx0, created tx0 h k) txs).
  unfold block_effect. destruct (head (omap (λ tx0, created tx0 h k) txs)) as [u|] eqn:Hh.
  - destruct (consumes tx k) eqn:Hs; [|done]. exfalso.
    assert (u ∈ omap (λ tx0, created tx0 h k) txs) as (t & Ht & Hct)%list_elem_of_omap.
    { destruct (omap _ txs); [done|]. injection Hh as ->. apply elem_of_cons; by left. }
    apply created_Some in Hct as (i & o & _ & E & _).
    eapply (Hun tx t i k); [apply elem_of_app; right; by apply list_elem_of_singleton|apply elem_of_app; by left|done|done].
  - destruct (consumes tx k), (existsb _ txs); cbn [orb]; by rewrite ?mark_spent_idemp.
Qed.

(** Applying the same transactions again, in another order, changes nothing. *)
Lemma replay_effect now now' h p txs txs' k : NoDup (TransactionID <$> txs) → unchained txs → txs' ≡ₚ txs →
  utxos (apply_all now' h (apply_all now h p txs) txs') !! k = block_effect h txs (utxos p) k.
Proof.
  intros Hnd Hun Hp. rewrite apply_all_effect; [|by rewrite Hp|].
  2: { intros t t' i k' Ht Ht'. apply Hun; by rewrite Hp in *. }
  rewrite (block_effect_perm h txs' txs) by (by rewrite ?Hp).
  unfold block_effect at 1. rewrite apply_all_effect by done. unfold block_effect.
  destruct (head _); [done|]. destruct (existsb _ txs); by rewrite ?mark_spent_idemp.
Qed.

(** ** The parts of a round *)
Section round.
Context `{KV} `{GoImpl} (nan_bits : Z) (o : Orders) (now : Z).

Lemma add_all_done txs h : ∀ p w p' w',
  Mining.add_all o now (p, w) txs h = Done (p', w') → p' = apply_all now h p txs.
Proof.
  induction txs as [|tx txs IH] using rev_ind; intros p w p' w' E; [by injection E as <- _|].
  unfold Mining.add_all in E. rewrite foldl_app in E. cbn [foldl] in E.
  apply obind_Done_inv in E as ([p1 w1] & E1 & [_ ->]%AddUTXO_pool).
  by rewrite apply_all_snoc, <-(IH p w p1 w1).
Qed.

Lemma apply_all_root h p txs : txs ≠ [] →
  merkleRoot (apply_all now h p txs) = CalculateMerkleRoot (utxos (apply_all now h p txs)).
Proof. intros Hne. by rewrite apply_all_eq. Qed.

Lemma Clone_done p p' : Clone p = Done p' → utxos p' = utxos p ∧ merkleRoot p' = merkleRoot p.
Proof. unfold Clone, Pool.rlocked. intros E. apply obind_Done_inv in E as (? & _ & E). by injection E as <-. Qed.

(** After a resynchronisation the two pools have one root. *)
Lemma resync_root p np np' : resync p np = Done np' → merkleRoot np' = merkleRoot p.
Proof.
  unfold resync. destruct (str_eqb _ _) eqn:E.
  - intros [= <-]. by apply str_eqb_eq in E.
  - by intros [_ ?]%Clone_done.
Qed.

Lemma updateUTXOSet_inv s b s' : updateUTXOSet o now s b = Done s' →
  let p' := apply_all now (BlockNumber (Header b)) (default Pool.NewUTXOPool (utxoPool (m_bc s)))
              (Trie.GetAllTransactions (o_list o) (block_Transactions b)) in
  Chain (m_bc s') = Chain (m_bc s) ∧ currentHash (m_bc s') = currentHash (m_bc s) ∧
  m_mempool s' = m_mempool s ∧ utxoPool (m_bc s') = Some p' ∧
  match m_node s with
  | Some (Some _) => ∃ np', m_node s' = Some (Some np') ∧ merkleRoot np' = merkleRoot p'
  | _ => m_node s' = m_node s
  end.
Proof.
  intros E p'. unfold updateUTXOSet in E.
  apply obind_Done_inv in E as ([p w] & Hp & E). apply add_all_done in Hp as ->. fold p' in E.
  apply obind_Done_inv in E as ([node w1] & Hn & E). apply obind_Done_inv in E as (w2 & _ & E).
  injection E as <-. split_and!; [done..|]. cbn [m_node].
  destruct (m_node s) as [[np|]|]; [|by injection Hn as <- _..].
  apply obind_Done_inv in Hn as ([np1 w3] & _ & Hn). apply obind_Done_inv in Hn as (np2 & Hr & Hn).
  injection Hn as <- _. exists np2. split; [done|]. by eapply resync_root.
Qed.

Lemma saveBlock_keeps bc b : let r := saveBlock block_document bc b in
  Chain r.1 = Chain bc ∧ currentHash r.1 = currentHash bc ∧ utxoPool r.1 = utxoPool bc.
Proof. unfold saveBlock. destruct (w_db (world bc)) as [ldb|]; [|done]. by destruct (store_block _ _ ldb b). Qed.

Lemma mempool_removed ids : ∀ m,
  Mempool.Transactions (foldl (λ m tx, Mempool.RemoveTransaction m (TransactionID tx)) m ids) =
  filter (λ tx, TransactionID tx ∉ TransactionID <$> ids) (Mempool.Transactions m).
Proof.
  induction ids as [|tx ids IH]; intros m; cbn [foldl].
  { symmetry. apply filter_none, Forall_forall. intros t _. apply not_elem_of_nil. }
  rewrite IH. cbn [Mempool.RemoveTransaction Mempool.Transactions Mempool.set_txs]. rewrite list_filter_filter.
  apply list_filter_iff. intros t. rewrite fmap_cons, elem_of_cons. tauto.
Qed.

(** What a round commits. *)
Lemma commit_inv s prev b tmp w addr pending s' : commit o now s prev b tmp w addr pending = Done s' →
  Chain (m_bc s') = Chain (m_bc s) ++ [hashed b] ∧ currentHash (m_bc s') = hash_of_block (hashed b) ∧
  m_mempool s' = (λ m, foldl (λ m tx, Mempool.RemoveTransaction m (TransactionID tx)) m pending) <$> m_mempool s ∧
  (∀ t, tmp = Some t → ∃ p', utxoPool (m_bc s') = Some p' ∧
    p' = apply_all now (BlockNumber (Header (hashed b))) t
           (Trie.GetAllTransactions (o_list o) (block_Transactions (hashed b))) ∧
    (∀ np, m_node s = Some (Some np) → ∃ np', m_node s' = Some (Some np') ∧ merkleRoot np' = merkleRoot p')).
Proof.
  unfold commit. intros E. apply obind_Done_inv in E as ([node w1] & Hn & E).
  set (bc0 := mkBlockchain _ _ tmp w1 _ _) in E. pose proof (saveBlock_keeps bc0 (hashed b)) as (Hc & Hh & Hu).
  destruct (saveBlock block_document bc0 (hashed b)) as [bc1 ?]. cbn [fst] in Hc, Hh, Hu. subst bc0.
  cbn [Chain currentHash utxoPool] in Hc, Hh, Hu. rewrite Hu in E.
  apply obind_Done_inv in E as (s1 & Hs & E).
  assert (s1 = s') as -> by (destruct (reward_of o now prev), (utxoPool (m_bc s1)); by simplify_eq). clear E.
  destruct tmp as [t|].
  2: { injection Hs as <-. cbn [m_bc m_mempool]. by split_and!. }
  apply obind_Done_inv in Hs as (s2 & Hs2 & E).
  apply updateUTXOSet_inv in Hs2 as (Hc2 & Hh2 & Hm2 & Hu2 & Hn2). cbn [m_bc m_mempool m_node] in *.
  assert (Chain (m_bc s') = Chain (m_bc s2) ∧ currentHash (m_bc s') = currentHash (m_bc s2) ∧
          utxoPool (m_bc s') = utxoPool (m_bc s2) ∧ m_mempool s' = m_mempool s2 ∧ m_node s' = m_node s2)
    as (-> & -> & -> & -> & ->).
  { destruct (w_am (world (m_bc s2))); [|by injection E as ->].
    apply obind_Done_inv in E as ([[am db] ?] & _ & E). by injection E as <-. }
  rewrite Hc2, Hh2, Hm2, Hc, Hh, Hu2, Hu in *. split_and!; [done..|].
  intros t' [= <-]. eexists. split_and!; [done..|]. intros np Hnp. rewrite Hnp in Hn.
  apply obind_Done_inv in Hn as ([np1 w2] & _ & Hn). injection Hn as <- _. exact Hn2.
Qed.

Lemma round_inv fuel now_ns replies s addr s' b prev : last (Chain (m_bc s)) = Some prev →
  MineBlock nan_bits o now fuel now_ns replies s addr = Done (Some (s', Ok b)) →
  let pending := select_pending (m_mempool s) in
  let txs := round_txs o now prev addr pending in
  ∃ b0 tmp w stateRoot receiptsRoot,
    prepare nan_bits o now (m_bc s) txs (next_height prev) = Done (tmp, w, stateRoot, receiptsRoot) ∧
    Blk.MineBlock fuel now_ns (o_stakes o) replies (round_block o now prev addr txs stateRoot receiptsRoot)
      (m_stakePool s) (Difficulty (Header prev)) = Done (Some (b0, None)) ∧
    b = hashed b0 ∧ commit o now s prev b0 tmp w addr pending = Done s'.
Proof.
  unfold MineBlock. intros -> E. apply obind_Done_inv in E as ([[[tmp w] sr] rr] & Hp & E).
  destruct (m_node s); [|done]. apply obind_Done_inv in E as (mined & Hm & E).
  destruct mined as [[b0 [e|]]|]; [done| |done]. apply obind_Done_inv in E as (s1 & Hc & E).
  injection E as -> <-. by exists b0, tmp, w, sr, rr.
Qed.

(** The block of a round as its fields: mining and hashing change the nonce, the
    validator and the hashes only. *)
Lemma round_block_mined fuel now_ns replies sp prev addr txs sr rr b0 :
  Blk.MineBlock fuel now_ns (o_stakes o) replies (round_block o now prev addr txs sr rr) sp
    (Difficulty (Header prev)) = Done (Some (b0, None)) →
  let b := hashed b0 in
  BlockNumber (Header b) = next_height prev ∧ PreviousHash (Header b) = block_hash prev ∧
  MinedBy (Header b) = addr ∧ StateRoot (Header b) = sr ∧ Difficulty (Header b) = Difficulty (Header prev) ∧
  CumulativeDifficulty b = u64 (CumulativeDifficulty prev + Difficulty (Header prev)) ∧
  hash_of_block b = Blk.CalculateHash b ∧ Blk.isHashValid (hash_of_block b) (Difficulty (Header prev)) = true ∧
  block_Transactions b = (Trie.GenerateRootHash (o_trie o) (Trie.InsertBatch Trie.NewPatriciaTrie txs)).2.
Proof.
  intros E b. unfold round_block in E.
  destruct (Trie.GenerateRootHash _ _) as [root trie] eqn:Ht. cbn [snd].
  apply MineBlock_inv in E as (k & Hs & a & sig & ->); [|done].
  match type of Hs with Blk.isHashValid (Blk.CalculateHash ?x) _ = _ =>
    assert (Blk.CalculateHash b = Blk.CalculateHash x) as Hc by done end.
  assert (hash_of_block b = Blk.CalculateHash b) as Hh by (unfold b; by rewrite hash_hashed).
  by split_and!.
Qed.

(** The block a round returns, and the transactions it holds. *)
Lemma mined_block (fuel : nat) (now_ns : Z) (replies : ValidatorNode → Blk.reply)
    (s s' : Miner) (addr : string) (prev b : Block) :
  let txs := round_txs o now prev addr (select_pending (m_mempool s)) in
  last (Chain (m_bc s)) = Some prev →
  MineBlock nan_bits o now fuel now_ns replies s addr = Done (Some (s', Ok b)) →
  BlockNumber (Header b) = next_height prev ∧ PreviousHash (Header b) = block_hash prev ∧
  hash_of_block b = Blk.CalculateHash b ∧ Blk.isHashValid (hash_of_block b) (Difficulty (Header prev)) = true ∧
  Difficulty (Header b) = Difficulty (Header prev) ∧
  CumulativeDifficulty b = u64 (CumulativeDifficulty prev + Difficulty (Header prev)) ∧
  ∀ ord, fair_children ord → fair_children (o_trie o) → NoDup ((λ tx, digest (TransactionID tx)) <$> txs) →
    Trie.GetAllTransactions ord (block_Transactions b) ≡ₚ txs.
Proof.
  intros txs Hlast E.
  destruct (round_inv fuel now_ns replies s addr s' b prev Hlast E) as (b0 & tmp & w & sr & rr & Hp & Hm & -> & Hc).
  destruct (round_block_mined _ _ _ _ _ _ _ _ _ _ Hm) as (Hn & Hprev & _ & _ & Hd & Hcd & Hh & Hw & Ht).
  split_and!; try done. intros ord Hord Htrie Hnd. rewrite Ht. by apply GetAll_hashed.
Qed.

(** The outputs of the chain's pool after a round. *)
Lemma mined_pool (fuel : nat) (now_ns : Z) (replies : ValidatorNode → Blk.reply)
    (s s' : Miner) (addr : string) (prev b : Block) (p : UTXOPool) :
  let txs := round_txs o now prev addr (select_pending (m_mempool s)) in
  fair_children (o_list o) → fair_children (o_trie o) →
  NoDup ((λ tx, digest (TransactionID tx)) <$> txs) → unchained txs →
  last (Chain (m_bc s)) = Some prev → utxoPool (m_bc s) = Some p →
  MineBlock nan_bits o now fuel now_ns replies s addr = Done (Some (s', Ok b)) →
  ∃ p', utxoPool (m_bc s') = Some p' ∧
    (∀ k, utxos p' !! k = block_effect (next_height prev) txs (utxos p) k) ∧
    merkleRoot p' = CalculateMerkleRoot (utxos p') ∧
    (∀ np, m_node s = Some (Some np) → ∃ np', m_node s' = Some (Some np') ∧ merkleRoot np' = merkleRoot p').
Proof.
  intros txs Hlist Htrie Hnd Hun Hlast Hpool E.
  destruct (round_inv fuel now_ns replies s addr s' b prev Hlast E) as (b0 & tmp & w & sr & rr & Hp & Hm & -> & Hc).
  destruct (round_block_mined _ _ _ _ _ _ _ _ _ _ Hm) as (Hn & _ & _ & _ & _ & _ & _ & _ & Ht).
  fold txs in Hp, Ht. unfold prepare in Hp. rewrite Hpool in Hp.
  apply obind_Done_inv in Hp as (t0 & [Hu _]%Clone_done & Hp). apply obind_Done_inv in Hp as ([t w1] & Hadd & Hp).
  apply obind_Done_inv in Hp as (root & _ & Hp). injection Hp as <- <- <- <-. apply add_all_done in Hadd as ->.
  apply commit_inv in Hc as (_ & _ & _ & Hc). destruct (Hc _ eq_refl) as (p' & Hp' & Heq & Hnode). clear Hc.
  rewrite Hn, Ht in Heq. exists p'. split; [done|].
  pose proof (GetAll_hashed (o_list o) (o_trie o) txs Hlist Htrie Hnd) as Hperm.
  assert (NoDup (TransactionID <$> txs)) as Hids.
  { apply (NoDup_fmap_1 digest). by rewrite <-list_fmap_compose. }
  split_and!; [| |done].
  - intros k. rewrite Heq, replay_effect by done. by rewrite <-Hu.
  - rewrite Heq. apply apply_all_root. intros E0. rewrite E0 in Hperm. by apply Permutation_nil_l in Hperm.
Qed.

(** C4 A successful round extends the chain by one block and nothing else: the
    block is numbered after its predecessor, names the predecessor's hash, has
    the work that the difficulty asks for under its own hash, and holds, in any
    order of traversal, exactly the coinbase, the reward of the last validator
    and the selected transactions; the mempool keeps exactly the transactions
    that were not selected. *)
Theorem mined_round (ord : child_order) (fuel : nat) (now_ns : Z) (replies : ValidatorNode → Blk.reply)
    (s s' : Miner) (addr : string) (prev b : Block) :
  let txs := round_txs o now prev addr (select_pending (m_mempool s)) in
  fair_children ord → fair_children (o_trie o) → NoDup ((λ tx, digest (TransactionID tx)) <$> txs) →
  last (Chain (m_bc s)) = Some prev →
  MineBlock nan_bits o now fuel now_ns replies s addr = Done (Some (s', Ok b)) →
  Chain (m_bc s') = Chain (m_bc s) ++ [b] ∧ currentHash (m_bc s') = hash_of_block b ∧
  BlockNumber (Header b) = next_height prev ∧ PreviousHash (Header b) = block_hash prev ∧
  hash_of_block b = Blk.CalculateHash b ∧ Blk.isHashValid (hash_of_block b) (Difficulty (Header prev)) = true ∧
  Difficulty (Header b) = Difficulty (Header prev) ∧
  CumulativeDifficulty b = u64 (CumulativeDifficulty prev + Difficulty (Header prev)) ∧
  Trie.GetAllTransactions ord (block_Transactions b) ≡ₚ txs ∧
  (∀ m, m_mempool s = Some m → ∃ m', m_mempool s' = Some m' ∧ Mempool.Transactions m' =
     filter (λ tx, TransactionID tx ∉ TransactionID <$> select_pending (m_mempool s)) (Mempool.Transactions m)).
Proof.
  intros txs Hord Htrie Hnd Hlast E.
  destruct (mined_block fuel now_ns replies s s' addr prev b Hlast E) as (Hn & Hprev & Hh & Hw & Hd & Hcd & Ht).
  destruct (round_inv fuel now_ns replies s addr s' b prev Hlast E) as (b0 & tmp & w & sr & rr & _ & _ & -> & Hc).
  apply commit_inv in Hc as (Hch & Hcur & Hmp & _).
  split_and!; try done; [by apply Ht|].
  intros m Hm'. rewrite Hmp, Hm'. eexists. split; [done|]. apply mempool_removed.
Qed.

(** C5 A successful round applies its transactions three times to the chain's
    outputs, in two orders; if they have distinct ids (by their digests) and none of
    them consumes an output of the block, the effect is that of applying each once:
    created outputs are there unspent, consumed ones are marked, the others are as
    before. The stored root is the root of the outputs, and the node's own pool ends
    with the same root. *)
Theorem mined_state (fuel : nat) (now_ns : Z) (replies : ValidatorNode → Blk.reply)
    (s s' : Miner) (addr : string) (prev b : Block) (p : UTXOPool) :
  let txs := round_txs o now prev addr (select_pending (m_mempool s)) in
  fair_children (o_list o) → fair_children (o_trie o) →
  NoDup ((λ tx, digest (TransactionID tx)) <$> txs) → unchained txs →
  last (Chain (m_bc s)) = Some prev → utxoPool (m_bc s) = Some p →
  MineBlock nan_bits o now fuel now_ns replies s addr = Done (Some (s', Ok b)) →
  ∃ p', utxoPool (m_bc s') = Some p' ∧
    (∀ k, utxos p' !! k = block_effect (next_height prev) txs (utxos p) k) ∧
    merkleRoot p' = CalculateMerkleRoot (utxos p') ∧
    (∀ np, m_node s = Some (Some np) → ∃ np', m_node s' = Some (Some np') ∧ merkleRoot np' = merkleRoot p').
Proof. apply mined_pool. Qed.

(** An update leaves every output of the transaction it visits last unspent, also
    one that another transaction of the block consumes. *)
Theorem replay_revives (s s' : Miner) (b : Block) (l : list Transaction) (tx : Transaction) (i : nat)
    (out : TransactionOutput) :
  Trie.GetAllTransactions (o_list o) (block_Transactions b) = l ++ [tx] → Outputs tx !! i = Some out →
  updateUTXOSet o now s b = Done s' →
  ∃ p', utxoPool (m_bc s') = Some p' ∧
    utxos p' !! Pool.output_key tx i = Some (Pool.output_utxo tx (BlockNumber (Header b)) i out).
Proof.
  intros Hl Ho E. apply updateUTXOSet_inv in E as (_ & _ & _ & Hp & _). eexists. split; [exact Hp|].
  rewrite Hl, apply_all_snoc, apply_tx_lookup.
  by rewrite (proj2 (created_Some tx (BlockNumber (Header b)) _ _) ltac:(by eexists _, _)).
Qed.

(** C26 A round that fails, for want of validators or of their agreement, keeps the
    chain, the pools, the mempool and the stakes; but the transactions have been
    applied: the database and the accounts are those that the discarded clone
    left behind. *)
Theorem failed_round (fuel : nat) (now_ns : Z) (replies : ValidatorNode → Blk.reply)
    (s s' : Miner) (addr : string) (prev : Block) (e : string) (p : UTXOPool) :
  last (Chain (m_bc s)) = Some prev → utxoPool (m_bc s) = Some p →
  MineBlock nan_bits o now fuel now_ns replies s addr = Done (Some (s', Err e)) →
  Chain (m_bc s') = Chain (m_bc s) ∧ utxoPool (m_bc s') = Some p ∧ m_mempool s' = m_mempool s ∧
  m_stakePool s' = m_stakePool s ∧ m_node s' = m_node s ∧
  ∃ tmp tmp', Clone p = Done tmp ∧ utxos tmp = utxos p ∧
    Mining.add_all o now (tmp, world (m_bc s)) (round_txs o now prev addr (select_pending (m_mempool s)))
      (next_height prev) = Done (tmp', world (m_bc s')).
Proof.
  intros Hlast Hpool E. unfold MineBlock in E. rewrite Hlast in E.
  apply obind_Done_inv in E as ([[[t w] sr] rr] & Hp & E). destruct (m_node s) eqn:Hnode; [|done].
  apply obind_Done_inv in E as (mined & _ & E). destruct mined as [[b0 [e'|]]|]; [| |done].
  - injection E as <- ->. unfold prepare in Hp. rewrite Hpool in Hp.
    apply obind_Done_inv in Hp as (tmp & Hc & Hp). apply obind_Done_inv in Hp as ([tmp' w'] & Hadd & Hp).
    apply obind_Done_inv in Hp as (root & _ & Hp). injection Hp as <- <- <- <-.
    cbn [m_bc m_mempool m_stakePool m_node set_world Chain utxoPool world]. split_and!; [done..|].
    exists tmp, tmp'. split_and!; [done|apply (Clone_done _ _ Hc)|done].
  - by apply obind_Done_inv in E as (? & _ & E).
Qed.

End round.

(** ** Roots *)

(** One output. *)
Definition one_output : UTXOPool :=
  Pool.set_root (Pool.set_utxos Pool.NewUTXOPool {[ "t1-0" := utxo_a ]}) (CalculateMerkleRoot {[ "t1-0" := utxo_a ]}) 0.

(** The root that a round writes into the header ([GetRootHash]) is not the root
    that a validator compares it with: they differ on a pool with one output. *)
Theorem state_roots_differ : ∃ r, GetRootHash 0 no_order one_output = Done r ∧ r ≠ merkleRoot one_output.
Proof.
  eexists. split; [reflexivity|]. apply str_eqb_neq. vm_compute. reflexivity.
Qed.

(** ** Adding a block as a validator *)
Section validator_node.
Context `{KV} `{ECDSA} `{GoImpl}.

(** A node that is a validator, or has no node object, never adds a block with
    [AddBlock]: it fails before consensus, or waits forever in the selection of
    a validator. *)
Theorem AddBlock_never_adds (o : Orders) (ro1 ro2 : range_order) (rnd : float64) (fuel : nat) (now now_ns : Z)
    (tbl : key_table) (replies : ValidatorNode → Blk.reply) (broadcast : error) (hasHost : bool) (s s' : Adder)
    (b : Block) (e : error) :
  a_validator s ≠ Some false →
  AddBlock o ro1 ro2 rnd fuel now now_ns tbl replies broadcast hasHost s b = Done (Some (s', e)) →
  e ≠ None ∧ a_bc s' = a_bc s.
Proof.
  intros Hv E. unfold AddBlock in E. apply obind_Done_inv in E as (latest & _ & E).
  assert (match a_validator s with Some false => False | _ => True end) as Hv' by (by destruct (a_validator s) as [[]|]).
  assert (∀ s0 e0, Done (Some (s0, Some e0)) = Done (Some (s', e)) → a_bc s0 = a_bc s → e ≠ None ∧ a_bc s' = a_bc s)
    as Hfin by (intros s0 e0 [= <- <-]; done).
  destruct (a_validator s) as [[]|] eqn:Ha; [|done|]; cbn beta iota in E;
    (destruct (Nat.eqb _ 0); [destruct hasHost; try done; by eapply Hfin|]);
    (destruct (StakePool.SelectValidator ro1 ro2 rnd (a_stakePool s)) as [[wallet ?]|e1]; [|by eapply Hfin]);
    (destruct latest as [prev|]; [|done]);
    apply obind_Done_inv in E as ([nb us] & _ & E); apply obind_Done_inv in E as (mined & _ & E);
    (destruct mined as [[nb' [e1|]]|]; [by eapply Hfin| |done]);
    apply obind_Done_inv in E as ([ce e1] & Hc & _);
    pose proof (selection_deadlocks now_ns (o_stakes o) (a_consensus s) nb' broadcast
      (Selector.mk (a_stakePool s) Unlocked) 0 "") as [_ Hd]; unfold set_bc in Hc; cbn in Hc; by rewrite Hd in Hc.
Qed.

End validator_node.

(** ** A round *)
Definition demo_orders : Orders :=
  mkOrders no_order no_order no_order no_order (λ l, l) (λ l, l) reverse (λ l, l).

Definition easy_genesis : Block := set_header genesis (set_nonce (Header genesis) 0 0).

(** A node with one output and one transaction that spends it; [node] is its own pool. *)
Definition demo_miner (node : option UTXOPool) : Miner :=
  mkMiner (mkBlockchain [easy_genesis] "g" (Some one_output) (mkWorld demo_db None) "" ∅)
    (Some (Mempool.mk [demo_tx "t3"] 10 ∅)) StakeFacts.demo_pool (Some node).

Definition demo_round (replies : ValidatorNode → Blk.reply) : outcome (option (Miner * result Block)) :=
  MineBlock 0 demo_orders 10 1 5000 replies (demo_miner None) "miner".

Definition demo_txs : list Transaction := round_txs demo_orders 10 easy_genesis "miner" [demo_tx "t3"].

Lemma demo_round_done : ∃ s' b, demo_round all_agree = Done (Some (s', Ok b)).
Proof.
  assert (match demo_round all_agree with Done (Some (_, Ok _)) => true | _ => false end = true) as Hd
    by (vm_compute; reflexivity).
  destruct (demo_round all_agree) as [[[s' [b|]]|]| |]; [|discriminate..]. by exists s', b.
Qed.

Lemma demo_digests : NoDup ((λ tx, digest (TransactionID tx)) <$> demo_txs).
Proof. apply (bool_decide_unpack _). vm_compute. exact I. Qed.

Lemma demo_unchained : unchained demo_txs.
Proof.
  intros tx tx' i k Htx Htx' Hc ->.
  assert (TransactionID tx' ≠ "t1") as Hid.
  { assert (Forall (λ tx, str_eqb (TransactionID tx) "t1" = false) demo_txs) as Hall
      by (apply Forall_cons; split; [vm_compute; reflexivity|]; apply Forall_cons; split; [reflexivity|constructor]).
    rewrite Forall_forall in Hall. by apply str_eqb_neq, Hall. }
  apply elem_of_cons in Htx as [->|Htx]; [done|]. apply list_elem_of_singleton in Htx as ->.
  apply andb_true_iff in Hc as [_ Hc%bool_decide_eq_true]. apply list_elem_of_singleton in Hc.
  apply (utxo_key_split _ "t1" _ 0) in Hc as [? _]; [done|lia..].
Qed.

Lemma mined_round_witness : ∃ s' b, demo_round all_agree = Done (Some (s', Ok b)) ∧
  Chain (m_bc s') = [easy_genesis; b] ∧ Trie.GetAllTransactions reverse (block_Transactions b) ≡ₚ demo_txs.
Proof.
  destruct demo_round_done as (s' & b & E). exists s', b. split; [exact E|].
  destruct (mined_round 0 demo_orders 10 reverse 1 5000 all_agree (demo_miner None) s' "miner" easy_genesis b
    fair_children_reverse fair_children_id demo_digests eq_refl E) as (Hc & _ & _ & _ & _ & _ & _ & _ & Ht & _).
  split; [exact Hc|exact Ht].
Defined.

Lemma mined_state_witness : ∃ s' b p', demo_round all_agree = Done (Some (s', Ok b)) ∧
  utxoPool (m_bc s') = Some p' ∧ utxos p' !! "t1-0" = Some (mark_spent utxo_a) ∧
  is_Some (utxos p' !! "t3-0").
Proof.
  destruct demo_round_done as (s' & b & E).
  destruct (mined_state 0 demo_orders 10 1 5000 all_agree (demo_miner None) s' "miner" easy_genesis b one_output
    fair_children_reverse fair_children_id demo_digests demo_unchained eq_refl eq_refl E) as (p' & Hp & Hk & _).
  exists s', b, p'. split; [exact E|]. split; [exact Hp|]. split.
  - rewrite Hk. vm_compute. reflexivity.
  - rewrite Hk. eexists. vm_compute. reflexivity.
Defined.

(** No validator answers. *)
Definition none_agree (v : ValidatorNode) : Blk.reply := Blk.NoReply "timeout".

Lemma failed_round_witness : ∃ s', demo_round none_agree = Done (Some (s', Err "insufficient validations")) ∧
  Chain (m_bc s') = [easy_genesis] ∧ utxoPool (m_bc s') = Some one_output.
Proof.
  assert (match demo_round none_agree with Done (Some (_, Err e)) => str_eqb e "insufficient validations" | _ => false
          end = true) as Hd by (vm_compute; reflexivity).
  destruct (demo_round none_agree) as [[[s' [b|e]]|]| |] eqn:E; [discriminate| |discriminate..].
  apply str_eqb_eq in Hd as ->. exists s'. split; [reflexivity|].
  destruct (failed_round 0 demo_orders 10 1 5000 none_agree (demo_miner None) s' "miner" easy_genesis
    "insufficient validations" one_output eq_refl eq_refl E) as (Hc & Hp & _).
  split; [exact Hc|exact Hp].
Defined.
