(* ===== verification/RawSocket.v ===== *)
(** * The framed socket ([sync/raw_socket.go])

    Messages are framed by a header of 28 bytes with the size and an FNV-1a
    checksum of the payload. A socket has two goroutines: one writes the queued
    messages to the connection, one reads frames and queues their payloads. Each
    turn of their loops is an operation here; a connection is the bytes that
    arrived and were not read. Pings are declared in the source but never sent. *)

From stdpp Require Import base list strings.
From Stdlib Require Import ZArith Lia.
From S2P Require Import Prelude.
From S2P Require Import Sha256.

Definition protocolVersion : Z := 1.
Definition headerSize : nat := 28.
Definition maxMessageSize : Z := 2 ^ 24.
Definition msgTypeTx : Z := 1.

Record MessageHeader := mkMessageHeader {
  mh_Version : Z;
  mh_Type : Z;
  mh_PayloadSize : Z;
  mh_Timestamp : Z;
  mh_Checksum : Z;
}.

(** The numbers have the widths of the source. *)
Definition header_fits (h : MessageHeader) : Prop :=
  is_u32 (mh_Version h) ∧ is_u32 (mh_Type h) ∧ is_u32 (mh_PayloadSize h) ∧ is_i64 (mh_Timestamp h) ∧
  is_u64 (mh_Checksum h).

(** FNV-1a, 64 bits. *)
Definition fnv_offset : Z := 14695981039346656037.
Definition fnv_prime : Z := 1099511628211.

Definition fnv_step (hash b : Z) : Z := u64 (Z.lxor hash b * fnv_prime).

Definition calculateChecksum (data : bytes) : Z := foldl fnv_step fnv_offset data.

(** ** Headers *)
Definition header_bytes (h : MessageHeader) : bytes :=
  be_bytes 4 (mh_Version h) ++ be_bytes 4 (mh_Type h) ++ be_bytes 4 (mh_PayloadSize h) ++
  be_bytes 8 (u64 (mh_Timestamp h)) ++ be_bytes 8 (mh_Checksum h).

(** The header overwrites the start of the buffer. *)
Definition writeHeader (buf : bytes) (h : MessageHeader) : result bytes :=
  if (length buf <? headerSize)%nat then Err "buffer too small"
  else Ok (header_bytes h ++ drop headerSize buf).

Definition slice (i j : nat) (buf : bytes) : bytes := take (j - i) (drop i buf).

Definition readHeader (buf : bytes) : result MessageHeader :=
  if (length buf <? headerSize)%nat then Err "buffer too small"
  else Ok (mkMessageHeader (be_value (slice 0 4 buf)) (be_value (slice 4 8 buf)) (be_value (slice 8 12 buf))
             (i64 (be_value (slice 12 20 buf))) (be_value (slice 20 28 buf))).

(** ** The socket *)
Record SyncConfig := mkSyncConfig {
  SendBufferSize : nat;
  RecvBufferSize : nat;
}.

Definition DefaultSyncConfig : SyncConfig := mkSyncConfig 1024 1024.

Module RawSocket.

Record t := mk {
  config : SyncConfig;
  sendCh : list bytes;
  recvCh : list bytes;
  is_done : bool;
}.

Definition NewRawSocketFromConn (config : option SyncConfig) : t :=
  mk (default DefaultSyncConfig config) [] [] false.

(** The message of a transaction. *)
Definition frame (now_ns : Z) (txData : bytes) : bytes :=
  header_bytes (mkMessageHeader protocolVersion msgTypeTx (u32 (Z.of_nat (length txData))) now_ns
                  (calculateChecksum txData)) ++ txData.

(** [pick] is the choice of the runtime between two ready cases; a queue that
    stays full until the timeout is the last case. *)
Definition SendTransaction (now_ns : Z) (pick : bool) (s : t) (txData : bytes) : t * error :=
  if Z.of_nat (length txData) >? maxMessageSize then (s, Some "transaction size exceeds maximum allowed size")
  else match writeHeader (replicate headerSize 0) (mkMessageHeader protocolVersion msgTypeTx
               (u32 (Z.of_nat (length txData))) now_ns (calculateChecksum txData)) with
  | Err e => (s, Some ("failed to write message header: " +:+ e))
  | Ok h =>
      let msg := h ++ txData in
      if (length (sendCh s) <? SendBufferSize (config s))%nat && (negb (is_done s) || pick)
      then (mk (config s) (sendCh s ++ [msg]) (recvCh s) (is_done s), None)
      else (s, Some (if is_done s then "socket closed" else "send timeout"))
  end.

Definition ReceiveTransaction (pick : bool) (s : t) : t * result bytes :=
  match recvCh s with
  | data :: rest =>
      if negb (is_done s) || pick then (mk (config s) (sendCh s) rest (is_done s), Ok data)
      else (s, Err "socket closed")
  | [] => (s, Err (if is_done s then "socket closed" else "receive timeout"))
  end.

(** A turn of [sendLoop]: the socket and the bytes written; [written] is what the
    connection takes of a message, all of it when the write succeeds. *)
Definition send_turn (written : bytes → bytes) (s : t) : t * bytes :=
  match sendCh s with
  | [] => (s, [])
  | msg :: rest => (mk (config s) rest (recvCh s) (is_done s), written msg)
  end.

(** [io.ReadFull] into a buffer of [n] bytes: with fewer bytes until the end or
    the deadline it fails, and those are gone. *)
Definition readFull (n : nat) (conn : bytes) : option bytes * bytes :=
  if (length conn <? n)%nat then (None, []) else (Some (take n conn), drop n conn).

(** A turn of [receiveLoop] up to the queue: the payload, if any, and the rest. *)
Definition receive_frame (conn : bytes) : option bytes * bytes :=
  match readFull headerSize conn with
  | (None, conn) => (None, conn)
  | (Some buf, conn) =>
      match readHeader buf with
      | Err _ => (None, conn)
      | Ok h =>
          if mh_PayloadSize h >? maxMessageSize then (None, conn)
          else match readFull (Z.to_nat (mh_PayloadSize h)) conn with
          | (None, conn) => (None, conn)
          | (Some payload, conn) =>
              if calculateChecksum payload =? mh_Checksum h then (Some payload, conn) else (None, conn)
          end
      end
  end.

(** [None]: the queue is full and the goroutine waits, with the payload read. *)
Definition receive_turn (s : t) (conn : bytes) : option (t * bytes) :=
  match receive_frame conn with
  | (None, conn) => Some (s, conn)
  | (Some payload, conn) =>
      if (length (recvCh s) <? RecvBufferSize (config s))%nat
      then Some (mk (config s) (sendCh s) (recvCh s ++ [payload]) (is_done s), conn)
      else None
  end.

Definition Close (s : t) : outcome t :=
  if is_done s then Panic "close of closed channel" else Done (mk (config s) (sendCh s) (recvCh s) true).

End RawSocket.

(** ** Two sockets and the bytes between them

    Besides the sockets and the bytes that were written and not read, a state
    records what happened: the messages that the two callers sent and received,
    every byte that was ever written, how many writes failed, and whether a message
    was cut, by a write that failed part of the way or by a deadline that passed in
    the middle of a frame. *)
Record system := mkSystem {
  sender : RawSocket.t;
  wire : bytes;
  receiver : RawSocket.t;
  sys_sent : list bytes;
  sys_got : list bytes;
  sys_stream : bytes;
  sys_failed : nat;
  sys_cut : bool;
}.

(** A write takes the first [k] bytes of the message at the head of the queue; it
    fails if that is not all of it, and the loop goes on with the next message. *)
Definition write_fails (k : nat) (s : RawSocket.t) : bool :=
  match RawSocket.sendCh s with [] => false | msg :: _ => (k <? length msg)%nat end.

Definition step_write_to (k : nat) (sys : system) : system :=
  let '(s', out) := RawSocket.send_turn (take k) (sender sys) in
  let failed := write_fails k (sender sys) in
  mkSystem s' (wire sys ++ out) (receiver sys) (sys_sent sys) (sys_got sys) (sys_stream sys ++ out)
    (sys_failed sys + (if failed then 1 else 0)) (sys_cut sys || (failed && (0 <? length out)%nat)).

(** A turn of the receiver in which [k] bytes arrive before its deadline: a frame
    that is not whole by then is given up, and its bytes are gone. *)
Definition step_read_from (k : nat) (sys : system) : option system :=
  let '(arrived, later) := (take k (wire sys), drop k (wire sys)) in
  match RawSocket.receive_turn (receiver sys) arrived with
  | None => None
  | Some (r', rest) =>
      let lost := match (RawSocket.receive_frame arrived).1 with Some _ => false | None => (length rest <? length arrived)%nat end in
      Some (mkSystem (sender sys) (rest ++ later) r' (sys_sent sys) (sys_got sys) (sys_stream sys) (sys_failed sys)
              (sys_cut sys || lost))
  end.

Definition with_sockets (sys : system) (s r : RawSocket.t) (sent got : list bytes) : system :=
  mkSystem s (wire sys) r sent got (sys_stream sys) (sys_failed sys) (sys_cut sys).

Inductive system_step : system → system → Prop :=
  | step_send now_ns pick data s' sys :
      Forall is_byte data → RawSocket.SendTransaction now_ns pick (sender sys) data = (s', None) →
      system_step sys (with_sockets sys s' (receiver sys) (sys_sent sys ++ [data]) (sys_got sys))
  | step_write k sys : system_step sys (step_write_to k sys)
  | step_read k sys sys' :
      RawSocket.is_done (receiver sys) = false → step_read_from k sys = Some sys' → system_step sys sys'
  | step_receive pick r' data sys :
      RawSocket.ReceiveTransaction pick (receiver sys) = (r', Ok data) →
      system_step sys (with_sockets sys (sender sys) r' (sys_sent sys) (sys_got sys ++ [data]))
  | step_close s' sys :
      RawSocket.Close (sender sys) = Done s' →
      system_step sys (with_sockets sys s' (receiver sys) (sys_sent sys) (sys_got sys))
  | step_close_receiver r' sys :
      RawSocket.Close (receiver sys) = Done r' →
      system_step sys (with_sockets sys (sender sys) r' (sys_sent sys) (sys_got sys)).

Definition system_start (c c' : option SyncConfig) : system :=
  mkSystem (RawSocket.NewRawSocketFromConn c) [] (RawSocket.NewRawSocketFromConn c') [] [] [] 0 false.

Inductive system_reachable (c c' : option SyncConfig) : system → Prop :=
  | sys_start : system_reachable c c' (system_start c c')
  | sys_step s s' : system_reachable c c' s → system_step s s' → system_reachable c c' s'.
