(* ===== verification/RawSocketFacts.v ===== *)
(** * Correctness of the framed socket

    Headers and frames survive the wire, a corrupted byte of a payload is always
    noticed, and two connected sockets deliver the messages once and in order, apart
    from those whose writing failed, until a message is cut. *)

From stdpp Require Import base list strings relations.
From Stdlib Require Import ZArith Lia.
From S2P Require Import Prelude.
From S2P Require Import Sha256.
From S2P Require Import P256.
From S2P Require Import RawSocket.

(** ** The checksum *)
Definition fnv_inverse : Z := 14886173955864302971.

Lemma lxor_range a b : is_u64 a → is_byte b → is_u64 (Z.lxor a b).
Proof.
  unfold is_u64, is_byte. intros Ha Hb. assert (0 ≤ Z.lxor a b) as H0 by (apply Z.lxor_nonneg; lia).
  split; [done|]. destruct (Z.eq_dec (Z.lxor a b) 0) as [->|Hne]; [lia|].
  apply Z.log2_lt_pow2; [lia|]. eapply Z.le_lt_trans; [apply Z.log2_lxor; lia|].
  apply Z.max_lub_lt.
  - destruct (Z.eq_dec a 0) as [->|]; [done|]. apply Z.log2_lt_pow2; lia.
  - destruct (Z.eq_dec b 0) as [->|]; [done|]. apply Z.log2_lt_pow2; lia.
Qed.

Lemma mul_prime_inj a b : is_u64 a → is_u64 b → u64 (a * fnv_prime) = u64 (b * fnv_prime) → a = b.
Proof.
  intros Ha Hb E. rewrite <-(u64_small a Ha), <-(u64_small b Hb). unfold u64 in *.
  assert (∀ x, x mod 2 ^ 64 = ((x * fnv_prime) mod 2 ^ 64 * fnv_inverse) mod 2 ^ 64) as Hi.
  { intros x. rewrite Z.mul_mod_idemp_l by done. rewrite <-Z.mul_assoc, <-Z.mul_mod_idemp_r by done.
    change (fnv_prime * fnv_inverse mod 2 ^ 64) with 1. by rewrite Z.mul_1_r. }
  rewrite (Hi a), (Hi b). by rewrite E.
Qed.

Lemma lxor_inj_r h a b : Z.lxor h a = Z.lxor h b → a = b.
Proof. intros E. apply (f_equal (Z.lxor h)) in E. by rewrite <-!Z.lxor_assoc, !Z.lxor_nilpotent, !Z.lxor_0_l in E. Qed.

Lemma fnv_step_inj h h' b b' : is_u64 h → is_u64 h' → is_byte b → is_byte b' →
  fnv_step h b = fnv_step h' b' → Z.lxor h b = Z.lxor h' b'.
Proof. intros. by apply mul_prime_inj; [apply lxor_range..|]. Qed.

Lemma fnv_range data : ∀ h, is_u64 h → is_u64 (foldl fnv_step h data).
Proof. induction data as [|b l IH]; intros h Hh; [done|]. cbn. apply IH, u64_range. Qed.

Lemma fnv_inj data : ∀ h h', is_u64 h → is_u64 h' → Forall is_byte data →
  foldl fnv_step h data = foldl fnv_step h' data → h = h'.
Proof.
  induction data as [|b l IH]; intros h h' Hh Hh' Hl E; [done|]. apply Forall_cons in Hl as [Hb Hl].
  cbn in E. apply IH in E; [|apply u64_range..|done]. apply fnv_step_inj in E; [|done..].
  apply (lxor_inj_r b). by rewrite !(Z.lxor_comm b).
Qed.

Lemma checksum_byte l r a b : Forall is_byte l → Forall is_byte r → is_byte a → is_byte b →
  calculateChecksum (l ++ a :: r) = calculateChecksum (l ++ b :: r) → a = b.
Proof.
  intros Hl Hr Ha Hb. unfold calculateChecksum. rewrite !foldl_app. cbn [foldl]. intros E.
  assert (is_u64 (foldl fnv_step fnv_offset l)) as Hh by (by apply fnv_range).
  apply fnv_inj in E; [|apply u64_range..|done]. apply fnv_step_inj in E; [|done..]. by apply lxor_inj_r in E.
Qed.

(** ** Headers *)
Lemma length_header_bytes h : length (header_bytes h) = headerSize.
Proof. unfold header_bytes. by rewrite !length_app, !length_be_bytes. Qed.

Lemma header_parse h rest : header_fits h → readHeader (header_bytes h ++ rest) = Ok h.
Proof.
  intros (Hv & Ht & Hp & Hs & Hc). unfold readHeader.
  rewrite (proj2 (Nat.ltb_ge _ _)) by (rewrite length_app, length_header_bytes; lia).
  unfold header_bytes, slice. rewrite <-!app_assoc.
  assert (∀ n (x y : bytes) k m, length x = n → take m (drop (n + k) (x ++ y)) = take m (drop k y)) as Hskip.
  { intros n x y k m <-. by rewrite drop_app_add. }
  assert (∀ n z (y : bytes), take n (drop 0 (be_bytes n z ++ y)) = be_bytes n z) as Htake.
  { intros n z y. rewrite drop_0. apply take_app_length'. by rewrite length_be_bytes. }
  assert (∀ z, length (be_bytes 4 z) = 4%nat) as H4 by (intros; apply length_be_bytes).
  assert (∀ z, length (be_bytes 8 z) = 8%nat) as H8 by (intros; apply length_be_bytes).
  cbn [Nat.sub]. rewrite Htake.
  rewrite (Hskip 4%nat _ _ 0%nat 4%nat (H4 _)), Htake.
  rewrite (Hskip 4%nat _ _ 4%nat 4%nat (H4 _)), (Hskip 4%nat _ _ 0%nat 4%nat (H4 _)), Htake.
  rewrite (Hskip 4%nat _ _ 8%nat 8%nat (H4 _)), (Hskip 4%nat _ _ 4%nat 8%nat (H4 _)),
    (Hskip 4%nat _ _ 0%nat 8%nat (H4 _)), Htake.
  rewrite (Hskip 4%nat _ _ 16%nat 8%nat (H4 _)), (Hskip 4%nat _ _ 12%nat 8%nat (H4 _)),
    (Hskip 4%nat _ _ 8%nat 8%nat (H4 _)), (Hskip 8%nat _ _ 0%nat 8%nat (H8 _)), Htake.
  rewrite !be_value_be_bytes. unfold is_u32, is_u64, is_i64 in *.
  change (256 ^ Z.of_nat 4) with (2 ^ 32). change (256 ^ Z.of_nat 8) with (2 ^ 64).
  rewrite !(Z.mod_small _ (2 ^ 32)) by lia. rewrite (Z.mod_small (mh_Checksum h)) by lia.
  destruct h as [v t p s c]. cbn in *. do 2 f_equal. unfold u64, i64.
  rewrite Z.mod_mod by lia. rewrite Z.add_mod_idemp_l by lia. rewrite Z.mod_small by lia. lia.
Qed.

(** A header written into a buffer is read back field by field, and what
    follows it in the buffer is kept. *)
Theorem header_round_trip (buf : bytes) (h : MessageHeader) : (headerSize ≤ length buf)%nat → header_fits h →
  ∃ buf', writeHeader buf h = Ok buf' ∧ length buf' = length buf ∧ drop headerSize buf' = drop headerSize buf ∧
    readHeader buf' = Ok h.
Proof.
  intros Hb Hh. unfold writeHeader. rewrite (proj2 (Nat.ltb_ge _ _)) by lia.
  eexists. split_and!; [done|..].
  - rewrite length_app, length_header_bytes, length_drop. lia.
  - apply drop_app_length'. by rewrite length_header_bytes.
  - by apply header_parse.
Qed.

(** ** Frames *)
Lemma checksum_range data : is_u64 (calculateChecksum data).
Proof. by apply fnv_range. Qed.

(** A payload that can be sent. *)
Definition sendable (data : bytes) : Prop := Forall is_byte data ∧ Z.of_nat (length data) ≤ maxMessageSize.

(** The header of a frame; the clock's value is cut to 64 bits. *)
Definition frame_header (now_ns : Z) (data : bytes) : MessageHeader :=
  mkMessageHeader protocolVersion msgTypeTx (Z.of_nat (length data)) (i64 now_ns) (calculateChecksum data).

Lemma i64_u64 z : u64 (i64 z) = u64 z.
Proof. unfold u64, i64. rewrite Zminus_mod_idemp_l. f_equal. lia. Qed.

Lemma frame_eq now_ns data : sendable data →
  RawSocket.frame now_ns data = header_bytes (frame_header now_ns data) ++ data.
Proof.
  intros [_ Hl]. unfold RawSocket.frame, frame_header, header_bytes. cbn [mh_Timestamp mh_Version mh_Type mh_PayloadSize mh_Checksum].
  rewrite i64_u64. unfold u32. rewrite Z.mod_small; [done|]. unfold maxMessageSize in Hl. lia.
Qed.

Lemma frame_header_fits now_ns data : sendable data → header_fits (frame_header now_ns data).
Proof.
  intros [_ Hl]. unfold maxMessageSize in Hl. 
  split; [done|split; [done|split; [unfold is_u32; cbn; lia|split; [apply i64_range|apply checksum_range]]]].
Qed.

(** The receiver of a header followed by bytes. *)
Lemma receive_header h payload rest : header_fits h → mh_PayloadSize h = Z.of_nat (length payload) →
  mh_PayloadSize h ≤ maxMessageSize →
  RawSocket.receive_frame (header_bytes h ++ payload ++ rest) =
    (if calculateChecksum payload =? mh_Checksum h then Some payload else None, rest).
Proof.
  intros Hh Hs Hm. unfold RawSocket.receive_frame, RawSocket.readFull.
  rewrite (proj2 (Nat.ltb_ge _ _)) by (rewrite length_app, length_header_bytes; lia).
  rewrite take_app_length', drop_app_length' by (by rewrite length_header_bytes).
  rewrite <-(app_nil_r (header_bytes h)), (header_parse h [] Hh).
  assert ((mh_PayloadSize h >? maxMessageSize) = false) as -> by (rewrite Z.gtb_ltb; apply Z.ltb_ge; lia).
  rewrite Hs, Nat2Z.id, (proj2 (Nat.ltb_ge _ _)) by (rewrite length_app; lia).
  rewrite take_app_length, drop_app_length. by destruct (_ =? _).
Qed.

Lemma receive_frame_frame now_ns data rest : sendable data →
  RawSocket.receive_frame (RawSocket.frame now_ns data ++ rest) = (Some data, rest).
Proof.
  intros Hd. rewrite (frame_eq now_ns data Hd), <-app_assoc.
  rewrite receive_header; [|by apply frame_header_fits|done|apply Hd]. cbn. by rewrite Z.eqb_refl.
Qed.

(** A frame with a corrupted byte in its payload is dropped, and the receiver
    stays in step: it reads the next frame. *)
Theorem corrupt_frame_dropped (now_ns now_ns' : Z) (l r data rest : bytes) (a b : Z) :
  Forall is_byte l → Forall is_byte r → is_byte a → is_byte b → a ≠ b →
  Z.of_nat (length (l ++ a :: r)) ≤ maxMessageSize → sendable data →
  let (got, conn) := RawSocket.receive_frame
    (header_bytes (frame_header now_ns (l ++ a :: r)) ++ (l ++ b :: r) ++ RawSocket.frame now_ns' data ++ rest) in
  got = None ∧ RawSocket.receive_frame conn = (Some data, rest).
Proof.
  intros Hl Hr Ha Hb Hne Hm Hd. assert (sendable (l ++ a :: r)) as Hs.
  { split; [|done]. apply Forall_app. split; [done|]. by apply Forall_cons. }
  rewrite receive_header; [|by apply frame_header_fits| |apply Hs].
  2: { cbn. by rewrite !length_app. }
  cbn [mh_Checksum frame_header]. destruct (_ =? _) eqn:E.
  - apply Z.eqb_eq in E. by destruct Hne; symmetry in E; apply checksum_byte in E.
  - split; [done|]. by apply receive_frame_frame.
Qed.

(** A header that announces too much is skipped without its payload: the receiver
    takes the payload's bytes for the next header. *)
Theorem oversized_out_of_step (h : MessageHeader) (rest : bytes) : header_fits h → maxMessageSize < mh_PayloadSize h →
  RawSocket.receive_frame (header_bytes h ++ rest) = (None, rest).
Proof.
  intros Hh Hm. unfold RawSocket.receive_frame, RawSocket.readFull.
  rewrite (proj2 (Nat.ltb_ge _ _)) by (rewrite length_app, length_header_bytes; lia).
  rewrite take_app_length', drop_app_length' by (by rewrite length_header_bytes).
  rewrite <-(app_nil_r (header_bytes h)), (header_parse h [] Hh).
  assert ((mh_PayloadSize h >? maxMessageSize) = true) as -> by (rewrite Z.gtb_ltb; apply Z.ltb_lt; lia). done.
Qed.

(** ** Delivery *)

(** A message under way: the time it was framed and its payload. *)
Definition frames (l : list (Z * bytes)) : list bytes := (λ x, RawSocket.frame x.1 x.2) <$> l.

(** As long as no message was cut: what is under way are whole frames, and together
    with what was received they are the messages sent without those that failed. *)
Definition delivery_inv (s : system) : Prop := ∃ on_wire queued,
  wire s = concat (frames on_wire) ∧ RawSocket.sendCh (sender s) = frames queued ∧
  Forall (λ x, sendable x.2) (on_wire ++ queued) ∧
  let all := sys_got s ++ RawSocket.recvCh (receiver s) ++ (on_wire ++ queued).*2 in
  all `sublist_of` sys_sent s ∧ length (sys_sent s) = (length all + sys_failed s)%nat.

(** In every state: the payloads read, in their order, each behind a header with
    its size and its checksum. *)
Inductive framed : bytes → list bytes → Prop :=
  | framed_nil : framed [] []
  | framed_skip c b l : framed c l → framed (c ++ b) l
  | framed_payload c h hd payload l :
      framed c l → readHeader h = Ok hd → length h = headerSize → Z.to_nat (mh_PayloadSize hd) = length payload →
      mh_Checksum hd = calculateChecksum payload → framed (c ++ h ++ payload) (l ++ [payload]).

Definition framed_inv (s : system) : Prop := ∃ used,
  sys_stream s = used ++ wire s ∧ framed used (sys_got s ++ RawSocket.recvCh (receiver s)).

Lemma readFull_split n conn o rest : RawSocket.readFull n conn = (o, rest) →
  match o with Some b => conn = b ++ rest ∧ length b = n | None => rest = [] end.
Proof.
  unfold RawSocket.readFull. destruct (Nat.ltb_spec (length conn) n); intros [= <- <-]; [done|].
  split; [by rewrite take_drop|]. rewrite length_take. lia.
Qed.

(** What a turn reads is the front of what arrived. *)
Lemma receive_frame_split conn o rest : RawSocket.receive_frame conn = (o, rest) → ∃ used, conn = used ++ rest ∧
  ∀ payload, o = Some payload → ∃ h hd, used = h ++ payload ∧ readHeader h = Ok hd ∧ length h = headerSize ∧
    Z.to_nat (mh_PayloadSize hd) = length payload ∧ mh_Checksum hd = calculateChecksum payload.
Proof.
  unfold RawSocket.receive_frame. destruct (RawSocket.readFull headerSize conn) as [[h|] c1] eqn:E1; apply readFull_split in E1.
  2: { subst c1. intros [= <- <-]. exists conn. by rewrite app_nil_r. }
  destruct E1 as [-> Hh]. destruct (readHeader h) as [hd|] eqn:Er.
  2: { intros [= <- <-]. by exists h. }
  destruct (_ >? _); [intros [= <- <-]; by exists h|].
  destruct (RawSocket.readFull (Z.to_nat (mh_PayloadSize hd)) c1) as [[p|] c2] eqn:E2; apply readFull_split in E2.
  2: { subst c2. intros [= <- <-]. exists (h ++ c1). by rewrite app_nil_r. }
  destruct E2 as [-> Hp]. destruct (calculateChecksum p =? mh_Checksum hd) eqn:Ec; intros [= <- <-]; exists (h ++ p); rewrite <-app_assoc; split; [done| |done|done].
  intros payload [= <-]. apply Z.eqb_eq in Ec. exists h, hd. by split_and!.
Qed.

Lemma SendTransaction_inv now_ns pick s data s' : RawSocket.SendTransaction now_ns pick s data = (s', None) →
  Z.of_nat (length data) ≤ maxMessageSize ∧ RawSocket.recvCh s' = RawSocket.recvCh s ∧
  RawSocket.sendCh s' = RawSocket.sendCh s ++ [RawSocket.frame now_ns data].
Proof.
  unfold RawSocket.SendTransaction. rewrite Z.gtb_ltb. destruct (Z.ltb_spec maxMessageSize (Z.of_nat (length data))); [done|].
  unfold writeHeader. change (length (replicate headerSize 0) <? headerSize)%nat with false.
  change (drop headerSize (replicate headerSize 0)) with (@nil Z). rewrite app_nil_r. cbn beta iota.
  destruct (_ && _); [|done]. intros [= <-]. split_and!; [lia|done|done].
Qed.

Lemma receive_wire x l : sendable x.2 →
  RawSocket.receive_frame (concat (frames (x :: l))) = (Some x.2, concat (frames l)).
Proof. exact (receive_frame_frame x.1 x.2 (concat (frames l))). Qed.

Lemma receive_turn_inv r conn r' rest : RawSocket.receive_turn r conn = Some (r', rest) →
  (RawSocket.receive_frame conn).2 = rest ∧
  RawSocket.recvCh r' = RawSocket.recvCh r ++ option_list (RawSocket.receive_frame conn).1 ∧ RawSocket.is_done r' = RawSocket.is_done r.
Proof.
  unfold RawSocket.receive_turn. destruct (RawSocket.receive_frame conn) as [[p|] c]; cbn [fst snd option_list].
  - destruct (_ <? _)%nat; [|done]. intros E. by injection E as <- <-.
  - intros E. injection E as <- <-. by rewrite app_nil_r.
Qed.

Lemma ReceiveTransaction_inv pick r r' data : RawSocket.ReceiveTransaction pick r = (r', Ok data) →
  RawSocket.recvCh r = data :: RawSocket.recvCh r'.
Proof.
  unfold RawSocket.ReceiveTransaction. destruct (RawSocket.recvCh r) as [|d l]; [done|]. destruct (_ || _); [|done].
  by intros [= <- <-].
Qed.

Lemma Close_inv s s' : RawSocket.Close s = Done s' →
  RawSocket.sendCh s' = RawSocket.sendCh s ∧ RawSocket.recvCh s' = RawSocket.recvCh s.
Proof. unfold RawSocket.Close. destruct (RawSocket.is_done s); [done|]. by intros [= <-]. Qed.

(** *** The bytes *)
Lemma step_framed s s' : system_step s s' → framed_inv s → framed_inv s'.
Proof.
  intros Hs (used & Hst & Hf).
  destruct Hs as [now_ns pick data u' s Hb E|k s|k s s' Hd E|pick r' data s E|u' s E|r' s E].
  - by exists used.
  - unfold step_write_to, framed_inv. destruct (RawSocket.send_turn _ _) as [u out]. cbn. exists used. split; [|done]. by rewrite Hst, app_assoc.
  - unfold step_read_from in E. destruct (RawSocket.receive_turn _ _) as [[r' rest]|] eqn:Er; [|done]. injection E as <-.
    apply receive_turn_inv in Er as (Hrest & Hc & _). destruct (RawSocket.receive_frame _) as [o rest'] eqn:Ef. cbn in Hrest, Hc. subst rest'.
    destruct (receive_frame_split _ _ _ Ef) as (front & Hfront & Ho). exists (used ++ front). cbn. split.
    + rewrite Hst, <-(take_drop k (wire s)) at 1. by rewrite Hfront, <-!app_assoc.
    + rewrite Hc. destruct o as [payload|]; cbn [option_list].
      * destruct (Ho payload eq_refl) as (h & hd & -> & H1 & H2 & H3 & H4). cbn [option_list]. rewrite (app_assoc (sys_got s)). by eapply framed_payload.
      * rewrite app_nil_r. by apply framed_skip.
  - exists used. cbn. split; [done|]. apply ReceiveTransaction_inv in E. rewrite E in Hf. by rewrite <-app_assoc.
  - exists used. done.
  - exists used. cbn. apply Close_inv in E as [_ ->]. done.
Qed.

(** *** The messages *)
Lemma write_delivery k s : delivery_inv s → sys_cut (step_write_to k s) = false → delivery_inv (step_write_to k s).
Proof.
  intros (w & q & Hw & Hq & Hok & Hall & Hlen). unfold step_write_to, write_fails, RawSocket.send_turn. rewrite Hq.
  destruct q as [|x q]; cbn [frames fmap list_fmap].
  { intros _. exists w, []. cbn. rewrite app_nil_r, Nat.add_0_r. done. }
  destruct (Nat.ltb_spec k (length (RawSocket.frame x.1 x.2))) as [Hk|Hk]; cbn.
  - intros [_ Hout]%orb_false_iff. exists w, q. cbn.
    assert (take k (RawSocket.frame x.1 x.2) = []) as -> by (by destruct (take k _)). rewrite app_nil_r.
    rewrite app_assoc, fmap_app in Hall, Hlen. cbn in Hall, Hlen. split_and!; [done..| | |].
    + apply Forall_app in Hok as [? [_ ?]%Forall_cons]. by apply Forall_app.
    + etrans; [|exact Hall]. rewrite app_assoc, fmap_app. apply sublist_app; [done|]. apply sublist_app; [done|]. by apply sublist_cons.
    + rewrite Hlen. rewrite app_assoc, fmap_app, !length_app. cbn. lia.
  - intros _. rewrite take_ge by lia. exists (w ++ [x]), q. cbn. rewrite <-app_assoc. cbn. rewrite Nat.add_0_r. split_and!; try done.
    unfold frames. rewrite fmap_app, concat_app. cbn. by rewrite app_nil_r, Hw.
Qed.

(** A frame of which only a part arrived is given up, with at least one byte. *)
Lemma part_of_frame x l k : sendable x.2 → (k < length (RawSocket.frame x.1 x.2))%nat →
  RawSocket.receive_frame (take k (concat (frames (x :: l)))) = (None, []).
Proof.
  intros Hx Hk. change (concat (frames (x :: l))) with (RawSocket.frame x.1 x.2 ++ concat (frames l)).
  rewrite take_app_le by lia. rewrite (frame_eq _ _ Hx) in *. rewrite length_app, length_header_bytes in Hk.
  unfold RawSocket.receive_frame, RawSocket.readFull.
  destruct (Nat.ltb_spec (length (take k (header_bytes (frame_header x.1 x.2) ++ x.2))) headerSize) as [|Hl]; [done|].
  rewrite length_take, length_app, length_header_bytes in Hl.
  rewrite take_app_ge, length_header_bytes by (rewrite length_header_bytes; lia).
  rewrite take_app_length', drop_app_length' by (by rewrite length_header_bytes).
  rewrite <-(app_nil_r (header_bytes _)), (header_parse _ [] (frame_header_fits _ _ Hx)).
  destruct (_ >? _) eqn:Eg; [rewrite Z.gtb_ltb in Eg; apply Z.ltb_lt in Eg; destruct Hx as [_ Hx]; cbn in Eg; lia|].
  cbn [mh_PayloadSize frame_header]. rewrite Nat2Z.id, (proj2 (Nat.ltb_lt _ _)); [done|]. rewrite length_take. lia.
Qed.

Lemma read_delivery k s s' : delivery_inv s → step_read_from k s = Some s' → sys_cut s' = false → delivery_inv s'.
Proof.
  intros (w & q & Hw & Hq & Hok & Hall & Hlen) E. unfold step_read_from in E.
  destruct (RawSocket.receive_turn _ _) as [[r' rest]|] eqn:Er; [|done]. injection E as <-. cbn [sys_cut].
  apply receive_turn_inv in Er as (Hrest & Hc & _). intros [_ Hcut]%orb_false_iff. rewrite Hw in *.
  destruct w as [|x w].
  { change (concat (frames [])) with (@nil Z) in *. rewrite take_nil, drop_nil in *. cbn in Hrest, Hc. subst rest.
    exists [], q. cbn. rewrite Hc, app_nil_r. done. }
  cbn [app] in Hok. apply Forall_cons in Hok as [Hx Hok].
  destruct (Nat.ltb_spec k (length (RawSocket.frame x.1 x.2))) as [Hk|Hk].
  - rewrite (part_of_frame x w k Hx Hk) in *. cbn in Hrest, Hc, Hcut. subst rest. apply Nat.ltb_ge in Hcut. cbn in Hcut.
    assert (k = 0%nat) as ->.
    { change (concat (frames (x :: w))) with (RawSocket.frame x.1 x.2 ++ concat (frames w)) in Hcut.
      rewrite length_take, length_app in Hcut. lia. }
    exists (x :: w), q. cbn [sys_got sys_sent sys_failed receiver sender wire]. rewrite Hc, app_nil_r. cbn [app]. split_and!; [done|done| |done|done].
    by apply Forall_cons.
  - change (concat (frames (x :: w))) with (RawSocket.frame x.1 x.2 ++ concat (frames w)) in *.
    rewrite take_app_ge, drop_app_ge in * by done. rewrite (receive_frame_frame x.1 x.2 _ Hx) in *. cbn in Hrest, Hc. subst rest.
    exists w, q. cbn [sys_got sys_sent sys_failed receiver sender wire]. rewrite take_drop, Hc. cbn [app fmap list_fmap] in Hall, Hlen.
    split_and!; [done..| |]; rewrite <-(app_assoc (RawSocket.recvCh _)); done.
Qed.

Lemma step_delivery s s' : system_step s s' → sys_cut s' = false → sys_cut s = false ∧ (delivery_inv s → delivery_inv s').
Proof.
  intros Hs Hcut. destruct Hs as [now_ns pick data u' s Hb E|k s|k s s' Hd E|pick r' data s E|u' s E|r' s E].
  - split; [done|]. intros (w & q & Hw & Hq & Hok & Hall & Hlen). apply SendTransaction_inv in E as (Hl & _ & Hc).
    exists w, (q ++ [(now_ns, data)]). cbn. split_and!; [done|..].
    + rewrite Hc, Hq. unfold frames. by rewrite fmap_app.
    + rewrite app_assoc. apply Forall_app. split; [done|]. apply Forall_singleton. by split.
    + rewrite (app_assoc w q), (fmap_app snd (w ++ q)), (app_assoc (RawSocket.recvCh _)), (app_assoc (sys_got s)). by apply sublist_app.
    + rewrite (app_assoc w q), (fmap_app snd (w ++ q)). cbn in Hlen |- *. rewrite !length_app in *. cbn. lia.
  - split; [|intros; by apply write_delivery]. revert Hcut. unfold step_write_to. destruct (RawSocket.send_turn _ _). by intros [? _]%orb_false_iff.
  - split; [|intros; by eapply read_delivery]. unfold step_read_from in E. destruct (RawSocket.receive_turn _ _) as [[]|]; [|done].
    injection E as <-. by apply orb_false_iff in Hcut as [? _].
  - split; [done|]. intros (w & q & Hw & Hq & Hok & Hall & Hlen). apply ReceiveTransaction_inv in E. rewrite E in *.
    exists w, q. cbn. split_and!; [done..| |]; by rewrite <-app_assoc.
  - split; [done|]. intros (w & q & Hw & Hq & H). apply Close_inv in E as [Hs _]. exists w, q. cbn. by rewrite Hs.
  - split; [done|]. intros (w & q & Hw & Hq & H). apply Close_inv in E as [_ Hr]. exists w, q. cbn. by rewrite Hr.
Qed.

Lemma reachable_delivery c c' s : system_reachable c c' s → sys_cut s = false → delivery_inv s.
Proof.
  induction 1 as [|s s' _ IH Hs]; intros Hcut; [by exists [], []|]. destruct (step_delivery s s' Hs Hcut) as [Hc Hi]. by apply Hi, IH.
Qed.

Lemma reachable_framed c c' s : system_reachable c c' s → framed_inv s.
Proof. induction 1; [exists []; by repeat constructor|]. by eapply step_framed. Qed.

Lemma sublist_full {A} (l k : list A) : l `sublist_of` k → (length k ≤ length l)%nat → l = k.
Proof. induction 1 as [|x l k _ IH|x l k Hs _]; intros Hl; [done|f_equal; apply IH; cbn in Hl; lia|]. apply sublist_length in Hs. cbn in Hl. lia. Qed.

(** C21 Whatever the two sides and their goroutines do, in any order, with writes that
    fail after any number of bytes and deadlines that pass at any moment. As long as
    no message was cut (by a write that failed part of the way, or a deadline in the
    middle of a frame), the messages received, with those under way, are the messages
    sent without as many as had a failed write: none is duplicated, altered or
    reordered, and if no write failed the messages received are a prefix of those
    sent. After a cut, still, every message received stands in the bytes written, in
    the order of receipt, right behind a header with its size and its checksum. *)
Theorem delivered_in_order (c c' : option SyncConfig) (s : system) : system_reachable c c' s →
  (sys_cut s = false → ∃ under_way,
     (sys_got s ++ under_way) `sublist_of` sys_sent s ∧
     length (sys_sent s) = (length (sys_got s ++ under_way) + sys_failed s)%nat ∧
     (sys_failed s = 0%nat → sys_got s `prefix_of` sys_sent s)) ∧
  ∃ used, sys_stream s = used ++ wire s ∧ framed used (sys_got s ++ RawSocket.recvCh (receiver s)).
Proof.
  intros Hr. split; [|by eapply reachable_framed]. intros Hcut.
  destruct (reachable_delivery _ _ _ Hr Hcut) as (w & q & _ & _ & _ & Hall & Hlen).
  eexists. split_and!; [exact Hall|exact Hlen|]. intros Hf. rewrite Hf, Nat.add_0_r in Hlen.
  eexists. symmetry. apply (sublist_full _ _ Hall). by rewrite Hlen.
Qed.

(** *** Nothing is stuck *)
Lemma drain_queue s : ∃ s', rtc system_step s s' ∧ sys_sent s' = sys_sent s ∧ sys_failed s' = sys_failed s ∧ sys_cut s' = sys_cut s ∧
  RawSocket.recvCh (receiver s') = [] ∧ RawSocket.is_done (receiver s') = RawSocket.is_done (receiver s) ∧
  RawSocket.config (receiver s') = RawSocket.config (receiver s) ∧ RawSocket.sendCh (sender s') = RawSocket.sendCh (sender s) ∧ wire s' = wire s.
Proof.
  remember (RawSocket.recvCh (receiver s)) as l eqn:El. symmetry in El. revert s El. induction l as [|x l IH]; intros s El; [by exists s|].
  set (r' := RawSocket.mk (RawSocket.config (receiver s)) (RawSocket.sendCh (receiver s)) l (RawSocket.is_done (receiver s))).
  destruct (IH (with_sockets s (sender s) r' (sys_sent s) (sys_got s ++ [x]))) as (s' & Hs & H); [done|].
  exists s'. split; [|exact H]. eapply rtc_l; [|exact Hs]. apply (step_receive true). unfold RawSocket.ReceiveTransaction.
  by rewrite El, orb_true_r.
Qed.

Lemma rtc_delivery s s' : rtc system_step s s' → sys_cut s' = false → sys_cut s = false ∧ (delivery_inv s → delivery_inv s').
Proof.
  induction 1 as [|s s1 s' Hs _ IH]; intros Hcut; [done|]. destruct (IH Hcut) as [Hc Hi]. destruct (step_delivery s s1 Hs Hc) as [? ?]. auto.
Qed.

Lemma write_queue s : delivery_inv s → sys_cut s = false → ∃ s', rtc system_step s s' ∧ sys_cut s' = false ∧
  RawSocket.sendCh (sender s') = [] ∧ sys_sent s' = sys_sent s ∧ sys_failed s' = sys_failed s ∧ receiver s' = receiver s.
Proof.
  remember (RawSocket.sendCh (sender s)) as l eqn:El. symmetry in El. revert s El. induction l as [|msg l IH]; intros s El Hi Hc; [by exists s|].
  set (s1 := step_write_to (length msg) s).
  assert (sys_cut s1 = false ∧ RawSocket.sendCh (sender s1) = l ∧ sys_sent s1 = sys_sent s ∧ sys_failed s1 = sys_failed s ∧ receiver s1 = receiver s)
    as (Hc1 & Hq1 & Hs1 & Hf1 & Hr1).
  { unfold s1, step_write_to, write_fails, RawSocket.send_turn. rewrite El. cbv beta iota zeta. rewrite Nat.ltb_irrefl, Hc. cbn. by rewrite Nat.add_0_r. }
  destruct (IH s1 Hq1) as (s' & Hs & Hc' & Hq & Hse & Hf & Hr); [by apply write_delivery|done|].
  exists s'. split_and!; [by eapply rtc_l; [apply step_write|]|done..|congruence|congruence|congruence].
Qed.

Lemma read_one s x w : wire s = concat (frames (x :: w)) → sendable x.2 → RawSocket.recvCh (receiver s) = [] →
  RawSocket.is_done (receiver s) = false → (0 < RecvBufferSize (RawSocket.config (receiver s)))%nat →
  ∃ s', system_step s s' ∧ wire s' = concat (frames w) ∧ sys_sent s' = sys_sent s ∧ sys_failed s' = sys_failed s ∧ sys_cut s' = sys_cut s ∧
    sender s' = sender s ∧ RawSocket.is_done (receiver s') = false ∧ RawSocket.config (receiver s') = RawSocket.config (receiver s).
Proof.
  intros Hw Hx Hr Hd Hcap. set (r := receiver s) in *.
  exists (mkSystem (sender s) (concat (frames w)) (RawSocket.mk (RawSocket.config r) (RawSocket.sendCh r) [x.2] (RawSocket.is_done r))
            (sys_sent s) (sys_got s) (sys_stream s) (sys_failed s) (sys_cut s || false)).
  split; [|by rewrite orb_false_r]. apply (step_read (length (RawSocket.frame x.1 x.2))); [done|]. unfold step_read_from. rewrite Hw.
  change (concat (frames (x :: w))) with (RawSocket.frame x.1 x.2 ++ concat (frames w)). rewrite take_app_length, drop_app_length.
  unfold RawSocket.receive_turn. rewrite <-(app_nil_r (RawSocket.frame x.1 x.2)), (receive_frame_frame _ _ [] Hx). fold r. rewrite Hr.
  rewrite (proj2 (Nat.ltb_lt _ _)); [done|]. cbn. exact Hcap.
Qed.

Lemma deliver_wire n : ∀ s, (length (wire s) ≤ n)%nat → delivery_inv s → sys_cut s = false → RawSocket.sendCh (sender s) = [] →
  RawSocket.is_done (receiver s) = false → (0 < RecvBufferSize (RawSocket.config (receiver s)))%nat →
  ∃ s', rtc system_step s s' ∧ sys_sent s' = sys_sent s ∧ sys_failed s' = sys_failed s ∧ sys_got s' `sublist_of` sys_sent s' ∧
    length (sys_sent s') = (length (sys_got s') + sys_failed s')%nat.
Proof.
  induction n as [n IH] using lt_wf_ind. intros s Hn Hi Hc Hq Hd Hcap.
  destruct (drain_queue s) as (s1 & Hs1 & He1 & Hf1 & Hc1 & Hr1 & Hd1 & Hcf1 & Hq1 & Hw1).
  assert (delivery_inv s1) as Hi1 by (apply (rtc_delivery _ _ Hs1); [congruence|done]).
  pose proof Hi1 as (w & q & Hw & Hqq & Hok & Hall & Hlen). rewrite Hq1, Hq in Hqq. destruct q; [|done]. rewrite app_nil_r, Hr1 in *.
  destruct w as [|x w].
  { rewrite app_nil_r in *. exists s1. split_and!; congruence || done. }
  apply Forall_cons in Hok as [Hx Hok].
  destruct (read_one s1 x w Hw Hx Hr1) as (s2 & Hs2 & Hw2 & He2 & Hf2 & Hc2 & Hse2 & Hd2 & Hcf2); [congruence|by rewrite Hcf1|].
  assert (delivery_inv s2) as Hi2 by (apply (step_delivery _ _ Hs2); [congruence|done]).
  destruct (IH (length (wire s2))) with (s := s2) as (s' & Hs' & He & Hf & Hsub & Hl); try done; try congruence.
  - rewrite <-Hw1, Hw in Hn. rewrite Hw2.
    change (concat (frames (x :: w))) with (RawSocket.frame x.1 x.2 ++ concat (frames w)) in Hn.
    unfold RawSocket.frame in Hn. rewrite !length_app, length_header_bytes in Hn. unfold headerSize in Hn. lia.
  - exists s'. split_and!; [|congruence|congruence|done|done]. etrans; [exact Hs1|]. by eapply rtc_l.
Qed.

(** No message is stuck: as long as no message was cut and the receiver is open, some
    sequence of steps delivers every message but those whose write has failed. *)
Theorem delivery_possible (c c' : option SyncConfig) (s : system) : system_reachable c c' s → sys_cut s = false →
  RawSocket.is_done (receiver s) = false → (0 < RecvBufferSize (RawSocket.config (receiver s)))%nat →
  ∃ s', rtc system_step s s' ∧ sys_sent s' = sys_sent s ∧ sys_failed s' = sys_failed s ∧ sys_got s' `sublist_of` sys_sent s' ∧
    length (sys_sent s') = (length (sys_got s') + sys_failed s')%nat.
Proof.
  intros Hr Hcut Hd Hcap. pose proof (reachable_delivery _ _ _ Hr Hcut) as Hi.
  destruct (write_queue s Hi Hcut) as (s1 & Hs1 & Hc1 & Hq & Hse & Hf & Hrc).
  destruct (deliver_wire _ s1 (le_n _)) as (s' & Hs' & He & Hf' & H); [by apply (rtc_delivery _ _ Hs1)|done|done|by rewrite Hrc..|].
  exists s'. split_and!; [by etrans|congruence|congruence|apply H|apply H].
Qed.

(** ** A concrete exchange *)
Definition demo_frame_header : MessageHeader := mkMessageHeader 1 1 5 (-7) 99.

Lemma header_round_trip_witness : ∃ buf', writeHeader (replicate 30 0) demo_frame_header = Ok buf' ∧
  readHeader buf' = Ok demo_frame_header.
Proof.
  destruct (header_round_trip (replicate 30 0) demo_frame_header
    ltac:(apply Nat.leb_le; reflexivity)
    ltac:(repeat split; first [reflexivity | discriminate])) as (buf' & H1 & _ & _ & H2).
  by exists buf'.
Defined.

Lemma corrupt_frame_dropped_witness :
  (RawSocket.receive_frame (header_bytes (frame_header 3 [1; 2]) ++ [1; 3] ++ RawSocket.frame 4 [5] ++ [])).1 = None.
Proof.
  pose proof (corrupt_frame_dropped 3 4 [1] [] [5] [] 2 3) as H.
  destruct (RawSocket.receive_frame _) as [got conn] eqn:E.
  apply H; [apply Forall_singleton|apply Forall_nil_2| | |done| |split; [apply Forall_singleton|]];
    unfold is_byte, maxMessageSize; cbn [length app]; lia.
Defined.

(** Two messages are sent; the write of the first fails at once, the second is
    written, read and received. *)
Definition demo_socket (q got : list (Z * bytes)) : RawSocket.t := RawSocket.mk DefaultSyncConfig (frames q) got.*2 false.
Definition demo_first : Z * bytes := (3, [1; 2]).
Definition demo_second : Z * bytes := (4, [5]).
Definition demo_queued : system :=
  mkSystem (demo_socket [demo_first; demo_second] []) [] (RawSocket.NewRawSocketFromConn None) [[1; 2]; [5]] [] [] 0 false.
Definition demo_lost : system := step_write_to 0 demo_queued.
Definition demo_written : system := step_write_to 100 demo_lost.
Definition demo_read : system := default demo_written (step_read_from 100 demo_written).
Definition demo_received : system :=
  with_sockets demo_read (sender demo_read) (demo_socket [] []) (sys_sent demo_read) [[5]].

Lemma demo_queued_reachable : system_reachable None None demo_queued.
Proof.
  eapply sys_step; [eapply sys_step; [apply sys_start|]|].
  - apply (step_send 3 true [1; 2] (demo_socket [demo_first] [])); [|vm_compute; reflexivity].
    repeat (apply Forall_cons; split; [unfold is_byte; lia|]). apply Forall_nil_2.
  - refine (step_send 4 true [5] (demo_socket [demo_first; demo_second] []) (with_sockets (system_start None None)
      (demo_socket [demo_first] []) (RawSocket.NewRawSocketFromConn None) [[1; 2]] []) _ _); [|vm_compute; reflexivity].
    apply Forall_singleton. unfold is_byte. lia.
Qed.

Lemma demo_received_reachable : system_reachable None None demo_received.
Proof.
  eapply sys_step; [eapply sys_step; [eapply sys_step; [eapply sys_step; [apply demo_queued_reachable|]|]|]|].
  - apply (step_write 0).
  - apply (step_write 100).
  - apply (step_read 100 demo_written demo_read); vm_compute; reflexivity.
  - refine (step_receive true (demo_socket [] []) [5] demo_read _). vm_compute. reflexivity.
Qed.

Lemma delivered_in_order_witness : sys_got demo_received = [[5]] ∧ sys_sent demo_received = [[1; 2]; [5]] ∧ sys_failed demo_received = 1%nat ∧
  ∃ under_way, (sys_got demo_received ++ under_way) `sublist_of` sys_sent demo_received.
Proof.
  split; [reflexivity|]. split; [reflexivity|]. split; [vm_compute; reflexivity|].
  destruct (delivered_in_order None None demo_received demo_received_reachable) as [H _].
  destruct (H ltac:(vm_compute; reflexivity)) as (u & Hu & _). exists u. exact Hu.
Defined.

Lemma delivery_possible_witness : ∃ s', rtc system_step demo_lost s' ∧ length (sys_got s') = 1%nat.
Proof.
  destruct (delivery_possible None None demo_lost) as (s' & H1 & H2 & H3 & _ & H5).
  - eapply sys_step; [apply demo_queued_reachable|]. apply (step_write 0).
  - vm_compute. reflexivity.
  - reflexivity.
  - apply Nat.ltb_lt. reflexivity.
  - exists s'. split; [exact H1|]. rewrite H2, H3 in H5. change (sys_failed demo_lost) with 1%nat in H5. cbn in H5. lia.
Defined.

(** A message that was cut takes the next one with it: of the first only the header
    is written, the receiver reads on in the second, and neither arrives, although
    the second was written and read as a whole. *)
Definition demo_cut : system := step_write_to 100 (step_write_to 28 demo_queued).

Theorem cut_loses_next : sys_cut demo_cut = true ∧ ∃ s1 s2, step_read_from 100 demo_cut = Some s1 ∧ step_read_from 100 s1 = Some s2 ∧
  wire s2 = [] ∧ RawSocket.recvCh (receiver s2) = [].
Proof. split; [vm_compute; reflexivity|]. eexists _, _. split; [reflexivity|]. split; [reflexivity|]. split; vm_compute; reflexivity. Qed.
