(* ===== verification/Sync.v ===== *)
(** * The synchronisation service ([sync/service.go], [sync/converters.go],
      [sync/types.go])

    The conversions to protocol messages, the answers of the service and the
    exchange of chains over a stream. A stream is what is written to it; the
    result of each send is an argument. Heights run over [uint64]; [fuel] bounds
    the loops and [None] means that it ran out. gRPC, libp2p and the clock are
    outside. *)

From stdpp Require Import base gmap strings list.
From Stdlib Require Import ZArith Lia.
From S2P Require Import Prelude.
From S2P Require Import Float64.
From S2P Require Import Sha256.
From S2P Require Import Json.
From S2P Require Import Database.
From S2P Require Import Transaction.
From S2P Require Import Account.
From S2P Require Import Utxo.
From S2P Require Import UtxoSync.
From S2P Require Import Trie.
From S2P Require Import Stake.
From S2P Require Import Block.
From S2P Require Import BlockJson.
From S2P Require Import Chain.
From S2P Require Import ChainStore.
From S2P Require Import Validator.
From S2P Require Import Mining.

(** ** Messages ([converters.go]) *)
Record BlockResponse := mkBlockResponse {
  br_Height : Z;
  br_BlockData : dbval;
  br_TransactionData : list dbval;
  br_MerkleRoot : string;
  br_StateRoot : string;
  br_Timestamp : Z;
}.

Record ProtoUTXO := mkProtoUTXO { pu_TxId : string; pu_Amount : float64; pu_Owner : string }.

Record UTXOResponse := mkUTXOResponse { ur_Utxos : list ProtoUTXO; ur_ChunkNumber : Z; ur_TotalChunks : Z }.

Record ProtoTransaction := mkProtoTransaction {
  pt_TransactionData : dbval;
  pt_TransactionHash : string;
  pt_Timestamp : Z;
}.

(** [ord] and [ord'] are the orders of the two traversals of the trie. A
    transaction that cannot be encoded is left out. *)
Definition ConvertBlockToProto (ord ord' : child_order) (block : option Block) : option BlockResponse :=
  match block with
  | None => None
  | Some b =>
      blockData ← simplified_document ord b;
      Some (mkBlockResponse (BlockNumber (Header b)) (DJson blockData)
              (omap (λ tx, DJson <$> enc tx) (Trie.GetAllTransactions ord' (block_Transactions b)))
              (MerkleRoot (Header b)) (StateRoot (Header b)) (hdr_Timestamp (Header b)))
  end.

Definition set_transactions (b : Block) (trie : PatriciaNode) : Block :=
  mkBlock (Header b) trie (Receipts b) (block_hash b) (block_size b) (numTx b) (CumulativeDifficulty b) (originalHash b).

Definition ConvertProtoToBlock (ord : child_order) (resp : option BlockResponse) : outcome (option Block) :=
  match resp with
  | None => Done None
  | Some resp =>
      let! r := match document (br_BlockData resp) with None => Done None | Some j => read_block ord j end in
      Done ((λ b, set_transactions b (foldl Trie.Insert (block_Transactions b)
                (omap (λ d, document d ≫= dec) (br_TransactionData resp)))) <$> r)
  end.

Definition ConvertUTXOToProto (utxo : option UTXO) (chunkNumber totalChunks : Z) : option UTXOResponse :=
  (λ u, mkUTXOResponse [mkProtoUTXO (utxo_TransactionID u) (utxo_Amount u) (utxo_Owner u)] chunkNumber totalChunks)
    <$> utxo.

Definition ConvertProtoToUTXO (resp : option UTXOResponse) : option UTXO :=
  match resp with
  | Some (mkUTXOResponse (u :: _) _ _) =>
      Some (mkUTXO (pu_TxId u) 0 (pu_Amount u) (pu_Owner u) false 0 0 "")
  | _ => None
  end.

Definition ConvertTransactionToProto (tx : option Transaction) : result (option ProtoTransaction) :=
  match tx with
  | None => Ok None
  | Some tx =>
      match enc tx with
      | None => Err JsonUnsupported
      | Some data => Ok (Some (mkProtoTransaction (DJson data) (Tx.Hash tx) (Timestamp tx)))
      end
  end.

Definition ConvertProtoToTransaction (tx : option ProtoTransaction) : result (option Transaction) :=
  match tx with
  | None => Ok None
  | Some tx =>
      match document (pt_TransactionData tx) ≫= dec with
      | None => Err JsonBadInput
      | Some t => Ok (Some t)
      end
  end.

(** ** Network state ([types.go]) *)
Record PeerState := mkPeerState {
  ps_ID : string;
  ps_Address : string;
  ps_Port : Z;
  ps_Score : float64;
  ps_LastSeen : Z;
  ps_Connected : bool;
}.

(** The peers of a loop that stops once [maxPeers] were taken, checked after each. *)
Fixpoint take_peers (maxPeers : Z) (keep : PeerState → bool) (l : list PeerState) (taken : list PeerState)
    : list PeerState :=
  match l with
  | [] => taken
  | p :: l =>
      if keep p then
        let taken := taken ++ [p] in
        if u32 (Z.of_nat (length taken)) >=? maxPeers then taken else take_peers maxPeers keep l taken
      else take_peers maxPeers keep l taken
  end.

Definition GetPeers (ro : range_order) (peers : gmap string PeerState) (maxPeers : Z) (excludedPeers : list string)
    : list PeerState :=
  take_peers maxPeers (λ p, negb (existsb (str_eqb (ps_ID p)) excludedPeers) && ps_Connected p)
    (range ro peers).*2 [].

Definition PropagateCount (ro : range_order) (peers : gmap string PeerState) : result Z :=
  let n := Z.of_nat (length (filter (λ p, ps_Connected p) (range ro peers).*2)) in
  if n =? 0 then Err "no connected peers available for transaction propagation" else Ok n.

(** ** The service *)
Section service.
Context `{KV}.

Record SyncService := mkSyncService {
  ss_blockchain : option Blockchain;
  ss_store : levelDB.t;
  ss_peers : option (gmap string PeerState);
  ss_validators : gmap string Validator;
}.

Definition set_blockchain (s : SyncService) (bc : Blockchain) : SyncService :=
  mkSyncService (Some bc) (ss_store s) (ss_peers s) (ss_validators s).

Record ChainInfoResponse := mkChainInfoResponse {
  ci_Height : Z;
  ci_LastBlockHash : string;
  ci_StateRoot : string;
  ci_UtxoRoot : string;
  ci_NetworkVersion : Z;
  ci_ProtocolVersion : Z;
  ci_MinPeerVersion : Z;
}.

Definition GetChainInfo (ord : child_order) (s : SyncService) : outcome (result ChainInfoResponse) :=
  match ss_blockchain s with
  | None => Done (Err "blockchain not initialized")
  | Some bc =>
      let! latest := GetLatestBlock ord bc in
      let! state := Store.GetState (ss_store s) in
      match state, latest with
      | Err e, _ => Done (Err ("failed to get blockchain state: " +:+ e))
      | Ok _, None => Panic "nil pointer dereference"
      | Ok st, Some b =>
          Done (Ok (mkChainInfoResponse (GetHeight bc) (hash_of_block b) (State.StateRoot st) (State.UTXOSetRoot st) 1 1 1))
      end
  end.

(** The blocks sent, and how the loop ended. *)
Fixpoint stream_from (fuel : nat) (ord ord' : child_order) (send : nat → error) (bc : Blockchain) (height endHeight : Z)
    (sent : list BlockResponse) : outcome (option (list BlockResponse * error * Blockchain)) :=
  match fuel with
  | O => Done None
  | S fuel =>
      if endHeight <? height then Done (Some (sent, None, bc))
      else
        let! (block, bc) := GetBlockByHeight ord bc height in
        match block with
        | None => Done (Some (sent, Some ("failed to get block at height " +:+ fmt_d height), bc))
        | Some b =>
            match ConvertBlockToProto ord ord' (Some b) with
            | None => Done (Some (sent, Some ("failed to convert block at height " +:+ fmt_d height), bc))
            | Some resp =>
                match send (length sent) with
                | Some e => Done (Some (sent, Some ("failed to send block: " +:+ e), bc))
                | None => stream_from fuel ord ord' send bc (u64 (height + 1)) endHeight (sent ++ [resp])
                end
            end
        end
  end.

Definition StreamBlocks (fuel : nat) (ord ord' : child_order) (send : nat → error) (s : SyncService)
    (startHeight endHeight : Z) : outcome (option (list BlockResponse * error * SyncService)) :=
  match ss_blockchain s with
  | None => Done (Some ([], Some "blockchain not initialized", s))
  | Some bc =>
      let! r := stream_from fuel ord ord' send bc startHeight endHeight [] in
      Done ((λ x, (x.1.1, x.1.2, set_blockchain s x.2)) <$> r)
  end.

(** The loop over the entries of the database: the buffer, the chunk number and
    what was sent; [inr] after a failed send. *)
Definition utxo_entry (send : nat → error) (chunkSize : Z)
    (acc : (list UTXO * Z * list UTXOResponse) + (list UTXOResponse * string)) (entry : string * dbval)
    : (list UTXO * Z * list UTXOResponse) + (list UTXOResponse * string) :=
  match acc with
  | inr r => inr r
  | inl (buffer, chunk, sent) =>
      match bytes_of_string entry.1 with
      | 3 :: _ =>
          match document entry.2 ≫= read_UTXO with
          | None => acc
          | Some u =>
              let buffer := buffer ++ [u] in
              if u32 (Z.of_nat (length buffer)) >=? chunkSize then
                match ConvertUTXOToProto (head buffer) chunk 0, send (length sent) with
                | Some r, None => inl ([], u32 (chunk + 1), sent ++ [r])
                | _, Some e => inr (sent, "failed to send UTXO chunk: " +:+ e)
                | None, None => acc
                end
              else inl (buffer, chunk, sent)
          end
      | _ => acc
      end
  end.

(** [entries] is what the iterator of the database visits. *)
Definition SyncUTXOSet (send : nat → error) (s : SyncService) (entries : list (string * dbval)) (currentHash : string)
    (chunkSize : Z) : outcome (list UTXOResponse * error) :=
  match ss_blockchain s with
  | None => Done ([], Some "blockchain not initialized")
  | Some _ =>
      let! state := Store.GetState (ss_store s) in
      match state with
      | Err e => Done ([], Some ("failed to get state: " +:+ e))
      | Ok st =>
          if str_eqb currentHash (State.UTXOSetRoot st) then Done ([], None)
          else match foldl (utxo_entry send chunkSize) (inl ([], 0, [])) entries with
          | inr (sent, e) => Done (sent, Some e)
          | inl ([], _, sent) => Done (sent, None)
          | inl (u :: _, chunk, sent) =>
              match ConvertUTXOToProto (Some u) chunk (u32 (chunk + 1)), send (length sent) with
              | Some r, None => Done (sent ++ [r], None)
              | _, Some e => Done (sent, Some ("failed to send final UTXO chunk: " +:+ e))
              | None, None => Done (sent, None)
              end
          end
      end
  end.

Definition VerifyState (s : SyncService) (stateRoot utxoRoot : string) : outcome (result bool) :=
  match ss_blockchain s with
  | None => Done (Err "blockchain not initialized")
  | Some _ =>
      let! state := Store.GetState (ss_store s) in
      Done match state with
      | Err e => Err ("failed to get state: " +:+ e)
      | Ok st => Ok (str_eqb stateRoot (State.StateRoot st) && str_eqb utxoRoot (State.UTXOSetRoot st))
      end
  end.

(** The peers announced; here the limit is checked before each. *)
Fixpoint discover (send : nat → error) (maxPeers : Z) (excluded : list string) (l : list (string * PeerState))
    (sent : list PeerState) : list PeerState * error :=
  match l with
  | [] => (sent, None)
  | (id, p) :: l =>
      if u32 (Z.of_nat (length sent)) >=? maxPeers then (sent, None)
      else if existsb (str_eqb id) excluded then discover send maxPeers excluded l sent
      else match send (length sent) with
      | Some e => (sent, Some ("failed to send peer info: " +:+ e))
      | None => discover send maxPeers excluded l (sent ++ [p])
      end
  end.

Definition DiscoverPeers (ro : range_order) (send : nat → error) (s : SyncService) (maxPeers : Z)
    (excludedPeers : list string) : list PeerState * error :=
  match ss_peers s with
  | None => ([], Some "network state not initialized")
  | Some peers => discover send maxPeers excludedPeers (range ro peers) []
  end.

(** A message that decodes to null is saved as the zero transaction. *)
Definition PropagateTransaction (s : SyncService) (tx : ProtoTransaction) : SyncService * error :=
  match ss_blockchain s with
  | None => (s, Some "blockchain not initialized")
  | Some _ =>
      match ConvertProtoToTransaction (Some tx) with
      | Ok (Some t) =>
          let '(ldb, e) := Store.SaveTransaction (ss_store s) t in
          (mkSyncService (ss_blockchain s) ldb (ss_peers s) (ss_validators s),
           (λ e, "failed to save transaction: " +:+ e) <$> e)
      | Ok None => (s, None)
      | Err e => (s, Some ("failed to convert transaction: " +:+ e))
      end
  end.

(** Address, score and last activity of the active validators, with the height. *)
Definition SyncValidatorSet (ro : range_order) (ord : child_order) (s : SyncService)
    : outcome (result (list (string * Z * Z) * Z)) :=
  match ss_blockchain s with
  | None => Done (Err "blockchain not initialized")
  | Some bc =>
      let! latest := GetLatestBlock ord bc in
      match latest with
      | None => Panic "nil pointer dereference"
      | Some b =>
          Done (Ok ((λ e, (e.1, Score e.2, val_LastActive e.2)) <$>
                      filter (λ e, Status e.2 =? ValidatorStatusActive) (range ro (ss_validators s)),
                    BlockNumber (Header b)))
      end
  end.

Definition RecoverValidator (now : Z) (s : SyncService) (address : string) : outcome (SyncService * result Z) :=
  match ss_blockchain s with
  | None => Panic "nil pointer dereference"
  | Some _ =>
      match ss_validators s !! address with
      | None => Done (s, Err "validator not found")
      | Some v =>
          let! (v, e) := Val.Recover now v in
          let s := mkSyncService (ss_blockchain s) (ss_store s) (ss_peers s) (<[address := v]> (ss_validators s)) in
          Done (s, match e with Some e => Err ("failed to recover validator: " +:+ e) | None => Ok (Status v) end)
      end
  end.

(** ** The exchange of chains over a stream *)

(** The hash of the tip and of the chain's own set of outputs, in map order. *)
Definition CalculateStateHash (ro : range_order) (ord : child_order) (bc : Blockchain) (utxoSet : utxo_set)
    : outcome string :=
  let! latest := GetLatestBlock ord bc in
  Done (sha_hex (foldl (λ s e, s +:+ utxo_TransactionID e.2 +:+ "-" +:+ fmt_d (utxo_OutputIndex e.2) +:+ "-"
                                 +:+ fmt_f 6 (utxo_Amount e.2))
                  (match latest with Some b => block_hash b | None => "" end) (range ro utxoSet))).

(** [ChainInfo] as a document; the timestamp is a nil pointer. *)
Definition chain_info_document (height : Z) (lastBlockHash stateRoot : string) : option json :=
  marshal_struct
    [("Height", marshal_int height); ("LastBlockHash", marshal_string lastBlockHash);
     ("StateRoot", marshal_string stateRoot); ("UTXORoot", marshal_string ""); ("NetworkVersion", marshal_int 0);
     ("ProtocolVersion", marshal_int 0); ("MinPeerVersion", marshal_int 0); ("Timestamp", Some JNull)].

(** The blocks of a batch; an error names the missing height. *)
Fixpoint read_batch (ord : child_order) (bc : Blockchain) (height : Z) (n : nat) : outcome (result (list Block) * Blockchain) :=
  match n with
  | O => Done (Ok [], bc)
  | S n =>
      let! (r, bc) := GetBlockByHeight ord bc height in
      match r with
      | None => Done (Err ("failed to get block at height " +:+ fmt_d height), bc)
      | Some b =>
          let! (rest, bc) := read_batch ord bc (u64 (height + 1)) n in
          Done (match rest with Ok bs => Ok (b :: bs) | Err e => Err e end, bc)
      end
  end.

(** The documents written, and the error if any; [write] is the result of writing
    the n-th document. *)
Fixpoint send_batches (fuel : nat) (ord : child_order) (write : nat → error) (bc : Blockchain) (height endHeight : Z)
    (sent : list json) : outcome (option (list json * error * Blockchain)) :=
  match fuel with
  | O => Done None
  | S fuel =>
      if endHeight <? height then Done (Some (sent, None, bc))
      else
        let batchEnd := u64 (u64 (height + 10) - 1) in
        let batchEnd := if batchEnd >? endHeight then endHeight else batchEnd in
        let! (r, bc) := read_batch ord bc height (Z.to_nat (batchEnd - height + 1)) in
        match r with
        | Err e => Done (Some (sent, Some e, bc))
        | Ok bs =>
            match JArr <$> mapM (simplified_document ord) bs, write (length sent) with
            | Some j, None => send_batches fuel ord write bc (u64 (height + 10)) endHeight (sent ++ [j])
            | None, _ => Done (Some (sent, Some ("failed to send block batch: " +:+ JsonUnsupported), bc))
            | _, Some e => Done (Some (sent, Some ("failed to send block batch: " +:+ e), bc))
            end
        end
  end.

Definition sendChainToPeer (fuel : nat) (ro : range_order) (ord : child_order) (write : nat → error) (utxoSet : utxo_set)
    (bc : Blockchain) (startHeight endHeight : Z) : outcome (option (list json * error * Blockchain)) :=
  let! latest := GetLatestBlock ord bc in
  match latest with
  | None => Panic "nil pointer dereference"
  | Some b =>
      let! stateRoot := CalculateStateHash ro ord bc utxoSet in
      match chain_info_document endHeight (hash_of_block b) stateRoot, write 0%nat with
      | Some info, None => send_batches fuel ord write bc (u64 (startHeight + 1)) endHeight [info]
      | None, _ => Done (Some ([], Some ("failed to send chain info: " +:+ JsonUnsupported), bc))
      | _, Some e => Done (Some ([], Some ("failed to send chain info: " +:+ e), bc))
      end
  end.

(** [SyncRequest] *)
Definition request_fields : sfields Z (Z → Z) := FCons "height" u64_codec (λ h, h) FEnd.
Definition request_codec : Codec Z := struct_codec request_fields (λ h, h) 0.

(** What a handled request leads to besides the documents written. *)
Inductive sync_action : Type :=
  | Ignored
  | GenesisBroadcast
  | SyncStarted
  | ChainSent (e : error).

(** [is_genesis]: the genesis validator is this node; [broadcast] the result of
    announcing the genesis block, [wallet] and [utxoSet] what [InitializeChain]
    reads. *)
Definition handleSyncRequest (fuel : nat) (ro : range_order) (ord : child_order) (now : Z) (write : nat → error)
    (is_genesis : bool) (broadcast : error) (wallet : option string) (utxoSet : utxo_set) (bc : Blockchain)
    (request : dbval) : outcome (option (list json * list sync_action * Blockchain)) :=
  match document request ≫= @dec _ request_codec with
  | None => Done (Some ([], [Ignored], bc))
  | Some reqHeight =>
      let currentHeight := GetHeight bc in
      let proceed := λ (done : list sync_action) (bc : Blockchain),
        if reqHeight >? currentHeight then Done (Some ([], done ++ [SyncStarted], bc))
        else if currentHeight >? reqHeight then
          let! r := sendChainToPeer fuel ro ord write utxoSet bc reqHeight currentHeight in
          Done ((λ x, (x.1.1, done ++ [ChainSent x.1.2], x.2)) <$> r)
        else Done (Some ([], done ++ [Ignored], bc)) in
      if currentHeight =? 0 then
        if is_genesis then
          match InitializeChain block_document now wallet utxoSet bc with
          | (bc, Some _) => Done (Some ([], [Ignored], bc))
          | (bc, None) =>
              match broadcast with
              | Some _ => Done (Some ([], [Ignored], bc))
              | None => proceed [GenesisBroadcast] bc
              end
          end
        else Done (Some ([], [Ignored], bc))
      else proceed [] bc
  end.

(** The request of [syncWithPeer]. *)
Definition sync_request (currentHeight : Z) : option json :=
  marshal_struct [("start_height", marshal_int currentHeight); ("end_height", marshal_int 0)].

(** The elements of an array of blocks: every one is decoded, also after a failure. *)
Fixpoint decode_blocks (ord : child_order) (l : list json) : outcome (option (list Block)) :=
  match l with
  | [] => Done (Some [])
  | j :: l =>
      let! b := read_block ord j in
      let! bs := decode_blocks ord l in
      Done (b ← b; bs ← bs; Some (b :: bs))
  end.

(** The blocks and the error of a response; [None] for one that does not decode. *)
Definition decode_response (ord : child_order) (j : json) : outcome (option (list Block * string)) :=
  match j with
  | JNull => Done (Some ([], ""))
  | JObj fs =>
      let! bs := match field_fold fs "blocks" with
                 | None | Some JNull => Done (Some [])
                 | Some (JArr l) => decode_blocks ord l
                 | Some _ => Done None
                 end in
      Done (bs ← bs; e ← get fs "error"; Some (bs, e))
  | _ => Done None
  end.

(** Blocks are appended as they come; a failure to process one is logged. *)
Definition add_blocks (ro ro' : range_order) (ord : child_order) (now : Z) (bc : Blockchain) (bs : list Block)
    : outcome Blockchain :=
  foldl (λ acc b, let! bc := acc in let! (bc, _) := AddBlockWithoutValidation ro ro' ord now bc b in Done bc) (Done bc) bs.

(** [response] is the first document that the peer writes, [None] if the stream
    cannot be opened or fails. *)
Definition syncWithPeer (ro ro' : range_order) (ord : child_order) (now : Z) (bc : Blockchain) (response : option dbval)
    : outcome (Blockchain * error) :=
  match response with
  | None => Done (bc, Some "failed to receive blocks: EOF")
  | Some r =>
      let! d := match document r with None => Done None | Some j => decode_response ord j end in
      match d with
      | None => Done (bc, Some ("failed to receive blocks: " +:+ JsonBadInput))
      | Some (bs, e) =>
          if negb (str_eqb e "") then Done (bc, None)
          else let! bc := add_blocks ro ro' ord now bc bs in Done (bc, None)
      end
  end.

End service.
