(* ===== verification/SyncFacts.v ===== *)
(** * Correctness of the synchronisation service

    Blocks survive the conversion to protocol messages and are streamed in order;
    the exchange over a stream, on the other hand, transfers nothing, because its
    two sides speak different documents. *)

From stdpp Require Import base gmap strings list.
From Stdlib Require Import ZArith Lia.
From S2P Require Import Prelude.
From S2P Require Import Float64.
From S2P Require Import Sha256.
From S2P Require Import Json.
From S2P Require Import Database.
From S2P Require Import Transaction.
From S2P Require Import Account.
From S2P Require Import Utxo.
From S2P Require Import Trie.
From S2P Require Import TrieFacts.
From S2P Require Import Stake.
From S2P Require Import Block.
From S2P Require Import BlockJson.
From S2P Require Import BlockFacts.
From S2P Require Import Chain.
From S2P Require Import ChainFacts.
From S2P Require Import ChainStore.
From S2P Require Import ChainStoreFacts.
From S2P Require Import Validator.
From S2P Require Import Sync.

(** ** Conversions *)
Lemma Unmarshal_reachable ord s : fair_children ord → trie_reachable (block_Transactions (Blk.UnmarshalJSON ord s)).
Proof.
  intros Hord. unfold Blk.UnmarshalJSON.
  assert (trie_reachable (foldl Trie.Insert Trie.NewPatriciaTrie (Blk.sb_TxList s))) as Hr
    by (apply InsertBatch_reachable; constructor).
  apply (reach_hash _ ord Hord) in Hr. destruct (Trie.GenerateRootHash ord _) as [root trie]. exact Hr.
Qed.

(** A block as its receiver sees it: all but the Merkle root and the caches. *)
Definition received_as (b b' : Block) : Prop :=
  block_hash b' = block_hash b ∧ originalHash b' = originalHash b ∧ Receipts b' = Receipts b ∧
  CumulativeDifficulty b' = CumulativeDifficulty b ∧ (∃ root, Header b' = set_merkle (Header b) root) ∧
  ∀ ord ord', fair_children ord → fair_children ord' →
    Trie.GetAllTransactions ord (block_Transactions b') ≡ₚ Trie.GetAllTransactions ord' (block_Transactions b).

(** A block that can be sent. *)
Definition transferable (b : Block) : Prop :=
  trie_reachable (block_Transactions b) ∧ block_hash b ≠ "" ∧ ∀ ord, fair_children ord → block_storable ord b.

Lemma stored_transactions ord b : block_storable ord b →
  Forall storable (Trie.GetAllTransactions ord (block_Transactions b)).
Proof. intros (_ & _ & _ & Hb & _). by destruct Hb as ((_ & Ht & _) & _). Qed.

Lemma decode_encoded l : Forall (storable (A := Transaction)) l →
  omap (λ d, document d ≫= dec) (omap (λ tx, DJson <$> enc tx) l) = l.
Proof.
  induction 1 as [|tx l Htx _ IH]; [done|]. destruct (dec_enc tx Htx) as (j & E & D).
  cbn [omap list_omap]. rewrite E. cbn [fmap option_fmap option_map omap list_omap document mbind option_bind].
  rewrite D. by f_equal.
Qed.

Lemma block_transfer ord ord' ord'' b : fair_children ord → fair_children ord' → fair_children ord'' → transferable b →
  ∃ resp b', ConvertBlockToProto ord ord' (Some b) = Some resp ∧ br_Height resp = BlockNumber (Header b) ∧
    ConvertProtoToBlock ord'' (Some resp) = Done (Some b') ∧ received_as b b'.
Proof.
  intros Hord Hord' Hord'' (Hr & Hh & Hst).
  destruct (simplified_round_trip ord ord'' b (Hst ord Hord)) as (j & Ej & Ed).
  destruct (Unmarshal_Marshal ord ord'' ord'' b Hord Hord'' Hord'' Hr Hh) as (H1 & H2 & H3 & H4 & H5 & H6).
  unfold ConvertBlockToProto, ConvertProtoToBlock. rewrite Ej. cbn [mbind option_bind].
  eexists _, _. split; [reflexivity|]. split; [done|]. cbn [br_BlockData br_TransactionData document]. rewrite Ed.
  cbn [obind fmap option_fmap option_map]. split; [reflexivity|].
  rewrite decode_encoded by (by apply stored_transactions, Hst).
  set (b1 := Blk.UnmarshalJSON ord'' (Blk.MarshalJSON ord b)) in *.
  pose proof (Unmarshal_reachable ord'' (Blk.MarshalJSON ord b) Hord'') as Hr1. fold b1 in Hr1.
  destruct (reinsert_list ord'' (block_Transactions b1) (Trie.GetAllTransactions ord' (block_Transactions b)) Hord'' Hr1)
    as [Hr2 Hp].
  { apply Forall_forall. intros tx Htx. by rewrite H5, (GetAll_orders ord ord'). }
  split_and!; [done..|]. intros o o' Ho Ho'. cbn [set_transactions block_Transactions].
  rewrite (GetAll_orders o ord'' _ Ho Hord'' Hr2), Hp, H5. by apply GetAll_orders.
Qed.

(** Of an output only the transaction, the amount and the owner are sent: two
    outputs of a transaction with the same owner and amount arrive as one. *)
Theorem utxo_transfer_loses (u u' : UTXO) (chunk total : Z) :
  utxo_TransactionID u = utxo_TransactionID u' → utxo_Amount u = utxo_Amount u' → utxo_Owner u = utxo_Owner u' →
  ConvertProtoToUTXO (ConvertUTXOToProto (Some u) chunk total) =
  ConvertProtoToUTXO (ConvertUTXOToProto (Some u') chunk total).
Proof. intros E1 E2 E3. cbn. by rewrite E1, E2, E3. Qed.

(** ** Streaming blocks *)
Section stream.
Context `{KV}.

Definition numbered (l : list Block) : Prop := ∀ i b, l !! i = Some b → BlockNumber (Header b) = Z.of_nat i.

Lemma height_numbered bc : numbered (Chain bc) → Chain bc ≠ [] → GetHeight bc = Z.of_nat (length (Chain bc)) - 1.
Proof.
  intros Hn Hne. unfold GetHeight. rewrite last_lookup. destruct (Chain bc !! pred (length (Chain bc))) as [b|] eqn:E.
  - rewrite (Hn _ _ E). destruct (Chain bc); [done|]. cbn. lia.
  - apply lookup_ge_None in E. destruct (Chain bc); [done|]. cbn in E. lia.
Qed.

(** A block of the chain as a lookup returns it, hashed. *)
Definition read_out (b : Block) : Block := set_hashes (hashed b) (hash_of_block (hashed b)) (originalHash (hashed b)).

Lemma header_read_out b : Header (read_out b) = Header b.
Proof. apply header_hashed. Qed.

Lemma numbered_insert l i b : numbered l → l !! i = Some b → numbered (<[i := read_out b]> l).
Proof.
  intros Hn Hi j c Hj. destruct (decide (i = j)) as [->|Hne].
  - rewrite list_lookup_insert_eq in Hj by (by eapply lookup_lt_Some). injection Hj as <-.
    rewrite header_read_out. by apply Hn.
  - rewrite list_lookup_insert_ne in Hj by done. by apply Hn.
Qed.

Lemma GetBlockByHeight_numbered ord bc i b : numbered (Chain bc) → Chain bc !! i = Some b →
  GetBlockByHeight ord bc (Z.of_nat i) = Done (Some (read_out b), set_chain bc (<[i := read_out b]> (Chain bc))).
Proof.
  intros Hn Hi. unfold GetBlockByHeight.
  assert (list_find (λ b, BlockNumber (Header b) = Z.of_nat i) (Chain bc) = Some (i, b)) as ->; [|done].
  apply list_find_Some. split_and!; [done|by apply Hn|]. intros j c Hj Hlt. apply Hn in Hj. lia.
Qed.

Lemma stream_from_blocks ord ord' ord'' send n : fair_children ord → fair_children ord' → fair_children ord'' →
  (∀ k, send k = None) → ∀ fuel bc s sent, (n < fuel)%nat → numbered (Chain bc) →
  (s + n ≤ length (Chain bc))%nat → Z.of_nat (length (Chain bc)) < 2 ^ 64 →
  Forall (λ b, transferable (read_out b)) (drop s (Chain bc)) →
  ∃ resps bc', stream_from fuel ord ord' send bc (Z.of_nat s) (Z.of_nat (s + n) - 1) sent
      = Done (Some (sent ++ resps, None, bc')) ∧
    Forall2 (λ b r, ∃ b', ConvertProtoToBlock ord'' (Some r) = Done (Some b') ∧ received_as (read_out b) b')
      (take n (drop s (Chain bc))) resps.
Proof.
  intros Hord Hord' Hord'' Hsend. induction n as [|n IH]; intros [|fuel] bc s sent Hf Hn Hlen Hbig Htr; try lia; cbn [stream_from].
  { rewrite (proj2 (Z.ltb_lt _ _)) by lia. exists [], bc. by rewrite app_nil_r. }
  rewrite (proj2 (Z.ltb_ge _ _)) by lia.
  destruct (lookup_lt_is_Some_2 (Chain bc) s) as [b Hb]; [lia|].
  rewrite (GetBlockByHeight_numbered ord bc s b Hn Hb). cbn [obind].
  rewrite (drop_S _ _ _ Hb) in Htr. apply Forall_cons in Htr as [Hb' Htr].
  destruct (block_transfer ord ord' ord'' _ Hord Hord' Hord'' Hb') as (resp & b' & Ec & _ & Ed & Hre).
  rewrite Ec, Hsend. set (bc1 := set_chain bc _).
  rewrite u64_small by (unfold is_u64; lia). replace (Z.of_nat s + 1) with (Z.of_nat (S s)) by lia.
  replace (Z.of_nat (s + S n) - 1) with (Z.of_nat (S s + n) - 1) by lia.
  assert (drop (S s) (Chain bc1) = drop (S s) (Chain bc)) as Hdrop by (apply drop_insert_lt; lia).
  destruct (IH fuel bc1 (S s) (sent ++ [resp])) as (resps & bc' & E & Hall).
  - lia.
  - by apply numbered_insert.
  - unfold bc1. cbn. rewrite length_insert. lia.
  - unfold bc1. cbn. by rewrite length_insert.
  - by rewrite Hdrop.
  - exists (resp :: resps), bc'. rewrite E, <-app_assoc. split; [done|].
    rewrite Hdrop in Hall. rewrite (drop_S _ _ _ Hb). cbn [take]. constructor; [by exists b'|done].
Qed.

(** Asked for the heights from [first] to [last], both on its chain, the
    service streams exactly those blocks in order, and the receiver decodes each
    to the same block: hash, header (but for the recomputed Merkle root),
    receipts, difficulty and transactions. *)
Theorem StreamBlocks_transfers (fuel : nat) (ord ord' ord'' : child_order) (send : nat → error) (s : SyncService)
    (bc : Blockchain) (first last : nat) :
  fair_children ord → fair_children ord' → fair_children ord'' → (∀ k, send k = None) →
  ss_blockchain s = Some bc → numbered (Chain bc) → Forall (λ b, transferable (read_out b)) (Chain bc) →
  Z.of_nat (length (Chain bc)) < 2 ^ 64 → (first ≤ last < length (Chain bc))%nat → (last - first + 1 < fuel)%nat →
  ∃ resps s', StreamBlocks fuel ord ord' send s (Z.of_nat first) (Z.of_nat last) = Done (Some (resps, None, s')) ∧
    Forall2 (λ b r, ∃ b', ConvertProtoToBlock ord'' (Some r) = Done (Some b') ∧ received_as (read_out b) b')
      (take (last - first + 1) (drop first (Chain bc))) resps.
Proof.
  intros Hord Hord' Hord'' Hsend Hbc Hn Htr Hbig Hle Hf. unfold StreamBlocks. rewrite Hbc.
  destruct (stream_from_blocks ord ord' ord'' send (last - first + 1) Hord Hord' Hord'' Hsend fuel bc first [] Hf Hn)
    as (resps & bc' & E & Hall); [lia|done|by apply Forall_drop|].
  replace (Z.of_nat (first + (last - first + 1)) - 1) with (Z.of_nat last) in E by lia.
  rewrite E. cbn [obind fmap option_fmap option_map fst snd app]. by eexists _, _.
Qed.

Lemma stream_from_ends ord ord' send n : ∀ fuel bc h last sent, (n < fuel)%nat → 0 ≤ h → last < 2 ^ 64 - 1 →
  last - h + 1 ≤ Z.of_nat n → stream_from fuel ord ord' send bc h last sent ≠ Done None.
Proof.
  induction n as [|n IH]; intros [|fuel] bc h last sent Hf Hh Hl Hn; try lia; cbn [stream_from].
  { by rewrite (proj2 (Z.ltb_lt _ _)) by lia. }
  destruct (Z.ltb_spec last h); [done|]. destruct (GetBlockByHeight ord bc h) as [[[b|] bc']| |]; try done.
  cbn [obind]. destruct (ConvertBlockToProto ord ord' (Some b)); [|done]. destruct (send (length sent)); [done|].
  rewrite u64_small by (unfold is_u64; lia). apply IH; lia.
Qed.

(** A request for blocks is answered in finitely many turns, one per height, if
    its last height is below the largest 64-bit number. *)
Theorem StreamBlocks_returns (fuel : nat) (ord ord' : child_order) (send : nat → error) (s : SyncService)
    (first last : Z) :
  is_u64 first → last < 2 ^ 64 - 1 → (Z.to_nat (last - first + 1) < fuel)%nat →
  StreamBlocks fuel ord ord' send s first last ≠ Done None.
Proof.
  intros [H0 _] Hl Hf. unfold StreamBlocks. destruct (ss_blockchain s) as [bc|]; [|done].
  pose proof (stream_from_ends ord ord' send (Z.to_nat (last - first + 1)) fuel bc first last [] Hf H0 Hl ltac:(lia)) as He.
  by destruct (stream_from _ _ _ _ _ _ _ _) as [[|]| |].
Qed.

(** ** The exchange over a stream *)

(** A service that answers the request of [syncWithPeer] writes the chain's
    description first, in which the requester finds no blocks: whatever the two
    chains are, the requester adds nothing and reports success. *)
Lemma request_reads_zero h : ∃ j, sync_request h = Some j ∧ @dec _ request_codec j = Some 0.
Proof. eexists. split; [reflexivity|]. reflexivity. Qed.

Lemma send_batches_app fuel ord write : ∀ bc h e sent docs err bc',
  send_batches fuel ord write bc h e sent = Done (Some (docs, err, bc')) → sent `prefix_of` docs.
Proof.
  induction fuel as [|fuel IH]; intros bc h e sent docs err bc' E; cbn [send_batches] in E; [done|].
  destruct (e <? h); [by injection E as <- _ _|]. apply obind_Done_inv in E as ([r bc1] & _ & E).
  destruct r as [bs|?]; [|by injection E as <- _ _].
  destruct (JArr <$> _) as [j|]; [|by injection E as <- _ _]. destruct (write _); [by injection E as <- _ _|].
  apply IH in E. etrans; [|exact E]. by apply prefix_app_r.
Qed.

Lemma decode_chain_info ord h lbh sr j : chain_info_document h lbh sr = Some j → decode_response ord j = Done (Some ([], "")).
Proof. intros E. injection E as <-. reflexivity. Qed.

(** The service and its own client do not understand each other: to the request
    that [syncWithPeer] writes, a node with a higher chain answers with documents
    of which the requester decodes the first as an empty list of blocks. It adds
    nothing and reports success, whatever the two chains are. *)
Theorem exchange_transfers_nothing (fuel : nat) (ro ro1 ro2 : range_order) (ord ord' : child_order) (now : Z)
    (write : nat → error) (is_genesis : bool) (broadcast : error) (wallet : option string) (utxoSet : utxo_set)
    (server server' client : Blockchain) (request : json) (docs : list json) (actions : list sync_action) :
  0 < GetHeight server → sync_request (GetHeight client) = Some request →
  handleSyncRequest fuel ro ord now write is_genesis broadcast wallet utxoSet server (DJson request)
    = Done (Some (docs, actions, server')) →
  syncWithPeer ro1 ro2 ord' now client (DJson <$> head docs) =
    Done (client, match docs with [] => Some "failed to receive blocks: EOF" | _ => None end).
Proof.
  intros Hh Hreq E. destruct (request_reads_zero (GetHeight client)) as (j & Ej & Ed).
  rewrite Hreq in Ej. injection Ej as <-. unfold handleSyncRequest in E.
  cbn [document mbind option_bind] in E. rewrite Ed in E.
  assert ((GetHeight server =? 0) = false) as Hz by (apply Z.eqb_neq; lia). rewrite Hz in E.
  assert ((0 >? GetHeight server) = false) as Hg by (rewrite Z.gtb_ltb; apply Z.ltb_ge; lia). rewrite Hg in E.
  assert ((GetHeight server >? 0) = true) as Hg' by (rewrite Z.gtb_ltb; apply Z.ltb_lt; lia). rewrite Hg' in E.
  apply obind_Done_inv in E as (r & Er & E). destruct r as [[[docs1 err] bc1]|]; [|done].
  injection E as -> _ _. unfold sendChainToPeer in Er. apply obind_Done_inv in Er as (latest & _ & Er).
  destruct latest as [b|]; [|done]. apply obind_Done_inv in Er as (sr & _ & Er).
  destruct (chain_info_document _ _ sr) as [info|] eqn:Ei; [|by injection Er as <- _ _].
  destruct (write 0%nat); [by injection Er as <- _ _|].
  apply send_batches_app in Er as [rest ->]. cbn [app head fmap option_fmap option_map].
  unfold syncWithPeer. cbn [document]. by rewrite (decode_chain_info _ _ _ _ _ Ei).
Qed.

End stream.

(** ** Concrete exchanges *)
Definition demo_service (bc : @Blockchain mem_kv) : @SyncService mem_kv := mkSyncService (Some bc) open_db None ∅.
Definition demo_server : @Blockchain mem_kv := start plain_block [].
Definition sends (k : nat) : error := None.

Lemma plain_transferable : transferable (read_out plain_block).
Proof.
  split; [constructor|]. split; [discriminate|]. intros ord Hord. unfold block_storable.
  assert (Blk.MarshalJSON ord (read_out plain_block) = Blk.MarshalJSON (λ l, l) plain_block) as ->.
  { unfold Blk.MarshalJSON. change (block_Transactions (read_out plain_block)) with Trie.NewPatriciaTrie.
    change (block_Transactions plain_block) with Trie.NewPatriciaTrie. rewrite !new_trie_empty; [reflexivity|exact fair_children_id|exact Hord]. }
  exact plain_block_storable.
Qed.

Lemma StreamBlocks_transfers_witness : ∃ resps s',
  StreamBlocks 3 (λ l, l) reverse sends (demo_service demo_server) 0 0 = Done (Some (resps, None, s')) ∧
  length resps = 1%nat.
Proof.
  destruct (StreamBlocks_transfers 3 (λ l, l) reverse (λ l, l) sends (demo_service demo_server) demo_server 0 0
    fair_children_id fair_children_reverse fair_children_id (λ _, eq_refl) eq_refl) as (resps & s' & E & Hall).
  - intros [|i] b Hb; [injection Hb as <-; reflexivity|]. destruct i; discriminate Hb.
  - apply Forall_singleton. exact plain_transferable.
  - reflexivity.
  - cbn. lia.
  - cbn. lia.
  - exists resps, s'. split; [exact E|]. symmetry. exact (Forall2_length _ _ _ Hall).
Defined.

Lemma StreamBlocks_returns_witness :
  StreamBlocks 102 (λ l, l) reverse sends (demo_service demo_server) 0 100 ≠ Done None.
Proof.
  apply (StreamBlocks_returns 102 (λ l, l) reverse sends (demo_service demo_server) 0 100).
  - split; [lia|reflexivity].
  - reflexivity.
  - apply Nat.ltb_lt. reflexivity.
Defined.

Definition tall_server : @Blockchain mem_kv := start plain_block [child plain_block "c" 2].

Lemma exchange_transfers_nothing_witness : ∃ request docs actions server',
  handleSyncRequest 5 (λ l, l) (λ l, l) 0 sends false None None ∅ tall_server (DJson request)
    = Done (Some (docs, actions, server')) ∧
  syncWithPeer (λ l, l) (λ l, l) (λ l, l) 0 demo_server (DJson <$> head docs) =
    Done (demo_server, match docs with [] => Some "failed to receive blocks: EOF" | _ => None end).
Proof.
  destruct (request_reads_zero (GetHeight demo_server)) as (request & Hr & _). exists request.
  assert (match handleSyncRequest 5 (λ l, l) (λ l, l) 0 sends false None None ∅ tall_server
            (DJson (default JNull (sync_request (GetHeight demo_server)))) with
          | Done (Some _) => true | _ => false end = true) as Hd by (vm_compute; reflexivity).
  rewrite Hr in Hd. cbn [default from_option id] in Hd.
  destruct (handleSyncRequest _ _ _ _ _ _ _ _ _ _ _) as [[[[docs actions] server']|]| |] eqn:E; [|discriminate..].
  exists docs, actions, server'. split; [reflexivity|].
  apply (exchange_transfers_nothing 5 (λ l, l) (λ l, l) (λ l, l) (λ l, l) (λ l, l) 0 sends false None None ∅
    tall_server server' demo_server request docs actions); [reflexivity|exact Hr|exact E].
Defined.
