(* ===== verification/Peers.v ===== *)
(** * Peers and the liveness of validators ([peer_manager.go], [validator_protocol.go])

    [Module PeerManager]: the table of peers with scores, blacklist, votes and
    synchronisation state. [Module ValidatorProtocol]: heartbeats and timeouts.
    Peer identities are strings; connecting, sending and the replies of peers are
    arguments. Times are nanoseconds. *)

From stdpp Require Import base gmap strings list.
From Stdlib Require Import ZArith Lia.
From S2P Require Import Prelude.
From S2P Require Import Sha256.
From S2P Require Import Json.
From S2P Require Import Database.
From S2P Require Import Account.
From S2P Require Import Utxo.
From S2P Require Import Trie.
From S2P Require Import Block.
From S2P Require Import Chain.
From S2P Require Import ChainStore.

Definition maxPeers : Z := 50.
Definition peerScoreInit : Z := 100.
Definition peerScoreMax : Z := 1000.
Definition peerScoreMin : Z := -100.
Definition ScoreValidBlock : Z := 5.
Definition ScoreInvalidBlock : Z := -10.
Definition ScoreGoodLatency : Z := 2.
Definition ScorePoorLatency : Z := -2.
Definition ScoreValidTransaction : Z := 1.
Definition ScoreInvalidTx : Z := -2.
Definition ReputationThresholdGood : Z := 50.
Definition MaxRollbackBlocks : nat := 100.
Definition MinProtocolVersion : string := "1.0.0".
Definition MaxBootnodeRetries : nat := 5.

Record LatencyStats := mkLatencyStats {
  AverageLatency : Z;
  LastLatency : Z;
  LatencyHistory : list Z;
  LastLatencyCheck : Z;
}.

Record PeerInfo := mkPeerInfo {
  pi_Score : Z;
  pi_LastSeen : Z;
  pi_Connected : bool;
  pi_Blacklisted : bool;
  pi_ConnectedAt : Z;
  pi_DisconnectedAt : Z;
  pi_IsSyncing : bool;
  pi_SyncProgress : Z * Z;
  pi_Version : string;
  pi_Capabilities : list string;
  pi_LatencyStats : LatencyStats;
  pi_ValidBlocks : Z;
  pi_InvalidBlocks : Z;
  pi_ValidTxs : Z;
  pi_InvalidTxs : Z;
  pi_LastVote : string;
}.

Definition set_score (i : PeerInfo) (s : Z) : PeerInfo :=
  mkPeerInfo s (pi_LastSeen i) (pi_Connected i) (pi_Blacklisted i) (pi_ConnectedAt i) (pi_DisconnectedAt i)
    (pi_IsSyncing i) (pi_SyncProgress i) (pi_Version i) (pi_Capabilities i) (pi_LatencyStats i) (pi_ValidBlocks i)
    (pi_InvalidBlocks i) (pi_ValidTxs i) (pi_InvalidTxs i) (pi_LastVote i).

Definition set_connection (i : PeerInfo) (connected blacklisted : bool) (disconnectedAt : Z) : PeerInfo :=
  mkPeerInfo (pi_Score i) (pi_LastSeen i) connected blacklisted (pi_ConnectedAt i) disconnectedAt
    (pi_IsSyncing i) (pi_SyncProgress i) (pi_Version i) (pi_Capabilities i) (pi_LatencyStats i) (pi_ValidBlocks i)
    (pi_InvalidBlocks i) (pi_ValidTxs i) (pi_InvalidTxs i) (pi_LastVote i).

Definition set_sync (i : PeerInfo) (syncing : bool) (progress : Z * Z) : PeerInfo :=
  mkPeerInfo (pi_Score i) (pi_LastSeen i) (pi_Connected i) (pi_Blacklisted i) (pi_ConnectedAt i) (pi_DisconnectedAt i)
    syncing progress (pi_Version i) (pi_Capabilities i) (pi_LatencyStats i) (pi_ValidBlocks i)
    (pi_InvalidBlocks i) (pi_ValidTxs i) (pi_InvalidTxs i) (pi_LastVote i).

Definition set_protocol (i : PeerInfo) (version : string) (capabilities : list string) : PeerInfo :=
  mkPeerInfo (pi_Score i) (pi_LastSeen i) (pi_Connected i) (pi_Blacklisted i) (pi_ConnectedAt i) (pi_DisconnectedAt i)
    (pi_IsSyncing i) (pi_SyncProgress i) version capabilities (pi_LatencyStats i) (pi_ValidBlocks i)
    (pi_InvalidBlocks i) (pi_ValidTxs i) (pi_InvalidTxs i) (pi_LastVote i).

Definition set_latency (i : PeerInfo) (l : LatencyStats) : PeerInfo :=
  mkPeerInfo (pi_Score i) (pi_LastSeen i) (pi_Connected i) (pi_Blacklisted i) (pi_ConnectedAt i) (pi_DisconnectedAt i)
    (pi_IsSyncing i) (pi_SyncProgress i) (pi_Version i) (pi_Capabilities i) l (pi_ValidBlocks i)
    (pi_InvalidBlocks i) (pi_ValidTxs i) (pi_InvalidTxs i) (pi_LastVote i).

Definition set_counts (i : PeerInfo) (vb ib vt it : Z) : PeerInfo :=
  mkPeerInfo (pi_Score i) (pi_LastSeen i) (pi_Connected i) (pi_Blacklisted i) (pi_ConnectedAt i) (pi_DisconnectedAt i)
    (pi_IsSyncing i) (pi_SyncProgress i) (pi_Version i) (pi_Capabilities i) (pi_LatencyStats i) vb ib vt it
    (pi_LastVote i).

(** The outcome of a vote: the state with most votes, the counts, and whether it
    has a majority. *)
Record VotingResult := mkVotingResult {
  vr_QuorumReached : bool;
  vr_WinningState : string;
  vr_VoteCount : gmap string Z;
}.

Record ChainStateVerification := mkChainStateVerification {
  cv_StateRoot : string;
  cv_ConsensusRoot : string;
  cv_Responses : gmap string string;
  cv_HasConsensus : bool;
  cv_ConsensusReached : bool;
}.

(** [PeerValidationStrategy] and [PeerAdditionConfig]. *)
Inductive strategy : Type := BasicValidation | StrictValidation | CustomValidation | UnknownValidation.
Record PeerAdditionConfig := mkPeerAdditionConfig { MaxTrustedPeers : Z; ValidationStrategy : strategy }.

Module PeerManager.

Record t := mk {
  mutex : Prelude.mutex;
  peers : gmap string PeerInfo;
  blacklist : gmap string Z;
}.

Definition NewPeerManager : t := mk Unlocked ∅ ∅.

Definition set_peers (pm : t) (ps : gmap string PeerInfo) : t := mk (mutex pm) ps (blacklist pm).

(** [pm.mutex.Lock(); defer pm.mutex.Unlock()] around a body, and the reader's. *)
Definition locked {A} (pm : t) (body : t → outcome (t * A)) : outcome (t * A) :=
  let! m := mutex_Lock (mutex pm) in
  let! (pm, a) := body (mk m (peers pm) (blacklist pm)) in
  Done (mk Unlocked (peers pm) (blacklist pm), a).

Definition rlocked {A} (pm : t) (body : A) : outcome A := let! _ := mutex_RLock (mutex pm) in Done body.

(** A change to the entry of a peer, if it is there. *)
Definition update (pm : t) (id : string) (f : PeerInfo → PeerInfo) : outcome t :=
  let! (pm, _) := locked pm (λ pm, Done (set_peers pm (alter f id (peers pm)), tt)) in Done pm.

Definition new_info (now : Z) : PeerInfo :=
  mkPeerInfo peerScoreInit now true false now 0 false (0, 0) "" [] (mkLatencyStats 0 0 [] 0) 0 0 0 0 "".

Definition AddPeer (now : Z) (pm : t) (id : string) : outcome t :=
  let! (pm, _) := locked pm (λ pm, Done (match peers pm !! id with
    | Some _ => pm
    | None => set_peers pm (<[id := new_info now]> (peers pm))
    end, tt)) in Done pm.

Definition RemovePeer (now : Z) (pm : t) (id : string) : outcome t :=
  update pm id (λ i, set_connection i false (pi_Blacklisted i) now).

Definition clamp (s : Z) : Z :=
  let s := if s >? peerScoreMax then peerScoreMax else s in
  if s <? peerScoreMin then peerScoreMin else s.

(** Without the mutex. *)
Definition UpdatePeerScore (pm : t) (id : string) (delta : Z) : t :=
  set_peers pm (alter (λ i, set_score i (clamp (i64 (pi_Score i + delta)))) id (peers pm)).

Definition BlacklistPeer (now : Z) (pm : t) (id : string) (duration : Z) : outcome t :=
  let! (pm, _) := locked pm (λ pm, Done (mk (mutex pm)
    (alter (λ i, set_connection i (pi_Connected i) true (pi_DisconnectedAt i)) id (peers pm))
    (<[id := now + duration]> (blacklist pm)), tt)) in Done pm.

Definition blacklistPeer (now : Z) (pm : t) (id : string) : outcome t := BlacklistPeer now pm id (24 * hour_ns).

(** An expired entry is removed, under the reader's lock. *)
Definition IsBlacklisted (now : Z) (pm : t) (id : string) : outcome (t * bool) :=
  rlocked pm (match blacklist pm !! id with
  | None => (pm, false)
  | Some until => if now >? until then (mk (mutex pm) (peers pm) (delete id (blacklist pm)), false) else (pm, true)
  end).

(** ** The best peers *)

(** One pass of the exchange sort: the highest score, and the rest with the
    exchanges made. *)
Fixpoint sweep (x : string * Z) (l : list (string * Z)) : (string * Z) * list (string * Z) :=
  match l with
  | [] => (x, [])
  | y :: l =>
      if x.2 <? y.2 then let '(m, l) := sweep y l in (m, x :: l)
      else let '(m, l) := sweep x l in (m, y :: l)
  end.

Fixpoint exchange_sort (n : nat) (l : list (string * Z)) : list (string * Z) :=
  match n, l with
  | S n, x :: l => let '(m, l) := sweep x l in m :: exchange_sort n l
  | _, _ => l
  end.

Definition available (i : PeerInfo) : bool := pi_Connected i && negb (pi_Blacklisted i).

Definition GetBestPeers (ro : range_order) (pm : t) (n : Z) : outcome (list string) :=
  let! _ := mutex_RLock (mutex pm) in
  let scores := (λ e, (e.1, pi_Score e.2)) <$> filter (λ e, available e.2) (range ro (peers pm)) in
  if n <? 0 then Panic "makeslice: cap out of range"
  else Done (take (Z.to_nat n) (exchange_sort (length scores) scores).*1).

Definition NeedMorePeers (pm : t) : outcome bool := rlocked pm (size (peers pm) <? 2)%nat.

Definition GetConnectedPeers (ro : range_order) (pm : t) : outcome (list string) :=
  rlocked pm (filter (λ e, available e.2) (range ro (peers pm))).*1.

Definition CleanupPeers (now : Z) (pm : t) : outcome t :=
  let! (pm, _) := locked pm (λ pm, Done (set_peers pm (filter (λ e,
    negb (negb (pi_Connected e.2) && (time_since now (pi_LastSeen e.2) >? 24 * hour_ns))) (peers pm)), tt)) in
  Done pm.

(** ** Synchronisation state *)
Definition SetSyncState (pm : t) (id : string) (syncing : bool) : outcome t :=
  update pm id (λ i, set_sync i syncing (pi_SyncProgress i)).

Definition IsSyncing (pm : t) (id : string) : outcome bool :=
  rlocked pm (match peers pm !! id with Some i => pi_IsSyncing i | None => false end).

Definition UpdateSyncProgress (pm : t) (id : string) (current target : Z) : outcome t :=
  update pm id (λ i, set_sync i (pi_IsSyncing i) (current, target)).

Definition GetSyncProgress (pm : t) (id : string) : outcome (Z * Z) :=
  rlocked pm (match peers pm !! id with Some i => pi_SyncProgress i | None => (0, 0) end).

Definition GetSyncingPeers (ro : range_order) (pm : t) : outcome (list string) :=
  rlocked pm (filter (λ e, pi_IsSyncing e.2 && negb (pi_Blacklisted e.2)) (range ro (peers pm))).*1.

(** ** Scores *)

(** The last ten measurements and their average; the score is not clamped here. *)
Definition record_latency (now latency : Z) (i : PeerInfo) : PeerInfo :=
  let history := LatencyHistory (pi_LatencyStats i) ++ [latency] in
  let history := if (10 <? length history)%nat then drop 1 history else history in
  let sum := foldl (λ s l, i64 (s + l)) 0 history in
  let i := set_latency i (mkLatencyStats (Z.quot sum (Z.of_nat (length history))) latency history now) in
  set_score i (i64 (pi_Score i + (if latency <? 500 * 10 ^ 6 then ScoreGoodLatency else ScorePoorLatency))).

Definition UpdatePeerLatency (now : Z) (pm : t) (id : string) (latency : Z) : outcome t :=
  update pm id (record_latency now latency).

(** The end of the two recordings: the peer with its new score is clamped, and a
    score below the minimum blacklists it, with the mutex held. *)
Definition judge (now : Z) (pm : t) (id : string) (i : PeerInfo) : outcome (t * unit) :=
  let i := if pi_Score i >? peerScoreMax then set_score i peerScoreMax else i in
  if pi_Score i <? peerScoreMin then
    let pm := set_peers pm (<[id := set_score i peerScoreMin]> (peers pm)) in
    let! pm := blacklistPeer now pm id in Done (pm, tt)
  else Done (set_peers pm (<[id := i]> (peers pm)), tt).

(** A peer after a verdict on one of its blocks or transactions, not yet clamped. *)
Definition block_verdict (isValid : bool) (i : PeerInfo) : PeerInfo :=
  let oldScore := pi_Score i in
  let score := i64 (oldScore + (if isValid then ScoreValidBlock else ScoreInvalidBlock)) in
  let score := if isValid && (score <=? oldScore) then i64 (oldScore + ScoreValidBlock) else score in
  let vb := if isValid then i64 (pi_ValidBlocks i + 1) else pi_ValidBlocks i in
  let ib := if isValid then pi_InvalidBlocks i else i64 (pi_InvalidBlocks i + 1) in
  set_score (set_counts i vb ib (pi_ValidTxs i) (pi_InvalidTxs i)) score.

Definition tx_verdict (isValid : bool) (i : PeerInfo) : PeerInfo :=
  let score := i64 (pi_Score i + (if isValid then ScoreValidTransaction else ScoreInvalidTx)) in
  let vt := if isValid then i64 (pi_ValidTxs i + 1) else pi_ValidTxs i in
  let it := if isValid then pi_InvalidTxs i else i64 (pi_InvalidTxs i + 1) in
  set_score (set_counts i (pi_ValidBlocks i) (pi_InvalidBlocks i) vt it) score.

Definition record (verdict : PeerInfo → PeerInfo) (now : Z) (pm : t) (id : string) : outcome t :=
  let! (pm, _) := locked pm (λ pm,
    match peers pm !! id with
    | None => Done (pm, tt)
    | Some i => judge now pm id (verdict i)
    end) in Done pm.

Definition RecordBlockValidation (now : Z) (pm : t) (id : string) (isValid : bool) : outcome t :=
  record (block_verdict isValid) now pm id.

Definition RecordTransactionValidation (now : Z) (pm : t) (id : string) (isValid : bool) : outcome t :=
  record (tx_verdict isValid) now pm id.

Definition GetPeerScore (pm : t) (id : string) : outcome Z :=
  rlocked pm (match peers pm !! id with Some i => pi_Score i | None => 0 end).

(** ** Versions and capabilities *)
Definition isVersionCompatible (version : string) : bool := negb (String.ltb version MinProtocolVersion).

Definition NegotiateProtocolVersion (pm : t) (id peerVersion : string) : outcome (t * bool) :=
  if negb (isVersionCompatible peerVersion) then Done (pm, false)
  else locked pm (λ pm, Done match peers pm !! id with
    | Some i => (set_peers pm (<[id := set_protocol i peerVersion (pi_Capabilities i)]> (peers pm)), true)
    | None => (pm, false)
    end).

Definition GetPeerInfo (pm : t) (id : string) : outcome (option PeerInfo) := rlocked pm (peers pm !! id).

Definition UpdatePeerCapabilities (pm : t) (id : string) (capabilities : list string) : outcome t :=
  update pm id (λ i, set_protocol i (pi_Version i) capabilities).

Definition IsValidatorPeer (pm : t) (id : string) : outcome bool :=
  rlocked pm (match peers pm !! id with Some i => existsb (str_eqb "validator") (pi_Capabilities i) | None => false end).

(** ** Votes *)
Definition add_vote (counts : gmap string Z) (state : string) : gmap string Z :=
  <[state := default 0 (counts !! state) + 1]> counts.

(** The entry with the highest count, the first one met among equals. *)
Definition most (best : string * Z) (e : string * Z) : string * Z := if e.2 >? best.2 then e else best.

Definition InitiateStateVoting (ro ro' : range_order) (pm : t) : outcome VotingResult :=
  let! _ := mutex_Lock (mutex pm) in
  let votes := filter (λ v, v ≠ "") (pi_LastVote <$> filter (λ i, pi_Connected i) (range ro (peers pm)).*2) in
  let counts := foldl add_vote ∅ votes in
  let totalVotes := Z.of_nat (length votes) in
  let '(winner, maxVotes) := foldl most ("", 0) (range ro' counts) in
  Done (mkVotingResult ((totalVotes >? 0) && (maxVotes >? totalVotes / 2)) winner counts).

Definition requestPeerStateVote (pm : t) (id stateRoot : string) : result string :=
  match peers pm !! id with
  | Some i => if pi_Connected i then Ok (if str_eqb (pi_LastVote i) "" then stateRoot else pi_LastVote i)
              else Err "peer not available"
  | None => Err "peer not available"
  end.

(** The loop of [RollbackToState] from distance [i] on, at most [n] turns. *)
Fixpoint rollback_loop `{KV} (n : nat) (i : Z) (ord : child_order) (bc : Blockchain) (currentHeight : Z)
    (targetState : string) : outcome (Blockchain * error) :=
  match n with
  | O => Done (bc, Some "target state not found within rollback limit")
  | S n =>
      let height := u64 (currentHeight - i) in
      if height =? 0 then Done (bc, Some "reached genesis block without finding target state")
      else
        let! (block, bc) := GetBlockByHeight ord bc height in
        match block with
        | None => Panic "nil pointer dereference"
        | Some b =>
            if str_eqb (StateRoot (Header b)) targetState then Done (RollbackToHeight bc height)
            else rollback_loop n (i + 1) ord bc currentHeight targetState
        end
  end.

Definition RollbackToState `{KV} (ord : child_order) (bc : Blockchain) (targetState : string)
    : outcome (Blockchain * error) :=
  rollback_loop MaxRollbackBlocks 0 ord bc (GetHeight bc) targetState.

(** [replies] is what a peer answers to a request for its state root. *)
Definition VerifyChainState `{KV} (ro ro' : range_order) (ord : child_order) (replies : string → result string) (pm : t)
    (bc : Blockchain) (height : Z) : outcome (Blockchain * result ChainStateVerification) :=
  let! _ := mutex_RLock (mutex pm) in
  let! (localBlock, bc) := GetBlockByHeight ord bc height in
  match localBlock with
  | None => Done (bc, Err ("local block not found at height " +:+ fmt_d height))
  | Some b =>
      let responses := omap (λ i, if pi_Connected i then Some tt else None) (peers pm) in
      let responses := map_imap (λ id _, match replies id with Ok r => Some r | Err _ => None end) responses in
      let counts := foldl add_vote ∅ (range ro responses).*2 in
      let '(root, maxCount) := foldl most ("", 0) (range ro' counts) in
      Done (bc, Ok (mkChainStateVerification (StateRoot (Header b)) root responses
                      (maxCount >? Z.of_nat (size (peers pm)) / 2) (str_eqb root (StateRoot (Header b)))))
  end.

(** ** Messages *)

(** The bytes that [sendToPeer] writes: a length and the data. *)
Definition length_prefixed (data : bytes) : bytes := be_bytes 4 (u32 (Z.of_nat (length data))) ++ data.

(** [PropagateBlock]: the results of the sends, in the order they complete; a send
    that succeeds after the first event that ends the call is not seen. *)
Fixpoint propagate (results : list (string * error)) (half : nat) (propagated : gset string) : error :=
  match results with
  | [] => Some "block propagation timed out"
  | (id, Some e) :: _ => Some ("failed to send to peer " +:+ id +:+ ": " +:+ e)
  | (id, None) :: results =>
      let propagated := {[ id ]} ∪ propagated in
      if (half <=? size propagated)%nat then None else propagate results half propagated
  end.

Definition is_connected (pm : t) (id : string) : bool :=
  match peers pm !! id with Some i => pi_Connected i | None => false end.

Definition PropagateBlock (pm : t) (results : list (string * error)) : outcome error :=
  rlocked pm (propagate (filter (λ r, is_connected pm r.1) results)
                (size (peers pm) / 2) ∅).

(** ** Trusted peers *)

(** The strict validation, called with the mutex held, asks for it again. *)
Definition validatePeer (pm : t) (id : string) (addrs : nat) (s : strategy) : outcome error :=
  let basic := if (addrs =? 0)%nat then Some ("peer " +:+ id +:+ " has no addresses") else None in
  match s with
  | BasicValidation => Done basic
  | StrictValidation =>
      match basic with
      | Some e => Done (Some e)
      | None =>
          let! existing := GetPeerInfo pm id in
          match existing with
          | None => Done None
          | Some i =>
              let! (_, ok) := NegotiateProtocolVersion pm id (pi_Version i) in
              Done (if (ok : bool) then None else Some "incompatible protocol version")
          end
      end
  | CustomValidation => Done None
  | UnknownValidation => Done (Some "unknown validation strategy")
  end.

(** [connect] is the result of connecting to the peer. *)
Definition AddManualPeer (now : Z) (connect : error) (pm : t) (id : string) (addrs : nat)
    (config : option PeerAdditionConfig) : outcome (t * error) :=
  locked pm (λ pm,
    let config := default (mkPeerAdditionConfig maxPeers BasicValidation) config in
    if Z.of_nat (size (peers pm)) >=? MaxTrustedPeers config
    then Done (pm, Some "maximum trusted peers limit reached")
    else if bool_decide (is_Some (blacklist pm !! id)) then Done (pm, Some ("peer " +:+ id +:+ " is blacklisted"))
    else
      let! e := validatePeer pm id addrs (ValidationStrategy config) in
      match e with
      | Some e => Done (pm, Some ("peer validation failed: " +:+ e))
      | None =>
          match connect with
          | Some e => Done (pm, Some ("failed to connect to peer " +:+ id +:+ ": " +:+ e))
          | None => let! pm := AddPeer now pm id in Done (pm, None)
          end
      end).

Definition RemoveTrustedPeer (pm : t) (id : string) : outcome t :=
  let! (pm, _) := locked pm (λ pm, Done (set_peers pm (delete id (peers pm)), tt)) in Done pm.

Definition GetTrustedPeers (ro : range_order) (pm : t) : outcome (list string) :=
  rlocked pm (filter (λ e, (pi_Score e.2 >=? ReputationThresholdGood) && negb (pi_Blacklisted e.2))
                (range ro (peers pm))).*1.

(** An entry goes a day after its end. *)
Definition CleanupBlacklistedPeers (now : Z) (pm : t) : outcome t :=
  let! (pm, _) := locked pm (λ pm, Done (mk (mutex pm) (peers pm)
    (filter (λ e, negb (time_since now e.2 >? 24 * hour_ns)) (blacklist pm)), tt)) in
  Done pm.

(** ** The bootstrap node *)

(** An attempt: the address parses, and connecting and verifying succeed. *)
Inductive attempt : Type := BadAddress | NoConnection (e : string) | NotVerified | Connected.

Fixpoint connect_loop (now : Z) (n i : nat) (attempts : nat → attempt) (pm : t) (id : string) : outcome (t * error) :=
  match n with
  | O => Done (pm, Some ("failed to connect to bootnode after 5 attempts"))
  | S n =>
      match attempts i with
      | BadAddress => connect_loop now n (S i) attempts pm id
      | NoConnection e =>
          if (i <? MaxBootnodeRetries - 1)%nat then connect_loop now n (S i) attempts pm id
          else Done (pm, Some ("failed to connect to bootnode after 5 attempts: " +:+ e))
      | NotVerified =>
          if (i <? MaxBootnodeRetries - 1)%nat then connect_loop now n (S i) attempts pm id
          else Done (pm, Some "failed to verify bootnode connection after 5 attempts")
      | Connected => let! pm := AddPeer now pm id in Done (pm, None)
      end
  end.

Definition ConnectToBootnode (now : Z) (attempts : nat → attempt) (pm : t) (id : string) : outcome (t * error) :=
  connect_loop now MaxBootnodeRetries 0 attempts pm id.

End PeerManager.

(** ** Heartbeats of validators *)
Definition ValidatorTimeoutDuration : Z := 90 * 10 ^ 9.

Record ValidatorState := mkValidatorState {
  vs_LastSeen : Z;
  vs_IsActive : bool;
  vs_Heartbeats : Z;
  vs_Timeouts : Z;
}.

Module ValidatorProtocol.

Record t := mk {
  validators : gmap string ValidatorState;
  heartbeats : gmap string Z;
}.

Definition NewValidatorProtocol : t := mk ∅ ∅.

Definition HandleHeartbeat (now : Z) (vp : t) (addr : string) : t :=
  mk (<[addr := match validators vp !! addr with
                | Some s => mkValidatorState now true (u64 (vs_Heartbeats s + 1)) (vs_Timeouts s)
                | None => mkValidatorState now true 1 0
                end]> (validators vp))
     (<[addr := now]> (heartbeats vp)).

Definition handleValidatorTimeout (vp : t) (addr : string) : t :=
  match validators vp !! addr with
  | None => vp
  | Some s =>
      let s := mkValidatorState (vs_LastSeen s) false (vs_Heartbeats s) (u64 (vs_Timeouts s + 1)) in
      if vs_Timeouts s >=? 3 then mk (delete addr (validators vp)) (delete addr (heartbeats vp))
      else mk (<[addr := s]> (validators vp)) (heartbeats vp)
  end.

Definition checkValidatorHeartbeats (ro : range_order) (now : Z) (vp : t) : t :=
  foldl (λ vp e, if time_since now e.2 >? ValidatorTimeoutDuration then handleValidatorTimeout vp e.1 else vp) vp
    (range ro (heartbeats vp)).

(** Also what [syncValidatorStates] announces. *)
Definition GetActiveValidators (ro : range_order) (vp : t) : list string :=
  (filter (λ e, vs_IsActive e.2) (range ro (validators vp))).*1.

Definition IsValidatorActive (vp : t) (addr : string) : bool :=
  match validators vp !! addr with Some s => vs_IsActive s | None => false end.

Definition RemoveValidator (vp : t) (addr : string) : t :=
  mk (delete addr (validators vp)) (delete addr (heartbeats vp)).

End ValidatorProtocol.
