(* ===== verification/PeersFacts.v ===== *)
(** * Correctness of the peer table and of the heartbeats

    The ranking of peers, the bounds of their scores, the vote on states and the
    timeouts of validators; and the calls that never return. *)

From stdpp Require Import base gmap strings list sorting.
From Stdlib Require Import ZArith Lia.
From S2P Require Import Prelude.
From S2P Require Import Peers.

Import PeerManager.

(** ** The ranking *)
Definition ranked (a b : string * Z) : Prop := b.2 ≤ a.2.

Lemma sweep_spec l : ∀ x m l', sweep x l = (m, l') → m :: l' ≡ₚ x :: l ∧ Forall (ranked m) (x :: l).
Proof.
  induction l as [|y l IH]; intros x m l' E; cbn in E.
  { injection E as <- <-. split; [done|]. by apply Forall_singleton; unfold ranked. }
  destruct (Z.ltb_spec x.2 y.2).
  - destruct (sweep y l) as [m1 l1] eqn:Es. injection E as <- <-. destruct (IH _ _ _ Es) as [Hp Hm].
    split; [by rewrite Permutation_swap, Hp|]. constructor; [|done].
    apply Forall_cons in Hm as [Hy _]. unfold ranked in *. lia.
  - destruct (sweep x l) as [m1 l1] eqn:Es. injection E as <- <-. destruct (IH _ _ _ Es) as [Hp Hm].
    apply Forall_cons in Hm as [Hx Hm]. split; [rewrite Permutation_swap, Hp; apply Permutation_swap|].
    constructor; [done|]. constructor; [|done]. unfold ranked in *. lia.
Qed.

Lemma exchange_sort_spec n : ∀ l, (length l ≤ n)%nat →
  exchange_sort n l ≡ₚ l ∧ StronglySorted ranked (exchange_sort n l).
Proof.
  induction n as [|n IH]; intros [|x l] Hl; cbn in *; [split; [done|constructor]|lia|split; [done|constructor]|].
  destruct (sweep x l) as [m l'] eqn:E. apply sweep_spec in E as [Hp Hm].
  assert (length l' = length l) as Hlen by (apply Permutation_length in Hp; cbn in Hp; lia).
  destruct (IH l') as [Hp' Hs]; [lia|]. split; [by rewrite Hp'|]. constructor; [done|].
  rewrite Hp'. rewrite <-Hp in Hm. by apply Forall_cons in Hm as [_ ?].
Qed.

(** The connected peers that are not blacklisted, with their scores. *)
Definition candidates (pm : t) : list (string * Z) :=
  (λ e, (e.1, pi_Score e.2)) <$> filter (λ e : string * PeerInfo, pi_Connected e.2 && negb (pi_Blacklisted e.2)) (map_to_list (peers pm)).

(** [GetBestPeers] returns the first [n] of all connected peers that are not
    blacklisted, ranked by falling score, whatever order the map is visited in. *)
Theorem GetBestPeers_spec (ro : range_order) (pm : t) (n : Z) : fair ro → mutex pm = Unlocked → 0 ≤ n →
  ∃ l, l ≡ₚ candidates pm ∧ StronglySorted ranked l ∧ GetBestPeers ro pm n = Done (take (Z.to_nat n) l.*1).
Proof.
  intros Hro Hm Hn. unfold GetBestPeers. rewrite Hm. cbn [mutex_RLock obind].
  rewrite (proj2 (Z.ltb_ge _ _)) by done. set (scores := (λ e, _) <$> _).
  destruct (exchange_sort_spec (length scores) scores ltac:(done)) as [Hp Hs].
  eexists. split_and!; [|exact Hs|done]. rewrite Hp. unfold scores, candidates.
  by rewrite (range_perm ro (peers pm) Hro).
Qed.

(** ** Locks *)
Lemma locked_inv {A} pm (body : t → outcome (t * A)) pm' a : locked pm body = Done (pm', a) →
  ∃ pm1, body (mk Locked (peers pm) (blacklist pm)) = Done (pm1, a) ∧ mutex pm = Unlocked ∧
    pm' = mk Unlocked (peers pm1) (blacklist pm1).
Proof.
  unfold locked. destruct (mutex pm); cbn; [|done|done]. intros E.
  apply obind_Done_inv in E as ([pm1 a1] & Hb & E). injection E as <- <-. by exists pm1.
Qed.

(** [AddManualPeer] never adds a peer: it reports an error or waits for ever for
    the mutex that it holds itself. *)
Theorem AddManualPeer_never_adds now connect pm id addrs config pm' e :
  AddManualPeer now connect pm id addrs config = Done (pm', e) → e ≠ None ∧ peers pm' = peers pm.
Proof.
  intros E. apply locked_inv in E as (pm1 & E & _ & ->). cbv zeta in E. cbn [peers].
  destruct (_ >=? _); [by injection E as <- <-|]. destruct (bool_decide _); [by injection E as <- <-|].
  apply obind_Done_inv in E as (e1 & _ & E). destruct e1; [by injection E as <- <-|].
  destruct connect; [by injection E as <- <-|]. by apply obind_Done_inv in E as (? & E & _).
Qed.

(** A block that takes the score of a peer below the minimum hangs the manager:
    the blacklisting waits for the mutex held by the recording. *)
Theorem bad_score_hangs (now : Z) (pm : t) (id : string) (i : PeerInfo) :
  mutex pm = Unlocked → peers pm !! id = Some i → peerScoreMin ≤ pi_Score i < peerScoreMin - ScoreInvalidBlock →
  RecordBlockValidation now pm id false = Deadlock.
Proof.
  unfold peerScoreMin, ScoreInvalidBlock. intros Hm Hi Hs. unfold RecordBlockValidation, record, locked. rewrite Hm.
  cbn [mutex_Lock obind peers]. rewrite Hi. unfold judge. cbn [andb].
  set (j := block_verdict false i). assert (pi_Score j = pi_Score i - 10) as Hj.
  { unfold j. cbn [block_verdict pi_Score set_score andb]. unfold ScoreInvalidBlock. rewrite i64_small; [lia|]. unfold is_i64. lia. }
  assert ((pi_Score j >? peerScoreMax) = false) as -> by (rewrite Z.gtb_ltb; apply Z.ltb_ge; unfold peerScoreMax; lia).
  rewrite (proj2 (Z.ltb_lt _ _)) by (unfold peerScoreMin; lia). done.
Qed.

(** ** Scores *)
Definition score_ok (i : PeerInfo) : Prop := peerScoreMin ≤ pi_Score i ≤ peerScoreMax.
Definition scores_ok (pm : t) : Prop := map_Forall (λ _ i, score_ok i) (peers pm).

(** The operations that change entries, except for measured latencies. *)
Inductive peer_op : Type :=
  | PAdd (id : string) | PRemove (id : string) | PScore (id : string) (delta : Z)
  | PBlacklist (id : string) (duration : Z) | PBlock (id : string) (valid : bool) | PTx (id : string) (valid : bool)
  | PSync (id : string) (syncing : bool) | PProgress (id : string) (current target : Z)
  | PVersion (id version : string) | PCapabilities (id : string) (caps : list string)
  | PManual (id : string) (addrs : nat) (connect : error) | PForget (id : string) | PCleanup | PCleanupBlacklist.

Definition run_op (now : Z) (pm : t) (op : peer_op) : outcome t :=
  match op with
  | PAdd id => AddPeer now pm id
  | PRemove id => RemovePeer now pm id
  | PScore id delta => Done (UpdatePeerScore pm id delta)
  | PBlacklist id d => BlacklistPeer now pm id d
  | PBlock id v => RecordBlockValidation now pm id v
  | PTx id v => RecordTransactionValidation now pm id v
  | PSync id b => SetSyncState pm id b
  | PProgress id c g => UpdateSyncProgress pm id c g
  | PVersion id v => let! (pm, _) := NegotiateProtocolVersion pm id v in Done pm
  | PCapabilities id c => UpdatePeerCapabilities pm id c
  | PManual id a c => let! (pm, _) := AddManualPeer now c pm id a None in Done pm
  | PForget id => RemoveTrustedPeer pm id
  | PCleanup => CleanupPeers now pm
  | PCleanupBlacklist => CleanupBlacklistedPeers now pm
  end.

Fixpoint run_ops (pm : t) (ops : list (Z * peer_op)) : outcome t :=
  match ops with
  | [] => Done pm
  | (now, op) :: ops => let! pm := run_op now pm op in run_ops pm ops
  end.

Lemma update_inv pm id f pm' : update pm id f = Done pm' → peers pm' = alter f id (peers pm) ∧ blacklist pm' = blacklist pm.
Proof.
  unfold update. intros E. apply obind_Done_inv in E as ([pm1 []] & E1 & E). injection E as <-.
  apply locked_inv in E1 as (pm2 & E2 & _ & ->). by injection E2 as <-.
Qed.

Lemma scores_alter pm pm' id f : peers pm' = alter f id (peers pm) → (∀ i, score_ok i → score_ok (f i)) →
  scores_ok pm → scores_ok pm'.
Proof.
  unfold scores_ok. intros -> Hf Hs j i Hj. destruct (decide (id = j)) as [->|Hne].
  - rewrite lookup_alter_eq in Hj. apply fmap_Some in Hj as (i0 & Hi0 & ->). by apply Hf, (Hs j).
  - rewrite lookup_alter_ne in Hj by done. by eapply Hs.
Qed.

Lemma update_scores pm id f pm' : update pm id f = Done pm' → (∀ i, pi_Score (f i) = pi_Score i) →
  scores_ok pm → scores_ok pm'.
Proof.
  intros [Hp _]%update_inv Hf. eapply scores_alter; [exact Hp|]. intros i. unfold score_ok. by rewrite Hf.
Qed.

Lemma clamp_ok i s : score_ok (set_score i (clamp s)).
Proof.
  unfold score_ok, clamp. cbn. rewrite Z.gtb_ltb. unfold peerScoreMax, peerScoreMin.
  destruct (Z.ltb_spec 1000 s); [done|]. destruct (Z.ltb_spec s (-100)); lia.
Qed.

(** A judgement that returns leaves a score in range. *)
Lemma judge_scores now pm id i pm' u : mutex pm = Locked → judge now pm id i = Done (pm', u) →
  scores_ok pm → scores_ok pm'.
Proof.
  intros Hm E Hs. unfold judge in E. set (i1 := if (_ : bool) then _ else i) in E. destruct (Z.ltb_spec (pi_Score i1) peerScoreMin).
  - unfold blacklistPeer, BlacklistPeer, locked in E. cbn [mutex set_peers] in E. by rewrite Hm in E.
  - injection E as <- _. apply map_Forall_insert_2; [|exact Hs]. split; [done|]. unfold i1.
    rewrite Z.gtb_ltb. destruct (Z.ltb_spec peerScoreMax (pi_Score i)); [done|]. cbn. lia.
Qed.

(** The two recordings. *)
Lemma recorded_scores verdict now pm id pm' : record verdict now pm id = Done pm' → scores_ok pm → scores_ok pm'.
Proof.
  unfold record. intros E Hs. apply obind_Done_inv in E as ([pm1 []] & E1 & E). injection E as <-.
  apply locked_inv in E1 as (pm2 & E2 & _ & ->). cbn [peers] in E2. unfold scores_ok. cbn [peers].
  destruct (peers pm !! id) as [i|]; [|by injection E2 as <-].
  by eapply (judge_scores now (mk Locked (peers pm) (blacklist pm))).
Qed.

Lemma run_op_scores now pm op pm' : run_op now pm op = Done pm' → scores_ok pm → scores_ok pm'.
Proof.
  intros E Hs. destruct op; cbn [run_op] in E.
  - unfold AddPeer in E. apply obind_Done_inv in E as ([pm1 []] & E1 & E). injection E as <-.
    apply locked_inv in E1 as (pm2 & E2 & _ & ->). cbn [peers] in E2. injection E2 as <-. unfold scores_ok. cbn [peers].
    destruct (peers pm !! id); [done|]. apply map_Forall_insert_2; [|exact Hs]. done.
  - by eapply update_scores.
  - injection E as <-. eapply (scores_alter pm _ id); [done| |done]. intros i _. apply clamp_ok.
  - unfold BlacklistPeer in E. apply obind_Done_inv in E as ([pm1 []] & E1 & E). injection E as <-.
    apply locked_inv in E1 as (pm2 & E2 & _ & ->). injection E2 as <-.
    eapply (scores_alter pm _ id); [done| |done]. done.
  - by eapply recorded_scores.
  - by eapply recorded_scores.
  - by eapply update_scores.
  - by eapply update_scores.
  - apply obind_Done_inv in E as ([pm1 b] & E1 & E). injection E as <-. unfold NegotiateProtocolVersion in E1.
    destruct (negb _); [by injection E1 as <- _|]. apply locked_inv in E1 as (pm2 & E2 & _ & ->). cbn [peers] in E2.
    unfold scores_ok. cbn [peers]. destruct (peers pm !! id) as [i|] eqn:Hi; injection E2 as <- _; [|done].
    apply map_Forall_insert_2; [|exact Hs]. exact (Hs _ _ Hi).
  - by eapply update_scores.
  - apply obind_Done_inv in E as ([pm1 e] & E1 & E). injection E as <-. unfold scores_ok.
    assert (peers pm1 = peers pm) as ->; [|done]. by apply AddManualPeer_never_adds in E1 as [_ ?].
  - unfold RemoveTrustedPeer in E. apply obind_Done_inv in E as ([pm1 []] & E1 & E). injection E as <-.
    apply locked_inv in E1 as (pm2 & E2 & _ & ->). injection E2 as <-. by apply map_Forall_delete.
  - unfold CleanupPeers in E. apply obind_Done_inv in E as ([pm1 []] & E1 & E). injection E as <-.
    apply locked_inv in E1 as (pm2 & E2 & _ & ->). injection E2 as <-. intros j i Hj. apply map_lookup_filter_Some in Hj as [Hj _]. by eapply Hs.
  - unfold CleanupBlacklistedPeers in E. apply obind_Done_inv in E as ([pm1 []] & E1 & E). injection E as <-.
    apply locked_inv in E1 as (pm2 & E2 & _ & ->). by injection E2 as <-.
Qed.

(** C37 Scores stay between the minimum and the maximum through any sequence of
    operations that returns, apart from the measuring of latencies. *)
Theorem scores_bounded (ops : list (Z * peer_op)) (pm : t) : run_ops NewPeerManager ops = Done pm →
  map_Forall (λ _ i, peerScoreMin ≤ pi_Score i ≤ peerScoreMax) (peers pm).
Proof.
  assert (scores_ok NewPeerManager) as Hs by (apply map_Forall_empty).
  revert Hs. generalize NewPeerManager. induction ops as [|[now op] ops IH]; intros pm0 Hs E; cbn [run_ops] in E.
  { injection E as <-. exact Hs. }
  apply obind_Done_inv in E as (pm1 & E1 & E). eapply IH; [|exact E]. by eapply run_op_scores.
Qed.

(** A measured latency is not clamped. *)
Theorem latency_leaves_range (now : Z) (i : PeerInfo) : pi_Score i = peerScoreMax →
  pi_Score (record_latency now 0 i) = peerScoreMax + 2.
Proof. intros Hs. unfold record_latency. cbn [pi_Score set_score set_latency]. rewrite Hs. reflexivity. Qed.

(** ** Votes *)

(** The votes cast by connected peers. *)
Definition cast_votes (pm : t) : list string :=
  filter (λ v, v ≠ "") (pi_LastVote <$> filter (λ i : PeerInfo, pi_Connected i) (map_to_list (peers pm)).*2).

Definition votes_for (s : string) (votes : list string) : Z := Z.of_nat (length (filter (λ v, v = s) votes)).

Lemma votes_for_perm s l l' : l ≡ₚ l' → votes_for s l = votes_for s l'.
Proof. intros Hp. unfold votes_for. by rewrite Hp. Qed.

Lemma add_votes_lookup votes : ∀ counts s,
  default 0 (foldl add_vote counts votes !! s) = default 0 (counts !! s) + votes_for s votes.
Proof.
  induction votes as [|v votes IH]; intros counts s; cbn [foldl]; [unfold votes_for; cbn; lia|].
  rewrite IH. unfold add_vote, votes_for. rewrite filter_cons. destruct (decide (v = s)) as [->|Hne].
  - rewrite lookup_insert_eq. cbn. lia.
  - rewrite lookup_insert_ne by done. lia.
Qed.

Lemma add_votes_Some votes s n : foldl add_vote ∅ votes !! s = Some n → n = votes_for s votes.
Proof. intros E. pose proof (add_votes_lookup votes ∅ s) as H. by rewrite E, lookup_empty in H. Qed.

Lemma add_votes_positive votes s : 0 < votes_for s votes → foldl add_vote ∅ votes !! s = Some (votes_for s votes).
Proof.
  intros Hp. pose proof (add_votes_lookup votes ∅ s) as H. rewrite lookup_empty in H. cbn in H.
  destruct (foldl add_vote ∅ votes !! s) as [n|]; cbn in H; [by rewrite H|lia].
Qed.

(** The search for the highest count. *)
Lemma most_spec l : ∀ best, 0 ≤ best.2 →
  let r := foldl most best l in best.2 ≤ r.2 ∧ Forall (λ e : string * Z, e.2 ≤ r.2) l ∧ (r = best ∨ r ∈ l).
Proof.
  induction l as [|e l IH]; intros best Hb; cbn [foldl]; [split_and!; [lia|constructor|by left]|].
  assert (0 ≤ (most best e).2 ∧ best.2 ≤ (most best e).2 ∧ e.2 ≤ (most best e).2 ∧ (most best e = best ∨ most best e = e)) as (H0 & H1 & H2 & H3).
  { unfold most. rewrite Z.gtb_ltb. destruct (Z.ltb_spec best.2 e.2); (split_and!; [lia..|]); first [by left|by right]. }
  destruct (IH (most best e) H0) as (H4 & H5 & H6). split_and!; [lia|constructor; [lia|done]|].
  destruct H6 as [->|Hin]; [|right; apply elem_of_cons; by right].
  destruct H3 as [->| ->]; [by left|right; apply elem_of_cons; by left].
Qed.

Lemma votes_for_two votes s s' : s ≠ s' → votes_for s votes + votes_for s' votes ≤ Z.of_nat (length votes).
Proof.
  intros Hne. induction votes as [|v votes IH]; [done|]. unfold votes_for in *. rewrite !filter_cons. cbn [length].
  destruct (decide (v = s)) as [->|]; [rewrite decide_False by done|]; [|destruct (decide (v = s'))]; cbn [length]; lia.
Qed.

(** The vote on states is decided exactly when more than half of the votes cast
    by connected peers are for one state, and the winner is that state, whatever
    orders the maps are visited in. *)
Theorem InitiateStateVoting_spec (ro ro' : range_order) (pm : t) : fair ro → fair ro' → mutex pm = Unlocked →
  ∃ r, InitiateStateVoting ro ro' pm = Done r ∧
    let votes := cast_votes pm in
    (vr_QuorumReached r = true ↔ ∃ s, Z.of_nat (length votes) < 2 * votes_for s votes) ∧
    (∀ s, Z.of_nat (length votes) < 2 * votes_for s votes → vr_WinningState r = s).
Proof.
  intros Hro Hro' Hm. unfold InitiateStateVoting. rewrite Hm. cbn [mutex_Lock obind].
  set (votes0 := filter _ _). assert (votes0 ≡ₚ cast_votes pm) as Hp.
  { unfold votes0, cast_votes. by rewrite (range_perm ro (peers pm) Hro). }
  set (counts := foldl add_vote ∅ votes0). destruct (most_spec (range ro' counts) ("", 0) ltac:(done)) as (H0 & Hall & Hin).
  destruct (foldl most ("", 0) (range ro' counts)) as [winner n] eqn:E. cbn [fst snd] in *.
  eexists. split; [reflexivity|]. cbn [vr_QuorumReached vr_WinningState]. cbv zeta.
  rewrite <-(Permutation_length Hp). setoid_rewrite <-(λ s, votes_for_perm s _ _ Hp).
  assert (∀ s, votes_for s votes0 ≤ n) as Hmax.
  { intros s. destruct (Z.le_gt_cases (votes_for s votes0) 0) as [|Hpos]; [lia|].
    assert ((s, votes_for s votes0) ∈ range ro' counts) as Hs.
    { rewrite (range_perm ro' counts Hro'). apply elem_of_map_to_list. by apply add_votes_positive. }
    rewrite Forall_forall in Hall. exact (Hall _ Hs). }
  assert (0 < n → n = votes_for winner votes0) as Hn.
  { intros Hpos. destruct Hin as [[= -> ->]|Hin]; [lia|]. rewrite (range_perm ro' counts Hro') in Hin.
    apply elem_of_map_to_list in Hin. by apply add_votes_Some in Hin. }
  assert (0 ≤ Z.of_nat (length votes0)) as Hlen by lia. set (total := Z.of_nat (length votes0)) in *.
  pose proof (Z.mul_div_le total 2 ltac:(lia)). pose proof (Z.mul_succ_div_gt total 2 ltac:(lia)).
  rewrite !Z.gtb_ltb, andb_true_iff, !Z.ltb_lt. split; [split|].
  - intros [Ht Hq]. exists winner. rewrite <-Hn by lia. lia.
  - intros [s Hs]. specialize (Hmax s). unfold votes_for in Hs, Hmax. split; [|lia].
    assert (length (filter (λ v, v = s) votes0) ≤ length votes0)%nat by apply length_filter. lia.
  - intros s Hs. destruct (decide (winner = s)) as [->|Hne]; [done|]. exfalso.
    pose proof (Hmax s). pose proof (votes_for_two votes0 winner s Hne). rewrite <-Hn in * by lia. lia.
Qed.

(** ** Heartbeats *)
Definition late (now hb : Z) : bool := time_since now hb >? ValidatorTimeoutDuration.

(** The entry of a validator after a timeout. *)
Definition timed_out (s : ValidatorState) : option ValidatorState :=
  if u64 (vs_Timeouts s + 1) >=? 3 then None
  else Some (mkValidatorState (vs_LastSeen s) false (vs_Heartbeats s) (u64 (vs_Timeouts s + 1))).

Lemma timeout_lookup vp a a' : ValidatorProtocol.validators (ValidatorProtocol.handleValidatorTimeout vp a) !! a' =
  if decide (a = a') then ValidatorProtocol.validators vp !! a ≫= timed_out else ValidatorProtocol.validators vp !! a'.
Proof.
  unfold ValidatorProtocol.handleValidatorTimeout, timed_out. destruct (ValidatorProtocol.validators vp !! a) as [s|] eqn:Es; cbn.
  - destruct (_ >=? 3) eqn:Et; cbn; destruct (decide (a = a')) as [->|Hne].
    + apply lookup_delete_eq.
    + by apply lookup_delete_ne.
    + apply lookup_insert_eq.
    + by apply lookup_insert_ne.
  - destruct (decide (a = a')) as [->|]; done.
Qed.

Lemma timeout_beats vp a a' : ValidatorProtocol.heartbeats (ValidatorProtocol.handleValidatorTimeout vp a) !! a' =
  match ValidatorProtocol.validators vp !! a with
  | Some s => if decide (a = a') then ValidatorProtocol.heartbeats vp !! a ≫= λ hb, (λ _, hb) <$> timed_out s
              else ValidatorProtocol.heartbeats vp !! a'
  | None => ValidatorProtocol.heartbeats vp !! a'
  end.
Proof.
  unfold ValidatorProtocol.handleValidatorTimeout, timed_out. destruct (ValidatorProtocol.validators vp !! a) as [s|]; [|done].
  destruct (u64 (vs_Timeouts s + 1) >=? 3) eqn:Et; cbn [vs_Timeouts ValidatorProtocol.heartbeats]; rewrite Et; cbn [ValidatorProtocol.heartbeats];
    destruct (decide (a = a')) as [->|Hne].
  - rewrite lookup_delete_eq. by destruct (ValidatorProtocol.heartbeats vp !! a').
  - by apply lookup_delete_ne.
  - by destruct (ValidatorProtocol.heartbeats vp !! a').
  - done.
Qed.

(** A check treats every address once. *)
Lemma check_list now l : NoDup l.*1 → ∀ vp,
  let vp' := foldl (λ vp (e : string * Z), if late now e.2 then ValidatorProtocol.handleValidatorTimeout vp e.1 else vp) vp l in
  ∀ a, (a ∉ l.*1 → ValidatorProtocol.validators vp' !! a = ValidatorProtocol.validators vp !! a ∧ ValidatorProtocol.heartbeats vp' !! a = ValidatorProtocol.heartbeats vp !! a) ∧
    (∀ hb, (a, hb) ∈ l → if late now hb then
       ValidatorProtocol.validators vp' !! a = ValidatorProtocol.validators (ValidatorProtocol.handleValidatorTimeout vp a) !! a ∧
       ValidatorProtocol.heartbeats vp' !! a = ValidatorProtocol.heartbeats (ValidatorProtocol.handleValidatorTimeout vp a) !! a
     else ValidatorProtocol.validators vp' !! a = ValidatorProtocol.validators vp !! a ∧ ValidatorProtocol.heartbeats vp' !! a = ValidatorProtocol.heartbeats vp !! a).
Proof.
  induction l as [|[b hb0] l IH]; intros Hnd vp vp' a.
  { split; [done|]. intros hb []%not_elem_of_nil. }
  rewrite fmap_cons in Hnd. apply NoDup_cons in Hnd as [Hb Hnd]. cbn [fst] in Hb.
  set (vp1 := if late now hb0 then ValidatorProtocol.handleValidatorTimeout vp b else vp).
  assert (∀ c, c ≠ b → ValidatorProtocol.validators vp1 !! c = ValidatorProtocol.validators vp !! c ∧ ValidatorProtocol.heartbeats vp1 !! c = ValidatorProtocol.heartbeats vp !! c) as Hother.
  { intros c Hc. unfold vp1. destruct (late now hb0); [|done]. rewrite timeout_lookup, timeout_beats.
    assert (b ≠ c) as Hbc by congruence. rewrite decide_False by done.
    destruct (ValidatorProtocol.validators vp !! b); [by rewrite decide_False|done]. }
  destruct (IH Hnd vp1 a) as [IH1 IH2]. fold vp1 in vp'. change (foldl _ vp1 l) with vp' in IH1, IH2. split.
  - rewrite fmap_cons, not_elem_of_cons. intros [Ha1 Ha2]. destruct (IH1 Ha2) as [-> ->]. by apply Hother.
  - intros hb [[= -> ->]|Hin]%elem_of_cons.
    + destruct (IH1 Hb) as [-> ->]. unfold vp1. by destruct (late now hb0).
    + assert (a ≠ b) as Hne. { intros ->. apply Hb. by apply (list_elem_of_fmap_2 fst _ (b, hb)). }
      destruct (Hother a Hne) as [Hv Hh]. specialize (IH2 hb Hin). destruct (late now hb).
      * rewrite timeout_lookup, timeout_beats, !decide_True in IH2 |- * by done. by rewrite Hv, Hh in IH2.
      * by rewrite Hv, Hh in IH2.
Qed.

Lemma check_address ro now vp a : fair ro →
  let vp' := ValidatorProtocol.checkValidatorHeartbeats ro now vp in
  match ValidatorProtocol.heartbeats vp !! a with
  | Some hb => if late now hb then
      ValidatorProtocol.validators vp' !! a = ValidatorProtocol.validators (ValidatorProtocol.handleValidatorTimeout vp a) !! a ∧
      ValidatorProtocol.heartbeats vp' !! a = ValidatorProtocol.heartbeats (ValidatorProtocol.handleValidatorTimeout vp a) !! a
    else ValidatorProtocol.validators vp' !! a = ValidatorProtocol.validators vp !! a ∧ ValidatorProtocol.heartbeats vp' !! a = Some hb
  | None => ValidatorProtocol.validators vp' !! a = ValidatorProtocol.validators vp !! a ∧ ValidatorProtocol.heartbeats vp' !! a = None
  end.
Proof.
  intros Hro vp'. pose proof (range_perm ro (ValidatorProtocol.heartbeats vp) Hro) as Hp.
  assert (NoDup (range ro (ValidatorProtocol.heartbeats vp)).*1) as Hnd by (rewrite Hp; apply NoDup_fst_map_to_list).
  destruct (check_list now _ Hnd vp a) as [H1 H2].
  change (foldl _ vp (range ro (ValidatorProtocol.heartbeats vp))) with vp' in H1, H2.
  destruct (ValidatorProtocol.heartbeats vp !! a) as [hb|] eqn:Ha.
  - specialize (H2 hb). rewrite Hp, elem_of_map_to_list in H2. specialize (H2 Ha). by destruct (late now hb); rewrite ?Ha in H2.
  - apply H1. rewrite Hp. intros ([a' hb] & -> & Hin)%list_elem_of_fmap. apply elem_of_map_to_list in Hin.
    cbn in Ha. congruence.
Qed.

(** What a protocol can do. *)
Inductive vp_step : ValidatorProtocol.t → ValidatorProtocol.t → Prop :=
  | vp_beat now a vp : vp_step vp (ValidatorProtocol.HandleHeartbeat now vp a)
  | vp_check ro now vp : fair ro → vp_step vp (ValidatorProtocol.checkValidatorHeartbeats ro now vp)
  | vp_remove a vp : vp_step vp (ValidatorProtocol.RemoveValidator vp a).

Inductive vp_reachable : ValidatorProtocol.t → Prop :=
  | vp_new : vp_reachable ValidatorProtocol.NewValidatorProtocol
  | vp_next vp vp' : vp_reachable vp → vp_step vp vp' → vp_reachable vp'.

(** Every validator has a heartbeat and fewer than three timeouts. *)
Definition vp_ok (vp : ValidatorProtocol.t) : Prop := ∀ a,
  match ValidatorProtocol.validators vp !! a with
  | Some s => is_Some (ValidatorProtocol.heartbeats vp !! a) ∧ 0 ≤ vs_Timeouts s < 3
  | None => ValidatorProtocol.heartbeats vp !! a = None
  end.

Lemma timed_out_count s s' : 0 ≤ vs_Timeouts s < 3 → timed_out s = Some s' → 0 ≤ vs_Timeouts s' < 3.
Proof.
  unfold timed_out. intros Hs. rewrite u64_small by (unfold is_u64; lia).
  destruct (Z.geb_spec (vs_Timeouts s + 1) 3); [done|]. intros [= <-]. cbn. lia.
Qed.

Lemma timeout_ok vp a : vp_ok vp → vp_ok (ValidatorProtocol.handleValidatorTimeout vp a).
Proof.
  intros Hok a'. rewrite timeout_lookup, timeout_beats. specialize (Hok a'). destruct (decide (a = a')) as [->|]; [|by destruct (ValidatorProtocol.validators vp !! a)].
  destruct (ValidatorProtocol.validators vp !! a') as [s|]; [|done]. destruct Hok as [[hb Hh] Hs]. rewrite Hh. cbn.
  destruct (timed_out s) as [s'|] eqn:E; cbn; [|done]. split; [done|]. by eapply timed_out_count.
Qed.

Lemma vp_step_ok vp vp' : vp_step vp vp' → vp_ok vp → vp_ok vp'.
Proof.
  intros [now a v|ro now v Hro|a v] Hok a'.
  - unfold ValidatorProtocol.HandleHeartbeat. cbn. destruct (decide (a = a')) as [->|Hne].
    + rewrite !lookup_insert_eq. split; [done|]. specialize (Hok a'). destruct (ValidatorProtocol.validators v !! a'); cbn; [apply Hok|lia].
    + rewrite !lookup_insert_ne by done. apply Hok.
  - pose proof (check_address ro now v a' Hro) as Hc. cbv zeta in Hc. pose proof (timeout_ok v a' Hok a') as Ht.
    specialize (Hok a'). destruct (ValidatorProtocol.heartbeats v !! a') as [hb|] eqn:Ha.
    + destruct (late now hb); destruct Hc as [-> ->]; [exact Ht|]. by destruct (ValidatorProtocol.validators v !! a').
    + destruct Hc as [-> ->]. destruct (ValidatorProtocol.validators v !! a'); [|done]. by destruct Hok as [[? ?] _].
  - unfold ValidatorProtocol.RemoveValidator. cbn. destruct (decide (a = a')) as [->|Hne].
    + by rewrite !lookup_delete_eq.
    + rewrite !lookup_delete_ne by done. apply Hok.
Qed.

Lemma vp_reachable_ok vp : vp_reachable vp → vp_ok vp.
Proof. induction 1; [intros a; cbn [ValidatorProtocol.NewValidatorProtocol ValidatorProtocol.validators ValidatorProtocol.heartbeats]; by rewrite !lookup_empty|]. by eapply vp_step_ok. Qed.

(** After a check, a validator counts as active only if its last heartbeat is at
    most ninety seconds old, and a validator whose heartbeat is recent keeps its
    entry unchanged. *)
Theorem check_active_recent (ro : range_order) (now : Z) (vp : ValidatorProtocol.t) (a : string) : fair ro → vp_reachable vp →
  let vp' := ValidatorProtocol.checkValidatorHeartbeats ro now vp in
  (ValidatorProtocol.IsValidatorActive vp' a = true →
     ∃ hb, ValidatorProtocol.heartbeats vp' !! a = Some hb ∧ time_since now hb ≤ ValidatorTimeoutDuration) ∧
  (∀ hb, ValidatorProtocol.heartbeats vp !! a = Some hb → time_since now hb ≤ ValidatorTimeoutDuration →
     ValidatorProtocol.validators vp' !! a = ValidatorProtocol.validators vp !! a).
Proof.
  intros Hro Hok%vp_reachable_ok vp'. pose proof (check_address ro now vp a Hro) as Hc. cbv zeta in Hc. fold vp' in Hc.
  unfold ValidatorProtocol.IsValidatorActive. split.
  - intros Ha. destruct (ValidatorProtocol.heartbeats vp !! a) as [hb|] eqn:Eh.
    + destruct (late now hb) eqn:El.
      * destruct Hc as [Hv _]. rewrite Hv, timeout_lookup, decide_True in Ha by done.
        destruct (ValidatorProtocol.validators vp !! a) as [s|]; [|done]. cbn in Ha. unfold timed_out in Ha. by destruct (_ >=? 3).
      * destruct Hc as [_ Hh]. exists hb. split; [done|]. unfold late in El. rewrite Z.gtb_ltb in El. by apply Z.ltb_ge in El.
    + destruct Hc as [Hv _]. rewrite Hv in Ha. specialize (Hok a). destruct (ValidatorProtocol.validators vp !! a); [|done].
      rewrite Eh in Hok. by destruct Hok as [[? ?] _].
  - intros hb Eh Hle. rewrite Eh in Hc. assert (late now hb = false) as El by (unfold late; rewrite Z.gtb_ltb; apply Z.ltb_ge; lia).
    rewrite El in Hc. apply Hc.
Qed.

(** A late validator after a check: it is gone, or has one more timeout and the
    same heartbeat. *)
Definition silent (v : ValidatorProtocol.t) (a : string) (hb n : Z) : Prop :=
  ValidatorProtocol.heartbeats v !! a = None ∨
  ValidatorProtocol.heartbeats v !! a = Some hb ∧ ∃ s, ValidatorProtocol.validators v !! a = Some s ∧ n ≤ vs_Timeouts s.

Lemma silent_check ro now v a hb n : fair ro → vp_ok v → late now hb = true → silent v a hb n →
  vp_ok (ValidatorProtocol.checkValidatorHeartbeats ro now v) ∧ silent (ValidatorProtocol.checkValidatorHeartbeats ro now v) a hb (n + 1).
Proof.
  intros Hro Hok Hl Hv. split; [by eapply vp_step_ok; [constructor|]|]. unfold silent.
  pose proof (check_address ro now v a Hro) as Hc. cbv zeta in Hc. destruct Hv as [Hn|(Hb & s & Hs & Hn)].
  { rewrite Hn in Hc. left. apply Hc. }
  rewrite Hb, Hl in Hc. destruct Hc as [-> ->]. rewrite timeout_lookup, timeout_beats, Hs, Hb, !decide_True by done. cbn [mbind option_bind].
  specialize (Hok a). rewrite Hs in Hok. destruct Hok as [_ Hc]. unfold timed_out.
  rewrite u64_small by (unfold is_u64; lia). destruct (_ >=? 3); [left; reflexivity|right; split; [reflexivity|]].
  eexists. split; [reflexivity|]. cbn. lia.
Qed.

(** A validator that stays silent is removed by the third check that finds its
    heartbeat too old. *)
Theorem silent_validator_removed (ro1 ro2 ro3 : range_order) (now1 now2 now3 : Z) (vp : ValidatorProtocol.t) (a : string) (hb : Z) :
  fair ro1 → fair ro2 → fair ro3 → vp_reachable vp → ValidatorProtocol.heartbeats vp !! a = Some hb →
  late now1 hb = true → late now2 hb = true → late now3 hb = true →
  let vp' := ValidatorProtocol.checkValidatorHeartbeats ro3 now3
    (ValidatorProtocol.checkValidatorHeartbeats ro2 now2 (ValidatorProtocol.checkValidatorHeartbeats ro1 now1 vp)) in
  ValidatorProtocol.validators vp' !! a = None ∧ ValidatorProtocol.heartbeats vp' !! a = None.
Proof.
  intros H1 H2 H3 Hr Hh L1 L2 L3 vp'. pose proof (vp_reachable_ok vp Hr) as Hok.
  assert (silent vp a hb 0) as Hv0.
  { pose proof (Hok a) as Ha. rewrite Hh in Ha. destruct (ValidatorProtocol.validators vp !! a) as [s|] eqn:Es; [|done].
    right. split; [done|]. exists s. split; [done|]. apply Ha. }
  destruct (silent_check ro1 now1 vp a hb 0 H1 Hok L1 Hv0) as [Hok1 Hv1].
  destruct (silent_check ro2 now2 _ a hb _ H2 Hok1 L2 Hv1) as [Hok2 Hv2].
  destruct (silent_check ro3 now3 _ a hb _ H3 Hok2 L3 Hv2) as [Hok3 Hv3].
  fold vp' in Hok3, Hv3. specialize (Hok3 a). destruct (ValidatorProtocol.validators vp' !! a) as [s'|] eqn:Es'; [|done].
  destruct Hok3 as [[x Hx] Hc]. destruct Hv3 as [?|(_ & s2 & E & ?)]; [congruence|]. rewrite Es' in E. injection E as <-. lia.
Qed.

(** ** Concrete tables *)
Definition peer_with (score : Z) (vote : string) : PeerInfo :=
  mkPeerInfo score 0 true false 0 0 false (0, 0) "" [] (mkLatencyStats 0 0 [] 0) 0 0 0 0 vote.

Definition three_peers : t :=
  mk Unlocked {[ "p" := peer_with 10 "s"; "q" := peer_with 30 "s"; "r" := peer_with 20 "u" ]} ∅.

Definition same_order : range_order := λ l, l.
Lemma same_order_fair : fair same_order.
Proof. by intros l. Qed.

Lemma GetBestPeers_spec_witness : ∃ l, l ≡ₚ candidates three_peers ∧ StronglySorted ranked l ∧
  GetBestPeers same_order three_peers 2 = Done (take 2 l.*1).
Proof. exact (GetBestPeers_spec same_order three_peers 2 same_order_fair eq_refl ltac:(lia)). Defined.

Lemma scores_bounded_witness : ∃ pm, run_ops NewPeerManager [(0, PAdd "p"); (1, PBlock "p" true); (2, PScore "p" 5000)] = Done pm ∧
  map_Forall (λ _ i, peerScoreMin ≤ pi_Score i ≤ peerScoreMax) (peers pm).
Proof.
  destruct (is_Done_inv (run_ops NewPeerManager [(0, PAdd "p"); (1, PBlock "p" true); (2, PScore "p" 5000)])
    ltac:(vm_compute; reflexivity)) as [pm E].
  exists pm. split; [exact E|]. exact (scores_bounded _ pm E).
Defined.

Lemma InitiateStateVoting_spec_witness : ∃ r, InitiateStateVoting same_order same_order three_peers = Done r ∧
  vr_WinningState r = "s".
Proof.
  destruct (InitiateStateVoting_spec same_order same_order three_peers same_order_fair same_order_fair eq_refl)
    as (r & E & _ & Hw).
  exists r. split; [exact E|]. apply Hw. vm_compute. reflexivity.
Defined.

Definition beating : ValidatorProtocol.t := ValidatorProtocol.HandleHeartbeat 0 ValidatorProtocol.NewValidatorProtocol "v".

Lemma beating_reachable : vp_reachable beating.
Proof. eapply vp_next; [apply vp_new|]. apply vp_beat. Qed.

Lemma check_active_recent_witness :
  ValidatorProtocol.validators (ValidatorProtocol.checkValidatorHeartbeats same_order 5 beating) !! "v" =
  ValidatorProtocol.validators beating !! "v".
Proof.
  destruct (check_active_recent same_order 5 beating "v" same_order_fair beating_reachable) as [_ H].
  apply (H 0); [vm_compute; reflexivity|vm_compute; discriminate].
Defined.

Lemma silent_validator_removed_witness :
  ValidatorProtocol.validators (ValidatorProtocol.checkValidatorHeartbeats same_order (10 ^ 12)
    (ValidatorProtocol.checkValidatorHeartbeats same_order (10 ^ 12)
      (ValidatorProtocol.checkValidatorHeartbeats same_order (10 ^ 12) beating))) !! "v" = None.
Proof.
  apply (silent_validator_removed same_order same_order same_order (10 ^ 12) (10 ^ 12) (10 ^ 12) beating "v" 0
    same_order_fair same_order_fair same_order_fair beating_reachable); vm_compute; reflexivity.
Defined.

(** Twenty invalid blocks bring a new peer to the minimum; the next one hangs. *)
Theorem invalid_blocks_hang (now : Z) :
  let pm := foldl (λ acc _, let! pm := acc in RecordBlockValidation now pm "p" false) (AddPeer now NewPeerManager "p") (seq 0 21) in
  pm = Deadlock.
Proof. vm_compute. reflexivity. Qed.
