(* ===== verification/P2p.v ===== *)
(** * The node on the network ([p2p.go], [Wallet.SignBlock])

    What a node does with the messages of its peers: blocks, transactions,
    heartbeats, requests for blocks and chains, stakes and validators. libp2p is
    outside: a handler takes the remote peer and the message as the decoder
    delivers it ([None] when it does not decode), and returns the node with what
    it writes to the stream. [ro k] and [ord k] are the order of the k-th
    traversal of a map or trie. *)

From stdpp Require Import base gmap strings list.
From Stdlib Require Import ZArith Lia.
From S2P Require Import Prelude.
From S2P Require Import Float64.
From S2P Require Import Sha256.
From S2P Require Import Json.
From S2P Require Import Database.
From S2P Require Import P256.
From S2P Require Import Crypto.
From S2P Require Import Transaction.
From S2P Require Import Wallet.
From S2P Require Import Account.
From S2P Require Import Utxo.
From S2P Require Import UtxoSync.
From S2P Require Import Mempool.
From S2P Require Import Trie.
From S2P Require Import Stake.
From S2P Require Import Block.
From S2P Require Import BlockJson.
From S2P Require Import Chain.
From S2P Require Import ChainStore.
From S2P Require Import Sync.
From S2P Require Import Peers.

(** ** Messages *)

(** What [BroadcastBlock] sends; the trie of a body may be missing. *)
Record BlockMessage := mkBlockMessage {
  bm_Header : option BlockHeader;
  bm_Body : option (option PatriciaNode * list TxReceipt);
  bm_Hash : string;
  bm_BroadcastTimestamp : Z;
}.

Record SyncRequest := mkSyncRequest { sr_Height : Z; sr_TotalBlocks : Z }.
Record SyncResponse := mkSyncResponse {
  sy_Height : Z;
  sy_HasChain : bool;
  sy_TotalBlocks : Z;
  sy_SyncComplete : bool;
}.

Definition sync_request_fields : sfields SyncRequest _ :=
  FCons "height" u64_codec sr_Height (FCons "total_blocks" u64_codec sr_TotalBlocks FEnd).
#[global] Instance sync_request_codec : Codec SyncRequest :=
  struct_codec sync_request_fields mkSyncRequest (mkSyncRequest 0 0).

Definition sync_response_fields : sfields SyncResponse _ :=
  FCons "height" u64_codec sy_Height (FCons "has_chain" bool_codec sy_HasChain
  (FCons "total_blocks" u64_codec sy_TotalBlocks (FCons "sync_complete" bool_codec sy_SyncComplete FEnd))).
#[global] Instance sync_response_codec : Codec SyncResponse :=
  struct_codec sync_response_fields mkSyncResponse (mkSyncResponse 0 false 0 false).

(** ** Roots and headers *)

(** One level: pairs from the left; a last hash without partner is out of range. *)
Fixpoint merkle_level (hashes : list string) : outcome (list string) :=
  match hashes with
  | [] => Done []
  | [_] => Panic "index out of range"
  | a :: b :: hashes => let! next := merkle_level hashes in Done (sha_hex (a +:+ b) :: next)
  end.

(** The levels; each halves the list, so its length is fuel enough. *)
Fixpoint merkle_levels (fuel : nat) (hashes : list string) : outcome string :=
  match hashes, fuel with
  | [], _ => Panic "index out of range"
  | [h], _ => Done h
  | _, O => Panic "out of fuel"
  | _, S fuel => let! next := merkle_level hashes in merkle_levels fuel next
  end.

Definition CalculateMerkleRoot (hashes : list string) : outcome string :=
  match last hashes with
  | None => Done ""
  | Some h =>
      let hashes := if Nat.odd (length hashes) then hashes ++ [h] else hashes in
      merkle_levels (length hashes) hashes
  end.

(** The header [getBlockHeaders] builds: six fields and its own root. *)
Definition brief_header (h : BlockHeader) (merkleRoot : string) : BlockHeader :=
  mkHeader 0 (BlockNumber h) (PreviousHash h) (hdr_Timestamp h) merkleRoot (StateRoot h) "" (Difficulty h) 0 0 0
    "" "" [] None "" [].

Definition block_header (ord : child_order) (chain : list Block) (i : nat) : outcome BlockHeader :=
  match chain !! i with
  | None => Panic "index out of range"
  | Some b =>
      let! root := CalculateMerkleRoot (Tx.Hash <$> Trie.GetAllTransactions ord (block_Transactions b)) in
      Done (brief_header (Header b) root)
  end.

(** For a range with its start at or before its end. *)
Definition getBlockHeaders (ord : child_order) (bc : Blockchain) (first last : nat) : outcome (list BlockHeader) :=
  foldl (λ acc i, let! hs := acc in let! h := block_header ord (Chain bc) i in Done (hs ++ [h]))
    (Done []) (seq first (last - first + 1)).

(** Each header after the first is compared with the chain, starting at its
    first block, and not with the header before it. *)
Fixpoint check_headers (chain : list Block) (hs : list BlockHeader) : outcome error :=
  match hs, chain with
  | [], _ => Done None
  | _ :: _, [] => Panic "index out of range"
  | h :: hs, b :: chain =>
      if str_eqb (PreviousHash h) (block_hash b) then check_headers chain hs
      else Done (Some ("invalid header chain at height " +:+ fmt_d (BlockNumber h)))
  end.

Definition verifyBlockHeaders (bc : Blockchain) (headers : list BlockHeader) : outcome error :=
  match headers with
  | [] => Done (Some "empty headers")
  | _ :: hs => check_headers (Chain bc) hs
  end.

Definition validateBlockStructure (b : Block) : error :=
  if str_eqb (hash_of_block b) "" then Some "block data is empty"
  else if str_eqb (MerkleRoot (Header b)) "" then Some "block merkle root is empty"
  else if str_eqb (StateRoot (Header b)) "" then Some "block state root is empty"
  else if hdr_Timestamp (Header b) <=? 0 then Some "block timestamp is zero or negative"
  else None.

Definition parseChainID (networkID : string) : Z :=
  if str_eqb networkID "mainnet" then 1 else if str_eqb networkID "testnet" then 2 else 3.

Definition txnsNodeID : string := "12D3KooWFz4MY4XYWW49fZP3WpzSe3eoEUzrg5k92zPvkD7VkW31".
Definition IsPeerTXNSNode (id : string) : bool := str_eqb id txnsNodeID.

(** [strings.Split]: the parts of [s] between the occurrences of [sep], taken
    from the left; [skip] characters of an occurrence are still to be dropped. *)
Fixpoint split_at (sep s acc : string) (skip : nat) : list string :=
  match skip, s with
  | _, EmptyString => [acc]
  | S skip, String _ s => split_at sep s acc skip
  | O, String c s' =>
      if String.prefix sep s then acc :: split_at sep s' "" (String.length sep - 1)
      else split_at sep s' (acc +:+ String c EmptyString) 0
  end.

(** [strings.TrimSpace] on text without white space outside ASCII. *)
Definition is_space (b : Z) : bool := (b =? 32) || ((9 <=? b) && (b <=? 13)).
Fixpoint drop_spaces (l : bytes) : bytes :=
  match l with
  | [] => []
  | b :: l' => if is_space b then drop_spaces l' else l
  end.
Definition TrimSpace (s : string) : string :=
  string_of_bytes (reverse (drop_spaces (reverse (drop_spaces (bytes_of_string s))))).

(** ** The node *)
Module Node.
Section node.
Context `{KV} `{ECDSA} `{GoImpl}.

(** [n_ownPool] is [None] as long as the node's UTXO pool is the chain's own
    object, as [NewNode] sets it up; the stake pool is shared with the chain. *)
Record t := mk {
  n_bc : Blockchain;
  n_mempool : Mempool.t;
  n_ownPool : option UTXOPool;
  n_stakePool : option StakePool.t;
  n_peers : PeerManager.t;
  n_broadcastedBlocks : gset string;
  n_isSyncing : bool;
  n_syncComplete : bool;
  n_lastSyncTime : Z;
  n_validatorProtocol : option ValidatorProtocol.t;
  n_bootstrapNodes : gset string;
  n_wallet : option Wallet;
  n_NetworkID : string;
}.

Definition set_bc (n : t) (bc : Blockchain) : t :=
  mk bc (n_mempool n) (n_ownPool n) (n_stakePool n) (n_peers n) (n_broadcastedBlocks n) (n_isSyncing n)
    (n_syncComplete n) (n_lastSyncTime n) (n_validatorProtocol n) (n_bootstrapNodes n) (n_wallet n) (n_NetworkID n).
Definition set_mempool (n : t) (m : Mempool.t) : t :=
  mk (n_bc n) m (n_ownPool n) (n_stakePool n) (n_peers n) (n_broadcastedBlocks n) (n_isSyncing n)
    (n_syncComplete n) (n_lastSyncTime n) (n_validatorProtocol n) (n_bootstrapNodes n) (n_wallet n) (n_NetworkID n).
Definition set_stakes (n : t) (sp : option StakePool.t) : t :=
  mk (n_bc n) (n_mempool n) (n_ownPool n) sp (n_peers n) (n_broadcastedBlocks n) (n_isSyncing n)
    (n_syncComplete n) (n_lastSyncTime n) (n_validatorProtocol n) (n_bootstrapNodes n) (n_wallet n) (n_NetworkID n).
Definition set_peers (n : t) (pm : PeerManager.t) : t :=
  mk (n_bc n) (n_mempool n) (n_ownPool n) (n_stakePool n) pm (n_broadcastedBlocks n) (n_isSyncing n)
    (n_syncComplete n) (n_lastSyncTime n) (n_validatorProtocol n) (n_bootstrapNodes n) (n_wallet n) (n_NetworkID n).
Definition set_broadcasted (n : t) (s : gset string) : t :=
  mk (n_bc n) (n_mempool n) (n_ownPool n) (n_stakePool n) (n_peers n) s (n_isSyncing n)
    (n_syncComplete n) (n_lastSyncTime n) (n_validatorProtocol n) (n_bootstrapNodes n) (n_wallet n) (n_NetworkID n).
Definition set_sync (n : t) (syncing complete : bool) (last : Z) : t :=
  mk (n_bc n) (n_mempool n) (n_ownPool n) (n_stakePool n) (n_peers n) (n_broadcastedBlocks n) syncing complete last
    (n_validatorProtocol n) (n_bootstrapNodes n) (n_wallet n) (n_NetworkID n).
Definition set_validators (n : t) (vp : ValidatorProtocol.t) : t :=
  mk (n_bc n) (n_mempool n) (n_ownPool n) (n_stakePool n) (n_peers n) (n_broadcastedBlocks n) (n_isSyncing n)
    (n_syncComplete n) (n_lastSyncTime n) (Some vp) (n_bootstrapNodes n) (n_wallet n) (n_NetworkID n).

(** A new node over a chain. *)
Definition NewNode (bc : Blockchain) (stakePool : option StakePool.t) (wallet : option Wallet) (validatorMode : bool)
    (networkID : string) : t :=
  mk bc Mempool.NewMempool None stakePool PeerManager.NewPeerManager ∅ false false zero_time
    (if validatorMode then Some ValidatorProtocol.NewValidatorProtocol else None) ∅ wallet networkID.

(** [n.UTXOPool], which may be nil. *)
Definition with_pool {A} (n : t) (k : UTXOPool → outcome A) : outcome A :=
  match (match n_ownPool n with Some p => Some p | None => utxoPool (n_bc n) end) with
  | None => Panic "nil pointer dereference"
  | Some p => k p
  end.

Definition GetUTXOs (p : UTXOPool) : outcome utxo_set := Pool.rlocked p (Done (utxos p)).

(** ** Peers *)
Definition score (n : t) (peer : string) (delta : Z) : t :=
  set_peers n (PeerManager.UpdatePeerScore (n_peers n) peer delta).

Definition handleStreamError (n : t) (peer : string) : t := score n peer (-10).

(** [peer.LastSeen = time.Now()] for a peer in the table. *)
Definition seen (now : Z) (i : PeerInfo) : PeerInfo :=
  mkPeerInfo (pi_Score i) now (pi_Connected i) (pi_Blacklisted i) (pi_ConnectedAt i) (pi_DisconnectedAt i)
    (pi_IsSyncing i) (pi_SyncProgress i) (pi_Version i) (pi_Capabilities i) (pi_LatencyStats i) (pi_ValidBlocks i)
    (pi_InvalidBlocks i) (pi_ValidTxs i) (pi_InvalidTxs i) (pi_LastVote i).
Definition touch (now : Z) (n : t) (peer : string) : t :=
  set_peers n (PeerManager.set_peers (n_peers n) (alter (seen now) peer (PeerManager.peers (n_peers n)))).

Definition ping : bytes := bytes_of_string "ping".

(** [received] is all that the peer writes before it closes the stream;
    [io.ReadFull] wants 1024 bytes. *)
Definition handleHeartbeatStream (now : Z) (n : t) (peer : string) (received : bytes) : t :=
  if (length received <? 1024)%nat then handleStreamError n peer else touch now n peer.

(** The kinds of a validator message; [None] is a payload that does not parse. *)
Inductive validator_message : Type :=
  | VHeartbeat (address : option string)
  | VSelection (ok : bool)
  | VVote (ok : bool)
  | VUnknown.

(** [parse] is [json.Unmarshal] of the 1024 bytes read. *)
Definition handleValidatorStream (parse : bytes → option validator_message) (now : Z) (n : t) (peer : string)
    (received : bytes) : outcome t :=
  if (length received <? 1024)%nat then Done (handleStreamError n peer)
  else match parse (take 1024 received) with
  | None | Some (VHeartbeat None) | Some (VSelection false) | Some (VVote false) => Done (handleStreamError n peer)
  | Some (VHeartbeat (Some address)) =>
      match n_validatorProtocol n with
      | None => Panic "nil pointer dereference"
      | Some vp => Done (touch now (set_validators n (ValidatorProtocol.HandleHeartbeat now vp address)) peer)
      end
  | Some (VSelection true) | Some (VVote true) => Done (touch now n peer)
  | Some VUnknown => Done (touch now (handleStreamError n peer) peer)
  end.

(** [file] is the content of [bootnode.addr]. *)
Definition IsPeerBootstrapNode (file : option string) (n : t) (peer : string) : bool :=
  bool_decide (peer ∈ n_bootstrapNodes n) ||
  match split_at "/p2p/" (TrimSpace (default "" file)) "" 0 with
  | [_; id] => str_eqb peer id
  | _ => false
  end.

Definition countNonBootnodePeers (file : option string) (n : t) (connected : list string) : Z :=
  Z.of_nat (length (filter (λ p, negb (IsPeerBootstrapNode file n p)) connected)).

Definition hasEnoughPeers (file : option string) (n : t) (connected : list string) : bool :=
  countNonBootnodePeers file n connected >=? 1.

(** ** Blocks *)
Definition maxTrackedBlocks : nat := 1000.

Definition cleanupBroadcastedBlocks (n : t) : t :=
  if (size (n_broadcastedBlocks n) <=? maxTrackedBlocks)%nat then n else set_broadcasted n ∅.

Definition block_message (now : Z) (b : Block) : BlockMessage :=
  mkBlockMessage (Some (Header b)) (Some (Some (block_Transactions b), Receipts b)) (hash_of_block b) now.

(** The peers the block is sent to. [self] is the node's own identity, [boot] tells the
    bootstrap nodes, and [sent p] whether the stream to [p] opens and takes the message. *)
Definition BroadcastBlock (now : Z) (self : string) (boot sent : string → bool) (connected : list string) (n : t)
    (b : Block) : t * list (string * BlockMessage) :=
  let blockHash := hash_of_block b in
  if bool_decide (blockHash ∈ n_broadcastedBlocks n) then (n, [])
  else
    let n := cleanupBroadcastedBlocks (set_broadcasted n ({[blockHash]} ∪ n_broadcastedBlocks n)) in
    let filteredPeers := filter (λ p, p ≠ self ∧ boot p = false) connected in
    (n, (λ p, (p, block_message now b)) <$> filter (λ p, sent p = true) filteredPeers).

(** Only a validator sends to the TXNS node, and only if it is connected;
    [sent] is the result of sending. *)
Definition BroadcastBlockToTXNSNode (now : Z) (validatorMode : bool) (sent : error) (connected : list string) (b : Block)
    : option BlockMessage * error :=
  if negb validatorMode then (None, None)
  else if existsb IsPeerTXNSNode connected then
    match sent with Some e => (None, Some e) | None => (Some (block_message now b), None) end
  else (None, None).

Section handlers.
Context (ro : nat → range_order) (ord : nat → child_order).

(** The block rebuilt from a message. *)
Definition message_block (h : BlockHeader) (trie : PatriciaNode) (receipts : list TxReceipt) (hash : string)
    (cumulativeDifficulty : Z) : Block :=
  mkBlock h trie receipts hash 0 0 cumulativeDifficulty hash.

(** The transactions of a block that the mempool drops. *)
Definition processed_ids (b : Block) : list string :=
  TransactionID <$> filter (λ tx, negb (Tx.IsCoinbase tx || Tx.IsValidatorReward tx))
    (Trie.GetAllTransactions (ord 5) (block_Transactions b)).

(** From the point where the block is valid and new. The outputs are processed
    by [AddBlockWithoutValidation] and then again. *)
Definition accept_block (now : Z) (n : t) (peer : string) (b : Block) : outcome t :=
  let! (bc, e) := AddBlockWithoutValidation (ro 0) (ro 1) (ord 3) now (n_bc n) b in
  match e with
  | Some _ => Done (handleStreamError (set_bc n bc) peer)
  | None =>
      let! bc := match utxoPool bc with
                 | None => Done bc
                 | Some _ => let! (bc, _) := ProcessBlockUTXOs (ro 2) (ro 3) (ord 4) now bc (Some b) in Done bc
                 end in
      let n := set_bc n bc in
      let txIDs := processed_ids b in
      let n := match txIDs with
               | [] => n
               | _ => set_mempool n (Mempool.ClearProcessedTransactions (n_mempool n) txIDs)
               end in
      Done (score n peer 5)
  end.

Definition handleBlockStream (now : Z) (n : t) (peer : string) (message : option BlockMessage) : outcome t :=
  match message with
  | Some (mkBlockMessage (Some h) (Some (trie, receipts)) hash _) =>
      let temp := mkBlock h empty_node [] "" 0 0 0 "" in
      let! d := CalculateCumulativeDifficulty (ord 0) (n_bc n) temp in
      match d with
      | Err _ => Done n
      | Ok cumulativeDifficulty =>
          let b := message_block h (default empty_node trie) receipts hash cumulativeDifficulty in
          let! e := ValidateBlock (ord 1) (n_bc n) b in
          match e, trie with
          | Some _, _ => Done (handleStreamError n peer)
          | None, None => Panic "nil pointer dereference"
          | None, Some _ =>
              if bool_decide (hash ∈ n_broadcastedBlocks n) then Done n
              else accept_block now (set_broadcasted n ({[hash]} ∪ n_broadcastedBlocks n)) peer b
          end
      end
  | _ => Done (handleStreamError n peer)
  end.

(** ** Transactions *)
Definition validateTransaction (tbl : key_table) (n : t) (tx : Transaction) : outcome bool :=
  if Tx.IsCoinbase tx || Tx.IsValidatorReward tx then Done true
  else if existsb (λ m, str_eqb (TransactionID m) (TransactionID tx)) (Mempool.GetTransactions (n_mempool n)) then Done false
  else
    let! ok := Tx.VerifySignature tbl tx in
    if negb ok then Done false else with_pool n (λ p, Utxo.ValidateTransaction p tx).

Definition processTransaction (tbl : key_table) (n : t) (peer : string) (tx : Transaction) : outcome t :=
  let! ok := validateTransaction tbl n tx in
  if negb ok then Done (score n peer (-2))
  else
    let! utxos := with_pool n GetUTXOs in
    let! (m, added) := Mempool.AddTransaction tbl (n_mempool n) tx utxos in
    let n := set_mempool n m in
    Done (if (added : bool) then score n peer 1 else n).

(** A message is its type and what its payload decodes to: base64 of gob, or a
    JSON object. The answer is the list of pending transactions, if any. *)
Definition handleTransactionStream (tbl : key_table) (n : t) (peer : string)
    (message : option (string * option Transaction)) : outcome (t * option (list Transaction)) :=
  match message with
  | None => Done (handleStreamError n peer, None)
  | Some (type, payload) =>
      if str_eqb type "NewTransaction" || str_eqb type "NEW_TRANSACTION" then
        match payload with
        | None => Done (score n peer (-1), None)
        | Some tx => let! n := processTransaction tbl n peer tx in Done (n, None)
        end
      else if str_eqb type "GetTransactions" then Done (n, Some (Mempool.GetTransactions (n_mempool n)))
      else Done (n, None)
  end.

(** The other path: system transactions are refused, and the signature is left
    to the mempool. The flag tells whether the transaction is broadcast. *)
Definition handleNewTransaction (tbl : key_table) (n : t) (payload : option Transaction) : outcome (t * bool) :=
  match payload with
  | None => Done (n, false)
  | Some tx =>
      if Tx.IsCoinbase tx || Tx.IsValidatorReward tx then Done (n, false)
      else
        let! ok := with_pool n (λ p, Utxo.ValidateTransaction p tx) in
        if negb ok then Done (n, false)
        else
          let! utxos := with_pool n GetUTXOs in
          let! (m, added) := Mempool.AddTransaction tbl (n_mempool n) tx utxos in
          Done (set_mempool n m, added)
  end.

(** The peers a transaction goes to, and the error if it reached none of them;
    [encoded] is the failure of [SerializeTransaction], if it fails, and [reached p]
    is whether the stream to [p] opens and takes the message. *)
Definition BroadcastTransaction (encoded : error) (self : string) (boot reached : string → bool) (connected excludePeers : list string)
    : list string * error :=
  match encoded with
  | Some e => ([], Some e)
  | None =>
      let targets := filter (λ p, p ≠ self ∧ (p ∉ excludePeers) ∧ IsPeerTXNSNode p = false ∧ boot p = false) connected in
      let got := filter (λ p, reached p = true) targets in
      (got, match got, targets with
            | [], _ :: _ => Some "failed to broadcast transaction to any peers"
            | _, _ => None
            end)
  end.

(** ** Synchronisation of chains *)

(** The blocks of the heights, missing ones left out, with the documents they
    are written as. *)
Fixpoint send_heights (bc : Blockchain) (heights : list Z) : outcome (list (option json) * Blockchain) :=
  match heights with
  | [] => Done ([], bc)
  | h :: heights =>
      let! (r, bc) := GetBlockByHeight (ord 0) bc h in
      let! (rest, bc) := send_heights bc heights in
      Done (match r with Some b => simplified_document (ord 1) b :: rest | None => rest end, bc)
  end.

(** The documents up to the first that cannot be encoded; [true] if all were. *)
Fixpoint encoded (docs : list (option json)) : list json * bool :=
  match docs with
  | [] => ([], true)
  | None :: _ => ([], false)
  | Some j :: docs => let '(js, ok) := encoded docs in (j :: js, ok)
  end.

(** How many blocks are announced. *)
Definition total_blocks (height reqHeight : Z) : Z :=
  if reqHeight =? 0 then u64 (height + 1) else if reqHeight <? height then height - reqHeight else 0.

(** The heights sent: the genesis block on request of height 0, then the rest;
    for a height below the largest 64-bit number. *)
Definition sent_heights (height reqHeight : Z) : list Z :=
  (if reqHeight =? 0 then [0] else []) ++ (if reqHeight <? height then heights (reqHeight + 1) height else []).

(** The documents written in answer to a request. *)
Definition handleSyncRequest (n : t) (request : option SyncRequest) : outcome (list json * t) :=
  match request with
  | None => Done ([], n)
  | Some req =>
      let height := GetHeight (n_bc n) in
      let totalBlocks := total_blocks height (sr_Height req) in
      match enc (mkSyncResponse height true totalBlocks false) with
      | None => Done ([], n)
      | Some first =>
          if totalBlocks >? 0 then
            let! (docs, bc) := send_heights (n_bc n) (sent_heights height (sr_Height req)) in
            let '(js, ok) := encoded docs in
            let complete := option_list (enc (mkSyncResponse height true (u64 (Z.of_nat (length js))) true)) in
            Done (first :: js ++ (if (ok : bool) then complete else []), set_bc n bc)
          else Done ([first], n)
      end
  end.

(** The loop of [SyncWithPeer]. Each document is read by a decoder of its own;
    after a block the next document is read as a [SyncResponse]. *)
Fixpoint receive_blocks (now : Z) (bc : Blockchain) (docs : list json) : outcome (Blockchain * error) :=
  match docs with
  | [] => Done (bc, None)
  | d :: docs =>
      let! r := read_block (ord 0) d in
      match r with
      | None => Done (bc, Some ("failed to read block: " +:+ JsonBadInput))
      | Some b =>
          let! (bc, e) := AddBlockWithoutValidation (ro 0) (ro 1) (ord 1) now bc b in
          match e, docs with
          | Some _, _ => receive_blocks now bc docs
          | None, [] => Done (bc, None)
          | None, c :: docs =>
              if match dec c with Some r => sy_SyncComplete r | None => false end then Done (bc, None)
              else receive_blocks now bc docs
          end
      end
  end.

(** [stream] is the error of opening the stream or sending the request, or the
    documents that the successive decoders read from it. *)
Definition SyncWithPeer (now : Z) (n : t) (stream : string + list json) : outcome (t * error) :=
  if n_isSyncing n then Done (n, Some "already syncing with another peer")
  else
    let finish := λ bc (e : error), Done (set_sync (set_bc n bc) false (n_syncComplete n) now, e) in
    match stream with
    | inl e => finish (n_bc n) (Some e)
    | inr [] => finish (n_bc n) (Some "failed to read sync response: EOF")
    | inr (d :: docs) =>
        match dec d with
        | None => finish (n_bc n) (Some ("failed to read sync response: " +:+ JsonBadInput))
        | Some resp =>
            if negb (sy_HasChain resp) then finish (n_bc n) None
            else let! (bc, e) := receive_blocks now (n_bc n) docs in finish bc e
        end
    end.

(** The first peer that is not a bootstrap node and answers without an error. *)
Fixpoint SyncBlockchain (now : Z) (boot : string → bool) (stream : string → string + list json) (n : t)
    (connected : list string) : outcome (t * error) :=
  match connected with
  | [] => Done (n, Some "no suitable peers found for sync")
  | p :: connected =>
      if boot p then SyncBlockchain now boot stream n connected
      else
        let! (n, e) := SyncWithPeer now n (stream p) in
        match e with
        | None => Done (n, None)
        | Some _ => SyncBlockchain now boot stream n connected
        end
  end.

(** One block on request: its copy as a document, or an error message. *)
Definition handleBlockSync (now : Z) (boot : string → bool) (n : t) (peer : string) (request : option SyncRequest)
    : outcome (t * option (json + string)) :=
  if boot peer then Done (n, None)
  else if n_isSyncing n then Done (n, None)
  else
    let finish := λ bc (answer : json + string), Done (set_sync (set_bc n bc) false true now, Some answer) in
    match request with
    | None => finish (n_bc n) (inr "invalid sync request")
    | Some req =>
        let! (r, bc) := GetBlockByHeight (ord 0) (n_bc n) (sr_Height req) in
        match r with
        | None => finish bc (inr "block not found")
        | Some b =>
            match simplified_document (ord 2) (Blk.Copy (ord 1) b) with
            | None => finish bc (inr "failed to serialize block")
            | Some j => finish bc (inl j)
            end
        end
    end.

(** The blocks of a range, or the first height that is missing. *)
Fixpoint read_range (bc : Blockchain) (height : Z) (n : nat) : outcome (result (list Block) * Blockchain) :=
  match n with
  | O => Done (Ok [], bc)
  | S n =>
      let! (r, bc) := GetBlockByHeight (ord 0) bc height in
      match r with
      | None => Done (Err ("block not found at height " +:+ fmt_d height), bc)
      | Some b =>
          let! (rest, bc) := read_range bc (height + 1) n in
          Done (match rest with Ok bs => Ok (b :: bs) | Err e => Err e end, bc)
      end
  end.

(** The request for a range of blocks. *)
Definition chain_request (n : t) (request : option (Z * Z * string)) : outcome (option (result (list Block)) * t) :=
  match request with
  | None => Done (None, n)
  | Some (first, last, networkID) =>
      if negb (str_eqb networkID (n_NetworkID n)) then Done (Some (Err "invalid network ID"), n)
      else if (first <? 0) || (last >? i64 (GetHeight (n_bc n))) || (first >? last) then
        Done (Some (Err "invalid block range"), n)
      else
        let! (r, bc) := read_range (n_bc n) first (Z.to_nat (last - first + 1)) in Done (Some r, set_bc n bc)
  end.

(** ** Chains of a peer *)
Fixpoint continuous (chain : list Block) : bool :=
  match chain with
  | a :: (b :: _) as rest => str_eqb (PreviousHash (Header b)) (hash_of_block a) && continuous rest
  | _ => true
  end.

(** Every block against the one before, the first against [prev]; [ValidateBlock]
    compares cached hashes, which the check of continuity has filled in. *)
Fixpoint validate_from (tbl : key_table) (prev : Block) (chain : list Block) : outcome bool :=
  match chain with
  | [] => Done true
  | b :: chain =>
      let! ok := Blk.ValidateBlock tbl (ord 0) b prev in
      if (ok : bool) then validate_from tbl b chain else Done false
  end.

(** The check of continuity hashes every block but the last. *)
Definition hash_but_last (chain : list Block) : list Block :=
  (hashed <$> take (length chain - 1) chain) ++ drop (length chain - 1) chain.

Definition ValidateAndUpdateChain (tbl : key_table) (n : t) (newChain : list Block) : outcome bool :=
  match newChain with
  | [] => Done false
  | _ =>
      if negb (continuous newChain) then Done false
      else
        let! latest := GetLatestBlock (ord 1) (n_bc n) in
        match latest with
        | None => Panic "nil pointer dereference"
        | Some prev => validate_from tbl prev (hash_but_last newChain)
        end
  end.

(** The verdict, the number of blocks and the hash of the tip. *)
Definition handleForkResolution (n : t) (receivedChain : option (list Block)) : outcome (t * option (bool * Z * string)) :=
  match receivedChain with
  | None => Done (n, None)
  | Some chain =>
      if negb (ValidateCandidateChain chain) then Done (n, None)
      else
        let! (resolved, bc) := ResolveFork (n_bc n) chain in
        let! latest := GetLatestBlock (ord 0) bc in
        Done (set_bc n bc, Some (resolved, Z.of_nat (length (Chain bc)),
                match latest with Some b => block_hash b | None => "" end))
  end.

(** From the second block on: its structure, and its link to the cached hash of
    the block before, which the structure check has filled in for all but the first. *)
Fixpoint linked_structure (prev : Block) (chain : list Block) : bool :=
  match chain with
  | [] => true
  | b :: chain =>
      match validateBlockStructure b with
      | Some _ => false
      | None => str_eqb (PreviousHash (Header b)) (block_hash prev) && linked_structure (hashed b) chain
      end
  end.

Definition handleChainValidation (chain : option (list Block)) : option bool :=
  match chain with
  | None => None
  | Some [] => Some true
  | Some (b :: chain) => Some (linked_structure b chain)
  end.

Definition handleStateVerification (n : t) (utxoSet : utxo_set) (stateHash : option string)
    : outcome (option (bool * string)) :=
  match stateHash with
  | None => Done None
  | Some h =>
      let! localHash := CalculateStateHash (ro 0) (ord 0) (n_bc n) utxoSet in
      Done (Some (str_eqb localHash h, localHash))
  end.

Definition handleMempoolSync (n : t) : list Transaction := Mempool.Transactions (n_mempool n).

(** ** Stakes and validators *)

(** A string or a number in a document read into a [map[string]interface{}]. *)
Definition text_at (j : json) (k : string) : option string := field j k ≫= read_string.
Definition number_at (j : json) (k : string) : option float64 := field j k ≫= read_float.

(** The documents of the stream: the request, and the update it announces. The
    answer to a request is the stakes. *)
Definition handleStakeSync (now : Z) (n : t) (type : option string) (update : option json)
    : t * option (gmap string StakeInfo) :=
  match type with
  | None => (n, None)
  | Some type =>
      if str_eqb type "sync" then (n, StakePool.Stakes <$> n_stakePool n)
      else match update with
      | None => (n, None)
      | Some u =>
          match text_at u "validator", number_at u "stake", text_at u "hostID", n_stakePool n with
          | Some validator, Some stake, Some hostID, Some sp =>
              (set_stakes n (Some (StakePool.AddValidator now sp validator stake hostID).1), None)
          | _, _, _, _ => (n, None)
          end
      end
  end.

(** The reply to an announced validator. The transaction is looked up, but the
    validator is added whether or not it is found. *)
Definition handleValidatorBroadcast (now : Z) (n : t) (data : option json) : outcome (t * option string) :=
  match data with
  | None => Done (n, None)
  | Some j =>
      match text_at j "address", number_at j "stake", text_at j "host_id", text_at j "transaction_id" with
      | Some address, Some stake, Some hostID, Some txID =>
          let! (_, bc) := FindTransaction (ord 0) (n_bc n) (Some (Mempool.Transactions (n_mempool n))) txID in
          let n := set_bc n bc in
          match n_stakePool n with
          | None => Done (n, Some "ER")
          | Some sp =>
              match StakePool.AddValidator now sp address stake hostID with
              | (sp, Some _) => Done (set_stakes n (Some sp), Some "ER")
              | (sp, None) => Done (set_stakes n (Some sp), Some "OK")
              end
          end
      | _, _, _, _ => Done (n, None)
      end
  end.

Definition HandleValidatorRequest (now : Z) (n : t) : outcome (result (list (string * float64) * string)) :=
  match n_stakePool n with
  | None => Panic "nil pointer dereference"
  | Some sp => StakePool.GetValidatorInfo now (ro 0) sp
  end.

(** [payload] is the document, [None] if the payload is not a byte slice. *)
Definition HandleValidatorResponse (now : Z) (n : t) (payload : option (list (string * float64) * string)) : outcome (t * error) :=
  match payload with
  | None => Done (n, Some "invalid payload type: expected []byte")
  | Some info =>
      match n_stakePool n with
      | None => Panic "nil pointer dereference"
      | Some sp => let '(sp, e) := StakePool.UpdateValidators now sp info in Done (set_stakes n (Some sp), e)
      end
  end.

(** ** Validation of a miner's block *)

(** The two components, unpadded, after zero bytes up to 64 in all. *)
Definition SignBlock (nonce : result Z) (w : Wallet) (b : Block) : result bytes :=
  match hex_decode (hash_of_block b) with
  | None => Err "invalid block hash"
  | Some hashBytes =>
      match nonce with
      | Err e => Err ("signing failed: " +:+ e)
      | Ok k =>
          let '(r, s) := ecdsa_sign k (w_PrivateKey w) hashBytes in
          let signature := big_Bytes r ++ big_Bytes s in
          Ok (replicate (64 - length signature) 0 ++ signature)
      end
  end.

Record ValidationResponse := mkValidationResponse {
  rs_Valid : bool;
  rs_Error : string;
  rs_Signature : bytes;
  rs_Address : string;
  rs_BlockHash : string;
}.

Definition sendValidatorVerificationResponse (nonce : result Z) (n : t) (b : option Block) (valid : bool) (errMsg : string)
    : outcome ValidationResponse :=
  if valid then
    match n_wallet n, b with
    | None, _ => Done (mkValidationResponse valid errMsg [] "" "")
    | Some _, None => Panic "nil pointer dereference"
    | Some w, Some b =>
        Done match SignBlock nonce w b with
        | Err _ => mkValidationResponse false "failed to create validator signature" [] "" ""
        | Ok signature => mkValidationResponse true errMsg signature (w_Address w) (hash_of_block b)
        end
    end
  else Done (mkValidationResponse false errMsg [] "" "").

(** The first transaction whose signature does not verify. *)
Fixpoint bad_signature (tbl : key_table) (txs : list Transaction) : outcome error :=
  match txs with
  | [] => Done None
  | tx :: txs =>
      let! ok := Tx.VerifySignature tbl tx in
      if (ok : bool) then bad_signature tbl txs
      else Done (Some ("invalid transaction signature in tx " +:+ TransactionID tx))
  end.

(** The checks on a block once the node is known to be a validator. *)
Definition check_block (tbl : key_table) (n : t) (b : Block) : outcome error :=
  let! previous :=
    if BlockNumber (Header b) >? 0 then
      let! r := GetBlock (ord 0) (n_bc n) (PreviousHash (Header b)) in
      Done match r with
      | Err e => Some ("previous block not found: " +:+ e)
      | Ok prev =>
          if str_eqb (PreviousHash (Header b)) (hash_of_block prev) then None else Some "invalid previous block hash"
      end
    else Done None in
  match previous with
  | Some e => Done (Some e)
  | None =>
      match validateBlockStructure b with
      | Some e => Done (Some ("invalid block structure: " +:+ e))
      | None => bad_signature tbl (Trie.GetAllTransactions (ord 1) (block_Transactions b))
      end
  end.

(** [request] is what the stream holds: a read error, or the document if it is one. *)
Definition handleMinerBlockValidationRequest (nonce : result Z) (now : Z) (tbl : key_table) (n : t) (request : string + option json)
    : outcome ValidationResponse :=
  match request with
  | inl e => sendValidatorVerificationResponse nonce n None false ("Error reading block data: " +:+ e)
  | inr j =>
      let! r := match j with None => Done None | Some j => read_block (ord 2) j end in
      match r, n_wallet n with
      | None, _ => sendValidatorVerificationResponse nonce n None false ("Error deserializing block: " +:+ JsonBadInput)
      | Some b, None => sendValidatorVerificationResponse nonce n (Some b) false "validator wallet not configured"
      | Some b, Some w =>
          match n_stakePool n with
          | None => Panic "nil pointer dereference"
          | Some sp =>
              let! validators := StakePool.GetValidators now (ro 0) sp 0 in
              match validators with
              | Err e => sendValidatorVerificationResponse nonce n (Some b) false ("failed to get validators: " +:+ e)
              | Ok vs =>
                  if negb (existsb (λ v, str_eqb (vn_Address v) (w_Address w)) vs) then
                    sendValidatorVerificationResponse nonce n (Some b) false
                      ("not a registered validator: " +:+ w_Address w)
                  else
                    let! e := check_block tbl n b in
                    match e with
                    | Some e => sendValidatorVerificationResponse nonce n (Some b) false e
                    | None => sendValidatorVerificationResponse nonce n (Some b) true ""
                    end
              end
          end
      end
  end.

End handlers.
End node.
Arguments t {_}.
End Node.
