(* ===== verification/P2pFacts.v ===== *)
(** * Correctness of the node's network handlers

    Blocks from the network keep the chain linked, a mined block brings a
    replica to the miner's outputs; what a signed validation vouches for; and
    where the exchange of messages goes wrong. *)

From stdpp Require Import base gmap strings list.
From Stdlib Require Import ZArith Lia.
From S2P Require Import Prelude.
From S2P Require Import Float64.
From S2P Require Import Sha256.
From S2P Require Import Json.
From S2P Require Import Database.
From S2P Require Import P256.
From S2P Require Import Crypto.
From S2P Require Import Transaction.
From S2P Require Import Wallet.
From S2P Require Import Account.
From S2P Require Import Utxo.
From S2P Require Import UtxoSync.
From S2P Require Import UtxoFacts.
From S2P Require Import UtxoSyncFacts.
From S2P Require Import Mempool.
From S2P Require Import MempoolFacts.
From S2P Require Import Trie.
From S2P Require Import TrieFacts.
From S2P Require Import Stake.
From S2P Require Import StakeFacts.
From S2P Require Import Block.
From S2P Require Import BlockJson.
From S2P Require Import BlockFacts.
From S2P Require Import Chain.
From S2P Require Import ChainFacts.
From S2P Require Import ChainStore.
From S2P Require Import ChainStoreFacts.
From S2P Require Import Mining.
From S2P Require Import MiningFacts.
From S2P Require Import Sync.
From S2P Require Import SyncFacts.
From S2P Require Import Peers.
From S2P Require Import P2p.

(** ** Merkle roots of headers *)

(** A level of an even list is half as long; an odd one has no partner for its
    last hash. *)
Lemma merkle_level_even k : ∀ hs, length hs = (2 * k)%nat → ∃ next, merkle_level hs = Done next ∧ length next = k.
Proof.
  induction k as [|k IH]; intros hs Hl.
  { destruct hs; [|done]. by exists []. }
  destruct hs as [|a [|b hs]]; cbn in Hl; [lia|lia|]. destruct (IH hs) as (next & E & Hn); [lia|].
  exists (sha_hex (a +:+ b) :: next). cbn. rewrite E. cbn. by rewrite Hn.
Qed.

Lemma merkle_level_odd k : ∀ hs, length hs = (2 * k + 1)%nat → merkle_level hs = Panic "index out of range".
Proof.
  induction k as [|k IH]; intros hs Hl; destruct hs as [|a [|b hs]]; cbn in Hl; try lia; [done|].
  cbn. rewrite (IH hs); [done|lia].
Qed.

Lemma merkle_levels_spec : ∀ fuel hs, (0 < length hs ≤ fuel)%nat →
  ((∃ k, length hs = (2 ^ k)%nat) ∧ is_Done (merkle_levels fuel hs) = true) ∨
  ((∀ k, length hs ≠ (2 ^ k)%nat) ∧ merkle_levels fuel hs = Panic "index out of range").
Proof.
  induction fuel as [|fuel IH]; intros hs Hl; [lia|].
  destruct hs as [|a hs]; [cbn in Hl; lia|]. destruct hs as [|b hs]; [left; split; [by exists 0%nat|done]|].
  set (l := a :: b :: hs) in *. change (merkle_levels (S fuel) l) with (obind (merkle_level l) (merkle_levels fuel)).
  destruct (Nat.Even_or_Odd (length l)) as [[k Hk]|[k Hk]].
  - destruct (merkle_level_even k l Hk) as (next & -> & Hn). cbn [obind].
    destruct (IH next) as [[[j Hj] Hd]|[Hj Hd]]; [unfold l in *; cbn in *; lia|left|right].
    + split; [|done]. exists (S j). rewrite Hk, <-Hn, Hj. by rewrite Nat.pow_succ_r'.
    + split; [|done]. intros [|j] Hp; [unfold l in *; cbn in *; lia|]. apply (Hj j). rewrite Nat.pow_succ_r' in Hp. lia.
  - right. rewrite (merkle_level_odd k l Hk). split; [|done]. intros [|j] Hp; [unfold l in *; cbn in *; lia|].
    rewrite Nat.pow_succ_r' in Hp. lia.
Qed.

(** The root of a block's transactions is computed exactly when their number,
    rounded up to an even one, is a power of two; for any other number the loop
    runs past the end of a level. *)
Theorem CalculateMerkleRoot_returns (hs : list string) :
  let n := (length hs + length hs mod 2)%nat in
  (hs = [] ∨ ∃ k, n = (2 ^ k)%nat) ∧ is_Done (CalculateMerkleRoot hs) = true ∨
  (hs ≠ [] ∧ ∀ k, n ≠ (2 ^ k)%nat) ∧ CalculateMerkleRoot hs = Panic "index out of range".
Proof.
  cbv zeta. unfold CalculateMerkleRoot. destruct (last hs) as [h|] eqn:Hl.
  2: { apply last_None in Hl as ->. left. split; [by left|done]. }
  assert (hs ≠ []) as Hne by (by intros ->).
  set (l := if Nat.odd (length hs) then hs ++ [h] else hs).
  assert (length l = (length hs + length hs mod 2)%nat) as Hlen.
  { unfold l. destruct (Nat.odd (length hs)) eqn:Ho.
    - apply Nat.odd_spec in Ho as [k Hk]. rewrite length_app, Hk, (Nat.add_comm (2 * k) 1), (Nat.mul_comm 2 k).
      by rewrite Nat.Div0.mod_add.
    - apply (f_equal negb) in Ho. rewrite Nat.negb_odd in Ho. apply Nat.even_spec in Ho as [k Hk].
      rewrite Hk, (Nat.mul_comm 2 k), Nat.Div0.mod_mul. lia. }
  destruct (merkle_levels_spec (length l) l) as [[Hk Hd]|[Hk Hd]].
  - rewrite Hlen. destruct hs; [done|cbn; lia].
  - left. rewrite <-Hlen. split; [by right|done].
  - right. by rewrite <-Hlen.
Qed.

(** ** Blocks from the network *)
Section blocks.
Context `{KV}.

(** A chain whose UTXO pool can be updated: there is a database and nobody
    holds the pool's mutex. *)
Definition healthy (bc : Blockchain) : Prop :=
  is_Some (w_db (world bc)) ∧ ∀ p, utxoPool bc = Some p → mu p = Unlocked.

(** What processing the outputs of a block leaves. *)
Definition processed (h : Z) (txs : list Transaction) (now : Z) (bc bc' : Blockchain) : Prop :=
  Chain bc' = Chain bc ∧ currentHash bc' = currentHash bc ∧
  utxoPool bc' = (λ p, let q := foldl (pool_tx h) p txs in Pool.set_root q (Utxo.CalculateMerkleRoot (utxos q)) now)
                   <$> utxoPool bc.

Lemma process_utxos_inv ro ro' ord now bc b bc' e : process_utxos ro ro' ord now bc b = Done (bc', e) →
  processed (BlockNumber (Header b)) (Trie.GetAllTransactions ord (block_Transactions b)) now bc bc'.
Proof.
  unfold process_utxos, processed. destruct (utxoPool bc) as [p|] eqn:Hp.
  - intros E. apply obind_Done_inv in E as ([[q w] e'] & [_ ->]%ProcessBlock_pool & [= <- _]). done.
  - intros [= <- _]. by rewrite Hp.
Qed.

Lemma process_utxos_returns ro ro' ord now bc b : healthy bc →
  returns (process_utxos ro ro' ord now bc b) (λ r, healthy r.1 ∧
    processed (BlockNumber (Header b)) (Trie.GetAllTransactions ord (block_Transactions b)) now bc r.1).
Proof.
  intros [Hdb Hp].
  cut (returns (process_utxos ro ro' ord now bc b) (λ r, healthy r.1)).
  { intros ([bc' e] & E & Hh). exists (bc', e). split; [done|]. split; [done|]. by eapply process_utxos_inv. }
  unfold process_utxos. destruct (utxoPool bc) as [p|] eqn:E.
  - apply (returns_bind _ _ (λ r, mu r.1.1 = Unlocked ∧ is_Some (w_db r.1.2))).
    + apply ProcessBlock_returns; [by apply Hp|done].
    + intros [[q w] e] [Hq Hw]. apply returns_Done. split; [done|]. by intros p' [= <-].
  - apply returns_Done. split; [done|]. cbn. rewrite E. done.
Qed.

Lemma AddBlockWithoutValidation_inv ro ro' ord now bc b bc' e :
  AddBlockWithoutValidation ro ro' ord now bc b = Done (bc', e) →
  e = None ∧ processed (BlockNumber (Header b)) (Trie.GetAllTransactions ord (block_Transactions b)) now
    (set_tip bc (Chain bc ++ [b]) (block_hash b)) bc'.
Proof. intros E. apply obind_Done_inv in E as ([bc1 e1] & E & [= <- <-]). split; [done|]. by eapply process_utxos_inv. Qed.

Lemma AddBlockWithoutValidation_returns ro ro' ord now bc b : healthy bc →
  returns (AddBlockWithoutValidation ro ro' ord now bc b) (λ r, healthy r.1 ∧ r.2 = None ∧
    Chain r.1 = Chain bc ++ [b] ∧ processed (BlockNumber (Header b))
      (Trie.GetAllTransactions ord (block_Transactions b)) now (set_tip bc (Chain bc ++ [b]) (block_hash b)) r.1).
Proof.
  intros Hh. eapply returns_bind; [by apply (process_utxos_returns ro ro' ord now (set_tip bc _ _) b)|].
  intros [bc' e] [Hh' Hp]. apply returns_Done. split_and!; [done|done|by apply Hp|done].
Qed.

(** A block passes the chain's check exactly when its hash is the hash of its
    header and it continues the tip. *)
Lemma ValidateBlock_inv ord bc b : ValidateBlock ord bc b = Done None → ∃ prev, last (Chain bc) = Some prev ∧
  hash_of_block b = Blk.CalculateHash b ∧ PreviousHash (Header b) = hash_of_block prev ∧
  BlockNumber (Header b) = u64 (BlockNumber (Header prev) + 1).
Proof.
  unfold ValidateBlock, ValidateBlockHash. destruct (str_eqb (Blk.CalculateHash b) _) eqn:Hh; [|done]. cbn [negb].
  destruct (last (Chain bc)) as [prev|]; [|done].
  destruct (str_eqb (PreviousHash (Header b)) _) eqn:Hp; [|done].
  destruct (Z.eqb_spec (BlockNumber (Header b)) (u64 (BlockNumber (Header prev) + 1))) as [Hn|]; [|done].
  intros _. exists prev. apply str_eqb_eq in Hh, Hp. done.
Qed.

Lemma ValidateBlock_None ord bc b prev : last (Chain bc) = Some prev → hash_of_block b = Blk.CalculateHash b →
  PreviousHash (Header b) = hash_of_block prev → BlockNumber (Header b) = u64 (BlockNumber (Header prev) + 1) →
  ValidateBlock ord bc b = Done None.
Proof.
  intros Hl Hh Hp Hn. unfold ValidateBlock, ValidateBlockHash.
  rewrite <-Hh, str_eqb_refl, Hl, Hp, str_eqb_refl, Hn, Z.eqb_refl. cbn [negb]. by rewrite no_transaction_refused.
Qed.

Context `{ECDSA} `{GoImpl}.

Lemma accept_block_inv ro ord now (n n' : Node.t) peer b : Node.accept_block ro ord now n peer b = Done n' →
  Chain (Node.n_bc n') = Chain (Node.n_bc n) ++ [b] ∧ Node.n_broadcastedBlocks n' = Node.n_broadcastedBlocks n ∧
  Mempool.Transactions (Node.n_mempool n') =
    filter (λ tx, TransactionID tx ∉ Node.processed_ids ord b) (Mempool.Transactions (Node.n_mempool n)).
Proof.
  unfold Node.accept_block. intros E. apply obind_Done_inv in E as ([bc1 e1] & [-> Hp]%AddBlockWithoutValidation_inv & E).
  apply obind_Done_inv in E as (bc2 & E2 & E). cbv zeta in E. injection E as <-.
  assert (Chain bc2 = Chain bc1) as Hc.
  { destruct (utxoPool bc1); [|by injection E2 as <-]. apply obind_Done_inv in E2 as ([bc3 e3] & E3 & [= <-]).
    by apply process_utxos_inv in E3 as [-> _]. }
  destruct Hp as (Hc1 & _). cbn in Hc1. destruct (Node.processed_ids ord b) as [|x l] eqn:Hids; cbn; split_and!;
    try done; rewrite ?Hc, ?Hc1; try done.
  symmetry. apply filter_none, Forall_forall. intros ??. apply not_elem_of_nil.
Qed.

(** What a block from the network leads to: nothing but a change of the sender's
    score, or one more block at the end of the chain, which binds its header by its
    hash, continues the tip, and was not seen before. Its transactions leave the mempool. *)
Lemma handleBlockStream_inv ro ord now (n n' : Node.t) peer msg : Node.handleBlockStream ro ord now n peer msg = Done n' →
  (Node.n_bc n' = Node.n_bc n ∧ Node.n_mempool n' = Node.n_mempool n ∧
   Node.n_broadcastedBlocks n' = Node.n_broadcastedBlocks n) ∨
  ∃ prev b, last (Chain (Node.n_bc n)) = Some prev ∧ Chain (Node.n_bc n') = Chain (Node.n_bc n) ++ [b] ∧
    hash_of_block b = Blk.CalculateHash b ∧ PreviousHash (Header b) = hash_of_block prev ∧
    BlockNumber (Header b) = u64 (BlockNumber (Header prev) + 1) ∧
    (block_hash b ∉ Node.n_broadcastedBlocks n) ∧
    Node.n_broadcastedBlocks n' = {[block_hash b]} ∪ Node.n_broadcastedBlocks n ∧
    Mempool.Transactions (Node.n_mempool n') =
      filter (λ tx, TransactionID tx ∉ Node.processed_ids ord b) (Mempool.Transactions (Node.n_mempool n)).
Proof.
  destruct msg as [[[h|] [[trie rs]|] hash ts]|]; try (intros [= <-]; by left).
  cbn [Node.handleBlockStream]. cbv zeta. intros E. apply obind_Done_inv in E as (d & _ & E).
  destruct d as [cd|]; [|injection E as <-; by left]. apply obind_Done_inv in E as (e & Hv & E).
  set (b := Node.message_block h (default empty_node trie) rs hash cd) in *.
  destruct e; [injection E as <-; by left|]. destruct trie as [trie|]; [|done].
  destruct (bool_decide_reflect (hash ∈ Node.n_broadcastedBlocks n)) as [|Hnew]; [injection E as <-; by left|].
  right. apply ValidateBlock_inv in Hv as (prev & Hl & Hh & Hp & Hn). apply accept_block_inv in E as (Hc & Hb & Hm).
  by exists prev, b.
Qed.

(** Messages of any peers, each with the orders of its traversals. *)
Record arrival := mkArrival {
  ar_now : Z;
  ar_peer : string;
  ar_message : option BlockMessage;
  ar_ro : nat → range_order;
  ar_ord : nat → child_order;
}.

Fixpoint deliver (n : Node.t) (l : list arrival) : outcome Node.t :=
  match l with
  | [] => Done n
  | a :: l => let! n := Node.handleBlockStream (ar_ro a) (ar_ord a) (ar_now a) n (ar_peer a) (ar_message a) in deliver n l
  end.

(** The chain through a sequence of messages: linked, and extended by new blocks. *)
Lemma deliver_inv l : ∀ n n', deliver n l = Done n' → chain_ok (Chain (Node.n_bc n)) →
  Z.of_nat (length (Chain (Node.n_bc n)) + length l) < 2 ^ 64 →
  chain_ok (Chain (Node.n_bc n')) ∧ Node.n_broadcastedBlocks n ⊆ Node.n_broadcastedBlocks n' ∧
  ∃ ext, Chain (Node.n_bc n') = Chain (Node.n_bc n) ++ ext ∧
    Forall (λ b, hash_of_block b = Blk.CalculateHash b ∧ (block_hash b ∉ Node.n_broadcastedBlocks n)) ext ∧
    NoDup (block_hash <$> ext).
Proof.
  induction l as [|a l IH]; intros n n' E Hok Hlen; cbn [deliver] in E.
  { injection E as <-. split_and!; [done|done|]. exists []. rewrite app_nil_r. split_and!; [done|constructor|constructor]. }
  apply obind_Done_inv in E as (n1 & E1 & E). cbn [length] in Hlen.
  destruct (handleBlockStream_inv _ _ _ _ _ _ _ E1) as [(Hbc & _ & Hbr)|(prev & b & Hl & Hc & Hh & Hp & Hn & Hnew & Hbr & _)].
  { destruct (IH n1 n' E) as (Hok' & Hsub & ext & Hext & Hall & Hnd); rewrite ?Hbc; [done|lia|].
    rewrite Hbc in Hext. rewrite Hbr in Hsub, Hall. split_and!; [done|done|]. by exists ext. }
  assert (BlockNumber (Header b) = Z.of_nat (length (Chain (Node.n_bc n)))) as Hnum.
  { rewrite last_lookup in Hl. destruct (Hok _ _ Hl) as [Hb _]. apply lookup_lt_Some in Hl.
    rewrite Hn, Hb, u64_small by (unfold is_u64; lia). lia. }
  destruct (IH n1 n' E) as (Hok' & Hsub & ext & Hext & Hall & Hnd); rewrite ?Hc.
  - apply chain_ok_snoc; [done|done|]. intros p Hlp. congruence.
  - rewrite length_app. cbn. lia.
  - split_and!; [done|intros x Hx; apply Hsub; rewrite Hbr; by apply elem_of_union_r|]. exists (b :: ext). rewrite Hext, Hc, <-app_assoc. split_and!; [done| |].
    + constructor; [done|]. eapply Forall_impl; [exact Hall|]. intros x [Hx Hx']. split; [done|]. intros Hin. apply Hx'. rewrite Hbr. by apply elem_of_union_r.
    + cbn. apply NoDup_cons. split; [|done]. rewrite list_elem_of_fmap. intros (x & Hx & Hin).
      rewrite Forall_forall in Hall. destruct (Hall x Hin) as [_ Hx']. apply Hx'. rewrite Hbr. apply elem_of_union_l, elem_of_singleton. done.
Qed.

(** C10 Whatever blocks any peers send in any order, the chain stays linked and
    numbered, keeps its blocks, and grows only by blocks whose hash is the hash of
    their header, no two with the same hash and none seen before. *)
Theorem received_chain_linked (l : list arrival) (n n' : Node.t) : deliver n l = Done n' →
  chain_ok (Chain (Node.n_bc n)) → Z.of_nat (length (Chain (Node.n_bc n)) + length l) < 2 ^ 64 →
  chain_ok (Chain (Node.n_bc n')) ∧
  ∃ ext, Chain (Node.n_bc n') = Chain (Node.n_bc n) ++ ext ∧
    Forall (λ b, hash_of_block b = Blk.CalculateHash b ∧ (block_hash b ∉ Node.n_broadcastedBlocks n)) ext ∧
    NoDup (block_hash <$> ext).
Proof. intros E Hok Hlen. by destruct (deliver_inv l n n' E Hok Hlen) as (? & _ & ?). Qed.

(** An accepted block on a healthy node: the handler returns, and the outputs are
    those of applying its transactions twice. *)
Lemma accept_block_returns ro ord now (n : Node.t) peer b : healthy (Node.n_bc n) →
  Trie.GetAllTransactions (ord 3%nat) (block_Transactions b) ≠ [] → Trie.GetAllTransactions (ord 4%nat) (block_Transactions b) ≠ [] →
  returns (Node.accept_block ro ord now n peer b) (λ n', healthy (Node.n_bc n') ∧
    Chain (Node.n_bc n') = Chain (Node.n_bc n) ++ [b] ∧
    utxoPool (Node.n_bc n') =
      (λ q, apply_all now (BlockNumber (Header b)) (apply_all now (BlockNumber (Header b)) q
                (Trie.GetAllTransactions (ord 3%nat) (block_Transactions b)))
              (Trie.GetAllTransactions (ord 4%nat) (block_Transactions b))) <$> utxoPool (Node.n_bc n)).
Proof.
  intros Hh Hne3 Hne4. apply (returns_bind _ _ _ _ (AddBlockWithoutValidation_returns (ro 0%nat) (ro 1%nat) (ord 3%nat) now _ b Hh)).
  intros [bc1 e1] (Hh1 & He & Hc1 & Hp1). cbn [fst snd] in *. rewrite He.
  destruct Hp1 as (_ & _ & Hp1). cbn [utxoPool set_tip] in Hp1.
  apply (returns_bind _ _ (λ bc2, healthy bc2 ∧ Chain bc2 = Chain bc1 ∧ utxoPool bc2 =
    (λ q, apply_all now (BlockNumber (Header b)) q (Trie.GetAllTransactions (ord 4%nat) (block_Transactions b))) <$> utxoPool bc1)).
  - destruct (utxoPool bc1) as [q1|] eqn:Hq1; [|apply returns_Done; by rewrite Hq1].
    apply (returns_bind _ _ _ _ (process_utxos_returns (ro 2%nat) (ro 3%nat) (ord 4%nat) now bc1 b Hh1)).
    intros [bc2 e2] (Hh2 & Hc2 & _ & Hp2). apply returns_Done. cbn [fst snd] in *.
    rewrite Hp2, Hq1. cbn [fmap option_fmap option_map]. by rewrite apply_all_eq.
  - intros bc2 (Hh2 & Hc2 & Hp2). cbv zeta. apply returns_Done.
    assert (utxoPool bc2 = (λ q, apply_all now (BlockNumber (Header b)) (apply_all now (BlockNumber (Header b)) q
      (Trie.GetAllTransactions (ord 3%nat) (block_Transactions b)))
      (Trie.GetAllTransactions (ord 4%nat) (block_Transactions b))) <$> utxoPool (Node.n_bc n)) as Hp.
    { rewrite Hp2, Hp1. destruct (utxoPool (Node.n_bc n)) as [q|]; [|done]. cbn [fmap option_fmap option_map].
      pose proof (apply_all_eq now (BlockNumber (Header b)) _ q Hne3) as Ha. cbv zeta in Ha. cbv beta zeta.
      rewrite <-Ha. reflexivity. }
    rewrite <-Hp. destruct (Node.processed_ids ord b); cbn; (split_and!; [done|by rewrite Hc2, Hc1|done]).
Qed.

(** A block rebuilt from a message has the hash it came with. *)
Lemma message_hash h trie rs hash cd : hash ≠ "" → hash_of_block (Node.message_block h trie rs hash cd) = hash.
Proof.
  intros Hne. unfold hash_of_block, Blk.Hash, Node.message_block. cbn [originalHash].
  by rewrite (proj2 (str_eqb_neq _ _) Hne).
Qed.

(** A message that continues the tip of a healthy node is accepted. *)
Lemma handleBlockStream_accepts ro ord now (n : Node.t) peer h trie rs hash ts l tip :
  Chain (Node.n_bc n) = l ++ [tip] → Forall (λ b, hash_of_block b ≠ hash_of_block tip) l →
  (∀ cd, hash = Blk.CalculateHash (Node.message_block h trie rs hash cd)) → hash ≠ "" →
  PreviousHash h = hash_of_block tip → BlockNumber h = u64 (BlockNumber (Header tip) + 1) →
  hash ∉ Node.n_broadcastedBlocks n →
  ∃ cd, Node.handleBlockStream ro ord now n peer (Some (mkBlockMessage (Some h) (Some (Some trie, rs)) hash ts)) =
    Node.accept_block ro ord now (Node.set_broadcasted n ({[hash]} ∪ Node.n_broadcastedBlocks n)) peer
      (Node.message_block h trie rs hash cd).
Proof.
  intros Hc Hl Hh Hne Hp Hn Hnew. cbn [Node.handleBlockStream]. cbv zeta.
  assert (∀ cd, hash_of_block (Node.message_block h trie rs hash cd) = hash) as Hhash.
  { intros cd. by apply message_hash. }
  assert (GetBlock (ord 0%nat) (Node.n_bc n) (PreviousHash h) = Done (Ok (hashed tip))) as Hg.
  { unfold GetBlock. rewrite Hc, Hp. assert (find (λ b, str_eqb (hash_of_block b) (hash_of_block tip)) (l ++ [tip]) = Some tip) as ->; [|done].
    clear -Hl. induction Hl as [|b l Hb _ IH]; cbn; [by rewrite str_eqb_refl|]. by rewrite (proj2 (str_eqb_neq _ _) Hb). }
  unfold CalculateCumulativeDifficulty. cbn [Header]. rewrite Hg. cbn [obind]. rewrite header_hashed, <-Hn, Z.eqb_refl. cbn [negb].
  match goal with |- context [if ?x then Ok ?y else Ok ?z] => exists (if x then y else z); destruct x end.
  all: cbn [default]; rewrite (ValidateBlock_None _ _ _ tip); [|by rewrite Hc, last_snoc|rewrite Hhash; apply Hh|done|done].
  all: cbn [obind]; by rewrite bool_decide_eq_false_2.
Qed.

(** C2 The network and the miner agree on the outputs: when a miner's block reaches a
    node with the same tip and the same outputs, whatever the orders in which the
    two visit maps and tries, the handler accepts it, and the node ends with the
    block's header and hash at its tip, exactly the miner's outputs, and the miner's
    Merkle root. The transactions of the round have distinct ids (by their digests)
    and none spends an output of the block; otherwise the orders matter
    ([replay_revives]). *)
Theorem mined_block_replicates (nan_bits : Z) (o : Orders) (now : Z) (fuel : nat) (now_ns : Z)
    (replies : ValidatorNode → Blk.reply) (s s' : Miner) (addr : string) (prev b : Block) (p : UTXOPool)
    (ro : nat → range_order) (ord : nat → child_order) (now' ts : Z) (n : Node.t) (peer : string)
    (l : list Block) (tip : Block) (q : UTXOPool) (trie : PatriciaNode) :
  let txs := round_txs o now prev addr (select_pending (m_mempool s)) in
  fair_children (o_list o) → fair_children (o_trie o) → (∀ k, fair_children (ord k)) →
  NoDup ((λ tx, digest (TransactionID tx)) <$> txs) → unchained txs →
  last (Chain (m_bc s)) = Some prev → utxoPool (m_bc s) = Some p →
  MineBlock nan_bits o now fuel now_ns replies s addr = Done (Some (s', Ok b)) →
  Chain (Node.n_bc n) = l ++ [tip] → Forall (λ b, hash_of_block b ≠ hash_of_block tip) l →
  hash_of_block tip = block_hash prev → BlockNumber (Header tip) = BlockNumber (Header prev) →
  healthy (Node.n_bc n) → utxoPool (Node.n_bc n) = Some q → utxos q = utxos p →
  hash_of_block b ∉ Node.n_broadcastedBlocks n →
  (∀ ord, fair_children ord → Trie.GetAllTransactions ord trie ≡ₚ Trie.GetAllTransactions ord (block_Transactions b)) →
  ∃ n' b' p' q', Node.handleBlockStream ro ord now' n peer
      (Some (mkBlockMessage (Some (Header b)) (Some (Some trie, Receipts b)) (hash_of_block b) ts)) = Done n' ∧
    Chain (Node.n_bc n') = Chain (Node.n_bc n) ++ [b'] ∧ Header b' = Header b ∧ hash_of_block b' = hash_of_block b ∧
    utxoPool (m_bc s') = Some p' ∧ utxoPool (Node.n_bc n') = Some q' ∧ utxos q' = utxos p' ∧
    merkleRoot q' = merkleRoot p'.
Proof.
  intros txs Hlist Htrie Hord Hnd Hun Hlast Hpool E Hc Hl Htip Hnum Hh Hq Hqp Hnew Htx.
  destruct (mined_block nan_bits o now fuel now_ns replies s s' addr prev b Hlast E) as (Hn & Hprev & Hhash & _ & _ & _ & Ht).
  destruct (mined_pool nan_bits o now fuel now_ns replies s s' addr prev b p Hlist Htrie Hnd Hun Hlast Hpool E)
    as (p' & Hp' & Hk & Hroot & _). fold txs in Hk, Ht.
  assert (∀ k, Trie.GetAllTransactions (ord k) trie ≡ₚ txs) as Htxs.
  { intros k. rewrite (Htx (ord k) (Hord k)). by apply Ht. }
  assert (txs ≠ []) as Hne by done.
  assert (∀ k, Trie.GetAllTransactions (ord k) trie ≠ []) as Hne'.
  { intros k E0. specialize (Htxs k). rewrite E0 in Htxs. by apply Permutation_nil_l in Htxs. }
  destruct (handleBlockStream_accepts ro ord now' n peer (Header b) trie (Receipts b) (hash_of_block b) ts l tip Hc Hl)
    as [cd Ed]; [intros cd; by rewrite Hhash|apply hash_not_empty|by rewrite Hprev|by rewrite Hn, Hnum|done|].
  set (b' := Node.message_block (Header b) trie (Receipts b) (hash_of_block b) cd) in *.
  destruct (accept_block_returns ro ord now' (Node.set_broadcasted n ({[hash_of_block b]} ∪ Node.n_broadcastedBlocks n)) peer b'
    Hh (Hne' 3%nat) (Hne' 4%nat)) as (n' & Ea & _ & Hc' & Hp''). cbn [Node.n_bc Node.set_broadcasted] in Hc', Hp''.
  rewrite Hq in Hp''. cbn [fmap option_fmap option_map] in Hp''.
  assert (NoDup (TransactionID <$> txs)) as Hids.
  { apply (NoDup_fmap_1 digest). by rewrite <-list_fmap_compose. }
  match type of Hp'' with _ = Some ?x => set (q' := x) in * end.
  assert (utxos q' = utxos p') as Heq.
  { apply map_eq. intros k. rewrite Hk, <-Hqp. unfold q'. cbn [block_Transactions Header b' Node.message_block]. rewrite Hn.
    rewrite (replay_effect now' now' _ q (Trie.GetAllTransactions (ord 3%nat) trie)).
    - apply block_effect_perm; [by rewrite (Htxs 3%nat)|apply Htxs].
    - by rewrite (Htxs 3%nat).
    - intros t t' i x Hi Hi'. apply Hun; by rewrite <-(Htxs 3%nat).
    - by rewrite (Htxs 3%nat), (Htxs 4%nat). }
  exists n', b', p', q'. split_and!; [by rewrite Ed|done|done|apply message_hash, hash_not_empty|done|exact Hp''|done|].
  rewrite Hroot, <-Heq. by apply apply_all_root, (Hne' 4%nat).
Qed.

Lemma u64_succ_neq z : is_u64 z → z ≠ u64 (z + 1).
Proof.
  unfold is_u64, u64. intros Hz E. destruct (decide (z + 1 = 2 ^ 64)) as [Ez|Ez].
  - rewrite Ez, Z_mod_same_full in E. lia.
  - rewrite Z.mod_small in E by lia. lia.
Qed.

Lemma find_app_l {A} (f : A → bool) (l r : list A) x : find f l = Some x → find f (l ++ r) = Some x.
Proof. induction l as [|y l IH]; [done|]. cbn. destruct (f y); [done|apply IH]. Qed.

Lemma find_last {A} (f : A → bool) (l : list A) x : last l = Some x → f x = true → ∃ y, find f l = Some y.
Proof.
  intros (l' & ->)%last_Some Hx. induction l' as [|y l' IH]; cbn; [rewrite Hx; by eexists|].
  destruct (f y); [by eexists|done].
Qed.

(** The validity of a block is checked before it is looked up among those already
    processed, and a processed block no longer continues the tip: every further
    peer that passes an accepted block on loses ten points. *)
Theorem duplicate_punished (ro ro' : nat → range_order) (ord ord' : nat → child_order) (now now' : Z) (n n' : Node.t)
    (peer peer' : string) (m : BlockMessage) :
  Node.handleBlockStream ro ord now n peer (Some m) = Done n' → Chain (Node.n_bc n') ≠ Chain (Node.n_bc n) →
  Node.handleBlockStream ro' ord' now' n' peer' (Some m) = Done (Node.score n' peer' (-10)).
Proof.
  intros E Hne. destruct m as [[h|] [[trie rs]|] hash ts]; try (injection E as <-; done).
  cbn [Node.handleBlockStream] in *. cbv zeta in *. apply obind_Done_inv in E as (d & Hd & E).
  destruct d as [cd|]; [|by injection E as <-]. apply obind_Done_inv in E as (e & Hv & E).
  destruct e; [by injection E as <-|]. destruct trie as [trie|]; [|done].
  change (default empty_node (Some trie)) with trie in *.
  destruct (bool_decide _); [by injection E as <-|]. set (b := Node.message_block h trie rs hash cd) in *.
  apply accept_block_inv in E as (Hc & _). cbn [Node.n_bc Node.set_broadcasted] in Hc.
  apply ValidateBlock_inv in Hv as (prev & Hl & Hh & Hp & Hn). cbn [Header b Node.message_block] in Hp, Hn.
  destruct (find_last (λ b, str_eqb (hash_of_block b) (PreviousHash h)) _ prev Hl) as [x Hx].
  { by rewrite Hp, str_eqb_refl. }
  assert (CalculateCumulativeDifficulty (ord' 0%nat) (Node.n_bc n') (mkBlock h empty_node [] "" 0 0 0 "") = Done (Ok cd)) as ->.
  { unfold CalculateCumulativeDifficulty, GetBlock in *. cbn [Header] in *.
    rewrite Hx in Hd. rewrite Hc, (find_app_l _ _ _ x Hx). exact Hd. }
  cbn [obind]. fold b. unfold ValidateBlock. rewrite Hc, last_snoc.
  destruct (negb (ValidateBlockHash b)); [reflexivity|]. cbn [Header b Node.message_block].
  destruct (negb (str_eqb _ _)); [done|].
  assert ((BlockNumber h =? u64 (BlockNumber h + 1)) = false) as ->; [|done].
  apply Z.eqb_neq, u64_succ_neq. rewrite Hn. apply u64_range.
Qed.

End blocks.

(** ** Documents read as another type *)
Lemma marshal_struct_names l j : marshal_struct l = Some j → ∃ fs, j = JObj fs ∧ fs.*1 = l.*1.
Proof.
  unfold marshal_struct. intros (fs & E & ->)%fmap_Some. exists fs. split; [done|].
  apply mapM_Some in E. induction E as [|[k o] [k' j] l fs Hkj _ IH]; [done|]. cbn in *.
  apply fmap_Some in Hkj as (j' & _ & [= -> ->]). by f_equal.
Qed.

Lemma write_fields_names {A K} (f : sfields A K) a : (write_fields f a).*1 = field_names f.
Proof. induction f as [|B K name c proj rest IH]; cbn; by f_equal. Qed.

Lemma get_missing {A} `{Codec A} fs k : lower k ∉ lower <$> fs.*1 → get fs k = Some zero.
Proof. intros Hk. unfold get. rewrite field_fold_fresh; [done|]. by rewrite list_fmap_compose. Qed.

(** The document of a block, read as a response, is empty; the document of a
    response, read as a block, has no header. *)
Lemma block_read_as_response ord b j : simplified_document ord b = Some j →
  dec j = Some (mkSyncResponse 0 false 0 false).
Proof.
  intros (fs & -> & Hn)%marshal_struct_names. rewrite write_fields_names in Hn.
  unfold dec, sync_response_codec, struct_codec, sync_response_fields. cbn [read_fields mbind option_bind].
  rewrite !get_missing; [done|..]; rewrite Hn; apply (bool_decide_eq_false _); vm_compute; reflexivity.
Qed.

Lemma response_read_as_block ord (r : SyncResponse) j : enc r = Some j → read_block ord j = Panic "nil pointer dereference".
Proof.
  intros (fs & -> & Hn)%marshal_struct_names. rewrite write_fields_names in Hn.
  unfold read_block, dec, wire_codec, struct_codec, wire_fields. cbn [read_fields mbind option_bind].
  rewrite !get_missing; [done|..]; rewrite Hn; apply (bool_decide_eq_false _); vm_compute; reflexivity.
Qed.

#[global] Instance sync_response_laws : CodecLaws SyncResponse.
Proof. struct_laws idtac. Qed.

(** ** The exchange of chains *)
Section exchange.
Context `{KV} `{ECDSA} `{GoImpl} (ro : nat → range_order) (ord : nat → child_order).

Lemma heights_seq s n : heights (Z.of_nat s) (Z.of_nat (s + n) - 1) = Z.of_nat <$> seq s n.
Proof.
  unfold heights. replace (Z.to_nat (Z.of_nat (s + n) - 1 - Z.of_nat s + 1)) with n by lia.
  apply list_eq. intros i. rewrite !list_lookup_fmap. destruct (decide (i < n)%nat).
  - rewrite !lookup_seq_lt by done. cbn. f_equal. lia.
  - by rewrite !lookup_seq_ge by lia.
Qed.

Lemma send_numbered n : ∀ bc s, numbered (Chain bc) → (s + n ≤ length (Chain bc))%nat →
  ∃ bc', Node.send_heights ord bc (Z.of_nat <$> seq s n) =
    Done ((λ b, simplified_document (ord 1%nat) (read_out b)) <$> take n (drop s (Chain bc)), bc').
Proof.
  induction n as [|n IH]; intros bc s Hn Hlen; [by eexists|]. cbn [seq fmap list_fmap Node.send_heights].
  destruct (lookup_lt_is_Some_2 (Chain bc) s) as [b Hb]; [lia|].
  rewrite (GetBlockByHeight_numbered _ bc s b Hn Hb). cbn [obind]. set (bc1 := set_chain bc _).
  assert (drop (S s) (Chain bc1) = drop (S s) (Chain bc)) as Hdrop by (apply drop_insert_lt; lia).
  destruct (IH bc1 (S s)) as [bc' E]; [by apply numbered_insert|unfold bc1; cbn; rewrite length_insert; lia|].
  change (list_fmap nat Z Z.of_nat (seq (S s) n)) with (Z.of_nat <$> seq (S s) n).
  rewrite E. cbn [obind]. rewrite Hdrop, (drop_S _ _ _ Hb). by eexists.
Qed.

Lemma encoded_all (docs : list (option json)) js : docs = Some <$> js → Node.encoded docs = (js, true).
Proof. intros ->. induction js as [|j js IH]; [done|]. cbn. change (list_fmap json (option json) Some js) with (Some <$> js). by rewrite IH. Qed.

(** The elements at even positions. *)
Fixpoint evens {A} (l : list A) : list A :=
  match l with
  | a :: _ :: l => a :: evens l
  | l => l
  end.

(** Reading documents of blocks that are followed by the completion: every second
    one is taken for a response. *)
Lemma receive_alternate now c k : read_block (ord 0%nat) c = Panic "nil pointer dereference" →
  (∃ r, dec c = Some r ∧ sy_SyncComplete r = true) → ∀ ds bs bc, (length ds ≤ k)%nat → healthy bc →
  Forall2 (λ d b, read_block (ord 0%nat) d = Done (Some b) ∧ dec d = Some (mkSyncResponse 0 false 0 false)) ds bs →
  if Nat.odd (length ds)
  then returns (Node.receive_blocks ro ord now bc (ds ++ [c])) (λ r, r.2 = None ∧ Chain r.1 = Chain bc ++ evens bs ∧ healthy r.1)
  else Node.receive_blocks ro ord now bc (ds ++ [c]) = Panic "nil pointer dereference".
Proof.
  intros Hc (rc & Hrc & Hrc'). induction k as [|k IH]; intros ds bs bc Hk Hh Hds.
  { destruct ds; [|cbn in Hk; lia]. cbn. by rewrite Hc. }
  destruct Hds as [|d b ds bs [Hd _] Hds]; [cbn; by rewrite Hc|].
  destruct (AddBlockWithoutValidation_returns (ro 0%nat) (ro 1%nat) (ord 1%nat) now bc b Hh) as ([bc1 e1] & E1 & Hh1 & He & Hc1 & _).
  cbn [fst snd] in *. subst e1. cbn [app Node.receive_blocks]. rewrite Hd. cbn [obind]. rewrite E1. cbn [obind].
  destruct Hds as [|d2 b2 ds bs [_ Hd2] Hds].
  { cbn [app length Nat.odd Nat.even negb]. rewrite Hrc, Hrc'. by apply returns_Done. }
  cbn [app]. rewrite Hd2. cbn [sy_SyncComplete]. cbn [length]. rewrite !Nat.odd_succ, Nat.even_succ.
  specialize (IH ds bs bc1 ltac:(cbn in Hk; lia) Hh1 Hds). destruct (Nat.odd (length ds)).
  - destruct IH as (r & Er & Hr2 & Hrc1 & Hrh). exists r. split; [done|]. cbn [evens].
    rewrite Hrc1, Hc1, <-app_assoc. done.
  - done.
Qed.
End exchange.

Section synchronisation.
Context `{KV} `{ECDSA} `{GoImpl} (ro : nat → range_order) (ord : nat → child_order).

(** A block sent as a document arrives as the same block. *)
Lemma document_transfer o o' b : fair_children o → fair_children o' → transferable b →
  ∃ j b', simplified_document o b = Some j ∧ read_block o' j = Done (Some b') ∧ received_as b b'.
Proof.
  intros Ho Ho' (Hr & Hh & Hst). destruct (simplified_round_trip o o' b (Hst o Ho)) as (j & Ej & Ed).
  destruct (Unmarshal_Marshal o o' o' b Ho Ho' Ho' Hr Hh) as (? & ? & ? & ? & Ht & ?).
  exists j, (Blk.UnmarshalJSON o' (Blk.MarshalJSON o b)). split_and!; [done|done|]. split_and!; try done.
  intros o1 o2 Ho1 Ho2. rewrite (GetAll_orders o1 o' _ Ho1 Ho' (Unmarshal_reachable o' _ Ho')), Ht. by apply GetAll_orders.
Qed.

(** The documents of a list of blocks, as the receiver reads them. *)
Lemma documents_transfer o o' l : fair_children o → fair_children o' → Forall (λ b, transferable (read_out b)) l →
  ∃ js bs, (λ b, simplified_document o (read_out b)) <$> l = Some <$> js ∧
    Forall2 (λ j b, read_block o' j = Done (Some b) ∧ dec j = Some (mkSyncResponse 0 false 0 false)) js bs ∧
    Forall2 (λ b b', received_as (read_out b) b') l bs.
Proof.
  intros Ho Ho'. induction 1 as [|b l Hb _ (js & bs & E & Hr & Ht)]; [by exists [], []|].
  destruct (document_transfer o o' _ Ho Ho' Hb) as (j & b' & Ej & Ed & Hre).
  exists (j :: js), (b' :: bs). rewrite !fmap_cons, Ej, E. split_and!; [done| |by constructor].
  constructor; [|done]. split; [done|]. by eapply block_read_as_response.
Qed.

Lemma Forall2_evens {A B} (P : A → B → Prop) k : ∀ l l', (length l ≤ k)%nat → Forall2 P l l' → Forall2 P (evens l) (evens l').
Proof.
  induction k as [|k IH]; intros l l' Hk Hl; destruct Hl as [|a b m m' Ha [|a2 b2 q q' Ha2 Hl]]; cbn in *; try lia;
    try by repeat constructor.
  constructor; [done|]. apply IH; [lia|done].
Qed.
(** The first block sent to a client of height [r]. *)
Definition first_sent (r : nat) : nat := if decide (r = 0)%nat then 0 else S r.

(** The heights sent by a chain of [len] blocks, and their announced number. *)
Lemma sent_heights_seq len r : (0 < len)%nat → (r = 0 ∨ S r < len)%nat →
  Node.sent_heights (Z.of_nat (len - 1)) (Z.of_nat r) = Z.of_nat <$> seq (first_sent r) (len - first_sent r).
Proof.
  intros Hpos Hr. unfold Node.sent_heights, first_sent. destruct (decide (r = 0)%nat) as [->|Hr0].
  - change (Z.of_nat 0 =? 0) with true. rewrite Nat.sub_0_r. destruct len as [|[|m]]; [lia|done|].
    rewrite (proj2 (Z.ltb_lt _ _)) by lia.
    assert (heights (Z.of_nat 0 + 1) (Z.of_nat (S (S m) - 1)) = Z.of_nat <$> seq 1 (S m)) as ->; [|done].
    rewrite <-heights_seq. f_equal; lia.
  - rewrite (proj2 (Z.eqb_neq _ _)), (proj2 (Z.ltb_lt _ _)) by lia. cbn [app].
    rewrite <-heights_seq. f_equal; lia.
Qed.

Lemma total_blocks_range len r : (0 < len)%nat → Z.of_nat len < 2 ^ 64 → (r = 0 ∨ S r < len)%nat →
  0 < Node.total_blocks (Z.of_nat (len - 1)) (Z.of_nat r) < 2 ^ 64.
Proof.
  intros Hpos Hbig Hr. unfold Node.total_blocks. destruct (Z.eqb_spec (Z.of_nat r) 0).
  - rewrite u64_small by (unfold is_u64; lia). lia.
  - rewrite (proj2 (Z.ltb_lt _ _)) by lia. lia.
Qed.

(** A response is written and read back. *)
Lemma response_document h c t k : is_u64 h → is_u64 t →
  ∃ j, enc (mkSyncResponse h c t k) = Some j ∧ dec j = Some (mkSyncResponse h c t k).
Proof.
  intros Hh Ht. apply dec_enc. cbn. unfold int_fits. cbn. split_and!; try done; apply andb_true_iff; split;
    (apply Z.leb_le || apply Z.ltb_lt); unfold is_u64 in *; lia.
Qed.

(** The answer to a request: the announcement, the blocks, the note of completion. *)
Lemma handleSyncRequest_documents srv r t js : let chain := Chain (Node.n_bc srv) in
  numbered chain → (0 < length chain)%nat → Z.of_nat (length chain) < 2 ^ 64 → (r = 0 ∨ S r < length chain)%nat →
  (λ b, simplified_document (ord 1%nat) (read_out b)) <$> drop (first_sent r) chain = Some <$> js →
  ∃ h t' c srv', Node.handleSyncRequest ord srv (Some (mkSyncRequest (Z.of_nat r) t)) = Done (h :: js ++ [c], srv') ∧
    dec h = Some (mkSyncResponse (Z.of_nat (length chain - 1)) true t' false) ∧
    enc (mkSyncResponse (Z.of_nat (length chain - 1)) true (u64 (Z.of_nat (length js))) true) = Some c.
Proof.
  intros chain Hnum Hpos Hbig Hr Ejs.
  pose proof (total_blocks_range (length chain) r Hpos Hbig Hr) as Htot.
  destruct (response_document (Z.of_nat (length chain - 1)) true (Node.total_blocks (Z.of_nat (length chain - 1)) (Z.of_nat r)) false)
    as (h & Eh & Dh); [unfold is_u64; lia..|].
  destruct (response_document (Z.of_nat (length chain - 1)) true (u64 (Z.of_nat (length js))) true) as (c & Ec & _);
    [unfold is_u64; lia|apply u64_range|].
  assert (first_sent r < length chain)%nat as Hs by (unfold first_sent; destruct (decide _); lia).
  destruct (send_numbered ord (length chain - first_sent r) (Node.n_bc srv) (first_sent r) Hnum ltac:(fold chain; lia)) as [bc' Esend].
  fold chain in Esend. rewrite take_ge in Esend by (rewrite length_drop; lia). rewrite Ejs in Esend.
  eexists h, _, c, (Node.set_bc srv bc'). split_and!; [|exact Dh|done]. cbn [Node.handleSyncRequest sr_Height]. cbv zeta.
  rewrite (height_numbered _ Hnum) by (fold chain; intros E0; rewrite E0 in Hpos; cbn in Hpos; lia). fold chain.
  replace (Z.of_nat (length chain) - 1) with (Z.of_nat (length chain - 1)) by lia. rewrite Eh.
  assert ((Node.total_blocks (Z.of_nat (length chain - 1)) (Z.of_nat r) >? 0) = true) as -> by (apply Z.gtb_lt; lia).
  rewrite (sent_heights_seq _ _ Hpos Hr), Esend. cbn [obind]. rewrite (encoded_all _ js eq_refl), Ec. done.
Qed.

(** The synchronisation of [SyncWithPeer] with [handleSyncRequest] loses blocks.
    After each block it adds, the client takes the next document for the note of
    completion: of an odd number of blocks it gets those at even positions; for an
    even number it reads the note itself as a block, which has no header, and panics. *)
Theorem sync_skips_blocks (ord' : nat → child_order) (now : Z) (srv cl : Node.t) (r : nat) :
  let chain := Chain (Node.n_bc srv) in let sent := drop (first_sent r) chain in
  (∀ k, fair_children (ord k)) → (∀ k, fair_children (ord' k)) →
  numbered chain → Forall (λ b, transferable (read_out b)) chain → (0 < length chain)%nat → Z.of_nat (length chain) < 2 ^ 64 →
  healthy (Node.n_bc cl) → Node.n_isSyncing cl = false → GetHeight (Node.n_bc cl) = Z.of_nat r →
  (r = 0 ∨ S r < length chain)%nat →
  ∃ docs srv', Node.handleSyncRequest ord srv (Some (mkSyncRequest (GetHeight (Node.n_bc cl)) 0)) = Done (docs, srv') ∧
    if Nat.odd (length sent)
    then ∃ cl' got, Node.SyncWithPeer ro ord' now cl (inr docs) = Done (cl', None) ∧
      Chain (Node.n_bc cl') = Chain (Node.n_bc cl) ++ got ∧
      Forall2 (λ b b', received_as (read_out b) b') (evens sent) got
    else Node.SyncWithPeer ro ord' now cl (inr docs) = Panic "nil pointer dereference".
Proof.
  intros chain sent Hord Hord' Hnum Htr Hpos Hbig Hh Hidle Hr Hrange.
  destruct (documents_transfer (ord 1%nat) (ord' 0%nat) sent (Hord _) (Hord' _)) as (js & bs & Ejs & Hread & Hrecv).
  { by apply Forall_drop. }
  destruct (handleSyncRequest_documents srv r 0 js Hnum Hpos Hbig Hrange Ejs) as (h & t' & c & srv' & E & Dh & Ec).
  exists (h :: js ++ [c]), srv'. rewrite Hr. split; [exact E|].
  pose proof (receive_alternate ro ord' now c (length js) (response_read_as_block _ _ _ Ec)) as Hrec.
  destruct (response_document (Z.of_nat (length chain - 1)) true (u64 (Z.of_nat (length js))) true) as (c' & Ec' & Dc);
    [unfold is_u64; lia|apply u64_range|]. unfold chain in Ec'. rewrite Ec in Ec'. injection Ec' as <-.
  specialize (Hrec ltac:(by eexists) js bs (Node.n_bc cl) ltac:(done) Hh Hread).
  assert (length sent = length js) as -> by (rewrite (Forall2_length _ _ _ Hrecv); symmetry; by eapply Forall2_length).
  unfold Node.SyncWithPeer. rewrite Hidle, Dh. cbn [sy_HasChain negb].
  destruct (Nat.odd (length js)).
  - destruct Hrec as ([bc1 e1] & Er & He & Hc1 & _). cbn [fst snd] in *. subst e1. rewrite Er. cbn [obind].
    eexists _, (evens bs). split_and!; [done|done|]. by eapply Forall2_evens.
  - by rewrite Hrec.
Qed.
End synchronisation.

(** ** Validation for a miner *)
Section validation.
Context `{KV} `{ECDSA} `{GoImpl} (ro : nat → range_order) (ord : nat → child_order).

Lemma bad_signature_None tbl txs : Node.bad_signature tbl txs = Done None → Forall (λ tx, Tx.VerifySignature tbl tx = Done true) txs.
Proof.
  induction txs as [|tx txs IH]; [constructor|]. cbn. intros E. apply obind_Done_inv in E as (ok & Eo & E).
  destruct ok; [|done]. constructor; [done|by apply IH].
Qed.

(** What a validator has checked of a block whose validation it signs. *)
Record vouched (tbl : key_table) (n : Node.t) (b : Block) : Prop := {
  v_previous : 0 < BlockNumber (Header b) → ∃ prev, GetBlock (ord 0%nat) (Node.n_bc n) (PreviousHash (Header b)) = Done (Ok prev) ∧
    hash_of_block prev = PreviousHash (Header b);
  v_hash : hash_of_block b ≠ "";
  v_merkle : MerkleRoot (Header b) ≠ "";
  v_state : StateRoot (Header b) ≠ "";
  v_time : 0 < hdr_Timestamp (Header b);
  v_signatures : Forall (λ tx, Tx.is_system tx = true ∨ signed_by_sender tbl tx)
    (Trie.GetAllTransactions (ord 1%nat) (block_Transactions b)) }.

Lemma validateBlockStructure_None b : validateBlockStructure b = None →
  hash_of_block b ≠ "" ∧ MerkleRoot (Header b) ≠ "" ∧ StateRoot (Header b) ≠ "" ∧ 0 < hdr_Timestamp (Header b).
Proof.
  unfold validateBlockStructure. destruct (str_eqb (hash_of_block b) "") eqn:Hh; [done|]. destruct (str_eqb (MerkleRoot _) "") eqn:Hm; [done|].
  destruct (str_eqb (StateRoot _) "") eqn:Hs; [done|]. destruct (Z.leb_spec (hdr_Timestamp (Header b)) 0); [done|].
  intros _. split_and!; [by apply str_eqb_neq..|lia].
Qed.

Lemma check_block_None tbl n b : Node.check_block ord tbl n b = Done None → vouched tbl n b.
Proof.
  unfold Node.check_block. intros E. apply obind_Done_inv in E as (previous & Ep & E). destruct previous; [done|].
  destruct (validateBlockStructure b) eqn:Hs; [done|]. destruct (validateBlockStructure_None b Hs) as (? & ? & ? & ?). split; [|done..|].
  - intros Hpos. rewrite (proj2 (Z.gtb_lt _ _) Hpos) in Ep. apply obind_Done_inv in Ep as (r & Er & Ep).
    destruct r as [prev|]; [|done]. destruct (str_eqb _ _) eqn:Hp; [|done]. apply str_eqb_eq in Hp. by exists prev.
  - eapply Forall_impl; [by apply bad_signature_None|]. intros tx. apply VerifySignature_signed.
Qed.

Lemma response_valid nonce n b valid e r : Node.sendValidatorVerificationResponse nonce n b valid e = Done r →
  Node.rs_Valid r = true → valid = true ∧ ∀ w, Node.n_wallet n = Some w → ∃ b', b = Some b' ∧
    Node.SignBlock nonce w b' = Ok (Node.rs_Signature r) ∧ Node.rs_Address r = w_Address w ∧ Node.rs_BlockHash r = hash_of_block b'.
Proof.
  unfold Node.sendValidatorVerificationResponse. destruct valid; [|by intros [= <-]].
  destruct (Node.n_wallet n) as [w|]; [|intros [= <-] _; split; [done|intros w [=]]].
  destruct b as [b|]; [|done]. destruct (Node.SignBlock nonce w b) as [sig|] eqn:Es; intros [= <-] Hv; [|done].
  split; [done|]. intros ? [= <-]. by exists b.
Qed.
(** C32 A positive answer to a miner vouches for the block: the node is a registered
    validator, the predecessor is known to it under the hash that the block names
    (block 0, and only that, needs none), the block has a hash, a Merkle root, a state
    root and a positive time, every transaction other than a self-declared coinbase or
    validator's reward carries a signature of its hash under its sender's key, and the
    answer carries the validator's signature of the block's hash. *)
Theorem validation_sound (nonce : result Z) (now : Z) (tbl : key_table) (n : Node.t) (request : string + option json)
    (r : Node.ValidationResponse) :
  Node.handleMinerBlockValidationRequest ro ord nonce now tbl n request = Done r → Node.rs_Valid r = true →
  ∃ j b w sp vs, request = inr (Some j) ∧ read_block (ord 2%nat) j = Done (Some b) ∧
    Node.n_wallet n = Some w ∧ Node.n_stakePool n = Some sp ∧
    StakePool.GetValidators now (ro 0%nat) sp 0 = Done (Ok vs) ∧ w_Address w ∈ vn_Address <$> vs ∧
    vouched tbl n b ∧
    Node.SignBlock nonce w b = Ok (Node.rs_Signature r) ∧ Node.rs_Address r = w_Address w ∧
    Node.rs_BlockHash r = hash_of_block b.
Proof.
  unfold Node.handleMinerBlockValidationRequest. destruct request as [e|oj].
  { intros E Hv. by destruct (response_valid _ _ _ _ _ _ E Hv). }
  intros E Hv. apply obind_Done_inv in E as (ob & Eb & E). destruct ob as [b|].
  2: { by destruct (response_valid _ _ _ _ _ _ E Hv). }
  destruct oj as [j|]; [|done].
  destruct (Node.n_wallet n) as [w|] eqn:Hw; [|by destruct (response_valid _ _ _ _ _ _ E Hv)].
  destruct (Node.n_stakePool n) as [sp|] eqn:Hsp; [|done]. apply obind_Done_inv in E as (rv & Ev & E).
  destruct rv as [vs|e]; [|by destruct (response_valid _ _ _ _ _ _ E Hv)].
  destruct (existsb _ vs) eqn:Hin; cbn [negb] in E; [|by destruct (response_valid _ _ _ _ _ _ E Hv)].
  apply obind_Done_inv in E as (e & Ee & E). destruct e as [e|]; [by destruct (response_valid _ _ _ _ _ _ E Hv)|].
  destruct (response_valid _ _ _ _ _ _ E Hv) as [_ Hs]. destruct (Hs w Hw) as (b' & [= <-] & Hsig & Ha & Hh).
  exists j, b, w, sp, vs. split_and!; try done; [|by apply check_block_None].
  apply existsb_exists in Hin as (v & Hv' & Heq%str_eqb_eq). rewrite <-Heq. apply list_elem_of_fmap_2.
  by apply list_elem_of_In.
Qed.

(** The signature of a validation verifies under the validator's key, when both
    components take the full 32 bytes. *)
Theorem SignBlock_verifies (k : Z) (w : Wallet) (b : Block) (hash : bytes) :
  key_pair (w_PrivateKey w) → hex_decode (hash_of_block b) = Some hash →
  (let '(r, s) := ecdsa_sign k (w_PrivateKey w) hash in big_len r = 32%nat ∧ big_len s = 32%nat) →
  ∃ sig, Node.SignBlock (Ok k) w b = Ok sig ∧ length sig = 64%nat ∧
    ecdsa_Verify (Some (sk_PublicKey (w_PrivateKey w))) hash (be_value (take 32 sig)) (be_value (drop 32 sig)) = Done true.
Proof.
  intros Hk Hh Hlen. unfold Node.SignBlock. rewrite Hh. destruct (ecdsa_sign k (w_PrivateKey w) hash) as [r s] eqn:Es.
  destruct Hlen as [Hr Hs].
  assert (length (big_Bytes r ++ big_Bytes s) = 64%nat) as Hl by (rewrite length_app, !length_big_Bytes, Hr, Hs; done).
  exists (big_Bytes r ++ big_Bytes s). rewrite Hl. split_and!; [done|done|].
  pose proof (split_verifies k (w_PrivateKey w) hash r s Hk Es ltac:(congruence)) as Hv. by rewrite Hl in Hv.
Qed.
End validation.

(** ** Peers and their messages *)
Section peers.
Context `{KV} `{ECDSA} `{GoImpl}.

Definition score_of (n : Node.t) (peer : string) : option Z := pi_Score <$> PeerManager.peers (Node.n_peers n) !! peer.

Lemma score_of_score n peer delta : score_of (Node.score n peer delta) peer =
  (λ s, PeerManager.clamp (i64 (s + delta))) <$> score_of n peer.
Proof. unfold score_of. cbn. rewrite lookup_alter_eq. by destruct (_ !! peer). Qed.

Lemma ping_costs now n peer : Node.handleHeartbeatStream now n peer Node.ping = Node.score n peer (-10).
Proof. reflexivity. Qed.

(** The heartbeats of this software carry four bytes, and its handler asks for
    1024: a peer that only sends heartbeats loses ten points with each, down to
    the minimum. *)
Theorem heartbeats_punished (now : Z) (n : Node.t) (peer : string) (s : Z) (k : nat) :
  score_of n peer = Some s → peerScoreMin ≤ s ≤ peerScoreMax →
  score_of (Nat.iter k (λ n, Node.handleHeartbeatStream now n peer Node.ping) n) peer =
    Some (Z.max peerScoreMin (s - 10 * Z.of_nat k)).
Proof.
  intros Hs Hr. induction k as [|k IH].
  { cbn [Nat.iter nat_rect]. rewrite Hs. f_equal. lia. }
  rewrite Nat.iter_succ, ping_costs, score_of_score, IH. cbn [fmap option_fmap option_map]. f_equal.
  unfold PeerManager.clamp, peerScoreMin, peerScoreMax in *. rewrite i64_small by (unfold is_i64; lia).
  destruct (Z.gtb_spec (Z.max (-100) (s - 10 * Z.of_nat k) + -10) 1000); [lia|].
  destruct (Z.ltb_spec (Z.max (-100) (s - 10 * Z.of_nat k) + -10) (-100)); lia.
Qed.

(** A peer can mint: a transaction that calls itself a coinbase goes into the mempool
    without signature or inputs, and its sender is rewarded. *)
Theorem peer_mints (tbl : key_table) (n : Node.t) (peer : string) (tx : Transaction) (p : UTXOPool) :
  Tx.IsCoinbase tx = true → Node.n_ownPool n = Some p → mu p = Unlocked →
  Mempool.has_id (TransactionID tx) (Mempool.Transactions (Node.n_mempool n)) = false →
  Z.of_nat (length (Mempool.Transactions (Node.n_mempool n))) < Mempool.maxSize (Node.n_mempool n) →
  ∃ n', Node.handleTransactionStream tbl n peer (Some ("NewTransaction", Some tx)) = Done (n', None) ∧
    Mempool.Transactions (Node.n_mempool n') ≡ₚ tx :: Mempool.Transactions (Node.n_mempool n) ∧
    score_of n' peer = (λ s, PeerManager.clamp (i64 (s + 1))) <$> score_of n peer.
Proof.
  intros Hc Hp Hmu Hid Hroom. cbn [Node.handleTransactionStream]. unfold Node.processTransaction, Node.validateTransaction.
  change (str_eqb "NewTransaction" "NewTransaction" || str_eqb "NewTransaction" "NEW_TRANSACTION") with true.
  rewrite Hc. cbn [orb obind negb]. unfold Node.with_pool. rewrite Hp. unfold Node.GetUTXOs, Pool.rlocked. rewrite Hmu.
  cbn [mutex_RLock obind]. unfold Mempool.AddTransaction, Mempool.ValidateTransaction. rewrite Hid, Hc. cbn [orb obind negb].
  rewrite Z.geb_leb, (proj2 (Z.leb_gt _ _)) by lia. cbn [obind].
  eexists. split; [reflexivity|]. split; [|by rewrite score_of_score].
  cbn [Node.n_mempool Node.score Node.set_peers Node.set_mempool Mempool.Transactions Mempool.set_txs].
  rewrite stable_sort_perm. by rewrite Permutation_app_comm.
Qed.
(** A validator is added on a peer's word: the transaction it names need not exist. *)
Theorem validator_added_unverified (ord : nat → child_order) (now : Z) (n : Node.t) (j : json) (sp : StakePool.t)
    (address hostID txID e : string) (stake : float64) (bc : Blockchain) :
  Node.text_at j "address" = Some address → Node.number_at j "stake" = Some stake →
  Node.text_at j "host_id" = Some hostID → Node.text_at j "transaction_id" = Some txID →
  address ≠ "" → hostID ≠ "" → f64_lt stake f64_zero = false → Node.n_stakePool n = Some sp →
  FindTransaction (ord 0%nat) (Node.n_bc n) (Some (Mempool.Transactions (Node.n_mempool n))) txID = Done (Err e, bc) →
  ∃ n' sp', Node.handleValidatorBroadcast ord now n (Some j) = Done (n', Some "OK") ∧
    Node.n_stakePool n' = Some sp' ∧ is_Some (StakePool.Stakes sp' !! address).
Proof.
  intros Ha Hst Hho Htx Hne Hnh Hpos Hsp Hf. cbn [Node.handleValidatorBroadcast]. rewrite Ha, Hst, Hho, Htx, Hf. cbn [obind].
  change (Node.n_stakePool (Node.set_bc n bc)) with (Node.n_stakePool n). rewrite Hsp.
  unfold StakePool.AddValidator. rewrite (proj2 (str_eqb_neq _ _) Hne), (proj2 (str_eqb_neq _ _) Hnh), Hpos.
  eexists _, _. split; [reflexivity|]. split; [reflexivity|]. cbn. rewrite lookup_insert_eq. by eexists.
Qed.

(** A block is sent at most once to each peer that is neither this node nor a
    bootstrap node, and not again as long as it is tracked; at most a thousand
    blocks are tracked. *)
Theorem BroadcastBlock_once (now : Z) (self : string) (boot sent : string → bool) (connected : list string) (n : Node.t)
    (b : Block) : NoDup connected → (size (Node.n_broadcastedBlocks n) ≤ Node.maxTrackedBlocks)%nat →
  let '(n', out) := Node.BroadcastBlock now self boot sent connected n b in
  NoDup out.*1 ∧ Forall (λ o, o.1 ∈ connected ∧ o.1 ≠ self ∧ boot o.1 = false ∧ o.2 = Node.block_message now b) out ∧
  (size (Node.n_broadcastedBlocks n') ≤ Node.maxTrackedBlocks)%nat ∧
  (hash_of_block b ∈ Node.n_broadcastedBlocks n' → (Node.BroadcastBlock now self boot sent connected n' b).2 = []).
Proof.
  intros Hnd Hsize. unfold Node.BroadcastBlock at 1.
  destruct (bool_decide_reflect (hash_of_block b ∈ Node.n_broadcastedBlocks n)) as [Hin|Hnot].
  { split_and!; [constructor|constructor|done|]. intros _. unfold Node.BroadcastBlock. by rewrite bool_decide_eq_true_2. }
  set (n1 := Node.set_broadcasted n _). cbv zeta. split_and!.
  - rewrite <-list_fmap_compose. rewrite (list_fmap_ext _ id), list_fmap_id by done. by apply NoDup_filter, NoDup_filter.
  - apply Forall_forall. intros [p m] (p' & [= -> ->] & Hp)%list_elem_of_fmap.
    apply list_elem_of_filter in Hp as [_ Hp]. apply list_elem_of_filter in Hp as [[? ?] ?]. done.
  - unfold Node.cleanupBroadcastedBlocks. destruct (Nat.leb_spec (size (Node.n_broadcastedBlocks n1)) Node.maxTrackedBlocks); [done|].
    cbn. rewrite size_empty. lia.
  - intros Hin. unfold Node.BroadcastBlock. by rewrite bool_decide_eq_true_2.
Qed.
End peers.

(** ** Concrete nodes *)
Definition same_order (k : nat) : range_order := λ l, l.
Definition same_children (k : nat) : child_order := λ l, l.
Definition back_children (k : nat) : child_order := reverse.

Definition node_of (bc : @Blockchain mem_kv) : @Node.t mem_kv := Node.NewNode bc (Some StakeFacts.demo_pool) None false "devnet".

(** The header that continues [gen 0], with its hash. *)
Definition next_header : BlockHeader := Header (child (gen 0) "" 1).
Definition next_hash : string := Blk.CalculateHash (child (gen 0) "" 1).
Definition next_message : option BlockMessage :=
  Some (mkBlockMessage (Some next_header) (Some (Some Trie.NewPatriciaTrie, [])) next_hash 9).
Definition demo_arrival (m : option BlockMessage) : arrival := mkArrival 300 "p" m same_order same_children.

Lemma received_chain_linked_witness : ∃ n',
  deliver (node_of memory_only) [demo_arrival None; demo_arrival next_message; demo_arrival next_message] = Done n' ∧
  chain_ok (Chain (Node.n_bc n')) ∧ length (Chain (Node.n_bc n')) = 2%nat.
Proof.
  assert (match deliver (node_of memory_only) [demo_arrival None; demo_arrival next_message; demo_arrival next_message] with
          | Done n' => length (Chain (Node.n_bc n')) =? 2 | _ => false end%nat = true) as Hd by (vm_compute; reflexivity).
  destruct (deliver (node_of memory_only) _) as [n'| |] eqn:E; [|discriminate..]. exists n'. split; [reflexivity|].
  split; [|apply Nat.eqb_eq; exact Hd].
  exact (proj1 (received_chain_linked _ _ _ E (start_ok (gen 0) eq_refl) eq_refl)).
Defined.

(** A peer of the miner of [demo_round]. *)
Definition replica : @Node.t mem_kv := node_of (m_bc (demo_miner None)).

Lemma mined_block_replicates_witness : ∃ s' b n' p' q', demo_round all_agree = Done (Some (s', Ok b)) ∧
  Node.handleBlockStream same_order back_children 20 replica "m"
    (Some (mkBlockMessage (Some (Header b)) (Some (Some (block_Transactions b), Receipts b)) (hash_of_block b) 20)) = Done n' ∧
  utxoPool (m_bc s') = Some p' ∧ utxoPool (Node.n_bc n') = Some q' ∧ merkleRoot q' = merkleRoot p'.
Proof.
  destruct demo_round_done as (s' & b & E).
  destruct (mined_block_replicates 0 demo_orders 10 1 5000 all_agree (demo_miner None) s' "miner" easy_genesis b one_output
    same_order back_children 20 20 replica "m" [] easy_genesis one_output (block_Transactions b)
    fair_children_reverse fair_children_id (λ _, fair_children_reverse) demo_digests demo_unchained eq_refl eq_refl E
    eq_refl (Forall_nil_2 _) eq_refl eq_refl) as (n' & b' & p' & q' & En & _ & _ & _ & Hp & Hq & _ & Hr).
  - split; [eexists; reflexivity|]. intros p [= <-]. reflexivity.
  - reflexivity.
  - reflexivity.
  - apply not_elem_of_empty.
  - intros ord _. reflexivity.
  - exists s', b, n', p', q'. split; [exact E|]. split; [exact En|]. split; [exact Hp|]. split; [exact Hq|exact Hr].
Defined.

(** A chain of three blocks and a client that has its own genesis block. *)
Definition second : Block := child plain_block "c" 2.
Definition third : Block := child second "d" 3.
Definition long_server : @Node.t mem_kv := node_of (start plain_block [second; third]).
Definition young_client : @Node.t mem_kv := node_of (start (gen 0) []).

(** A block without transactions that can be stored can be sent. *)
Lemma empty_transferable b : block_Transactions (read_out b) = Trie.NewPatriciaTrie → block_hash (read_out b) ≠ "" →
  block_storable (λ l, l) (read_out b) → transferable (read_out b).
Proof.
  intros Ht Hh Hs. split; [rewrite Ht; constructor|]. split; [done|]. intros ord Hord. unfold block_storable in *.
  assert (Blk.MarshalJSON ord (read_out b) = Blk.MarshalJSON (λ l, l) (read_out b)) as ->; [|done].
  unfold Blk.MarshalJSON. rewrite Ht, !new_trie_empty; [reflexivity|exact fair_children_id|exact Hord].
Qed.

Lemma sync_skips_blocks_witness : ∃ docs srv' cl' got,
  Node.handleSyncRequest same_children long_server (Some (mkSyncRequest 0 0)) = Done (docs, srv') ∧
  Node.SyncWithPeer same_order back_children 7 young_client (inr docs) = Done (cl', None) ∧
  Chain (Node.n_bc cl') = [gen 0] ++ got ∧ Forall2 (λ b b', received_as (read_out b) b') [plain_block; third] got.
Proof.
  destruct (sync_skips_blocks same_order same_children back_children 7 long_server young_client 0 (λ _, fair_children_id)
    (λ _, fair_children_reverse)) as (docs & srv' & E & cl' & got & Ec & Hc & Hall).
  - intros [|[|[|i]]] b Hb; [injection Hb as <-; reflexivity..|discriminate].
  - apply Forall_cons. split; [exact plain_transferable|].
    apply Forall_cons. split; [|apply Forall_singleton];
      (apply empty_transferable; [reflexivity|discriminate|unfold block_storable, storable; storable]).
  - cbn. lia.
  - reflexivity.
  - split; [eexists; reflexivity|]. discriminate.
  - reflexivity.
  - reflexivity.
  - left. reflexivity.
  - exists docs, srv', cl', got. split; [exact E|]. split; [exact Ec|]. split; [exact Hc|exact Hall].
Defined.

(** A node with a wallet among the validators, asked to validate the block after the
    genesis block, with one payment. *)
Definition validator_wallet : Wallet :=
  mkWallet (mkPrivateKey 1 (mkPublicKey P256_gx P256_gy)) (mkPublicKey P256_gx P256_gy) "a" [] [] "".
Definition validator_node : @Node.t mem_kv :=
  Node.NewNode (start plain_block []) (Some StakeFacts.demo_pool) (Some validator_wallet) false "devnet".
Definition offered_payment : Transaction := payment "p3" 1 3 [spend_c1].
Definition offered : option json :=
  let h := mkHeader 1 1 (hash_of_block plain_block) 200 "merkle" "state" "" 1 0 0 0 "m" "" [] None "" [] in
  simplified_document (λ l, l) (mkBlock h (Trie.Insert Trie.NewPatriciaTrie offered_payment) [] "ab" 0 1 1 "ab").

Lemma validation_sound_witness : ∃ r b,
  Node.handleMinerBlockValidationRequest same_order same_children (Ok 5) 3000 ∅ validator_node (inr offered) = Done r ∧
  Node.rs_Valid r = true ∧ Node.rs_Address r = "a" ∧
  BlockNumber (Header b) = 1 ∧ vouched same_children ∅ validator_node b ∧
  ∃ tx, Trie.GetAllTransactions (same_children 1%nat) (block_Transactions b) = [tx] ∧ signed_by_sender ∅ tx.
Proof.
  assert (match Node.handleMinerBlockValidationRequest same_order same_children (Ok 5) 3000 ∅ validator_node (inr offered) with
          | Done r => Node.rs_Valid r | _ => false end = true) as Hd by (vm_compute; reflexivity).
  assert (match offered with Some j => match read_block (same_children 2%nat) j with
            | Done (Some b) => (BlockNumber (Header b) =? 1) &&
                (length (Trie.GetAllTransactions (same_children 1%nat) (block_Transactions b)) =? 1)%nat &&
                forallb (λ tx, negb (Tx.is_system tx)) (Trie.GetAllTransactions (same_children 1%nat) (block_Transactions b))
            | _ => false end | None => false end = true) as Hn by (vm_compute; reflexivity).
  destruct (Node.handleMinerBlockValidationRequest _ _ _ _ _ _ _) as [r| |] eqn:E; [|discriminate Hd..].
  destruct (validation_sound same_order same_children (Ok 5) 3000 ∅ validator_node (inr offered) r E Hd)
    as (j & b & w & sp & vs & Hj & Hb & Hw & _ & _ & _ & Hv & _ & Ha & _). injection Hw as <-. apply (inj inr) in Hj.
  exists r, b. split; [reflexivity|]. split; [exact Hd|]. split; [exact Ha|].
  rewrite Hj, Hb in Hn. destruct Hv as [H1 H2 H3 H4 H5 H6]. destruct (Trie.GetAllTransactions _ _) as [|tx [|]] eqn:Ht;
    [rewrite andb_false_r in Hn; discriminate Hn| |rewrite andb_false_r in Hn; discriminate Hn].
  rewrite andb_true_r in Hn. apply andb_prop in Hn as [Hn Hs]. apply Z.eqb_eq in Hn. split; [exact Hn|].
  split; [split; [exact H1|exact H2|exact H3|exact H4|exact H5|rewrite Ht; exact H6]|].
  exists tx. split; [reflexivity|]. apply Forall_inv in H6 as [H6|H6]; [|exact H6]. cbn in Hs. rewrite H6 in Hs. discriminate Hs.
Defined.
