(* ===== verification/Rpc.v ===== *)
(** * The query and transaction interfaces of the RPC server

    [src/RPC/api/blockchain.go] ([Module BlockchainAPI]) and
    [src/RPC/api/transaction.go] ([Module TransactionAPI]).

    A handler takes its parameters as the JSON decoder delivers them, [None] if it
    fails, and returns the answer with the node as the lookups leave it (a block
    looked up is hashed in place). The server gives both interfaces the node and
    the node's own chain. Loops over heights run over [uint64] and need not end;
    [fuel] bounds their turns, and [None] says that it was used up. An answer that
    is a map of names to values is a record, or the transaction and the block that
    the values are taken from. *)

From stdpp Require Import base gmap strings list.
From Stdlib Require Import ZArith Lia.
From S2P Require Import Prelude.
From S2P Require Import Float64.
From S2P Require Import Sha256.
From S2P Require Import Gas.
From S2P Require Import Database.
From S2P Require Import P256.
From S2P Require Import Crypto.
From S2P Require Import Transaction.
From S2P Require Import Wallet.
From S2P Require Import Utxo.
From S2P Require Import UtxoSync.
From S2P Require Import Mempool.
From S2P Require Import Trie.
From S2P Require Import Block.
From S2P Require Import Chain.
From S2P Require Import ChainStore.
From S2P Require Import Validator.
From S2P Require Import P2p.

(** ** Loops over heights *)

(** How a turn of a loop ends: at its end or by [continue], by [break], or with
    an assignment to the loop variable before its step. *)
Inductive turn (A : Type) : Type :=
  | Continue (a : A)
  | Break (a : A)
  | Assign (h : Z) (a : A).
Arguments Continue {A} a.
Arguments Break {A} a.
Arguments Assign {A} h a.

(** [for h := h; cond; h = step h { body }] *)
Fixpoint for_loop {A} (fuel : nat) (cond : Z → A → bool) (step : Z → Z) (body : Z → A → outcome (turn A)) (h : Z) (a : A)
    : outcome (option A) :=
  match fuel with
  | O => Done None
  | S fuel =>
      if cond h a then
        let! t := body h a in
        match t with
        | Continue a => for_loop fuel cond step body (step h) a
        | Break a => Done (Some a)
        | Assign h a => for_loop fuel cond step body (step h) a
        end
      else Done (Some a)
  end.

Definition up (h : Z) : Z := u64 (h + 1).
Definition down (h : Z) : Z := u64 (h - 1).

(** A limit asked for, with a default for none and a largest value. *)
Definition capped (dflt most n : Z) : Z := if n <=? 0 then dflt else if most <? n then most else n.

(** The end of a range of heights of at most [most] heights; the number of heights
    is a signed integer. *)
Definition range_end (startHeight endHeight most : Z) : Z :=
  if most <? i64 (u64 (endHeight - startHeight + 1)) then u64 (u64 (startHeight + u64 most) - 1) else endHeight.

(** [strconv.ParseUint(s, 10, 64)] *)
Fixpoint digits (s : string) (n : Z) : option Z :=
  match s with
  | EmptyString => Some n
  | String c s =>
      let d := byte_of_ascii c - 48 in
      if (0 <=? d) && (d <=? 9) then digits s (10 * n + d) else None
  end.
Definition ParseUint (s : string) : option Z :=
  if str_eqb s "" then None else n ← digits s 0; if n <? 2 ^ 64 then Some n else None.

Definition invalid_parameters : string := "invalid parameters".

Module BlockchainAPI.

Record ChainInfo := mkChainInfo { ci_blocks : Z; ci_bestBlockHash : string; ci_difficulty : Z; ci_medianTime : Z; ci_chainwork : Z }.
Record ValidationInfo := mkValidationInfo {
  vi_blockHash : string;
  vi_blockHeight : Z;
  vi_validatorAddress : string;
  vi_validatorProof : option SelectionProof;
  vi_validatorSig : bytes;
  vi_timestamp : Z;
}.
Record RangeArgs := mkRangeArgs { ra_startHeight : Z; ra_endHeight : Z; ra_max : Z }.
Record StateProof := mkStateProof { sp_key : string; sp_utxo : UTXO; sp_stateRoot : string; sp_verified : bool; sp_proof : list string }.

Section api.
Context `{KV} (ord : child_order).

Definition GetBlockByHash (bc : Blockchain) (hash : option string) : outcome (result Block) :=
  match hash with
  | None => Done (Err invalid_parameters)
  | Some hash =>
      let! r := ChainStore.GetBlock ord bc hash in
      Done (match r with Ok b => Ok b | Err e => Err ("block not found: " +:+ e) end)
  end.

Definition block_at (bc : Blockchain) (height : Z) : outcome (result Block * Blockchain) :=
  let! (r, bc) := ChainStore.GetBlockByHeight ord bc height in
  Done (match r with Some b => Ok b | None => Err ("block not found at height " +:+ fmt_d height) end, bc).

Definition GetBlockByHeight (bc : Blockchain) (height : option Z) : outcome (result Block * Blockchain) :=
  match height with
  | None => Done (Err invalid_parameters, bc)
  | Some height => block_at bc height
  end.

Definition GetBlockCount (bc : Blockchain) : Z := GetHeight bc.

(** The empty block has no header. *)
Definition GetChainInfo (bc : Blockchain) : outcome ChainInfo :=
  let! latest := GetLatestBlock ord bc in
  match latest with
  | None => Panic "nil pointer dereference"
  | Some b => Done (mkChainInfo (GetHeight bc) (hash_of_block b) (Difficulty (Header b)) (hdr_Timestamp (Header b))
                      (CumulativeDifficulty b))
  end.

Definition GetValidationInfo (bc : Blockchain) (blockHeight : option Z) : outcome (result ValidationInfo * Blockchain) :=
  match blockHeight with
  | None => Done (Err invalid_parameters, bc)
  | Some height =>
      let! (r, bc) := block_at bc height in
      Done (match r with
            | Err e => Err e
            | Ok b => let h := Header b in
                Ok (mkValidationInfo (hash_of_block b) (BlockNumber h) (ValidatorAddress h) (ValidatorProof h)
                      (ValidatorSig h) (hdr_Timestamp h))
            end, bc)
  end.

(** Collects what [f] makes of the blocks of the heights, those that are missing
    left out. *)
Definition collect {A} (f : Block → A) (h : Z) (acc : list A * Blockchain) : outcome (turn (list A * Blockchain)) :=
  let '(l, bc) := acc in
  let! (r, bc) := ChainStore.GetBlockByHeight ord bc h in
  Done (Continue (match r with Some b => l ++ [f b] | None => l end, bc)).

Definition collect_range {A} (fuel : nat) (f : Block → A) (dflt most : Z) (bc : Blockchain) (args : option RangeArgs)
    : outcome (option (result (list A) * Blockchain)) :=
  match args with
  | None => Done (Some (Err invalid_parameters, bc))
  | Some (mkRangeArgs startHeight endHeight n) =>
      let n := capped dflt most n in
      if endHeight <? startHeight then Done (Some (Err "endHeight must be greater than or equal to startHeight", bc))
      else
        let endHeight := range_end startHeight endHeight n in
        let! r := for_loop fuel (λ h _, h <=? endHeight) up (collect f) startHeight ([], bc) in
        Done (match r with Some (l, bc) => Some (Ok l, bc) | None => None end)
  end.

Definition GetBlockRange (fuel : nat) (bc : Blockchain) (args : option RangeArgs) := collect_range fuel (λ b, b) 10 100 bc args.

Definition GetBlockHeaders (fuel : nat) (bc : Blockchain) (args : option RangeArgs) := collect_range fuel Header 50 2000 bc args.

(** The integer 0 is returned in some cases, a float in the others. *)
Definition GetHashRate (bc : Blockchain) (days : option Z) : outcome ((Z + float64) * Blockchain) :=
  let days := capped 7 90 (default 7 days) in
  let! latest := GetLatestBlock ord bc in
  match latest with
  | None => Done (inl 0, bc)
  | Some latest =>
      let startHeight := u64 (GetHeight bc - days * 24 * 60 * 60 / 5) in
      let startHeight := if startHeight <? 1 then 1 else startHeight in
      let! (r, bc) := ChainStore.GetBlockByHeight ord bc startHeight in
      Done (match r with
            | None => inl 0
            | Some b =>
                let timeDiff := i64 (hdr_Timestamp (Header latest) - hdr_Timestamp (Header b)) in
                if timeDiff <=? 0 then inl 0
                else
                  let totalDifficulty := u64 (CumulativeDifficulty latest - CumulativeDifficulty b) in
                  inr (f64_div (f64_of_Z totalDifficulty) (f64_of_Z timeDiff))
            end, bc)
  end.

Definition latest_header {A} (f : BlockHeader → A) (bc : Blockchain) : outcome (result A) :=
  let! latest := GetLatestBlock ord bc in
  Done (match latest with Some b => Ok (f (Header b)) | None => Err "no blocks available" end).

Definition GetNetworkDifficulty (bc : Blockchain) : outcome (result Z) := latest_header Difficulty bc.

Definition GetStateRoot (bc : Blockchain) : outcome (result string) := latest_header StateRoot bc.

(** The rewards of the blocks, halving by halving; a turn for each period that is
    not over. *)
Fixpoint minted (fuel : nat) (i : nat) (remainingBlocks : Z) (totalSupply : float64) : float64 :=
  match fuel with
  | O => totalSupply
  | S fuel =>
      if remainingBlocks >? 0 then
        let blocksAtThisReward := if remainingBlocks >? RewardHalvingBlocks then RewardHalvingBlocks else remainingBlocks in
        let rewardAtLevel := f64_div InitialBlockReward (Reward.pow2 (Z.of_nat i)) in
        minted fuel (S i) (remainingBlocks - blocksAtThisReward)
          (f64_add totalSupply (f64_mul (f64_of_Z blocksAtThisReward) rewardAtLevel))
      else totalSupply
  end.

Definition periods (height : Z) : nat := Z.to_nat (height / RewardHalvingBlocks + 1).

(** [GetAllUTXOs] returns the map of the pool itself. *)
Definition GetAllUTXOs (p : UTXOPool) : outcome utxo_set := Pool.rlocked p (Done (utxos p)).

Definition unspent_sum (ro : range_order) (m : utxo_set) : float64 :=
  foldl (λ s u, if utxo_Spent u then s else f64_add s (utxo_Amount u)) f64_zero (range ro m).*2.

Definition GetCirculatingSupply (ro : range_order) (bc : Blockchain) : outcome float64 :=
  let height := GetHeight bc in
  let totalSupply := minted (periods height) 0 height f64_zero in
  match utxoPool bc with
  | None => Done totalSupply
  | Some p =>
      let! allUTXOs := GetAllUTXOs p in
      let utxoSupply := unspent_sum ro allUTXOs in
      Done (if f64_gt utxoSupply f64_zero then utxoSupply else totalSupply)
  end.

(** The parameters are a hash and a height as texts. *)
Definition GetBlockTransactions (bc : Blockchain) (args : option (string * string))
    : outcome (result (list Transaction) * Blockchain) :=
  match args with
  | None => Done (Err invalid_parameters, bc)
  | Some (blockHash, height) =>
      let! (r, bc) :=
        if negb (str_eqb blockHash "") then let! r := GetBlockByHash bc (Some blockHash) in Done (r, bc)
        else if negb (str_eqb height "") then
          match ParseUint height with
          | None => Done (Err "invalid height", bc)
          | Some height => block_at bc height
          end
        else Done (Err "either blockHash or height must be provided", bc) in
      Done (match r with
            | Err e => Err e
            | Ok b => Ok (Trie.GetAllTransactions ord (block_Transactions b))
            end, bc)
  end.

Definition add_balance (balances : gmap string float64) (u : UTXO) : gmap string float64 :=
  if utxo_Spent u then balances
  else <[utxo_Owner u := f64_add (default f64_zero (balances !! utxo_Owner u)) (utxo_Amount u)]> balances.

Definition owner_balances (ro : range_order) (m : utxo_set) : gmap string float64 := foldl add_balance ∅ (range ro m).*2.

Definition richer (a b : string * float64) : bool := f64_gt a.2 b.2.

(** [utxoSet] is the chain's own set, which stands in for a missing pool; [ro] and
    [ro'] are the orders of the two loops over maps. *)
Definition GetRichList (ro ro' : range_order) (utxoSet : utxo_set) (bc : Blockchain) (limit : option Z)
    : outcome (result (list (string * float64))) :=
  match limit with
  | None => Done (Err invalid_parameters)
  | Some limit =>
      let limit := capped 10 100 limit in
      let! allUTXOs := match utxoPool bc with Some p => GetAllUTXOs p | None => Done utxoSet end in
      if (size allUTXOs =? 0)%nat then Done (Ok [])
      else
        let richList := stable_sort richer (range ro' (owner_balances ro allUTXOs)) in
        Done (Ok (if Z.of_nat (length richList) >? limit then take (Z.to_nat limit) richList else richList))
  end.

(** The differences of neighbours, newest first. *)
Fixpoint total_diff (timestamps : list Z) (totalTimeDiff : Z) : Z :=
  match timestamps with
  | a :: ((b :: _) as rest) => total_diff rest (i64 (totalTimeDiff + i64 (a - b)))
  | _ => totalTimeDiff
  end.

Definition GetBlockTime (fuel : nat) (bc : Blockchain) (blocks : option Z) : outcome (option (result float64 * Blockchain)) :=
  match blocks with
  | None => Done (Some (Err invalid_parameters, bc))
  | Some blocks =>
      let blocks := if blocks <=? 0 then 100 else blocks in
      let height := GetHeight bc in
      if height <? 2 then Done (Some (Err "not enough blocks to calculate average time", bc))
      else
        let blocks := if height - 1 <? blocks then i64 (height - 1) else blocks in
        let lowest := u64 (height - u64 blocks) in
        let! r := for_loop fuel (λ h _, lowest <? h) down (collect (λ b, hdr_Timestamp (Header b))) height ([], bc) in
        Done (match r with
              | None => None
              | Some (timestamps, bc) =>
                  if (length timestamps <? 2)%nat then Some (Err "not enough valid blocks to calculate average time", bc)
                  else Some (Ok (f64_div (f64_of_Z (total_diff timestamps 0))
                                         (f64_of_Z (Z.of_nat (length timestamps) - 1))), bc)
              end)
  end.

Definition ValidateAddress (address : option string) : result bool :=
  match address with None => Err invalid_parameters | Some a => Ok (Crypto.ValidateAddress a) end.

Definition GetStateProof (now : Z) (bc : Blockchain) (key : option string) : outcome (result StateProof) :=
  match key with
  | None => Done (Err invalid_parameters)
  | Some key =>
      if str_eqb key "" then Done (Err "key parameter is required")
      else match utxoPool bc with
      | None => Done (Err "UTXO pool not available")
      | Some p =>
          let! utxos := GetAllUTXOs p in
          match utxos !! key with
          | None => Done (Err ("key " +:+ key +:+ " not found in UTXO set"))
          | Some u =>
              let! stateRoot := Utxo.GetStateRoot now p in
              Done (Ok (mkStateProof key u stateRoot true ["merkle_proof_for_" +:+ key]))
          end
      end
  end.

End api.
End BlockchainAPI.

Module TransactionAPI.

Section api.
Context `{KV} `{ECDSA} `{GoImpl} (ord : Z → child_order).

(** The interface with the callbacks of the transactions it watches. *)
Record t := mk { api_node : Node.t; pendingTxCallbacks : gmap string string }.

Definition pool_of (n : Node.t) : option UTXOPool :=
  match Node.n_ownPool n with Some p => Some p | None => utxoPool (Node.n_bc n) end.
Definition pending (n : Node.t) : list Transaction := Mempool.GetTransactions (Node.n_mempool n).

(** ** Balances *)
Definition for_address {A} (address : option string) (k : string → outcome A) : outcome (result A) :=
  match address with
  | None => Done (Err invalid_parameters)
  | Some address =>
      if negb (Crypto.ValidateAddress address) then Done (Err "invalid address format")
      else let! a := k address in Done (Ok a)
  end.

Definition GetBalance (ro : range_order) (n : Node.t) (address : option string) : outcome (result float64) :=
  for_address address (λ a, Node.with_pool n (λ p, Utxo.GetBalance ro p a)).

Definition GetUTXOs (ro : range_order) (n : Node.t) (address : option string) : outcome (result (list UTXO)) :=
  for_address address (λ a, Node.with_pool n (λ p, GetUTXOsForAddress ro p a)).

Record AccountInfo := mkAccountInfo { ai_address : string; ai_balance : float64; ai_nonce : Z; ai_utxoCount : Z; ai_lastUpdated : Z }.

Definition GetAccountState (ro ro' : range_order) (now : Z) (n : Node.t) (address : option string)
    : outcome (result AccountInfo) :=
  for_address address (λ a, Node.with_pool n (λ p,
    let! us := GetUTXOsForAddress ro p a in
    let! balance := Utxo.GetBalance ro' p a in
    Done (mkAccountInfo a balance (Z.of_nat (length us)) (Z.of_nat (length us)) now))).

(** ** Creating and sending transactions *)
Record TxArgs := mkTxArgs {
  ta_from : string;
  ta_to : string;
  ta_amount : float64;
  ta_gasPrice : Z;
  ta_gasLimit : Z;
  ta_signature : string;
  ta_publicKey : string;
  ta_rawTransaction : string;
  ta_callbackUrl : string;
  ta_timestamp : Z;
  ta_nonce : Z;
  ta_transactionId : string;
}.

Definition set_pubkey (tx : Transaction) (pk : bytes) : Transaction := Tx.set_signature tx (Signature tx) pk.
Definition set_time_nonce (tx : Transaction) (timestamp nonce : Z) : Transaction :=
  mkTransaction (TransactionID tx) (Sender tx) (Receiver tx) (Amount tx) timestamp nonce (GasFee tx) (Inputs tx)
    (Outputs tx) (TxType tx) (GasLimit tx) (GasPrice tx) (GasUsed tx) (Priority tx) (MaxFeePerGas tx) (Data tx)
    (Signature tx) (SenderPubKey tx).
Definition set_priority (tx : Transaction) (p : Z) : Transaction :=
  mkTransaction (TransactionID tx) (Sender tx) (Receiver tx) (Amount tx) (Timestamp tx) (Nonce tx) (GasFee tx) (Inputs tx)
    (Outputs tx) (TxType tx) (GasLimit tx) (GasPrice tx) (GasUsed tx) p (MaxFeePerGas tx) (Data tx)
    (Signature tx) (SenderPubKey tx).

Definition CreateUnsignedTransaction (ro : range_order) (now : Z) (n : Node.t) (args : option TxArgs)
    : outcome (result Transaction) :=
  match args with
  | None => Done (Err invalid_parameters)
  | Some a =>
      if negb (Crypto.ValidateAddress (ta_from a)) then Done (Err "invalid sender address")
      else if negb (Crypto.ValidateAddress (ta_to a)) then Done (Err "invalid receiver address")
      else match Tx.NewTransaction now (ta_from a) (ta_to a) (ta_amount a) (ta_gasPrice a) (ta_gasLimit a) with
      | Err e => Done (Err ("failed to create transaction: " +:+ e))
      | Ok tx =>
          let! (tx, e) := SelectUTXOs ro tx (pool_of n) in
          match e with
          | Some e => Done (Err ("failed to select UTXOs for transaction: " +:+ e))
          | None =>
              if str_eqb (ta_publicKey a) "" then Done (Ok tx)
              else match hex_decode (ta_publicKey a) with
              | None => Done (Err "invalid public key format")
              | Some pk => Done (Ok (set_pubkey tx pk))
              end
          end
      end
  end.

Definition input_value (us : utxo_set) (ins : list TransactionInput) : float64 :=
  foldl (λ total i, match us !! input_key i with Some u => f64_add total (utxo_Amount u) | None => total end) f64_zero ins.

(** A transaction whose identifier the client gives, which is then replaced. *)
Definition with_id (ro : range_order) (now : Z) (n : Node.t) (a : TxArgs) (publicKey : bytes) : outcome (result Transaction) :=
  let tx := mkTransaction (ta_transactionId a) (ta_from a) (ta_to a) (ta_amount a)
    (if ta_timestamp a >? 0 then ta_timestamp a else now) (if ta_nonce a >? 0 then ta_nonce a else 0)
    (ConvertGasToTokens (u64 (ta_gasPrice a * ta_gasLimit a))) [] [] TX_REGULAR (ta_gasLimit a) (ta_gasPrice a) 0
    PriorityNormal 0 [] (ta_signature a) publicKey in
  let! (tx, e) := SelectUTXOs ro tx (pool_of n) in
  match e with
  | Some e => Done (Err ("failed to select UTXOs for transaction: " +:+ e))
  | None =>
      let tx := Tx.set_io tx (Inputs tx) (Outputs tx ++ [mkTransactionOutput (ta_to a) (ta_amount a) ""]) in
      let! us := Node.with_pool n Node.GetUTXOs in
      let changeAmount := f64_sub (f64_sub (input_value us (Inputs tx)) (ta_amount a)) (GasFee tx) in
      let tx := if f64_gt changeAmount f64_zero
                then Tx.set_io tx (Inputs tx) (Outputs tx ++ [mkTransactionOutput (ta_from a) changeAmount ""]) else tx in
      Done (Ok (Tx.set_TransactionID tx (Tx.Hash tx)))
  end.

Definition standard (ro : range_order) (now : Z) (n : Node.t) (a : TxArgs) : outcome (result Transaction) :=
  match Tx.NewTransaction now (ta_from a) (ta_to a) (ta_amount a) (ta_gasPrice a) (ta_gasLimit a) with
  | Err e => Done (Err ("failed to create transaction: " +:+ e))
  | Ok tx =>
      let tx := if ta_timestamp a >? 0 then let tx := set_time_nonce tx (ta_timestamp a) (Nonce tx) in
                  Tx.set_TransactionID tx (Tx.Hash tx) else tx in
      let tx := if ta_nonce a >? 0 then let tx := set_time_nonce tx (Timestamp tx) (ta_nonce a) in
                  Tx.set_TransactionID tx (Tx.Hash tx) else tx in
      if (length (Inputs tx) =? 0)%nat then
        let! (tx, e) := SelectUTXOs ro tx (pool_of n) in
        Done (match e with Some e => Err ("failed to select UTXOs for transaction: " +:+ e) | None => Ok tx end)
      else Done (Ok tx)
  end.

(** The signed transaction of a request. *)
Definition assemble (ro : range_order) (now : Z) (tbl : key_table) (n : Node.t) (a : TxArgs) : outcome (result Transaction) :=
  if negb (Crypto.ValidateAddress (ta_from a)) then Done (Err "invalid sender address")
  else if negb (Crypto.ValidateAddress (ta_to a)) then Done (Err "invalid receiver address")
  else if str_eqb (ta_signature a) "" then Done (Err "transaction signature is required")
  else if str_eqb (ta_publicKey a) "" then Done (Err "sender's public key is required")
  else match hex_decode (ta_publicKey a) with
  | None => Done (Err "invalid public key format")
  | Some pk =>
      let! r := if negb (str_eqb (ta_transactionId a) "") then with_id ro now n a pk else standard ro now n a in
      match r with
      | Err e => Done (Err e)
      | Ok tx =>
          let tx := if Priority tx =? 0 then set_priority tx PriorityNormal else tx in
          let tx := if str_eqb (TransactionID tx) "" then Tx.set_TransactionID tx (Tx.Hash tx) else tx in
          let tx := set_pubkey tx pk in
          match hex_decode (ta_signature a) with
          | None => Done (Err "invalid signature format")
          | Some _ =>
              let tx := Tx.set_signature tx (ta_signature a) pk in
              let! ok := Tx.VerifySignature tbl tx in
              Done (if ok then Ok tx else Err "transaction signature verification failed")
          end
      end
  end.

(** The failure to encode a transaction, if it fails, the peers of the node, and
    which of them a stream reaches. *)
Record network := mkNetwork { net_encoded : error; net_self : string; net_boot : string → bool; net_reached : string → bool; net_peers : list string }.

(** The answer holds fields of the transaction besides these. *)
Record response := mkResponse { rs_transaction : Transaction; rs_status : string; rs_inMempool : bool; rs_confirmations : Z }.

(** Broadcasts and registers the callback; the peers that got the transaction
    are returned too. *)
Definition submit (net : network) (s : t) (callbackUrl : string) (tx : Transaction) : error * list string * t :=
  let '(got, e) := Node.BroadcastTransaction (net_encoded net) (net_self net) (net_boot net) (net_reached net) (net_peers net) [] in
  match e with
  | Some e => (Some ("failed to broadcast transaction: " +:+ e), got, s)
  | None =>
      (None, got, if str_eqb callbackUrl "" then s
                  else mk (api_node s) (<[TransactionID tx := callbackUrl]> (pendingTxCallbacks s)))
  end.

(** [parse] is the JSON decoding of a raw transaction. *)
Definition SendTransaction (ro : range_order) (now : Z) (tbl : key_table) (parse : bytes → option Transaction) (net : network)
    (s : t) (args : option TxArgs) : outcome (result response * list string * t) :=
  match args with
  | None => Done (Err invalid_parameters, [], s)
  | Some a =>
      let! r :=
        if negb (str_eqb (ta_rawTransaction a) "") then
          match hex_decode (ta_rawTransaction a) with
          | None => Done (Err "invalid transaction encoding")
          | Some data =>
              match parse data with
              | None => Done (Err "failed to deserialize transaction")
              | Some tx =>
                  let! ok := Tx.VerifySignature tbl tx in
                  Done (if ok then Ok tx else Err "transaction signature verification failed")
              end
          end
        else assemble ro now tbl (api_node s) a in
      match r with
      | Err e => Done (Err e, [], s)
      | Ok tx =>
          let '(e, got, s) := submit net s (ta_callbackUrl a) tx in
          Done (match e with Some e => Err e | None => Ok (mkResponse tx "pending" true 0) end, got, s)
      end
  end.

(** The transaction signed with the key of a mnemonic. *)
Definition assemble_with_key (ro : range_order) (now : Z) (nonce : result Z) (wordlist : result (list string)) (n : Node.t)
    (a : TxArgs) (mnemonic : string) : outcome (result Transaction) :=
  if negb (Crypto.ValidateAddress (ta_from a)) then Done (Err "invalid sender address")
  else if negb (Crypto.ValidateAddress (ta_to a)) then Done (Err "invalid receiver address")
  else if f64_le (ta_amount a) f64_zero then Done (Err "amount must be greater than zero")
  else if str_eqb mnemonic "" then Done (Err "mnemonic phrase is required")
  else
    let gasPrice := if ta_gasPrice a =? 0 then DefaultGasPrice else ta_gasPrice a in
    let gasLimit := if ta_gasLimit a =? 0 then DefaultGasLimit else ta_gasLimit a in
    let! w := RecoverWalletFromMnemonic wordlist mnemonic in
    match w with
    | Err e => Done (Err ("failed to recover wallet from mnemonic: " +:+ e))
    | Ok w =>
        if negb (str_eqb (w_Address w) (ta_from a)) then
          Done (Err ("recovered wallet address (" +:+ w_Address w +:+ ") does not match sender address (" +:+ ta_from a +:+ ")"))
        else match Tx.NewTransaction now (ta_from a) (ta_to a) (ta_amount a) gasPrice gasLimit with
        | Err e => Done (Err ("failed to create transaction: " +:+ e))
        | Ok tx =>
            let! (tx, e) := SelectUTXOs ro tx (pool_of n) in
            match e with
            | Some e => Done (Err ("failed to select UTXOs: " +:+ e))
            | None =>
                let! (_, tx, e) := SignTransaction nonce w tx in
                Done (match e with Some e => Err ("failed to sign transaction: " +:+ e) | None => Ok tx end)
            end
        end
    end.

(** The answer reads the amount of the second output. *)
Definition SendTransactionWithKey (ro : range_order) (now : Z) (nonce : result Z) (wordlist : result (list string))
    (net : network) (s : t) (args : option (TxArgs * string)) : outcome (result (response * float64) * list string * t) :=
  match args with
  | None => Done (Err invalid_parameters, [], s)
  | Some (a, mnemonic) =>
      let! r := assemble_with_key ro now nonce wordlist (api_node s) a mnemonic in
      match r with
      | Err e => Done (Err e, [], s)
      | Ok tx =>
          let '(e, got, s) := submit net s (ta_callbackUrl a) tx in
          match e with
          | Some e => Done (Err e, got, s)
          | None =>
              match Outputs tx !! 1%nat with
              | None => Panic "index out of range"
              | Some change => Done (Ok (mkResponse tx "pending" true 0, out_Amount change), got, s)
              end
          end
      end
  end.

(** ** Looking a transaction up *)

(** The first block from number 1 up in which [hit] finds something. *)
Definition find_up {A} (fuel : nat) (hit : Block → option A) (bc : Blockchain)
    : outcome (option (option (A * Block) * Blockchain)) :=
  for_loop fuel (λ h _, h <=? GetHeight bc) up
    (λ h acc,
      let! (r, bc) := ChainStore.GetBlockByHeight (ord h) acc.2 h in
      Done (match (b ← r; a ← hit b; Some (a, b)) with
            | Some found => Break (Some found, bc)
            | None => Continue (None, bc)
            end)) 1 (None, bc).

Inductive located : Type :=
  | InBlock (tx : Transaction) (blockHash : string) (blockHeight confirmations timestamp : Z)
  | InMempool (tx : Transaction).

Definition in_block (height : Z) (tx : Transaction) (b : Block) : located :=
  InBlock tx (hash_of_block b) (BlockNumber (Header b)) (u64 (height - BlockNumber (Header b) + 1)) (hdr_Timestamp (Header b)).

Definition search (txid : string) (b : Block) : option Transaction := Trie.Search (block_Transactions b) txid.

Definition GetTransaction (fuel : nat) (n : Node.t) (txid : option string) : outcome (option (result located * Node.t)) :=
  match txid with
  | None => Done (Some (Err invalid_parameters, n))
  | Some txid =>
      let height := GetHeight (Node.n_bc n) in
      let! r := find_up fuel (search txid) (Node.n_bc n) in
      Done (match r with
            | None => None
            | Some (Some (tx, b), bc) => Some (Ok (in_block height tx b), Node.set_bc n bc)
            | Some (None, bc) =>
                Some (match find (λ tx, str_eqb (TransactionID tx) txid) (pending n) with
                      | Some tx => Ok (InMempool tx)
                      | None => Err "transaction not found"
                      end, Node.set_bc n bc)
            end)
  end.

Definition GetTransactionProof (fuel : nat) (n : Node.t) (txid : option string)
    : outcome (option (result (list string) * Node.t)) :=
  match txid with
  | None => Done (Some (Err invalid_parameters, n))
  | Some txid =>
      let! r := find_up fuel (λ b, if (Trie.GetTransaction (block_Transactions b) txid).2 then Some () else None) (Node.n_bc n) in
      Done (match r with
            | None => None
            | Some (Some (_, b), bc) =>
                Some (match Blk.GenerateMerkleProof (ord (BlockNumber (Header b))) b txid with
                      | Ok proof => Ok proof
                      | Err e => Err ("failed to generate Merkle proof: " +:+ e)
                      end, Node.set_bc n bc)
            | Some (None, bc) => Some (Err "transaction not found", Node.set_bc n bc)
            end)
  end.

(** ** Watching a transaction *)
Inductive verdict : Type :=
  | Confirmed (where_ : located)
  | Failed
  | Unknown.

Definition maxAttempts : nat := 180.

(** [views k] is the node at the attempt [k]; [remaining] attempts are left. *)
Fixpoint watch (fuel : nat) (views : nat → Node.t) (txID : string) (remaining attempts : nat) : outcome (option verdict) :=
  match remaining with
  | O => Done (Some Unknown)
  | S remaining =>
      let n := views attempts in
      let! r := find_up fuel (search txID) (Node.n_bc n) in
      match r with
      | None => Done None
      | Some (Some (tx, b), _) => Done (Some (Confirmed (in_block (GetHeight (Node.n_bc n)) tx b)))
      | Some (None, _) =>
          let inMempool := existsb (λ tx, str_eqb (TransactionID tx) txID) (pending n) in
          if negb inMempool && (30 <? attempts)%nat then Done (Some Failed)
          else watch fuel views txID remaining (S attempts)
      end
  end.

(** The callback that is called, with what it is told. *)
Definition monitorTransaction (fuel : nat) (views : nat → Node.t) (s : t) (txID : string)
    : outcome (option (option (string * verdict) * t)) :=
  match pendingTxCallbacks s !! txID with
  | None => Done (Some (None, s))
  | Some callbackURL =>
      let! v := watch fuel views txID maxAttempts 0 in
      Done (match v with
            | None => None
            | Some v => Some (Some (callbackURL, v), mk (api_node s) (delete txID (pendingTxCallbacks s)))
            end)
  end.

(** ** Pending transactions and fees *)
Definition involves (address : string) (tx : Transaction) : bool :=
  str_eqb (Sender tx) address || str_eqb (Receiver tx) address.

(** Without parameters every transaction is returned. *)
Definition GetPendingTransactions (n : Node.t) (args : option (Z * string)) : list Transaction :=
  match args with
  | None => pending n
  | Some (limit, filter_) =>
      let txs := if str_eqb filter_ "" then pending n else filter (λ tx, involves filter_ tx = true) (pending n) in
      if (0 <? limit) && (limit <? Z.of_nat (length txs)) then take (Z.to_nat limit) txs else txs
  end.

(** [hasModel]: the node has a gas model. The result is limit, price and fee. *)
Definition EstimateFee (hasModel : bool) (args : option (string * string * float64 * Z)) : result (Z * Z * float64) :=
  match args with
  | None => Err invalid_parameters
  | Some (from, to, amount, gasPrice) =>
      if str_eqb from "" then Err "sender address is required"
      else if str_eqb to "" then Err "receiver address is required"
      else if f64_le amount f64_zero then Err "amount must be greater than 0"
      else
        let gasPrice := if gasPrice =? 0 then DefaultGasPrice else gasPrice in
        let gasLimit :=
          if hasModel && ((40 <? String.length to)%nat || (40 <? String.length from)%nat)
          then u64 (DefaultGasLimit * 2) else DefaultGasLimit in
        Ok (gasLimit, gasPrice, ConvertGasToTokens (u64 (gasLimit * gasPrice)))
  end.

(** A simulated transaction: the changes of the balances of sender and receiver. *)
Definition CallReadOnly (now : Z) (args : option TxArgs) : result (float64 * float64) :=
  match args with
  | None => Err invalid_parameters
  | Some a =>
      match Tx.NewTransaction now (ta_from a) (ta_to a) (ta_amount a) (ta_gasPrice a) (ta_gasLimit a) with
      | Err e => Err ("failed to create transaction: " +:+ e)
      | Ok tx =>
          match Chain.ValidateTransaction tx with
          | Some e => Err ("transaction validation failed: " +:+ e)
          | None => Ok (f64_sub (f64_opp (ta_amount a)) (ConvertGasToTokens (u64 (21000 * ta_gasPrice a))), ta_amount a)
          end
      end
  end.

(** [sort.Float64s] puts NaN first. *)
Definition float_less (a b : float64) : bool := f64_lt a b || (f64_is_nan a && negb (f64_is_nan b)).

Definition median (rates : list float64) : float64 :=
  let rates := stable_sort float_less rates in
  let middle := (length rates / 2)%nat in
  if Nat.even (length rates) && (1 <? length rates)%nat
  then f64_div (f64_add (nth (middle - 1) rates f64_zero) (nth middle rates f64_zero)) (f64_of_Z 2)
  else nth middle rates f64_zero.

Definition average (rates : list float64) : float64 := f64_div (f64_sum rates) (f64_of_Z (Z.of_nat (length rates))).

Definition estimatedSize : Z := 250.
Definition fee_rate (tx : Transaction) : float64 := f64_div (GasFee tx) (f64_of_Z estimatedSize).

Record MempoolInfo := mkMempoolInfo {
  mi_size : Z;
  mi_bytes : Z;
  mi_totalValue : float64;
  mi_totalFees : float64;
  mi_minFee : float64;
  mi_maxFee : float64;
  mi_oldestTimestamp : Z;
  mi_newestTimestamp : Z;
  mi_averageFeeRate : float64;
  mi_medianFeeRate : float64;
  mi_memoryUsageBytes : Z;
}.

Definition lowest_fee (minFee : float64) (tx : Transaction) : float64 := if f64_lt (GasFee tx) minFee then GasFee tx else minFee.
Definition highest_fee (maxFee : float64) (tx : Transaction) : float64 := if f64_gt (GasFee tx) maxFee then GasFee tx else maxFee.

Definition GetMempoolInfo (n : Node.t) : MempoolInfo :=
  let mempool := pending n in
  let totalSize := u64 (estimatedSize * Z.of_nat (length mempool)) in
  let timestamps := stable_sort Z.ltb (Timestamp <$> mempool) in
  let rates := fee_rate <$> mempool in
  let none := (length mempool =? 0)%nat in
  mkMempoolInfo (Z.of_nat (length mempool)) totalSize (f64_sum (Amount <$> mempool)) (f64_sum (GasFee <$> mempool))
    (match mempool with [] => f64_zero | tx :: _ => foldl lowest_fee (GasFee tx) mempool end)
    (foldl highest_fee f64_zero mempool)
    (default 0 (head timestamps)) (default 0 (last timestamps))
    (if none then f64_zero else average rates) (if none then f64_zero else median rates)
    (u64 (totalSize + 1024)).

(** What is said of one block when details are asked for. *)
Record BlockFees := mkBlockFees {
  bf_height : Z;
  bf_timestamp : Z;
  bf_txCount : Z;
  bf_totalFees : float64;
  bf_averageFee : float64;
  bf_medianFeeRate : float64;
  bf_highestFeeRate : float64;
  bf_lowestFeeRate : float64;
}.

(** [blockTotalFees] is set to zero and not changed. *)
Definition block_fees (height : Z) (b : Block) (txs : list Transaction) : BlockFees :=
  let blockTotalFees := f64_zero in
  let rates := fee_rate <$> txs in
  mkBlockFees height (hdr_Timestamp (Header b)) (Z.of_nat (length txs)) blockTotalFees
    (f64_div blockTotalFees (f64_of_Z (Z.of_nat (length txs)))) (median rates)
    (foldl (λ m r, if f64_gt r m then r else m) f64_zero rates)
    (foldl (λ m r, if f64_lt r m then r else m) (f64_of_Z 1000) rates).

Record FeeScan := mkFeeScan { fs_totalFees : float64; fs_totalTxs : Z; fs_feeRates : list float64; fs_blockFees : list BlockFees }.

Definition scan_fees (detailed : bool) (h : Z) (acc : FeeScan * Blockchain) : outcome (turn (FeeScan * Blockchain)) :=
  let '(mkFeeScan totalFees totalTxs feeRates blockFees, bc) := acc in
  let! (r, bc) := ChainStore.GetBlockByHeight (ord h) bc h in
  Done (Continue (match r with
    | None => acc.1
    | Some b =>
        let txs := Trie.GetAllTransactions (ord h) (block_Transactions b) in
        mkFeeScan (foldl f64_add totalFees (GasFee <$> txs)) (totalTxs + Z.of_nat (length txs)) (feeRates ++ (fee_rate <$> txs))
          (if detailed && (0 <? length txs)%nat then blockFees ++ [block_fees h b txs] else blockFees)
    end, bc)).

Record AverageFees := mkAverageFees {
  af_blocks : Z;
  af_averageFee : float64;
  af_averageFeeRate : float64;
  af_medianFeeRate : float64;
  af_totalTxs : Z;
  af_blockFees : option (list BlockFees);
}.

Definition GetAverageFees (fuel : nat) (n : Node.t) (args : option (Z * bool)) : outcome (option (AverageFees * Node.t)) :=
  let '(blocks, detailed) := default (10, false) args in
  let blocks := capped 10 1000 blocks in
  let currentHeight := GetHeight (Node.n_bc n) in
  let startHeight := if blocks <? currentHeight then currentHeight - blocks else 0 in
  let! r := for_loop fuel (λ h _, h <=? currentHeight) up (scan_fees detailed) startHeight
              (mkFeeScan f64_zero 0 [] [], Node.n_bc n) in
  Done (match r with
        | None => None
        | Some (mkFeeScan totalFees totalTxs feeRates blockFees, bc) =>
            let none := (length feeRates =? 0)%nat in
            Some (mkAverageFees blocks (if totalTxs >? 0 then f64_div totalFees (f64_of_Z totalTxs) else f64_zero)
                    (if none then f64_zero else average feeRates) (if none then f64_zero else median feeRates)
                    totalTxs (if detailed then Some blockFees else None), Node.set_bc n bc)
        end).

(** ** Histories *)

(** An entry shows a transaction and, for one in a block, that block. *)
Record Entry := mkEntry { en_tx : Transaction; en_block : option (Z * Z * string) }.

Definition block_entry (height i : Z) (b : Block) (tx : Transaction) : Entry :=
  mkEntry tx (Some (u64 (height - i + 1), BlockNumber (Header b), hash_of_block b)).
Definition pending_entry (tx : Transaction) : Entry := mkEntry tx None.

(** The transactions of a block, from the offset up to the limit. *)
Fixpoint page_of (address : string) (limit offset : Z) (entry : Transaction → Entry) (txs : list Transaction)
    (history : list Entry) (txCount : Z) : list Entry * Z :=
  match txs with
  | [] => (history, txCount)
  | tx :: txs =>
      if involves address tx then
        let txCount := txCount + 1 in
        if txCount <=? offset then page_of address limit offset entry txs history txCount
        else
          let history := history ++ [entry tx] in
          if limit <=? Z.of_nat (length history) then (history, txCount)
          else page_of address limit offset entry txs history txCount
      else page_of address limit offset entry txs history txCount
  end.

(** The pending transactions go to the front, one by one. *)
Fixpoint pending_page (address : string) (limit : Z) (txs : list Transaction) (history : list Entry) : list Entry :=
  match txs with
  | [] => history
  | tx :: txs =>
      if involves address tx then
        let history := pending_entry tx :: history in
        if limit <=? Z.of_nat (length history) then take (Z.to_nat limit) history
        else pending_page address limit txs history
      else pending_page address limit txs history
  end.

Definition history_turn (address : string) (limit offset height h : Z) (acc : list Entry * Z * Blockchain)
    : outcome (turn (list Entry * Z * Blockchain)) :=
  let '(history, txCount, bc) := acc in
  let! (r, bc) := ChainStore.GetBlockByHeight (ord h) bc h in
  Done (Continue (match r with
    | None => (history, txCount)
    | Some b => page_of address limit offset (block_entry height h b) (Trie.GetAllTransactions (ord h) (block_Transactions b))
                  history txCount
    end, bc)).

(** The parameters are address, limit and offset; the result the page and the
    number of transactions counted. *)
Definition GetTransactionHistory (fuel : nat) (n : Node.t) (args : option (string * Z * Z))
    : outcome (option (result (list Entry * Z) * Node.t)) :=
  match args with
  | None => Done (Some (Err invalid_parameters, n))
  | Some (address, limit, offset) =>
      if negb (Crypto.ValidateAddress address) then Done (Some (Err "invalid address format", n))
      else
        let limit := capped 10 100 limit in
        let height := GetHeight (Node.n_bc n) in
        let! r := for_loop fuel (λ h acc, (1 <=? h) && (acc.1.2 <? i64 (limit + offset))) down
                    (history_turn address limit offset height) height ([], 0, Node.n_bc n) in
        Done (match r with
              | None => None
              | Some (history, txCount, bc) =>
                  let history := if offset =? 0 then pending_page address limit (pending n) history else history in
                  Some (Ok (history, txCount), Node.set_bc n bc)
              end)
  end.

Fixpoint recent_of (limit : Z) (entry : Transaction → Entry) (txs : list Transaction) (recent : list Entry) : list Entry :=
  match txs with
  | [] => recent
  | tx :: txs =>
      let recent := recent ++ [entry tx] in
      if limit <=? Z.of_nat (length recent) then recent else recent_of limit entry txs recent
  end.

Definition recent_turn (limit height h : Z) (acc : list Entry * Blockchain) : outcome (turn (list Entry * Blockchain)) :=
  let '(recent, bc) := acc in
  let! (r, bc) := ChainStore.GetBlockByHeight (ord h) bc h in
  Done (Continue (match r with
    | None => recent
    | Some b => recent_of limit (block_entry height h b) (Trie.GetAllTransactions (ord h) (block_Transactions b)) recent
    end, bc)).

Definition GetRecentTransactions (fuel : nat) (n : Node.t) (limit : option Z) : outcome (option (list Entry * Node.t)) :=
  let limit := capped 10 100 (default 10 limit) in
  let height := GetHeight (Node.n_bc n) in
  let! r := for_loop fuel (λ h acc, (1 <=? h) && (Z.of_nat (length acc.1) <? limit)) down (recent_turn limit height) height
              ([], Node.n_bc n) in
  Done (match r with None => None | Some (recent, bc) => Some (recent, Node.set_bc n bc) end).

(** ** Searches *)

(** [fo_send] is whether the address searched for is the sender. *)
Record Found := mkFound { fo_tx : Transaction; fo_time : Z; fo_block : option (Z * string); fo_send : bool }.

Definition is_sender (address : string) (tx : Transaction) : bool := str_eqb address (Sender tx).

Definition block_matches (address : string) (b : Block) (txs : list Transaction) : list Found :=
  (λ tx, mkFound tx (hdr_Timestamp (Header b)) (Some (BlockNumber (Header b), hash_of_block b)) (is_sender address tx))
    <$> filter (λ tx, involves address tx = true) txs.

Definition search_turn (address : string) (enough h : Z) (acc : list Found * Blockchain) : outcome (turn (list Found * Blockchain)) :=
  let '(found, bc) := acc in
  let! (r, bc) := ChainStore.GetBlockByHeight (ord h) bc h in
  Done (match r with
    | None => Continue (found, bc)
    | Some b =>
        let found := found ++ block_matches address b (Trie.GetAllTransactions (ord h) (block_Transactions b)) in
        if enough <=? Z.of_nat (length found) then Break (found, bc) else Continue (found, bc)
    end).

(** A comparison, turned around for a falling order. *)
Definition directed {A} (desc : bool) (lt : A → A → bool) (a b : A) : bool := if desc then lt b a else lt a b.

Definition sort_found (sortBy : string) (desc : bool) (l : list Found) : list Found :=
  if str_eqb sortBy "time" then stable_sort (directed desc (λ a b, fo_time a <? fo_time b)) l
  else if str_eqb sortBy "amount" then stable_sort (directed desc (λ a b, f64_lt (Amount (fo_tx a)) (Amount (fo_tx b)))) l
  else l.

Definition slice_page {A} (offset limit : Z) (l : list A) : outcome (list A) :=
  let total := Z.of_nat (length l) in
  if offset <? total then
    let end_ := i64 (offset + limit) in
    let end_ := if end_ >? total then total else end_ in
    if (0 <=? offset) && (offset <=? end_) then Done (take (Z.to_nat (end_ - offset)) (drop (Z.to_nat offset) l))
    else Panic "slice bounds out of range"
  else Done [].

Record SearchArgs := mkSearchArgs { sa_address : string; sa_limit : Z; sa_offset : Z; sa_sortBy : string; sa_sortDesc : bool }.

(** The page and the number of transactions found. *)
Definition SearchByAddress (fuel : nat) (now : Z) (n : Node.t) (args : option SearchArgs)
    : outcome (option (result (list Found * Z) * Node.t)) :=
  match args with
  | None => Done (Some (Err invalid_parameters, n))
  | Some (mkSearchArgs address limit offset sortBy sortDesc) =>
      if str_eqb address "" then Done (Some (Err "address is required", n))
      else if negb (Crypto.ValidateAddress address) then Done (Some (Err "invalid address format", n))
      else
        let limit := capped 10 100 limit in
        let sortBy := if str_eqb sortBy "" then "time" else sortBy in
        let! latest := GetLatestBlock (ord 0) (Node.n_bc n) in
        match latest with
        | None => Panic "nil pointer dereference"
        | Some latest =>
            let top := BlockNumber (Header latest) in
            let heightStart := if 5000 <? top then top - 5000 else 0 in
            let! r := for_loop fuel (λ h _, heightStart <=? h) down (search_turn address (i64 (limit + offset))) top
                        ([], Node.n_bc n) in
            match r with
            | None => Done None
            | Some (found, bc) =>
                let found := found ++ ((λ tx, mkFound tx now None (is_sender address tx))
                                         <$> filter (λ tx, involves address tx = true) (pending n)) in
                let! page := slice_page offset limit (sort_found sortBy sortDesc found) in
                Done (Some (Ok (page, Z.of_nat (length found)), Node.set_bc n bc))
            end
        end
  end.

(** The matches of a block, up to the maximal number of results; [true] when that
    number was reached. *)
Fixpoint full_of (address : string) (maxResults : Z) (entry : Transaction → Entry) (txs : list Transaction)
    (history : list Entry) : list Entry * bool :=
  match txs with
  | [] => (history, false)
  | tx :: txs =>
      if involves address tx then
        let history := history ++ [entry tx] in
        if maxResults <=? Z.of_nat (length history) then (history, true) else full_of address maxResults entry txs history
      else full_of address maxResults entry txs history
  end.

(** At the maximum the loop variable is set to 0, before its step. *)
Definition full_turn (address : string) (maxResults height h : Z) (acc : list Entry * Blockchain)
    : outcome (turn (list Entry * Blockchain)) :=
  let '(history, bc) := acc in
  let! (r, bc) := ChainStore.GetBlockByHeight (ord h) bc h in
  Done (match r with
    | None => Continue (history, bc)
    | Some b =>
        let '(history, reached) := full_of address maxResults (block_entry height h b)
                                     (Trie.GetAllTransactions (ord h) (block_Transactions b)) history in
        if reached then Assign 0 (history, bc) else Continue (history, bc)
    end).

(** Entries without a block, which are pending, stand before or after the others. *)
Definition lower_block (desc : bool) (a b : Entry) : bool :=
  match en_block a, en_block b with
  | None, None => false
  | None, Some _ => negb desc
  | Some _, None => desc
  | Some (_, ha, _), Some (_, hb, _) => if desc then hb <? ha else ha <? hb
  end.

Definition sort_entries (sortBy : string) (desc : bool) (l : list Entry) : list Entry :=
  if str_eqb sortBy "time" || str_eqb sortBy "timestamp"
  then stable_sort (directed desc (λ a b, Timestamp (en_tx a) <? Timestamp (en_tx b))) l
  else if str_eqb sortBy "amount" then stable_sort (directed desc (λ a b, f64_lt (Amount (en_tx a)) (Amount (en_tx b)))) l
  else if str_eqb sortBy "blockHeight" then stable_sort (lower_block desc) l
  else l.

(** The parameters are address, maximal number of results, sort key and direction. *)
Definition GetFullTransactionHistory (fuel : nat) (n : Node.t) (args : option (string * Z * string * bool))
    : outcome (option (result (list Entry) * Node.t)) :=
  match args with
  | None => Done (Some (Err invalid_parameters, n))
  | Some (address, maxResults, sortBy, sortDesc) =>
      if negb (Crypto.ValidateAddress address) then Done (Some (Err "invalid address format", n))
      else
        let maxResults := if maxResults <=? 0 then 1000000 else maxResults in
        let sortBy := if str_eqb sortBy "" then "time" else sortBy in
        let history := pending_entry <$> filter (λ tx, involves address tx = true) (pending n) in
        let height := GetHeight (Node.n_bc n) in
        let! r := for_loop fuel (λ h _, 1 <=? h) down (full_turn address maxResults height) height (history, Node.n_bc n) in
        Done (match r with
              | None => None
              | Some (history, bc) => Some (Ok (sort_entries sortBy sortDesc history), Node.set_bc n bc)
              end)
  end.

End api.
End TransactionAPI.
