(* ===== verification/RpcFacts.v ===== *)
(** * Correctness of the query interface

    Loops and lookups shared by both interfaces. On a chain whose blocks are
    numbered a range of blocks or headers is the list of the blocks of those
    heights, the average block time is the time between two ends, the supply is
    the sum of the unspent outputs, and the list of the richest is the top of the
    ranking by balance. Ranges that reach the largest height never end. *)

From stdpp Require Import base gmap strings list sorting.
From Stdlib Require Import ZArith Lia.
From S2P Require Import Prelude.
From S2P Require Import Float64.
From S2P Require Import Database.
From S2P Require Import Utxo.
From S2P Require Import UtxoSelect.
From S2P Require Import Trie.
From S2P Require Import Block.
From S2P Require Import BlockFacts.
From S2P Require Import Chain.
From S2P Require Import ChainFacts.
From S2P Require Import ChainStore.
From S2P Require Import SyncFacts.
From S2P Require Import Rpc.

(** ** Loops *)
Section loops.
Context {A : Type} (cond : Z → A → bool) (step : Z → Z) (body : Z → A → outcome (turn A)).

Lemma for_loop_stop fuel h a : (0 < fuel)%nat → cond h a = false → for_loop fuel cond step body h a = Done (Some a).
Proof. intros Hf Hc. destruct fuel; [lia|]. cbn [for_loop]. by rewrite Hc. Qed.

Lemma for_loop_continue fuel h a a' : cond h a = true → body h a = Done (Continue a') →
  for_loop (S fuel) cond step body h a = for_loop fuel cond step body (step h) a'.
Proof. intros Hc Hb. cbn [for_loop]. by rewrite Hc, Hb. Qed.

(** A loop whose condition stays true and which no turn leaves does not end. *)
Lemma for_loop_endless (P : Z → A → Prop) :
  (∀ h a, P h a → cond h a = true ∧ returns (body h a) (λ t,
     match t with Continue a' => P (step h) a' | Break _ => False | Assign h' a' => P (step h') a' end)) →
  ∀ fuel h a, P h a → for_loop fuel cond step body h a = Done None.
Proof.
  intros Hstep fuel. induction fuel as [|fuel IH]; intros h a HP; [done|].
  destruct (Hstep _ _ HP) as (Hc & t & Hb & Ht). cbn [for_loop]. rewrite Hc, Hb. cbn [obind].
  destruct t; [by apply IH|done|by apply IH].
Qed.
End loops.

Lemma up_small h : 0 ≤ h < 2 ^ 64 - 1 → up h = h + 1.
Proof. intros. apply u64_small. unfold is_u64. lia. Qed.
Lemma down_small h : 1 ≤ h < 2 ^ 64 → down h = h - 1.
Proof. intros. apply u64_small. unfold is_u64. lia. Qed.

(** ** Lookups *)
Section lookups.
Context `{KV}.

(** The chain after lookups: the same blocks, some of them hashed. *)
Definition same_reads (bc bc' : Blockchain) : Prop :=
  bc' = set_chain bc (Chain bc') ∧ (read_out <$> Chain bc') = (read_out <$> Chain bc).

Lemma same_reads_refl bc : same_reads bc bc.
Proof. split; [by destruct bc|done]. Qed.

Lemma original_read_out b : originalHash (read_out b) = hash_of_block b.
Proof.
  unfold read_out. cbn [originalHash set_hashes]. unfold hashed, hash_of_block, Blk.Hash.
  by destruct (str_eqb (originalHash b) "").
Qed.

Lemma Hash_read_out b : Blk.Hash (read_out b) = (hash_of_block b, read_out b).
Proof. unfold Blk.Hash. rewrite original_read_out. by rewrite (proj2 (str_eqb_neq _ _) (hash_not_empty b)). Qed.

Lemma hash_read_out b : hash_of_block (read_out b) = hash_of_block b.
Proof. unfold hash_of_block at 1. by rewrite Hash_read_out. Qed.

Lemma read_out_idemp b : read_out (read_out b) = read_out b.
Proof.
  assert (hashed (read_out b) = read_out b) as E by (unfold hashed; by rewrite Hash_read_out).
  unfold read_out at 1. rewrite E, hash_read_out, <-(hash_hashed b). done.
Qed.

Lemma transactions_read_out b : block_Transactions (read_out b) = block_Transactions b.
Proof. apply Hash_transactions. Qed.

Lemma numbered_reads l l' : read_out <$> l' = read_out <$> l → numbered l → numbered l'.
Proof.
  intros E Hn i b Hi. assert ((read_out <$> l) !! i = Some (read_out b)) as Hl by (by rewrite <-E, list_lookup_fmap, Hi).
  rewrite list_lookup_fmap in Hl. destruct (l !! i) as [b'|] eqn:Hb; [|done]. apply (inj Some) in Hl.
  rewrite <-(header_read_out b), <-Hl, header_read_out. by apply Hn.
Qed.

Lemma reads_lookup bc bc' i b : same_reads bc bc' → Chain bc !! i = Some b → ∃ b', Chain bc' !! i = Some b' ∧ read_out b' = read_out b.
Proof.
  intros [_ E] Hi. assert ((read_out <$> Chain bc') !! i = Some (read_out b)) as Hl by (by rewrite E, list_lookup_fmap, Hi).
  rewrite list_lookup_fmap in Hl. destruct (Chain bc' !! i) as [b'|]; [|done]. apply (inj Some) in Hl. by exists b'.
Qed.

Lemma reads_height bc bc' : same_reads bc bc' → GetHeight bc' = GetHeight bc.
Proof.
  intros [_ E]. unfold GetHeight.
  assert (read_out <$> last (Chain bc') = read_out <$> last (Chain bc)) as El by (by rewrite <-!fmap_last, E).
  destruct (last (Chain bc')), (last (Chain bc)); try done. apply (inj Some) in El. by rewrite <-header_read_out, El, header_read_out.
Qed.

(** A block of the chain is found under its number, however much was looked up
    before. *)
Lemma look ord bc bc' i b : numbered (Chain bc) → same_reads bc bc' → Chain bc !! i = Some b →
  ∃ bc'', ChainStore.GetBlockByHeight ord bc' (Z.of_nat i) = Done (Some (read_out b), bc'') ∧ same_reads bc bc''.
Proof.
  intros Hn Hs Hi. destruct (reads_lookup _ _ _ _ Hs Hi) as (b' & Hi' & <-).
  assert (numbered (Chain bc')) as Hn' by (eapply numbered_reads; [apply Hs|done]).
  rewrite (GetBlockByHeight_numbered ord bc' i b' Hn' Hi').
  eexists. split; [done|]. destruct Hs as [Hs E]. split; cbn [Chain set_chain].
  - by rewrite Hs.
  - rewrite list_fmap_insert, read_out_idemp, <-E. apply list_insert_id. by rewrite list_lookup_fmap, Hi'.
Qed.

(** No block above the tip is in the database. *)
Definition nothing_above (ord : Z → child_order) (bc : Blockchain) : Prop :=
  ∀ h, Z.of_nat (length (Chain bc)) ≤ h → db_block (ord h) bc (height_key h) = Done None.

Lemma look_above ord bc bc' h : numbered (Chain bc) → nothing_above ord bc → same_reads bc bc' →
  Z.of_nat (length (Chain bc)) ≤ h → ChainStore.GetBlockByHeight (ord h) bc' h = Done (None, bc').
Proof.
  intros Hn Ha Hs Hh. unfold ChainStore.GetBlockByHeight.
  assert (list_find (λ b, BlockNumber (Header b) = h) (Chain bc') = None) as ->.
  { apply list_find_None, Forall_lookup. intros i b Hi Hb. eapply numbered_reads in Hn; [|apply Hs].
    apply Hn in Hi as Hb'. apply lookup_lt_Some in Hi. destruct Hs as [_ E]. apply (f_equal length) in E.
    rewrite !length_fmap in E. lia. }
  specialize (Ha h Hh). destruct Hs as [-> _]. unfold db_block in *. cbn [world set_chain] in *. by rewrite Ha.
Qed.
End lookups.

(** ** Ranges of blocks *)
Lemma capped_range dflt most n : 1 ≤ dflt ≤ most → 1 ≤ capped dflt most n ≤ most.
Proof. intros. unfold capped. destruct (Z.leb_spec n 0); [lia|]. destruct (Z.ltb_spec most n); lia. Qed.

Lemma range_end_spec first last n : 0 ≤ first ≤ last → last < 2 ^ 64 - 1 → last - first + 1 < 2 ^ 63 → 1 ≤ n < 2 ^ 63 →
  range_end first last n = first + Z.min (last - first + 1) n - 1.
Proof.
  intros. unfold range_end. rewrite (u64_small (last - first + 1)) by (unfold is_u64; lia).
  rewrite i64_small by (unfold is_i64; lia). destruct (Z.ltb_spec n (last - first + 1)); [|lia].
  rewrite (u64_small n) by (unfold is_u64; lia). rewrite (u64_small (first + n)) by (unfold is_u64; lia).
  rewrite u64_small by (unfold is_u64; lia). lia.
Qed.

Section ranges.
Context `{KV} (ord : child_order).

Lemma collect_up {A} (f : Block → A) bc : numbered (Chain bc) → nothing_above (λ _, ord) bc →
  ∀ n fuel i last bc' l, same_reads bc bc' → (n < fuel)%nat → Z.of_nat i + Z.of_nat n = last + 1 → last < 2 ^ 64 - 1 →
  ∃ bc'', for_loop fuel (λ h _, h <=? last) up (BlockchainAPI.collect ord f) (Z.of_nat i) (l, bc') =
    Done (Some (l ++ (f ∘ read_out <$> take n (drop i (Chain bc))), bc'')) ∧ same_reads bc bc''.
Proof.
  intros Hn Ha n. induction n as [|n IH]; intros fuel i last bc' l Hs Hf Hi Hl.
  { exists bc'. rewrite for_loop_stop; [|lia|apply Z.leb_gt; lia]. by rewrite take_0, app_nil_r. }
  destruct fuel as [|fuel]; [lia|].
  destruct (Chain bc !! i) as [b|] eqn:Hb.
  - destruct (look ord bc bc' i b Hn Hs Hb) as (bc1 & E & Hs1).
    assert (∃ bc'', for_loop fuel (λ h _, h <=? last) up (BlockchainAPI.collect ord f) (Z.of_nat (S i)) (l ++ [f (read_out b)], bc1) =
      Done (Some ((l ++ [f (read_out b)]) ++ (f ∘ read_out <$> take n (drop (S i) (Chain bc))), bc'')) ∧ same_reads bc bc'')
      as (bc2 & E2 & Hs2) by (apply IH; [done|lia..]).
    exists bc2. split; [|done].
    rewrite (for_loop_continue _ _ _ _ _ _ (l ++ [f (read_out b)], bc1)); [|apply Z.leb_le; lia|unfold BlockchainAPI.collect; by rewrite E].
    rewrite up_small by lia. replace (Z.of_nat i + 1) with (Z.of_nat (S i)) by lia. rewrite E2, (drop_S _ _ _ Hb).
    cbn [take]. by rewrite fmap_cons, <-(assoc_L (++)).
  - assert (Z.of_nat (length (Chain bc)) ≤ Z.of_nat i) as Hlen by (apply lookup_ge_None in Hb; lia).
    assert (∃ bc'', for_loop fuel (λ h _, h <=? last) up (BlockchainAPI.collect ord f) (Z.of_nat (S i)) (l, bc') =
      Done (Some (l ++ (f ∘ read_out <$> take n (drop (S i) (Chain bc))), bc'')) ∧ same_reads bc bc'')
      as (bc2 & E2 & Hs2) by (apply IH; [done|lia..]).
    exists bc2. split; [|done].
    rewrite (for_loop_continue _ _ _ _ _ _ (l, bc')); [|apply Z.leb_le; lia|
      unfold BlockchainAPI.collect; by rewrite (look_above (λ _, ord) bc)].
    rewrite up_small by lia. replace (Z.of_nat i + 1) with (Z.of_nat (S i)) by lia. rewrite E2.
    rewrite !drop_ge by lia. by rewrite !take_nil.
Qed.

Lemma collect_range_spec {A} (f : Block → A) dflt most fuel bc first last n :
  numbered (Chain bc) → nothing_above (λ _, ord) bc → 1 ≤ dflt ≤ most → most < 2 ^ 63 →
  0 ≤ first ≤ last → last < 2 ^ 64 - 1 → last - first + 1 < 2 ^ 63 →
  let count := Z.to_nat (Z.min (last - first + 1) (capped dflt most n)) in (count < fuel)%nat →
  ∃ bc', BlockchainAPI.collect_range ord fuel f dflt most bc (Some (BlockchainAPI.mkRangeArgs first last n)) =
    Done (Some (Ok (f ∘ read_out <$> take count (drop (Z.to_nat first) (Chain bc))), bc')) ∧ same_reads bc bc'.
Proof.
  intros Hn Ha Hd Hm Hfl Hl Hr count Hf. pose proof (capped_range dflt most n Hd). unfold BlockchainAPI.collect_range.
  rewrite (proj2 (Z.ltb_ge _ _)) by lia. rewrite range_end_spec by lia.
  destruct (collect_up f bc Hn Ha count fuel (Z.to_nat first) (first + Z.of_nat count - 1) bc [] (same_reads_refl bc) Hf) as (bc' & E & Hs);
    [lia|lia|].
  exists bc'. split; [|done]. rewrite Z2Nat.id in E by lia.
  replace (Z.of_nat count) with (Z.min (last - first + 1) (capped dflt most n)) in E by (unfold count; lia). by rewrite E.
Qed.

(** Blocks of a range: the request ends, and returns the blocks of the heights
    asked for, in order and hashed, up to the limit; heights above the tip give no
    block. *)
Theorem GetBlockRange_spec (fuel : nat) (bc : Blockchain) (first last n : Z) :
  numbered (Chain bc) → nothing_above (λ _, ord) bc → 0 ≤ first ≤ last → last < 2 ^ 64 - 1 → last - first + 1 < 2 ^ 63 →
  let count := Z.to_nat (Z.min (last - first + 1) (capped 10 100 n)) in (count < fuel)%nat →
  ∃ bc' blocks, BlockchainAPI.GetBlockRange ord fuel bc (Some (BlockchainAPI.mkRangeArgs first last n)) = Done (Some (Ok blocks, bc')) ∧
    blocks = read_out <$> take count (drop (Z.to_nat first) (Chain bc)) ∧ (length blocks ≤ 100)%nat ∧ same_reads bc bc'.
Proof.
  intros Hn Ha Hfl Hl Hr count Hf.
  destruct (collect_range_spec (λ b, b) 10 100 fuel bc first last n Hn Ha ltac:(lia) ltac:(lia) Hfl Hl Hr Hf) as (bc' & E & Hs).
  exists bc'. eexists. split_and!; [exact E|by apply list_fmap_ext| |done].
  rewrite length_fmap, length_take. pose proof (capped_range 10 100 n ltac:(lia)). unfold count. lia.
Qed.

Lemma look_any bc bc' h : numbered (Chain bc) → nothing_above (λ _, ord) bc → same_reads bc bc' → 0 ≤ h →
  ∃ r bc'', ChainStore.GetBlockByHeight ord bc' h = Done (r, bc'') ∧ same_reads bc bc''.
Proof.
  intros Hn Ha Hs Hh. destruct (Chain bc !! Z.to_nat h) as [b|] eqn:Hb.
  - destruct (look ord bc bc' _ b Hn Hs Hb) as (bc'' & E & Hs'). rewrite Z2Nat.id in E by done. eauto.
  - exists None, bc'. split; [|done]. apply (look_above (λ _, ord) bc); [done..|]. apply lookup_ge_None in Hb. lia.
Qed.

(** A range that goes to the largest height, and is short enough or so long that its
    length wraps around to a number below the limit, is read for ever. *)
Theorem GetBlockRange_endless (fuel : nat) (bc : Blockchain) (first n : Z) :
  numbered (Chain bc) → nothing_above (λ _, ord) bc → 0 ≤ first < 2 ^ 64 → i64 (u64 (2 ^ 64 - first)) ≤ capped 10 100 n →
  BlockchainAPI.GetBlockRange ord fuel bc (Some (BlockchainAPI.mkRangeArgs first (2 ^ 64 - 1) n)) = Done None.
Proof.
  intros Hn Ha Hf Hi. unfold BlockchainAPI.GetBlockRange, BlockchainAPI.collect_range.
  rewrite (proj2 (Z.ltb_ge _ _)) by lia. unfold range_end. replace (2 ^ 64 - 1 - first + 1) with (2 ^ 64 - first) by lia.
  rewrite (proj2 (Z.ltb_ge _ _)) by done.
  rewrite (for_loop_endless _ _ _ (λ h a, is_u64 h ∧ same_reads bc a.2)); [done| |split; [unfold is_u64; lia|apply same_reads_refl]].
  intros h [l bc'] [Hh Hs]. split; [apply Z.leb_le; unfold is_u64 in Hh; lia|].
  destruct (look_any bc bc' h Hn Ha Hs ltac:(unfold is_u64 in Hh; lia)) as (r & bc'' & E & Hs').
  unfold BlockchainAPI.collect. rewrite E. apply returns_Done. split; [apply u64_range|done].
Qed.
End ranges.

(** ** The time between blocks *)
Lemma i64_add_l x y : i64 (i64 x + y) = i64 (x + y).
Proof. unfold i64. f_equal. replace ((x + 2 ^ 63) mod 2 ^ 64 - 2 ^ 63 + y + 2 ^ 63) with ((x + 2 ^ 63) mod 2 ^ 64 + y) by lia.
  rewrite Zplus_mod_idemp_l. f_equal. lia. Qed.

Lemma i64_add_r x y : i64 (x + i64 y) = i64 (x + y).
Proof. rewrite Z.add_comm, i64_add_l. f_equal. lia. Qed.

(** The differences of neighbours add up to the difference of the ends. *)
Lemma total_diff_telescopes l : ∀ x t, is_i64 t → BlockchainAPI.total_diff (x :: l) t = i64 (t + (x - default x (last l))).
Proof.
  induction l as [|y l IH]; intros x t Ht.
  - cbn. rewrite i64_small; [lia|]. replace (t + (x - x)) with t by lia. done.
  - change (BlockchainAPI.total_diff (x :: y :: l) t) with (BlockchainAPI.total_diff (y :: l) (i64 (t + i64 (x - y)))).
    rewrite IH by apply i64_range. rewrite i64_add_r, i64_add_l. f_equal.
    rewrite last_cons. destruct (last l); cbn; lia.
Qed.

Section times.
Context `{KV} (ord : child_order).

Lemma collect_down {A} (f : Block → A) bc : numbered (Chain bc) →
  ∀ n fuel i bc' l, same_reads bc bc' → (n < fuel)%nat → (n ≤ i)%nat → (i < length (Chain bc))%nat → Z.of_nat i < 2 ^ 64 →
  ∃ bc'', for_loop fuel (λ h _, Z.of_nat (i - n) <? h) down (BlockchainAPI.collect ord f) (Z.of_nat i) (l, bc') =
    Done (Some (l ++ reverse (f ∘ read_out <$> take n (drop (i + 1 - n) (Chain bc))), bc'')) ∧ same_reads bc bc''.
Proof.
  intros Hn n. induction n as [|n IH]; intros fuel i bc' l Hs Hf Hni Hi Hu.
  { exists bc'. rewrite for_loop_stop; [|lia|apply Z.ltb_ge; lia]. rewrite take_0. cbn. by rewrite app_nil_r. }
  destruct fuel as [|fuel]; [lia|]. destruct i as [|i]; [lia|].
  destruct (lookup_lt_is_Some_2 _ _ Hi) as [b Hb].
  destruct (look ord bc bc' (S i) b Hn Hs Hb) as (bc1 & E & Hs1).
  destruct (IH fuel i bc1 (l ++ [f (read_out b)]) Hs1 ltac:(lia) ltac:(lia) ltac:(lia) ltac:(lia)) as (bc2 & E2 & Hs2).
  exists bc2. split; [|done]. replace (S i - S n)%nat with (i - n)%nat by lia.
  rewrite (for_loop_continue _ _ _ _ _ _ (l ++ [f (read_out b)], bc1)); [|apply Z.ltb_lt; lia|unfold BlockchainAPI.collect; by rewrite E].
  rewrite down_small by lia. replace (Z.of_nat (S i) - 1) with (Z.of_nat i) by lia. rewrite E2.
  replace (S i + 1 - S n)%nat with (i + 1 - n)%nat by lia.
  rewrite (take_S_r _ n b) by (rewrite lookup_drop; rewrite <-Hb; f_equal; lia).
  by rewrite fmap_app, reverse_app, <-(assoc_L (++)).
Qed.

Definition time_at (l : list Block) (h : Z) : Z := default 0 (hdr_Timestamp ∘ Header <$> l !! Z.to_nat h).

Lemma times_ends l k : (2 ≤ k)%nat → (k < length l)%nat →
  let top := Z.of_nat (length l) - 1 in
  ∃ rest, reverse ((λ b, hdr_Timestamp (Header b)) ∘ read_out <$> take k (drop (length l - k) l)) = time_at l top :: rest ∧
    default (time_at l top) (last rest) = time_at l (top - Z.of_nat k + 1) ∧ length rest = (k - 1)%nat.
Proof.
  intros Hk Hl top. set (g := (λ b, hdr_Timestamp (Header b)) ∘ read_out).
  destruct (lookup_lt_is_Some_2 l (length l - 1) ltac:(lia)) as [bt Ht].
  destruct (lookup_lt_is_Some_2 l (length l - k) ltac:(lia)) as [b0 H0].
  assert (g bt = time_at l top) as Gt.
  { unfold g, time_at, top. replace (Z.to_nat (Z.of_nat (length l) - 1)) with (length l - 1)%nat by lia. rewrite Ht. cbn.
    by rewrite header_hashed. }
  assert (g b0 = time_at l (top - Z.of_nat k + 1)) as G0.
  { unfold g, time_at, top. replace (Z.to_nat _) with (length l - k)%nat by lia. rewrite H0. cbn. by rewrite header_hashed. }
  rewrite take_ge by (rewrite length_drop; lia). rewrite (drop_S _ _ _ H0), fmap_cons, reverse_cons.
  destruct (reverse (g <$> drop (S (length l - k)) l)) as [|x rest] eqn:E.
  { apply (f_equal length) in E. rewrite length_reverse, length_fmap, length_drop in E. cbn in E. lia. }
  assert (x = g bt) as ->.
  { apply (f_equal head) in E. rewrite head_reverse, last_lookup, list_lookup_fmap, lookup_drop, length_fmap, length_drop in E.
    replace (S (length l - k) + pred (length l - S (length l - k)))%nat with (length l - 1)%nat in E by lia.
    rewrite Ht in E. by injection E as <-. }
  exists (rest ++ [g b0]). rewrite Gt. cbn [app]. split_and!; [done|by rewrite last_snoc, <-G0|].
  apply (f_equal length) in E. rewrite length_reverse, length_fmap, length_drop in E. rewrite length_app. cbn in E |- *. lia.
Qed.

(** The average time of a block, which the code adds up difference by difference,
    is the time between the ends of the blocks looked at divided by their number
    less one. *)
Theorem GetBlockTime_spec (fuel : nat) (bc : Blockchain) (blocks : Z) :
  numbered (Chain bc) → let height := Z.of_nat (length (Chain bc)) - 1 in 2 ≤ height < 2 ^ 63 → blocks < 2 ^ 63 →
  let k := Z.min (if blocks <=? 0 then 100 else blocks) (height - 1) in (Z.to_nat k < fuel)%nat →
  ∃ bc', BlockchainAPI.GetBlockTime ord fuel bc (Some blocks) = Done (Some (
    if k <? 2 then Err "not enough valid blocks to calculate average time"
    else Ok (f64_div (f64_of_Z (i64 (time_at (Chain bc) height - time_at (Chain bc) (height - k + 1)))) (f64_of_Z (k - 1))), bc')) ∧
    same_reads bc bc'.
Proof.
  intros Hn height Hh Hb k Hf. unfold BlockchainAPI.GetBlockTime.
  assert (Chain bc ≠ []) as Hne by (intros E; unfold height in Hh; rewrite E in Hh; cbn in Hh; lia).
  rewrite (height_numbered bc Hn Hne). fold height.
  rewrite (proj2 (Z.ltb_ge height 2)) by lia.
  set (b1 := if blocks <=? 0 then 100 else blocks) in *.
  assert (1 ≤ b1 < 2 ^ 63) by (unfold b1; destruct (Z.leb_spec blocks 0); lia).
  assert ((if height - 1 <? b1 then i64 (height - 1) else b1) = k) as ->.
  { unfold k. destruct (Z.ltb_spec (height - 1) b1); [rewrite i64_small by (unfold is_i64; lia)|]; lia. }
  rewrite (u64_small k) by (unfold is_u64, k; lia). rewrite u64_small by (unfold is_u64, k; lia).
  destruct (collect_down (λ b, hdr_Timestamp (Header b)) bc Hn (Z.to_nat k) fuel (Z.to_nat height) bc [] (same_reads_refl bc) Hf
    ltac:(lia) ltac:(lia) ltac:(lia)) as (bc' & E & Hs).
  replace (Z.of_nat (Z.to_nat height - Z.to_nat k)) with (height - k) in E by (unfold k in *; lia).
  rewrite Z2Nat.id in E by lia. rewrite E. cbn [obind app]. exists bc'. split; [|done].
  replace (Z.to_nat height + 1 - Z.to_nat k)%nat with (length (Chain bc) - Z.to_nat k)%nat by lia.
  do 2 f_equal. destruct (Z.ltb_spec k 2).
  - rewrite (proj2 (Nat.ltb_lt _ _)); [done|]. rewrite length_reverse, length_fmap, length_take. lia.
  - destruct (times_ends (Chain bc) (Z.to_nat k) ltac:(lia) ltac:(lia)) as (rest & -> & Hlast & Hlen).
    rewrite (proj2 (Nat.ltb_ge _ _)) by (cbn [length]; lia). rewrite total_diff_telescopes by (unfold is_i64; lia).
    rewrite Z2Nat.id in Hlast by lia. fold height in Hlast |- *. rewrite Hlast, Z.add_0_l. cbn [length].
    by replace (Z.of_nat (S (length rest)) - 1) with (k - 1) by lia.
Qed.
End times.

(** ** The supply *)
Definition all_unspent (m : utxo_set) : list UTXO := filter (λ u, utxo_Spent u = false) (map_to_list m).*2.

Lemma unspent_filter us : ∀ s,
  foldl (λ s u, if utxo_Spent u then s else f64_add s (utxo_Amount u)) s us =
  foldl f64_add s (utxo_Amount <$> filter (λ u, utxo_Spent u = false) us).
Proof.
  induction us as [|u us IH]; intros s; [done|]. cbn [foldl]. rewrite filter_cons.
  destruct (utxo_Spent u); case_decide; first [done|apply IH].
Qed.

Lemma unspent_sum_exact ro units m : fair ro → whole_amounts units (all_unspent m) →
  BlockchainAPI.unspent_sum ro m = f64_of_Z (total_units units (all_unspent m)).
Proof.
  intros Hro Hu. unfold BlockchainAPI.unspent_sum. rewrite unspent_filter. apply exact_sum; [|done].
  unfold all_unspent. by rewrite (range_perm ro _ Hro).
Qed.

Lemma total_nonneg units l : whole_amounts units l → 0 ≤ total_units units l.
Proof. intros [Hu _]. unfold total_units. induction Hu as [|u l [Hu _] _ IH]; cbn in *; lia. Qed.

Section supply.
Context `{KV}.

(** The supply is the exact sum of the unspent outputs, in any map order, for
    whole amounts below [2^53]; only a chain without value falls back on the
    rewards of its blocks. *)
Theorem GetCirculatingSupply_exact (ro : range_order) (bc : Blockchain) (p : UTXOPool) (units : UTXO → Z) :
  fair ro → utxoPool bc = Some p → mu p = Unlocked → whole_amounts units (all_unspent (utxos p)) →
  BlockchainAPI.GetCirculatingSupply ro bc = Done (
    if 0 <? total_units units (all_unspent (utxos p)) then f64_of_Z (total_units units (all_unspent (utxos p)))
    else BlockchainAPI.minted (BlockchainAPI.periods (GetHeight bc)) 0 (GetHeight bc) f64_zero).
Proof.
  intros Hro Hp Hm Hu. unfold BlockchainAPI.GetCirculatingSupply, BlockchainAPI.GetAllUTXOs, Pool.rlocked.
  rewrite Hp, Hm. cbn [mutex_RLock obind]. f_equal. rewrite (unspent_sum_exact ro units) by done.
  pose proof (total_nonneg _ _ Hu). destruct Hu as [_ Hs]. unfold f64_gt. change f64_zero with (f64_of_Z 0) at 1.
  fold (f64_lt (f64_of_Z 0) (f64_of_Z (total_units units (all_unspent (utxos p))))). rewrite f64_lt_of_Z by lia. done.
Qed.
End supply.

(** ** The richest addresses *)
Definition amounts (a : string) (us : list UTXO) : list float64 :=
  utxo_Amount <$> filter (λ u, utxo_Owner u = a ∧ utxo_Spent u = false) us.

Lemma add_balances_lookup a us : ∀ m,
  foldl BlockchainAPI.add_balance m us !! a =
  match amounts a us with [] => m !! a | l => Some (foldl f64_add (default f64_zero (m !! a)) l) end.
Proof.
  induction us as [|u us IH]; intros m; [done|]. cbn [foldl]. rewrite IH. unfold BlockchainAPI.add_balance, amounts.
  rewrite filter_cons. destruct (utxo_Spent u) eqn:Es.
  - rewrite decide_False by (intros [_ ?]; congruence). done.
  - destruct (decide (utxo_Owner u = a)) as [<-|Hne].
    + rewrite decide_True by done. rewrite lookup_insert_eq, fmap_cons. cbn [foldl].
      destruct (utxo_Amount <$> _); done.
    + rewrite decide_False by (by intros [? _]). by rewrite lookup_insert_ne.
Qed.

(** All owners of unspent outputs with their balances, the richest first. *)
Definition ranking (units : UTXO → Z) (m : utxo_set) (l : list (string * Z)) : Prop :=
  NoDup l.*1 ∧ StronglySorted (λ x y, y.2 ≤ x.2) l ∧
  ∀ a z, (a, z) ∈ l ↔ owned m a ≠ [] ∧ z = total_units units (owned m a).

Lemma owned_whole units m a : whole_amounts units (all_unspent m) → whole_amounts units (owned m a).
Proof.
  intros Hu. unfold owned, all_unspent in *. apply (whole_filter units (λ u, utxo_Owner u = a)) in Hu.
  by rewrite list_filter_filter in Hu.
Qed.

Lemma owner_balances_spec ro units m a x : fair ro → whole_amounts units (all_unspent m) →
  BlockchainAPI.owner_balances ro m !! a = Some x ↔ owned m a ≠ [] ∧ x = f64_of_Z (total_units units (owned m a)).
Proof.
  intros Hro Hu. unfold BlockchainAPI.owner_balances. rewrite add_balances_lookup, lookup_empty. cbn [default].
  assert (filter (λ u, utxo_Owner u = a ∧ utxo_Spent u = false) (range ro m).*2 ≡ₚ owned m a) as Hp
    by (unfold owned; by rewrite (range_perm ro _ Hro)).
  pose proof (owned_whole units m a Hu) as Hw.
  rewrite <-(exact_sum units _ _ Hp Hw). unfold amounts.
  destruct (filter _ (range ro m).*2) as [|u us] eqn:E.
  - apply Permutation_nil_l in Hp. rewrite <-Hp. split; [discriminate|by intros [? _]].
  - rewrite fmap_cons. assert (owned m a ≠ []) by (intros H0; rewrite H0 in Hp; by apply Permutation_nil_r in Hp).
    split; [intros Hx; by apply (inj Some) in Hx as <-|by intros [_ ->]].
Qed.

Lemma StronglySorted_map {A B} (R : relation A) (S : relation B) (f : A → B) l :
  StronglySorted R l → (∀ x y, x ∈ l → y ∈ l → R x y → S (f x) (f y)) → StronglySorted S (f <$> l).
Proof.
  induction 1 as [|x l Hl IH Hx]; intros HRS; [constructor|]. rewrite fmap_cons. constructor.
  - apply IH. intros y z Hy Hz. apply HRS; apply elem_of_cons; by right.
  - apply Forall_fmap, Forall_forall. intros y Hy. rewrite Forall_forall in Hx.
    apply HRS; [apply elem_of_cons; by left|apply elem_of_cons; by right|by apply Hx].
Qed.

Section rich.
Context `{KV}.

(** The list of the richest addresses: the first ones, as many as asked for and at
    most a hundred, of the ranking of all owners of unspent outputs by their exact
    balances, in whatever orders the maps are visited. *)
Theorem GetRichList_spec (ro ro' : range_order) (utxoSet : utxo_set) (bc : Blockchain) (p : UTXOPool) (units : UTXO → Z) (limit : Z) :
  fair ro → fair ro' → utxoPool bc = Some p → mu p = Unlocked → whole_amounts units (all_unspent (utxos p)) →
  ∃ l, ranking units (utxos p) l ∧
    BlockchainAPI.GetRichList ro ro' utxoSet bc (Some limit) =
    Done (Ok (prod_map id f64_of_Z <$> take (Z.to_nat (capped 10 100 limit)) l)).
Proof.
  intros Hro Hro' Hp Hm Hu. unfold BlockchainAPI.GetRichList, BlockchainAPI.GetAllUTXOs, Pool.rlocked.
  rewrite Hp, Hm. cbn [mutex_RLock obind]. set (m := utxos p) in *.
  set (bals := BlockchainAPI.owner_balances ro m). set (sorted := stable_sort BlockchainAPI.richer (range ro' bals)).
  set (bal a := total_units units (owned m a)). exists ((λ e, (e.1, bal e.1)) <$> sorted).
  assert (sorted ≡ₚ map_to_list bals) as Hs by (unfold sorted; by rewrite stable_sort_perm, (range_perm ro' _ Hro')).
  assert (∀ e, e ∈ sorted ↔ owned m e.1 ≠ [] ∧ e.2 = f64_of_Z (bal e.1)) as He.
  { intros [a x]. rewrite Hs, elem_of_map_to_list. by apply owner_balances_spec. }
  assert (∀ a, 0 ≤ bal a < 2 ^ 53) as Hb.
  { intros a. pose proof (owned_whole units m a Hu) as Hw. split; [by apply total_nonneg|apply Hw]. }
  split; [split_and!|].
  - rewrite <-list_fmap_compose. change (NoDup (fst <$> sorted)). rewrite Hs. apply NoDup_fst_map_to_list.
  - eapply (StronglySorted_map (sort_rel BlockchainAPI.richer)).
    + apply (stable_sort_sorted BlockchainAPI.richer (λ e, e.2 = f64_of_Z (bal e.1))).
      * intros x y. apply f64_lt_asym.
      * intros x y z Hx Hy Hz. unfold sort_rel, BlockchainAPI.richer, f64_gt.
        intros Hxy Hyz. apply (f64_nlt_trans z.2 y.2 x.2); try done; rewrite ?Hx, ?Hy, ?Hz; by apply f64_of_Z_not_nan.
      * apply Forall_forall. intros e Hin. apply He. by rewrite <-(stable_sort_perm BlockchainAPI.richer) in Hin.
    + intros x y [_ Hx]%He [_ Hy]%He. unfold sort_rel, BlockchainAPI.richer. cbn [snd fst].
      rewrite Hx, Hy. intros Hlt. apply Z.ltb_ge. by rewrite <-f64_lt_of_Z.
  - intros a z. rewrite list_elem_of_fmap. split.
    + intros (e & [= -> ->] & [Hin _]%He). done.
    + intros [Ho ->]. exists (a, f64_of_Z (bal a)). split; [done|]. by apply He.
  - assert (prod_map id f64_of_Z <$> ((λ e, (e.1, bal e.1)) <$> sorted) = sorted) as Hsame.
    { rewrite <-list_fmap_compose. rewrite <-(list_fmap_id sorted) at 2. apply Forall_fmap_ext, Forall_forall.
      intros [a x] [_ Hx]%He. cbn in *. by rewrite Hx. }
    rewrite fmap_take, Hsame. pose proof (capped_range 10 100 limit ltac:(lia)). destruct (Nat.eqb_spec (size m) 0) as [E|].
    + apply map_size_empty_inv in E. assert (sorted = []) as ->; [|by rewrite take_nil].
      apply elem_of_nil_inv. intros e [Ho _]%He. apply Ho. unfold owned. rewrite E, map_to_list_empty. done.
    + do 2 f_equal. rewrite Z.gtb_ltb. destruct (Z.ltb_spec (capped 10 100 limit) (Z.of_nat (length sorted))); [done|].
      rewrite take_ge; [done|lia].
Qed.
End rich.
