(* ===== verification/RpcTxFacts.v ===== *)
(** * Correctness of the transaction interface

    A page of a history is a page of the list of the address's transactions, a
    transaction is found where it is, and the watch over a transaction ends with
    the verdict that the blocks and the mempool call for. What a sent transaction
    holds, and the requests that never end. *)

From stdpp Require Import base gmap strings list sorting.
From Stdlib Require Import ZArith Lia.
From S2P Require Import Prelude.
From S2P Require Import Float64.
From S2P Require Import Sha256.
From S2P Require Import Gas.
From S2P Require Import P256.
From S2P Require Import Database.
From S2P Require Import Crypto.
From S2P Require Import Transaction.
From S2P Require Import Utxo.
From S2P Require Import UtxoFacts.
From S2P Require Import UtxoSync.
From S2P Require Import UtxoSelect.
From S2P Require Import UtxoWitness.
From S2P Require Import MempoolFacts.
From S2P Require Import Trie.
From S2P Require Import Block.
From S2P Require Import Chain.
From S2P Require Import ChainFacts.
From S2P Require Import ChainStore.
From S2P Require Import ChainStoreFacts.
From S2P Require Import SyncFacts.
From S2P Require Import P2p.
From S2P Require Import Rpc.

From S2P Require Import RpcFacts.

(** ** Histories *)
Import TransactionAPI.

Section histories.
Context `{KV} `{ECDSA} `{GoImpl} (ord : Z → child_order).

Definition relevant (address : string) (txs : list Transaction) : list Transaction := filter (λ tx, involves address tx = true) txs.

(** The transactions of the blocks from number [k] down to number 1 that concern
    an address, as entries. *)
Fixpoint confirmed (address : string) (height : Z) (chain : list Block) (k : nat) : list Entry :=
  match k with
  | O => []
  | S below =>
      match chain !! k with
      | Some b => block_entry height (Z.of_nat k) (read_out b)
                    <$> relevant address (Trie.GetAllTransactions (ord (Z.of_nat k)) (block_Transactions b))
      | None => []
      end ++ confirmed address height chain below
  end.

(** A page of a list. *)
Definition page {A} (limit offset : nat) (l : list A) : list A := take limit (drop offset l).

Lemma page_full {A} limit offset (l k : list A) : (limit + offset ≤ length l)%nat → page limit offset (l ++ k) = page limit offset l.
Proof. intros. unfold page. rewrite drop_app_le by lia. apply take_app_le. rewrite length_drop. lia. Qed.

Lemma page_snoc {A} limit offset (l : list A) x : (length l < limit + offset)%nat →
  page limit offset (l ++ [x]) = if (length l <? offset)%nat then page limit offset l else page limit offset l ++ [x].
Proof.
  intros Hl. unfold page. destruct (Nat.ltb_spec (length l) offset).
  - rewrite !drop_ge; [done|lia|rewrite length_app; cbn; lia].
  - rewrite drop_app_le by lia. rewrite !take_ge; [done|rewrite length_drop; lia|rewrite length_app, length_drop; cbn; lia].
Qed.

Lemma length_page {A} limit offset (l : list A) : length (page limit offset l) = Nat.min limit (length l - offset).
Proof. unfold page. by rewrite length_take, length_drop. Qed.

Lemma page_of_spec address limit offset entry txs : (1 ≤ limit)%nat → ∀ seen, (length seen < limit + offset)%nat →
  let all := seen ++ (entry <$> relevant address txs) in
  page_of address (Z.of_nat limit) (Z.of_nat offset) entry txs (page limit offset seen) (Z.of_nat (length seen)) =
  (page limit offset all, Z.of_nat (Nat.min (length all) (limit + offset))).
Proof.
  intros Hlim. unfold relevant. induction txs as [|tx txs IH]; intros seen Hs; cbn zeta.
  { cbn. rewrite app_nil_r. by replace (Nat.min (length seen) (limit + offset)) with (length seen) by lia. }
  cbn [page_of]. rewrite filter_cons. destruct (involves address tx) eqn:Ei; [|rewrite decide_False by done; by apply IH].
  rewrite decide_True by done. rewrite fmap_cons.
  replace (seen ++ entry tx :: (entry <$> filter (λ tx0, involves address tx0 = true) txs))
    with ((seen ++ [entry tx]) ++ (entry <$> filter (λ tx0, involves address tx0 = true) txs)) by (by rewrite <-(assoc_L (++))).
  assert (Z.of_nat (length seen) + 1 = Z.of_nat (length (seen ++ [entry tx]))) as -> by (rewrite length_app; cbn; lia).
  pose proof (page_snoc limit offset seen (entry tx) Hs) as Hp. destruct (Z.leb_spec (Z.of_nat (length (seen ++ [entry tx]))) (Z.of_nat offset)) as [Ho|Ho];
    rewrite length_app in Ho; cbn [length] in Ho.
  - rewrite (proj2 (Nat.ltb_lt _ _)) in Hp by lia. rewrite <-Hp. apply IH. rewrite length_app. cbn. lia.
  - rewrite (proj2 (Nat.ltb_ge _ _)) in Hp by lia. rewrite <-Hp, length_page, length_app. cbn [length].
    destruct (Z.leb_spec (Z.of_nat limit) (Z.of_nat (Nat.min limit (length seen + 1 - offset)))) as [Hf|Hf].
    + rewrite (page_full _ _ (seen ++ [entry tx])) by (rewrite length_app; cbn; lia). by replace (Nat.min _ (limit + offset)) with (length seen + 1)%nat by (rewrite !length_app; cbn; lia).
    + rewrite <-IH by (rewrite length_app; cbn; lia). by rewrite length_app.
Qed.

Lemma history_loop address limit offset height bc : numbered (Chain bc) → (1 ≤ limit)%nat → Z.of_nat (limit + offset) < 2 ^ 63 →
  ∀ k fuel seen bc', same_reads bc bc' → (k < fuel)%nat → (k < length (Chain bc))%nat → Z.of_nat k < 2 ^ 64 →
  let all := seen ++ confirmed address height (Chain bc) k in
  ∃ bc'', for_loop fuel (λ h acc, (1 <=? h) && (acc.1.2 <? i64 (Z.of_nat limit + Z.of_nat offset))) down
      (history_turn ord address (Z.of_nat limit) (Z.of_nat offset) height) (Z.of_nat k)
      (page limit offset seen, Z.of_nat (Nat.min (length seen) (limit + offset)), bc') =
    Done (Some (page limit offset all, Z.of_nat (Nat.min (length all) (limit + offset)), bc'')) ∧ same_reads bc bc''.
Proof.
  intros Hn Hlim Hsum k. rewrite i64_small by (unfold is_i64; lia).
  induction k as [|k IH]; intros fuel seen bc' Hs Hf Hk Hu all.
  { exists bc'. subst all. cbn [confirmed]. rewrite app_nil_r. split; [|done]. by apply for_loop_stop; [lia|]. }
  destruct (decide (limit + offset ≤ length seen)%nat) as [Hfull|Hfull].
  { exists bc'. split; [|done]. subst all. rewrite page_full by done.
    replace (Nat.min (length (seen ++ _)) (limit + offset)) with (Nat.min (length seen) (limit + offset)) by (rewrite length_app; lia).
    apply for_loop_stop; [lia|]. cbn [fst snd]. rewrite (proj2 (Z.ltb_ge _ _)) by lia. apply andb_false_r. }
  destruct fuel as [|fuel]; [lia|]. destruct (lookup_lt_is_Some_2 _ _ Hk) as [b Hb].
  destruct (look (ord (Z.of_nat (S k))) bc bc' (S k) b Hn Hs Hb) as (bc1 & E & Hs1).
  set (new := block_entry height (Z.of_nat (S k)) (read_out b)
                <$> relevant address (Trie.GetAllTransactions (ord (Z.of_nat (S k))) (block_Transactions b))).
  destruct (IH fuel (seen ++ new) bc1 Hs1 ltac:(lia) ltac:(lia) ltac:(lia)) as (bc2 & E2 & Hs2).
  exists bc2. split; [|done].
  rewrite (for_loop_continue _ _ _ _ _ _ (page limit offset (seen ++ new), Z.of_nat (Nat.min (length (seen ++ new)) (limit + offset)), bc1)).
  - rewrite down_small by lia. replace (Z.of_nat (S k) - 1) with (Z.of_nat k) by lia. rewrite E2. subst all.
    cbn [confirmed]. rewrite Hb. fold new. by rewrite <-(assoc_L (++)).
  - cbn [fst snd]. rewrite (proj2 (Z.leb_le _ _)), (proj2 (Z.ltb_lt _ _)) by lia. done.
  - unfold history_turn. rewrite E. cbn [obind]. rewrite transactions_read_out.
    replace (Nat.min (length seen) (limit + offset)) with (length seen) by lia.
    by rewrite page_of_spec by lia.
Qed.

(** Pending transactions take the place of the oldest of a full page, but one of
    them only. *)
Lemma pending_page_spec address limit txs : (1 ≤ limit)%nat → ∀ hist, (length hist ≤ limit)%nat →
  pending_page address (Z.of_nat limit) txs hist =
  take limit (reverse (pending_entry <$> take (Nat.max 1 (limit - length hist)) (relevant address txs)) ++ hist).
Proof.
  intros Hlim. unfold relevant. induction txs as [|tx txs IH]; intros hist Hh.
  { cbn. rewrite take_nil. cbn. by rewrite take_ge. }
  cbn [pending_page]. rewrite filter_cons. destruct (involves address tx); [|rewrite decide_False by done; by apply IH].
  rewrite decide_True by done. rewrite Nat2Z.id. cbn [length]. destruct (Z.leb_spec (Z.of_nat limit) (Z.of_nat (S (length hist)))).
  - replace (Nat.max 1 (limit - length hist)) with 1%nat by lia. cbn [take]. by rewrite take_0.
  - rewrite IH by (cbn; lia). cbn [length]. replace (Nat.max 1 (limit - length hist)) with (S (Nat.max 1 (limit - S (length hist)))) by lia.
    rewrite firstn_cons, fmap_cons, reverse_cons. by rewrite <-(assoc_L (++)).
Qed.

(** The transactions of the chain that concern an address, newest block first. *)
Definition chain_history (address : string) (bc : Blockchain) : list Entry :=
  confirmed address (GetHeight bc) (Chain bc) (length (Chain bc) - 1).

Definition shown (address : string) (bc : Blockchain) (limit offset : Z) : list Entry :=
  page (Z.to_nat (capped 10 100 limit)) (Z.to_nat offset) (chain_history address bc).

Lemma history_answer fuel n address limit offset :
  let bc := Node.n_bc n in
  numbered (Chain bc) → Chain bc ≠ [] → Z.of_nat (length (Chain bc)) ≤ 2 ^ 64 → (length (Chain bc) ≤ fuel)%nat →
  Crypto.ValidateAddress address = true → 0 ≤ offset < 2 ^ 62 →
  ∃ bc', GetTransactionHistory ord fuel n (Some (address, limit, offset)) =
    Done (Some (Ok (if offset =? 0 then pending_page address (capped 10 100 limit) (pending n) (shown address bc limit offset)
      else shown address bc limit offset,
      Z.min (Z.of_nat (length (chain_history address bc))) (capped 10 100 limit + offset)), Node.set_bc n bc')) ∧ same_reads bc bc'.
Proof.
  intros bc Hn Hne Hu Hf Hv Ho. unfold GetTransactionHistory. rewrite Hv. cbn [negb].
  pose proof (capped_range 10 100 limit ltac:(lia)) as Hc. fold bc. unfold shown.
  set (lim := Z.to_nat (capped 10 100 limit)). set (off := Z.to_nat offset).
  replace (capped 10 100 limit) with (Z.of_nat lim) by lia. replace offset with (Z.of_nat off) by lia.
  assert (length (Chain bc) ≠ 0%nat) by (by destruct (Chain bc)).
  destruct (history_loop address lim off (GetHeight bc) bc Hn ltac:(lia) ltac:(lia) (length (Chain bc) - 1) fuel [] bc (same_reads_refl bc)
    ltac:(lia) ltac:(lia) ltac:(lia)) as (bc' & E & Hs).
  exists bc'. split; [|done]. rewrite (height_numbered bc Hn Hne) in E |- *.
  replace (Z.of_nat (length (Chain bc)) - 1) with (Z.of_nat (length (Chain bc) - 1)) in E |- * by lia.
  replace (page lim off ([] : list Entry)) with ([] : list Entry) in E by (unfold page; by rewrite drop_nil, take_nil).
  change (Z.of_nat (Nat.min (length []) (lim + off))) with 0 in E. rewrite E. cbn [obind app]. unfold chain_history.
  rewrite (height_numbered bc Hn Hne).
  replace (Z.of_nat (length (Chain bc)) - 1) with (Z.of_nat (length (Chain bc) - 1)) by lia.
  by rewrite Nat2Z.inj_min, Nat2Z.inj_add.
Qed.

(** A page of the history of an address: the request ends, and holds the
    transactions of the blocks from the offset up to the limit, newest block
    first; the number it calls total counts no further than the page. The first
    page starts with the pending transactions that there is room for, or one of
    them when the page was full. *)
Theorem GetTransactionHistory_spec (fuel : nat) (n : Node.t) (address : string) (limit offset : Z) :
  let bc := Node.n_bc n in let lim := Z.to_nat (capped 10 100 limit) in
  let entries := page lim (Z.to_nat offset) (chain_history address bc) in
  numbered (Chain bc) → Chain bc ≠ [] → Z.of_nat (length (Chain bc)) ≤ 2 ^ 64 → (length (Chain bc) ≤ fuel)%nat →
  Crypto.ValidateAddress address = true → 0 ≤ offset < 2 ^ 62 →
  ∃ bc', GetTransactionHistory ord fuel n (Some (address, limit, offset)) =
    Done (Some (Ok (if offset =? 0
      then take lim (reverse (pending_entry <$> take (Nat.max 1 (lim - length entries)) (relevant address (pending n))) ++ entries)
      else entries, Z.min (Z.of_nat (length (chain_history address bc))) (capped 10 100 limit + offset)), Node.set_bc n bc')) ∧
    same_reads bc bc'.
Proof.
  intros bc lim entries Hn Hne Hu Hf Hv Ho.
  destruct (history_answer fuel n address limit offset Hn Hne Hu Hf Hv Ho) as (bc' & E & Hs).
  exists bc'. split; [|done]. rewrite E. destruct (offset =? 0); [|done]. do 5 f_equal.
  pose proof (capped_range 10 100 limit ltac:(lia)). replace (capped 10 100 limit) with (Z.of_nat lim) by lia.
  apply pending_page_spec; [lia|]. unfold shown, entries. rewrite length_page. lia.
Qed.

(** Pages do not cover a history to which something is pending: when the first
    page is full, its oldest transaction is on no page. *)
Theorem history_pages_skip (fuel : nat) (n : Node.t) (address : string) (limit : Z) (tx : Transaction) (txs : list Transaction) :
  let bc := Node.n_bc n in let lim := Z.to_nat limit in let all := chain_history address bc in
  numbered (Chain bc) → Chain bc ≠ [] → Z.of_nat (length (Chain bc)) ≤ 2 ^ 64 → (length (Chain bc) ≤ fuel)%nat →
  Crypto.ValidateAddress address = true → 1 ≤ limit ≤ 100 → relevant address (pending n) = tx :: txs → (lim ≤ length all)%nat →
  ∃ n1 n2 total1 total2,
    GetTransactionHistory ord fuel n (Some (address, limit, 0)) =
      Done (Some (Ok (pending_entry tx :: take (lim - 1) all, total1), n1)) ∧
    GetTransactionHistory ord fuel n (Some (address, limit, limit)) = Done (Some (Ok (take lim (drop lim all), total2), n2)).
Proof.
  intros bc lim all Hn Hne Hu Hf Hv Hlim Hp Hfull.
  assert (capped 10 100 limit = limit) as Hc.
  { unfold capped. rewrite (proj2 (Z.leb_gt _ _)), (proj2 (Z.ltb_ge _ _)) by lia. done. }
  destruct (history_answer fuel n address limit 0 Hn Hne Hu Hf Hv ltac:(lia)) as (b1 & E1 & _).
  destruct (history_answer fuel n address limit limit Hn Hne Hu Hf Hv ltac:(lia)) as (b2 & E2 & _).
  unfold shown in E1, E2. rewrite Hc in E1, E2. fold bc lim all in E1, E2. rewrite (proj2 (Z.eqb_neq limit 0)) in E2 by lia.
  do 4 eexists. split; [|exact E2]. rewrite E1. cbn [Z.eqb]. do 5 f_equal.
  replace limit with (Z.of_nat lim) at 1 by lia. change (Z.to_nat 0) with 0%nat.
  rewrite pending_page_spec by (rewrite ?length_page; lia).
  rewrite length_page, Hp. replace (lim - lim `min` (length all - 0))%nat with 0%nat by lia.
  cbn [Nat.max]. rewrite firstn_cons, take_0, fmap_cons. cbn [fmap list_fmap]. change (reverse [pending_entry tx]) with [pending_entry tx].
  cbn [app]. unfold page. rewrite drop_0. destruct lim as [|l1] eqn:El; [lia|]. rewrite firstn_cons, take_take. do 3 f_equal. lia.
Qed.

(** *** Full histories *)
Lemma full_of_spec address most entry txs : ∀ hist hist' reached, full_of address most entry txs hist = (hist', reached) →
  if reached then most ≤ Z.of_nat (length hist')
  else hist' = hist ++ (entry <$> relevant address txs) ∧ (relevant address txs = [] ∨ Z.of_nat (length hist') < most).
Proof.
  unfold relevant. induction txs as [|tx txs IH]; intros hist hist' reached E; cbn [full_of] in E.
  { injection E as <- <-. cbn. rewrite app_nil_r. split; [done|by left]. }
  rewrite filter_cons. destruct (involves address tx).
  - rewrite decide_True by done. rewrite fmap_cons. destruct (Z.leb_spec most (Z.of_nat (length (hist ++ [entry tx])))).
    { injection E as <- <-. done. }
    specialize (IH _ _ _ E). destruct reached; [done|]. destruct IH as [-> Hl]. rewrite <-(assoc_L (++)). split; [done|right].
    destruct Hl as [->|Hl]; [|by rewrite <-(assoc_L (++)) in Hl]. done.
  - rewrite decide_False by done. by apply IH.
Qed.

Lemma full_of_small address most entry txs : ∀ hist, Z.of_nat (length hist + length (relevant address txs)) < most →
  full_of address most entry txs hist = (hist ++ (entry <$> relevant address txs), false).
Proof.
  unfold relevant. induction txs as [|tx txs IH]; intros hist Hl; cbn [full_of]; [cbn; by rewrite app_nil_r|].
  rewrite filter_cons in Hl |- *. destruct (involves address tx).
  - rewrite decide_True in Hl |- * by done. rewrite fmap_cons. cbn [length] in Hl.
    rewrite (proj2 (Z.leb_gt _ _)) by (rewrite length_app; cbn; lia).
    rewrite IH by (rewrite length_app; cbn; lia). by rewrite <-(assoc_L (++)).
  - rewrite decide_False in Hl |- * by done. by apply IH.
Qed.

Lemma full_loop address most height bc : numbered (Chain bc) →
  ∀ k fuel hist bc', same_reads bc bc' → (k < fuel)%nat → (k < length (Chain bc))%nat → Z.of_nat k < 2 ^ 64 →
  Z.of_nat (length (hist ++ confirmed address height (Chain bc) k)) < most →
  ∃ bc'', for_loop fuel (λ h _, 1 <=? h) down (full_turn ord address most height) (Z.of_nat k) (hist, bc') =
    Done (Some (hist ++ confirmed address height (Chain bc) k, bc'')) ∧ same_reads bc bc''.
Proof.
  intros Hn k. induction k as [|k IH]; intros fuel hist bc' Hs Hf Hk Hu Hm.
  { exists bc'. cbn [confirmed]. rewrite app_nil_r. split; [|done]. by apply for_loop_stop; [lia|]. }
  destruct fuel as [|fuel]; [lia|]. destruct (lookup_lt_is_Some_2 _ _ Hk) as [b Hb].
  destruct (look (ord (Z.of_nat (S k))) bc bc' (S k) b Hn Hs Hb) as (bc1 & E & Hs1). cbn [confirmed] in Hm |- *. rewrite Hb in Hm |- *.
  set (new := block_entry height (Z.of_nat (S k)) (read_out b) <$> _) in *. rewrite (assoc_L (++)) in Hm |- *.
  destruct (IH fuel (hist ++ new) bc1 Hs1 ltac:(lia) ltac:(lia) ltac:(lia) Hm) as (bc2 & E2 & Hs2).
  exists bc2. split; [|done]. rewrite (for_loop_continue _ _ _ _ _ _ (hist ++ new, bc1)).
  - rewrite down_small by lia. replace (Z.of_nat (S k) - 1) with (Z.of_nat k) by lia. exact E2.
  - apply Z.leb_le. lia.
  - unfold full_turn. rewrite E. cbn [obind]. rewrite transactions_read_out, full_of_small; [done|].
    rewrite !length_app in Hm. unfold new in Hm. rewrite length_fmap in Hm. lia.
Qed.

Lemma sort_entries_perm sortBy desc l : sort_entries sortBy desc l ≡ₚ l.
Proof. unfold sort_entries. repeat case_match; by rewrite ?stable_sort_perm. Qed.

Definition pending_history (address : string) (n : Node.t) : list Entry := pending_entry <$> relevant address (pending n).

(** As long as there are fewer results than the maximum, the full history ends and
    holds every transaction of the address, pending or in a block. *)
Theorem GetFullTransactionHistory_complete (fuel : nat) (n : Node.t) (address : string) (most : Z) (sortBy : string) (desc : bool) :
  let bc := Node.n_bc n in
  numbered (Chain bc) → Chain bc ≠ [] → Z.of_nat (length (Chain bc)) ≤ 2 ^ 64 → (length (Chain bc) ≤ fuel)%nat →
  Crypto.ValidateAddress address = true →
  Z.of_nat (length (pending_history address n ++ chain_history address bc)) < (if most <=? 0 then 1000000 else most) →
  ∃ bc' l, GetFullTransactionHistory ord fuel n (Some (address, most, sortBy, desc)) = Done (Some (Ok l, Node.set_bc n bc')) ∧
    l ≡ₚ pending_history address n ++ chain_history address bc ∧ same_reads bc bc'.
Proof.
  intros bc Hn Hne Hu Hf Hv Hm. assert (length (Chain bc) ≠ 0%nat) by (by destruct (Chain bc)). unfold chain_history in *.
  destruct (full_loop address _ (GetHeight bc) bc Hn (length (Chain bc) - 1) fuel (pending_history address n) bc (same_reads_refl bc)
    ltac:(lia) ltac:(lia) ltac:(lia) Hm) as (bc' & E & Hs).
  exists bc'. eexists. split_and!; [|apply sort_entries_perm|done]. unfold GetFullTransactionHistory. rewrite Hv. cbn [negb].
  fold bc. replace (Z.of_nat (length (Chain bc) - 1)) with (GetHeight bc) in E by (rewrite (height_numbered bc Hn Hne); lia).
  unfold pending_history, relevant in E. rewrite E. done.
Qed.

(** Once the maximum is reached the request does not end: the loop variable, set
    to 0 to stop, wraps around to the largest height. *)
Theorem GetFullTransactionHistory_endless (fuel : nat) (n : Node.t) (address : string) (most : Z) (sortBy : string) (desc : bool) :
  let bc := Node.n_bc n in
  numbered (Chain bc) → nothing_above ord bc → Chain bc ≠ [] → Z.of_nat (length (Chain bc)) ≤ 2 ^ 63 →
  Crypto.ValidateAddress address = true → chain_history address bc ≠ [] →
  (if most <=? 0 then 1000000 else most) ≤ Z.of_nat (length (pending_history address n ++ chain_history address bc)) →
  GetFullTransactionHistory ord fuel n (Some (address, most, sortBy, desc)) = Done None.
Proof.
  intros bc Hn Ha Hne Hu Hv Hc Hm. unfold GetFullTransactionHistory. rewrite Hv. cbn [negb]. fold bc.
  set (most' := if most <=? 0 then 1000000 else most) in *.
  assert (length (Chain bc) ≠ 0%nat) as Hlen by (by destruct (Chain bc)).
  set (rest h := confirmed address (GetHeight bc) (Chain bc) (Nat.min (Z.to_nat h) (length (Chain bc) - 1))).
  assert (∀ h, Z.of_nat (length (Chain bc)) ≤ h → rest h = chain_history address bc) as Habove.
  { intros h Hh. unfold rest, chain_history. f_equal. lia. }
  rewrite (for_loop_endless _ _ _ (λ h a, is_u64 h ∧ same_reads bc a.2 ∧ rest h ≠ [] ∧
    most' ≤ Z.of_nat (length a.1 + length (rest h)))); [done| |].
  2:{ split_and!; [rewrite (height_numbered bc Hn Hne); unfold is_u64; lia|apply same_reads_refl| |];
      assert (rest (GetHeight bc) = chain_history address bc) as ->
        by (unfold rest, chain_history; f_equal; rewrite (height_numbered bc Hn Hne); lia);
      [done|]. by rewrite <-length_app. }
  intros h [hist bc'] (Hh & Hs & Hr & Hl). unfold is_u64 in Hh. cbn [fst snd] in Hs, Hr, Hl.
  assert (1 ≤ h) as Hpos. { destruct (decide (h = 0)) as [->|]; [|lia]. exfalso. by apply Hr. }
  split; [by apply Z.leb_le|]. unfold full_turn. rewrite down_small by lia.
  destruct (decide (Z.of_nat (length (Chain bc)) ≤ h)) as [Hab|Hin].
  - rewrite (look_above ord bc bc' h Hn Ha Hs Hab). apply returns_Done. cbn [fst snd].
    destruct (decide (h = Z.of_nat (length (Chain bc)))) as [->|].
    + assert (rest (Z.of_nat (length (Chain bc)) - 1) = rest (Z.of_nat (length (Chain bc)))) as -> by (unfold rest; f_equal; lia).
      split_and!; [unfold is_u64; lia|done..].
    + rewrite (Habove h) in * by lia. rewrite Habove by lia. split_and!; [unfold is_u64; lia|done..].
  - destruct (lookup_lt_is_Some_2 (Chain bc) (Z.to_nat h) ltac:(lia)) as [b Hb].
    destruct (look (ord h) bc bc' (Z.to_nat h) b Hn Hs Hb) as (bc1 & E & Hs1). rewrite Z2Nat.id in E by lia.
    rewrite E. cbn [obind]. rewrite transactions_read_out.
    destruct (full_of _ _ _ _ hist) as [hist' reached] eqn:Ef. apply full_of_spec in Ef. apply returns_Done.
    destruct reached; cbn [fst snd]; cbv iota in Ef.
    + assert (down 0 = 2 ^ 64 - 1) as -> by done. rewrite Habove by lia. split_and!; [unfold is_u64; lia|done..|lia].
    + destruct Ef as [-> Hrel].
      assert (rest h = (block_entry (GetHeight bc) h (read_out b) <$> relevant address (Trie.GetAllTransactions (ord h) (block_Transactions b)))
        ++ rest (h - 1)) as Hrest.
      { unfold rest. replace (Nat.min (Z.to_nat h) (length (Chain bc) - 1)) with (S (Nat.min (Z.to_nat (h - 1)) (length (Chain bc) - 1))) by lia.
        cbn [confirmed]. replace (S (Nat.min (Z.to_nat (h - 1)) (length (Chain bc) - 1))) with (Z.to_nat h) by lia. by rewrite Hb, Z2Nat.id by lia. }
      rewrite Hrest in Hr, Hl. rewrite !length_app in *. rewrite !length_fmap in *. split_and!; [unfold is_u64; lia|done| |lia].
      intros Hz. rewrite Hz in Hl, Hr. destruct Hrel as [Hrel|Hrel]; [|change (length []) with 0%nat in Hl; lia]. rewrite Hrel in Hr. done.
Qed.
End histories.

(** ** Sending *)
Section sending.
Context `{KV} `{ECDSA} `{GoImpl}.

(** Every output of the pool is stored under its own key. *)
Definition keys_match (m : utxo_set) : Prop := ∀ k u, m !! k = Some u → k = utxo_key (utxo_TransactionID u) (utxo_OutputIndex u).

Lemma selected_value m sel : keys_match m → Forall (λ u, ∃ k, m !! k = Some u) sel →
  input_value m (input_of <$> sel) = amount_total sel.
Proof.
  intros Hk Hf. unfold input_value, amount_total, f64_sum. generalize f64_zero.
  induction Hf as [|u sel [k Hu] _ IH]; intros x; [done|]. rewrite !fmap_cons. cbn [foldl].
  change (input_key (input_of u)) with (utxo_key (utxo_TransactionID u) (utxo_OutputIndex u)).
  rewrite <-(Hk k u Hu), Hu. apply IH.
Qed.

(** A transaction sent with an identifier returns its change twice: the selection
    of the inputs adds it as an output, and the interface adds it again. *)
Theorem with_id_change_twice (ro : range_order) (now : Z) (n : Node.t) (p : UTXOPool) (a : TxArgs) (pk : bytes) (tx : Transaction) :
  fair ro → pool_of n = Some p → mu p = Unlocked → keys_match (utxos p) → with_id ro now n a pk = Done (Ok tx) →
  let fee := ConvertGasToTokens (u64 (ta_gasPrice a * ta_gasLimit a)) in
  ∃ sel, Inputs tx = input_of <$> sel ∧
    Forall (λ u, utxo_Owner u = ta_from a ∧ utxo_Spent u = false ∧ ∃ k, utxos p !! k = Some u) sel ∧
    Outputs tx = change_output (ta_from a) (f64_sub (amount_total sel) (f64_add (ta_amount a) fee)) ++
      [mkTransactionOutput (ta_to a) (ta_amount a) ""] ++
      change_output (ta_from a) (f64_sub (f64_sub (amount_total sel) (ta_amount a)) fee).
Proof.
  intros Hro Hp Hm Hk E fee. unfold with_id in E. rewrite Hp in E. apply obind_Done_inv in E as ([tx1 e] & Es & E).
  destruct e; [done|]. apply SelectUTXOs_inv in Es as (sel & Hf & _ & _ & ->).
  cbn [Sender Amount GasFee Inputs Outputs app Tx.set_io] in E, Hf.
  assert (Node.with_pool n Node.GetUTXOs = Done (utxos p)) as Eu.
  { unfold Node.with_pool. unfold pool_of in Hp. rewrite Hp. unfold Node.GetUTXOs, Pool.rlocked. by rewrite Hm. }
  rewrite Eu in E. cbn [obind] in E.
  assert (Forall (λ u, utxo_Owner u = ta_from a ∧ utxo_Spent u = false ∧ ∃ k, utxos p !! k = Some u) sel) as Hsel.
  { eapply Forall_impl; [exact Hf|]. intros u [[Ho Hu]%list_elem_of_filter Hs]. split_and!; [done..|].
    apply list_elem_of_fmap in Hu as ([k u'] & -> & Hu). rewrite (range_perm ro _ Hro), elem_of_map_to_list in Hu. by exists k. }
  rewrite selected_value in E; [|done|eapply Forall_impl; [exact Hsel|]; by intros u (_ & _ & ?)]. fold fee in E.
  exists sel. split_and!; [..|exact Hsel|].
  - injection E as <-. by destruct (f64_gt _ f64_zero).
  - injection E as <-. destruct (f64_gt (f64_sub (f64_sub _ _) _) f64_zero) eqn:Hg; cbn [Outputs Tx.set_TransactionID Tx.set_io];
      unfold change_output at 3; rewrite Hg; by rewrite <-?(assoc_L (++)).
Qed.

(** A broadcast without an error reached every target that could be reached. *)
Lemma BroadcastTransaction_reached net got :
  Node.BroadcastTransaction (net_encoded net) (net_self net) (net_boot net) (net_reached net) (net_peers net) [] = (got, None) →
  let targets := filter (λ p, p ≠ net_self net ∧ IsPeerTXNSNode p = false ∧ net_boot net p = false) (net_peers net) in
  got = filter (λ p, net_reached net p = true) targets ∧ (targets = [] ∨ got ≠ []).
Proof.
  intros E targets. unfold Node.BroadcastTransaction in E. destruct (net_encoded net); [done|].
  assert (filter (λ p, p ≠ net_self net ∧ (p ∉ []) ∧ IsPeerTXNSNode p = false ∧ net_boot net p = false) (net_peers net) = targets) as Ht.
  { unfold targets. apply list_filter_iff. intros p. split; [by intros (? & _ & ?)|]. intros (? & ?). split_and!; [done|apply not_elem_of_nil|by intuition..]. }
  rewrite Ht in E. destruct (filter (λ p, net_reached net p = true) targets) as [|g got'] eqn:Eg; [destruct targets; [|done]|];
    injection E as <-; auto.
Qed.

(** What a transaction is about, which the choice of inputs and the signature leave
    alone. *)
Definition terms (tx : Transaction) : Z * string * string * float64 := (TxType tx, Sender tx, Receiver tx, Amount tx).

Lemma SelectUTXOs_terms ro tx p tx' e : SelectUTXOs ro tx p = Done (tx', e) → terms tx' = terms tx.
Proof.
  assert (∀ sel tx0, terms (foldl (λ tx u, Tx.AddInput tx (utxo_TransactionID u) (utxo_OutputIndex u) "") tx0 sel) = terms tx0) as Hin.
  { induction sel as [|u sel IH]; intros tx0; [done|]. cbn [foldl]. by rewrite IH. }
  unfold SelectUTXOs. destruct p as [p|]; [|by intros [= <- _]]. intros E. apply obind_Done_inv in E as (us & _ & E).
  destruct (_ =? 0)%nat; [by injection E as <- _|]. destruct (select_loop _ _ _ _) as [sel total].
  destruct (f64_lt total _); [by injection E as <- _|]. injection E as <- _. rewrite <-(Hin sel tx).
  destruct (f64_gt _ f64_zero); [|done]. unfold Tx.AddChangeOutput. by destruct (f64_gt _ f64_zero).
Qed.

Lemma with_id_terms ro now n a pk tx : with_id ro now n a pk = Done (Ok tx) → terms tx = (TX_REGULAR, ta_from a, ta_to a, ta_amount a).
Proof.
  unfold with_id. intros E. apply obind_Done_inv in E as ([tx1 e] & Es%SelectUTXOs_terms & E). destruct e; [done|].
  apply obind_Done_inv in E as (us & _ & E). injection E as <-. by destruct (f64_gt _ f64_zero).
Qed.

Lemma NewTransaction_terms now sender receiver amount gasPrice gasLimit tx :
  Tx.NewTransaction now sender receiver amount gasPrice gasLimit = Ok tx → terms tx = (TX_REGULAR, sender, receiver, amount).
Proof.
  unfold Tx.NewTransaction. destruct (_ <? _); [done|]. cbv zeta. destruct (f64_gt _ _); [done|].
  destruct (Tx.ValidateGas _); [done|]. by intros [= <-].
Qed.

Lemma standard_terms ro now n a tx : standard ro now n a = Done (Ok tx) → terms tx = (TX_REGULAR, ta_from a, ta_to a, ta_amount a).
Proof.
  unfold standard. destruct (Tx.NewTransaction _ _ _ _ _ _) as [tx0|] eqn:En; [|done]. apply NewTransaction_terms in En.
  cbv zeta. destruct (ta_timestamp a >? 0), (ta_nonce a >? 0), (_ =? 0)%nat; intros E;
    (apply obind_Done_inv in E as ([tx1 e] & Es%SelectUTXOs_terms & E); destruct e; [done|]; injection E as <-; by rewrite Es)
    || (by injection E as <-).
Qed.

(** A transaction that is put together from the arguments is a payment of theirs that
    the sender has signed. *)
Lemma assemble_signed ro now tbl n a tx : assemble ro now tbl n a = Done (Ok tx) →
  terms tx = (TX_REGULAR, ta_from a, ta_to a, ta_amount a) ∧ signed_by_sender tbl tx.
Proof.
  unfold assemble. destruct (negb (Crypto.ValidateAddress (ta_from a))); [done|].
  destruct (negb (Crypto.ValidateAddress (ta_to a))); [done|]. destruct (str_eqb (ta_signature a) ""); [done|].
  destruct (str_eqb (ta_publicKey a) ""); [done|]. destruct (hex_decode (ta_publicKey a)) as [pk|]; [|done].
  intros E. apply obind_Done_inv in E as (r & Er & E). destruct r as [tx0|]; [|done].
  assert (terms tx0 = (TX_REGULAR, ta_from a, ta_to a, ta_amount a)) as Ht.
  { destruct (negb _) in Er; [by eapply with_id_terms|by eapply standard_terms]. }
  destruct (hex_decode (ta_signature a)); [|done]. apply obind_Done_inv in E as (ok & Ev & E). destruct ok; [|done]. injection E as <-.
  match goal with |- terms ?u = _ ∧ _ => assert (terms u = terms tx0) as Hu end.
  { by destruct (Priority tx0 =? 0); cbn [TransactionID set_priority]; destruct (str_eqb (TransactionID tx0) ""). }
  match type of Hu with terms ?u = _ => revert Ev Hu; generalize u end. intros u Ev Hu.
  rewrite Hu. split; [done|]. apply VerifySignature_signed in Ev as [Hs|]; [|done]. rewrite Ht in Hu.
  unfold terms in Hu. injection Hu as Hu _ _ _. unfold Tx.is_system, Tx.IsCoinbase, Tx.IsValidatorReward in Hs. by rewrite Hu in Hs.
Qed.

(** C38 A transaction that is reported as sent went to every peer that could be
    reached, at least one unless the node has no peer to send to. If the request gave
    the arguments of a payment, it is a regular transaction with the sender, the
    receiver and the amount of the request, and it carries a signature of its hash
    under the sender's key. If the request gave a whole transaction, it carries such a
    signature or declares itself a coinbase or a validator's reward, which are sent
    unsigned. The node itself is unchanged: it does not put the transaction into its
    mempool, although the answer says so. *)
Theorem SendTransaction_sound (ro : range_order) (now : Z) (tbl : key_table) (parse : bytes → option Transaction) (net : network)
    (s s' : t) (a : TxArgs) (r : response) (got : list string) :
  SendTransaction ro now tbl parse net s (Some a) = Done (Ok r, got, s') →
  let targets := filter (λ p, p ≠ net_self net ∧ IsPeerTXNSNode p = false ∧ net_boot net p = false) (net_peers net) in
  (if str_eqb (ta_rawTransaction a) ""
   then terms (rs_transaction r) = (TX_REGULAR, ta_from a, ta_to a, ta_amount a) ∧ signed_by_sender tbl (rs_transaction r)
   else Tx.is_system (rs_transaction r) = true ∨ signed_by_sender tbl (rs_transaction r)) ∧
  got = filter (λ p, net_reached net p = true) targets ∧
  (targets = [] ∨ got ≠ []) ∧ api_node s' = api_node s ∧ rs_inMempool r = true.
Proof.
  intros E targets. unfold SendTransaction in E. apply obind_Done_inv in E as (r1 & Er & E). destruct r1 as [tx|]; [|done].
  assert (if str_eqb (ta_rawTransaction a) "" then terms tx = (TX_REGULAR, ta_from a, ta_to a, ta_amount a) ∧ signed_by_sender tbl tx
          else Tx.is_system tx = true ∨ signed_by_sender tbl tx) as Hv.
  { destruct (str_eqb (ta_rawTransaction a) ""); cbn [negb] in Er; [by eapply assemble_signed|].
    destruct (hex_decode _); [|done]. destruct (parse _) as [tx'|]; [|done].
    apply obind_Done_inv in Er as (ok & Ev & Er). destruct ok; [|done]. injection Er as ->. by apply VerifySignature_signed. }
  unfold submit in E. destruct (Node.BroadcastTransaction _ _ _ _ _ _) as [got' e] eqn:Eb. destruct e; [done|].
  apply BroadcastTransaction_reached in Eb as [Hg Ht]. injection E as <- <- <-. split_and!; [done..| |done].
  by destruct (str_eqb (ta_callbackUrl a) "").
Qed.

(** Sending with a mnemonic ends in a panic, after the transaction was broadcast,
    whenever the inputs leave no change. *)
Theorem no_change_panics (ro : range_order) (now : Z) (nonce : result Z) (wordlist : result (list string)) (net : network)
    (s s' : t) (a : TxArgs) (mnemonic : string) (tx : Transaction) (got : list string) (o : TransactionOutput) :
  assemble_with_key ro now nonce wordlist (api_node s) a mnemonic = Done (Ok tx) → Outputs tx = [o] →
  submit net s (ta_callbackUrl a) tx = (None, got, s') →
  SendTransactionWithKey ro now nonce wordlist net s (Some (a, mnemonic)) = Panic "index out of range".
Proof. intros E Ho Hs. unfold SendTransactionWithKey. rewrite E. cbn [obind]. by rewrite Hs, Ho. Qed.

(** The estimate for two valid addresses is the fee of the transaction that is
    then created with the default gas limit. *)
Theorem EstimateFee_matches (model : bool) (now : Z) (from to : string) (amount : float64) (gasPrice : Z) (tx : Transaction) :
  Crypto.ValidateAddress from = true → Crypto.ValidateAddress to = true → f64_le amount f64_zero = false → is_u64 gasPrice →
  Tx.NewTransaction now from to amount gasPrice 0 = Ok tx →
  EstimateFee model (Some (from, to, amount, gasPrice)) = Ok (GasLimit tx, GasPrice tx, GasFee tx).
Proof.
  intros Hf Ht Ha Hg E.
  assert (∀ a, Crypto.ValidateAddress a = true → str_eqb a "" = false ∧ (40 <? String.length a)%nat = false) as Hlen.
  { intros x Hx. unfold Crypto.ValidateAddress in Hx.
    destruct (Nat.ltb_spec (String.length x) 30); [done|]. destruct (Nat.ltb_spec 36 (String.length x)); [done|].
    split; [|apply Nat.ltb_ge; lia]. apply str_eqb_neq. intros ->. cbn in *. lia. }
  destruct (Hlen _ Hf) as [Ef Lf], (Hlen _ Ht) as [Et Lt]. unfold EstimateFee. rewrite Ef, Et, Ha, Lf, Lt. cbn [orb]. rewrite andb_false_r.
  unfold Tx.NewTransaction in E. destruct (Z.ltb_spec gasPrice MinGasPrice) as [|Hmin]; [done|].
  rewrite (proj2 (Z.eqb_neq gasPrice 0)) by (unfold MinGasPrice in Hmin; lia).
  destruct (f64_gt _ MaxTotalFee); [done|]. destruct (Tx.ValidateGas _); [done|]. by injection E as <-.
Qed.
End sending.

(** ** Lookups of transactions *)
Section searching.
Context `{KV} `{ECDSA} `{GoImpl} (ord : Z → child_order).

(** What [hit] finds in the first of the blocks. *)
Definition first_hit {A} (hit : Block → option A) (l : list Block) : option (A * Block) :=
  head (omap (λ b, a ← hit (read_out b); Some (a, read_out b)) l).

Lemma find_up_from {A} (hit : Block → option A) bc : numbered (Chain bc) → Z.of_nat (length (Chain bc)) < 2 ^ 64 →
  ∀ n fuel i bc', same_reads bc bc' → (n < fuel)%nat → (i + n = length (Chain bc))%nat →
  ∃ bc'', for_loop fuel (λ h _, h <=? Z.of_nat (length (Chain bc)) - 1) up
      (λ h acc,
        let! (r, bc) := ChainStore.GetBlockByHeight (ord h) acc.2 h in
        Done (match (b ← r; a ← hit b; Some (a, b)) with
              | Some found => Break (Some found, bc)
              | None => Continue (None, bc)
              end)) (Z.of_nat i) (None, bc') =
    Done (Some (first_hit hit (drop i (Chain bc)), bc'')) ∧ same_reads bc bc''.
Proof.
  intros Hn Hlen n. induction n as [|n IH]; intros fuel i bc' Hs Hf Hi.
  { exists bc'. split; [|done]. rewrite drop_ge by lia. apply for_loop_stop; [lia|]. apply Z.leb_gt. lia. }
  destruct fuel as [|fuel]; [lia|]. destruct (lookup_lt_is_Some_2 (Chain bc) i ltac:(lia)) as [b Hb].
  destruct (look (ord (Z.of_nat i)) bc bc' i b Hn Hs Hb) as (bc1 & E & Hs1). rewrite (drop_S _ _ _ Hb). unfold first_hit. cbn [omap list_omap].
  destruct (hit (read_out b)) as [a|] eqn:Eh.
  - exists bc1. split; [|done]. cbn [for_loop]. rewrite (proj2 (Z.leb_le _ _)) by lia. cbn [snd]. rewrite E. cbn [obind mbind option_bind]. by rewrite Eh.
  - destruct (IH fuel (S i) bc1 Hs1 ltac:(lia) ltac:(lia)) as (bc2 & E2 & Hs2). exists bc2. split; [|done].
    rewrite (for_loop_continue _ _ _ _ _ _ (None, bc1)); [|apply Z.leb_le; lia|cbn [snd]; rewrite E; cbn [obind mbind option_bind]; by rewrite Eh].
    rewrite up_small by lia. replace (Z.of_nat i + 1) with (Z.of_nat (S i)) by lia. exact E2.
Qed.

(** A chain that lookups can scan: not empty, numbered, and shorter than the
    range of heights and than the fuel. *)
Definition scannable (fuel : nat) (bc : Blockchain) : Prop :=
  numbered (Chain bc) ∧ Chain bc ≠ [] ∧ Z.of_nat (length (Chain bc)) < 2 ^ 64 ∧ (length (Chain bc) ≤ fuel)%nat.

Lemma find_up_spec {A} fuel (hit : Block → option A) bc : scannable fuel bc →
  ∃ bc', find_up ord fuel hit bc = Done (Some (first_hit hit (drop 1 (Chain bc)), bc')) ∧ same_reads bc bc'.
Proof.
  intros (Hn & Hne & Hu & Hf). unfold find_up. rewrite (height_numbered bc Hn Hne).
  assert (length (Chain bc) ≠ 0%nat) by (by destruct (Chain bc)).
  destruct (find_up_from hit bc Hn Hu (length (Chain bc) - 1) fuel 1 bc (same_reads_refl bc) ltac:(lia) ltac:(lia)) as (bc' & E & Hs).
  exists bc'. split; [exact E|done].
Qed.

(** Where a transaction is: in the first block above the genesis block that holds
    it, else in the mempool, else nowhere. *)
Definition location (n : Node.t) (txid : string) : result located :=
  match first_hit (search txid) (drop 1 (Chain (Node.n_bc n))) with
  | Some (tx, b) => Ok (in_block (GetHeight (Node.n_bc n)) tx b)
  | None =>
      match find (λ tx, str_eqb (TransactionID tx) txid) (pending n) with
      | Some tx => Ok (InMempool tx)
      | None => Err "transaction not found"
      end
  end.

(** The lookup of a transaction ends with its location. *)
Theorem GetTransaction_spec (fuel : nat) (n : Node.t) (txid : string) : scannable fuel (Node.n_bc n) →
  ∃ bc', GetTransaction ord fuel n (Some txid) = Done (Some (location n txid, Node.set_bc n bc')) ∧ same_reads (Node.n_bc n) bc'.
Proof.
  intros Hs. destruct (find_up_spec fuel (search txid) (Node.n_bc n) Hs) as (bc' & E & Hr). exists bc'. split; [|done].
  unfold GetTransaction, location. rewrite E. cbn [obind]. by destruct (first_hit _ _) as [[tx b]|].
Qed.

(** ** Watching *)
Definition seen_at (views : nat → Node.t) (txID : string) (k : nat) : option (Transaction * Block) :=
  first_hit (search txID) (drop 1 (Chain (Node.n_bc (views k)))).
Definition held_at (views : nat → Node.t) (txID : string) (k : nat) : bool :=
  existsb (λ tx, str_eqb (TransactionID tx) txID) (pending (views k)).

(** The watch goes on after the attempt [k]. *)
Definition goes_on (views : nat → Node.t) (txID : string) (k : nat) : Prop :=
  seen_at views txID k = None ∧ (held_at views txID k = true ∨ (k ≤ 30)%nat).

Definition ends_with (views : nat → Node.t) (txID : string) (k : nat) (v : verdict) : Prop :=
  match v with
  | Confirmed l => (k < maxAttempts)%nat ∧ ∃ tx b, seen_at views txID k = Some (tx, b) ∧ l = in_block (GetHeight (Node.n_bc (views k))) tx b
  | Failed => (30 < k < maxAttempts)%nat ∧ seen_at views txID k = None ∧ held_at views txID k = false
  | Unknown => k = maxAttempts
  end.

Lemma watch_spec fuel views txID : (∀ k, scannable fuel (Node.n_bc (views k))) → ∀ remaining k, (k + remaining = maxAttempts)%nat →
  ∃ v e, watch ord fuel views txID remaining k = Done (Some v) ∧ ends_with views txID e v ∧ (k ≤ e)%nat ∧
    ∀ j, (k ≤ j < e)%nat → goes_on views txID j.
Proof.
  intros Hv remaining. induction remaining as [|remaining IH]; intros k Hk.
  { exists Unknown, k. split_and!; [done|cbn; lia|lia|]. intros j Hj. lia. }
  cbn [watch]. destruct (find_up_spec fuel (search txID) (Node.n_bc (views k)) (Hv k)) as (bc' & E & _). rewrite E. cbn [obind].
  destruct (first_hit _ _) as [[tx b]|] eqn:Eh.
  { eexists _, k. split_and!; [done| |lia|intros j Hj; lia]. cbn [ends_with]. split; [lia|]. by exists tx, b. }
  fold (held_at views txID k). destruct (negb (held_at views txID k) && (30 <? k)%nat) eqn:Eg.
  - apply andb_true_iff in Eg as [Eg Hlt]. apply negb_true_iff in Eg. apply Nat.ltb_lt in Hlt.
    exists Failed, k. split_and!; [done| |lia|intros j Hj; lia]. cbn [ends_with]. split_and!; [lia..|done|done].
  - destruct (IH (S k) ltac:(lia)) as (v & e & Ev & He & Hle & Hgo). exists v, e. split_and!; [done|done|lia|].
    intros j Hj. destruct (decide (j = k)) as [->|]; [|apply Hgo; lia]. split; [done|].
    apply andb_false_iff in Eg as [Eg|Eg]; [left; by apply negb_false_iff in Eg|right; by apply Nat.ltb_ge in Eg].
Qed.

(** C40 The watch over a transaction ends, calls its callback once and forgets it. It
    reports the transaction as confirmed at the first attempt that finds it in a
    block, as failed at the first attempt after the thirty-first that finds it
    neither in a block nor in the node's mempool, and as unknown if there is no
    such attempt among 180. *)
Theorem monitorTransaction_spec (fuel : nat) (views : nat → Node.t) (s : t) (txID callbackURL : string) :
  (∀ k, scannable fuel (Node.n_bc (views k))) → pendingTxCallbacks s !! txID = Some callbackURL →
  ∃ v e, monitorTransaction ord fuel views s txID =
      Done (Some (Some (callbackURL, v), mk (api_node s) (delete txID (pendingTxCallbacks s)))) ∧
    ends_with views txID e v ∧ ∀ j, (j < e)%nat → goes_on views txID j.
Proof.
  intros Hv Hc. destruct (watch_spec fuel views txID Hv maxAttempts 0 eq_refl) as (v & e & E & He & _ & Hgo). exists v, e.
  unfold monitorTransaction. rewrite Hc, E. split_and!; [done|done|]. intros j Hj. apply Hgo. lia.
Qed.

(** ** Searches by address *)

(** A search for an address without transactions, on a chain of at most 5000
    blocks, does not end: the height wraps around below 0. *)
Theorem SearchByAddress_endless (fuel : nat) (now : Z) (n : Node.t) (address : string) (limit offset : Z) (sortBy : string) (desc : bool) :
  let bc := Node.n_bc n in
  numbered (Chain bc) → nothing_above ord bc → Chain bc ≠ [] → Z.of_nat (length (Chain bc)) ≤ 5001 →
  Crypto.ValidateAddress address = true → 0 ≤ offset < 2 ^ 62 →
  (∀ i b, Chain bc !! i = Some b → relevant address (Trie.GetAllTransactions (ord (Z.of_nat i)) (block_Transactions b)) = []) →
  SearchByAddress ord fuel now n (Some (mkSearchArgs address limit offset sortBy desc)) = Done None.
Proof.
  intros bc Hn Ha Hne Hlen Hv Ho Hnone. unfold SearchByAddress. rewrite Hv. cbn [negb].
  assert (str_eqb address "" = false) as -> by (apply str_eqb_neq; intros ->; discriminate Hv). fold bc.
  unfold GetLatestBlock. destruct (last (Chain bc)) as [tip|] eqn:Et; [|by apply last_None in Et]. cbn [obind].
  assert (BlockNumber (Header tip) = Z.of_nat (length (Chain bc)) - 1) as Htop.
  { rewrite <-(height_numbered bc Hn Hne). unfold GetHeight. by rewrite Et. }
  assert (length (Chain bc) ≠ 0%nat) by (by destruct (Chain bc)).
  rewrite Htop. rewrite (proj2 (Z.ltb_ge _ _)) by lia.
  pose proof (capped_range 10 100 limit ltac:(lia)) as Hc. rewrite i64_small by (unfold is_i64; lia).
  rewrite (for_loop_endless _ _ _ (λ h a, is_u64 h ∧ same_reads bc a.2 ∧ a.1 = [])); [done| |].
  2:{ split_and!; [unfold is_u64; lia|apply same_reads_refl|done]. }
  intros h [found bc'] (Hh & Hs & Hf). cbn [fst snd] in Hs, Hf. subst found. unfold is_u64 in Hh. split; [apply Z.leb_le; lia|].
  unfold search_turn. destruct (decide (Z.of_nat (length (Chain bc)) ≤ h)).
  - rewrite (look_above ord bc bc' h) by done. apply returns_Done. split_and!; [apply u64_range|done..].
  - destruct (lookup_lt_is_Some_2 (Chain bc) (Z.to_nat h) ltac:(lia)) as [b Hb].
    destruct (look (ord h) bc bc' (Z.to_nat h) b Hn Hs Hb) as (bc1 & E & Hs1). rewrite Z2Nat.id in E by lia. rewrite E. cbn [obind].
    rewrite transactions_read_out. specialize (Hnone _ _ Hb). rewrite Z2Nat.id in Hnone by lia.
    unfold block_matches. unfold relevant in Hnone. rewrite Hnone. cbn [fmap list_fmap app length].
    rewrite (proj2 (Z.leb_gt _ _)) by lia. apply returns_Done. split_and!; [apply u64_range|done..].
Qed.

(** ** Fees *)

(** The fees shown for single blocks are zero, whatever the transactions paid. *)
Theorem block_fees_zero (height : Z) (b : Block) (txs : list Transaction) : txs ≠ [] → Z.of_nat (length txs) < 2 ^ 53 →
  bf_totalFees (block_fees height b txs) = f64_zero ∧ bf_averageFee (block_fees height b txs) = f64_zero.
Proof.
  intros Hne Hl. split; [done|]. cbn [bf_averageFee block_fees].
  destruct (f64_of_Z_pos (Z.of_nat (length txs))) as (M & E & -> & _); [destruct txs; [done|cbn in *; lia]|]. done.
Qed.
End searching.

(** ** A concrete node

    Two blocks, of which the second holds a payment, and an interface that watches
    that payment. *)
Definition paid_block : Block :=
  mkBlock (Header (child plain_block "c" 2)) (Trie.Insert Trie.NewPatriciaTrie (payment "p3" 1 3 [spend_c1])) [] "c" 0 1 2 "c".
Definition demo_node : @Node.t mem_kv := Node.NewNode (start plain_block [paid_block]) None None false "net".
Definition same_child : Z → child_order := λ _ l, l.
Definition watching : @TransactionAPI.t mem_kv := mk demo_node {[ "p3" := "http://callback" ]}.

Lemma demo_scannable : scannable 2 (Node.n_bc demo_node).
Proof.
  split_and!; [|done|vm_compute; reflexivity|apply Nat.leb_le; reflexivity].
  intros [|[|i]] b Hb; [injection Hb as <-; reflexivity|injection Hb as <-; reflexivity|done].
Qed.

Lemma GetTransactionHistory_spec_witness :
  length (chain_history same_child payer (Node.n_bc demo_node)) = 1%nat ∧
  ∃ r, GetTransactionHistory same_child 2 demo_node (Some (payer, 5, 0)) = Done (Some r).
Proof.
  split; [vm_compute; reflexivity|]. destruct demo_scannable as (Hn & Hne & _).
  destruct (GetTransactionHistory_spec same_child 2 demo_node payer 5 0 Hn Hne ltac:(vm_compute; discriminate) ltac:(apply Nat.leb_le; reflexivity)
    ltac:(vm_compute; reflexivity) ltac:(lia)) as (bc' & E & _).
  eexists. exact E.
Defined.

Lemma monitorTransaction_spec_witness :
  ∃ v e, monitorTransaction same_child 2 (λ _, demo_node) watching "p3" =
      Done (Some (Some ("http://callback", v), mk demo_node (delete "p3" (pendingTxCallbacks watching)))) ∧
    ends_with (λ _, demo_node) "p3" e v.
Proof.
  destruct (monitorTransaction_spec same_child 2 (λ _, demo_node) watching "p3" "http://callback" (λ _, demo_scannable)
    ltac:(vm_compute; reflexivity)) as (v & e & E & He & _).
  exists v, e. split; [exact E|exact He].
Defined.

Definition one_peer : network := mkNetwork None "me" (λ _, false) (λ _, true) ["peer"].
Definition raw_args : TxArgs := mkTxArgs "" "" f64_zero 0 0 "" "" "00" "" 0 0 "".
Definition raw_parse (b : bytes) : option Transaction := Some (payment "p3" 1 3 [spend_c1]).

Lemma SendTransaction_sound_witness :
  ∃ r s', SendTransaction no_order 0 ∅ raw_parse one_peer watching (Some raw_args) = Done (Ok r, ["peer"], s') ∧
    signed_by_sender ∅ (rs_transaction r).
Proof.
  assert (match SendTransaction no_order 0 ∅ raw_parse one_peer watching (Some raw_args) with
          | Done (Ok r, ["peer"], _) => negb (Tx.is_system (rs_transaction r)) | _ => false end = true) as H by (vm_compute; reflexivity).
  destruct (SendTransaction no_order 0 ∅ raw_parse one_peer watching (Some raw_args)) as [[[r got] s']| |] eqn:E; [|discriminate..].
  destruct r as [r|]; [|discriminate]. exists r, s'.
  destruct (SendTransaction_sound no_order 0 ∅ raw_parse one_peer watching s' raw_args r got E) as (Hv & Hg & _).
  assert (got = ["peer"]) as Hp by (rewrite Hg; reflexivity). subst got. cbn [raw_args ta_rawTransaction str_eqb] in Hv. split; [reflexivity|].
  destruct Hv as [Hv|Hv]; [|exact Hv]. rewrite Hv in H. discriminate H.
Defined.

(** Anyone can have a node send out tokens made from nothing: a whole transaction that
    calls itself a coinbase is broadcast and reported as sent with neither a signature
    nor an input. *)
Definition minted : Transaction :=
  mkTransaction "m1" "mallory" "mallory" (f64_of_Z 1000) 100 0 f64_zero [] [mkTransactionOutput "mallory" (f64_of_Z 1000) ""]
    TX_COINBASE 0 0 0 0 0 [] "" [].

Theorem unsigned_coinbase_sent :
  match SendTransaction no_order 0 ∅ (λ _, Some minted) one_peer watching (Some raw_args) with
  | Done (Ok r, ["peer"], _) => rs_transaction r = minted
  | _ => False
  end.
Proof. vm_compute. reflexivity. Qed.

(** Alice has outputs of 9 and 5 and pays 10 without a fee: the transaction
    creates 4, 10 and 4 again, 18 out of 14. *)
Definition alice_node : @Node.t mem_kv :=
  Node.NewNode (mkBlockchain [] "" (Some demo_pool) (mkWorld None None) "" ∅) None None false "net".

Example with_id_creates_value :
  match with_id no_order 0 alice_node (mkTxArgs "alice" "bob" (f64_of_Z 10) 0 0 "" "" "" "" 0 0 "id") [] with
  | Done (Ok tx) => Outputs tx = [mkTransactionOutput "alice" (f64_of_Z 4) ""; mkTransactionOutput "bob" (f64_of_Z 10) "";
                                  mkTransactionOutput "alice" (f64_of_Z 4) ""] ∧
                    input_value (utxos demo_pool) (Inputs tx) = f64_of_Z 14
  | _ => False
  end.
Proof. vm_compute. split; reflexivity. Qed.

Definition rich_chain : @Blockchain mem_kv := mkBlockchain [] "" (Some demo_pool) (mkWorld None None) "" ∅.

Lemma GetRichList_spec_witness :
  ∃ l, BlockchainAPI.GetRichList reverse no_order ∅ rich_chain (Some 1) = Done (Ok (prod_map id f64_of_Z <$> take 1 l)) ∧
    ranking units_of demo_set l.
Proof.
  destruct (GetRichList_spec reverse no_order ∅ rich_chain demo_pool units_of 1 fair_reverse fair_no_order eq_refl eq_refl
    ltac:(split; [apply (proj1 (bool_decide_eq_true _))|]; vm_compute; reflexivity)) as (l & Hl & E).
  exists l. split; [exact E|exact Hl].
Defined.
