(* ===== verification/Subscriptions.v ===== *)
(** * Event subscriptions of the RPC server

    [src/RPC/server.go], the [SubscriptionManager] and the routine that drops
    stale subscriptions.

    The manager keeps the subscriptions by id and, for every client, the set of
    its ids. Each operation holds the manager's lock from start to end, so the
    operations of all goroutines form one sequence. A new id is the result of
    [uuid.New().String()] and the clock is read where the code reads it; both are
    arguments, as is the order in which Go visits a map. A connection is a number,
    and whether a write to it succeeds is decided outside. *)

From stdpp Require Import base gmap strings list.
From Stdlib Require Import ZArith Lia.
From S2P Require Import Prelude.
From S2P Require Import Float64.

(** ** Values of type [interface{}] *)

(** What the JSON decoder makes of a document ([nil], [bool], [float64], [string],
    [[]interface{}], [map[string]interface{}]) and the integers that the server
    puts into its own maps. *)
#[local] Set Warnings "-register-all".
Inductive value : Type :=
  | VNil
  | VBool (b : bool)
  | VFloat (x : float64)
  | VUint (z : Z)
  | VInt (z : Z)
  | VStr (s : string)
  | VList (l : list value)
  | VMap (m : list (string * value)).

(** The entry of a map; the decoder keeps the last one of a key. *)
Definition entry (m : list (string * value)) (k : string) : option value :=
  foldl (λ acc kv, if str_eqb kv.1 k then Some kv.2 else acc) None m.

(** [m[k].(string)] and [m[k].([]interface{})] *)
Definition string_entry (m : list (string * value)) (k : string) : option string :=
  match entry m k with Some (VStr s) => Some s | _ => None end.
Definition list_entry (m : list (string * value)) (k : string) : option (list value) :=
  match entry m k with Some (VList l) => Some l | _ => None end.

(** [a == b] on interfaces: different dynamic types differ, and two values of one
    type that has no equality make the program panic. *)
Definition iface_eq (a b : value) : outcome bool :=
  match a, b with
  | VNil, VNil => Done true
  | VBool a, VBool b => Done (Bool.eqb a b)
  | VFloat a, VFloat b => Done (f64_eq a b)
  | VUint a, VUint b | VInt a, VInt b => Done (a =? b)
  | VStr a, VStr b => Done (str_eqb a b)
  | VList _, VList _ | VMap _, VMap _ => Panic "comparing uncomparable type"
  | _, _ => Done false
  end.

(** ** The manager *)

Record Subscription := mkSubscription {
  sub_ID : string;
  sub_Type : string;
  sub_Filters : list (string * value);
  sub_WebSocket : option nat;
  sub_CreatedAt : Z;
  sub_LastActivity : Z;
  sub_ClientIP : string;
}.

Module Manager.

Record t := mk {
  subscriptions : gmap string Subscription;
  clientSubscriptions : gmap string (gset string);
  maxPerClient : Z;
}.

Definition NewSubscriptionManager (maxPerClient : Z) : t := mk ∅ ∅ maxPerClient.

Definition limit_reached : string := "subscription limit reached for client".

(** The client gets its set before the limit is looked at. *)
Definition AddSubscription (uuid : string) (created active : Z) (sm : t) (clientIP subType : string)
    (filters : list (string * value)) (ws : option nat) : result string * t :=
  let clients :=
    match clientSubscriptions sm !! clientIP with
    | Some _ => clientSubscriptions sm
    | None => <[clientIP := ∅]> (clientSubscriptions sm)
    end in
  let subs := default ∅ (clients !! clientIP) in
  if maxPerClient sm <=? Z.of_nat (size subs) then (Err limit_reached, mk (subscriptions sm) clients (maxPerClient sm))
  else
    let sub := mkSubscription uuid subType filters ws created active clientIP in
    (Ok uuid, mk (<[uuid := sub]> (subscriptions sm)) (<[clientIP := {[uuid]} ∪ subs]> clients) (maxPerClient sm)).

(** Takes an id out of the set of a client; an empty set goes with it. *)
Definition drop_id (clients : gmap string (gset string)) (clientIP subID : string) : gmap string (gset string) :=
  match clients !! clientIP with
  | None => clients
  | Some subs =>
      let subs := subs ∖ {[subID]} in
      if decide (size subs = 0%nat) then delete clientIP clients else <[clientIP := subs]> clients
  end.

Definition drop (sm : t) (subID : string) (sub : Subscription) : t :=
  mk (delete subID (subscriptions sm)) (drop_id (clientSubscriptions sm) (sub_ClientIP sub) subID) (maxPerClient sm).

Definition RemoveSubscription (sm : t) (subID : string) : bool * t :=
  match subscriptions sm !! subID with
  | None => (false, sm)
  | Some sub => (true, drop sm subID sub)
  end.

Definition GetSubscriptions (ro : range_order) (sm : t) (clientIP : string) : list string :=
  match clientSubscriptions sm !! clientIP with
  | None => []
  | Some subs => ro (elements subs)
  end.

(** ** Filters *)

(** Each topic of the filter against the topic of the event in its place. *)
Fixpoint topics_match (topics logTopics : list value) : outcome bool :=
  match topics, logTopics with
  | [], _ => Done true
  | _ :: _, [] => Done false
  | f :: topics, l :: logTopics =>
      let! same := iface_eq f l in
      if same then topics_match topics logTopics else Done false
  end.

Definition matchesFilters (sub : Subscription) (eventType : string) (data : value) : outcome bool :=
  match sub_Filters sub with
  | [] => Done true
  | filters =>
      if str_eqb eventType "logs" then
        match data with
        | VMap log =>
            let! wrong_address :=
              match entry filters "address", string_entry log "address" with
              | Some address, Some logAddr => let! same := iface_eq (VStr logAddr) address in Done (negb same)
              | _, _ => Done false
              end in
            if wrong_address : bool then Done false
            else match list_entry filters "topics", list_entry log "topics" with
                 | Some topics, Some logTopics => topics_match topics logTopics
                 | _, _ => Done true
                 end
        | _ => Done true
        end
      else if str_eqb eventType "pending_transactions" then
        match data with
        | VMap tx =>
            match entry filters "address" with
            | Some address =>
                let is_it k :=
                  match string_entry tx k with Some s => iface_eq (VStr s) address | None => Done false end in
                let! from := is_it "sender" in
                if from : bool then Done true else is_it "receiver"
            | None => Done true
            end
        | _ => Done true
        end
      else Done true
  end.

(** ** Notification *)

Record Notification := mkNotification { not_conn : nat; not_subscription : string; not_result : value }.

(** The code logs [subID[:8]]. *)
Definition short_id (subID : string) : outcome string :=
  if (String.length subID <? 8)%nat then Panic "slice bounds out of range" else Done (String.substring 0 8 subID).

Definition touch (now : Z) (sub : Subscription) : Subscription :=
  mkSubscription (sub_ID sub) (sub_Type sub) (sub_Filters sub) (sub_WebSocket sub) (sub_CreatedAt sub) now (sub_ClientIP sub).

(** One turn of the loop. [written] says of the id whether the write succeeds and
    [clock] gives the time after it. *)
Definition notify_one (written : string → bool) (clock : string → Z) (eventType : string) (data : value)
    (acc : outcome (list Notification * gmap string Subscription)) (e : string * Subscription)
    : outcome (list Notification * gmap string Subscription) :=
  let! (out, subs) := acc in
  let '(subID, sub) := e in
  if negb (str_eqb (sub_Type sub) eventType) then Done (out, subs)
  else
    let! matches := matchesFilters sub eventType data in
    if negb matches then Done (out, subs)
    else
      let! _ := short_id subID in
      match sub_WebSocket sub with
      | None => Done (out, subs)
      | Some conn =>
          let out := out ++ [mkNotification conn (sub_ID sub) data] in
          Done (out, if written subID then <[subID := touch (clock subID) sub]> subs else subs)
      end.

(** The notifications written, in order, and the manager after it. *)
Definition NotifySubscribers (ro : range_order) (written : string → bool) (clock : string → Z) (sm : t)
    (eventType : string) (data : value) : outcome (list Notification * t) :=
  let! (out, subs) := foldl (notify_one written clock eventType data) (Done ([], subscriptions sm))
                        (range ro (subscriptions sm)) in
  Done (out, mk subs (clientSubscriptions sm) (maxPerClient sm)).

(** ** Stale subscriptions *)

Definition staleThreshold : Z := 30 * 60 * 10 ^ 9.

Definition is_stale (now : Z) (sub : Subscription) : bool := staleThreshold <? time_since now (sub_LastActivity sub).

Definition cleanup_one (now : Z) (sm : t) (e : string * Subscription) : t :=
  let '(id, sub) := e in if is_stale now sub then drop sm id sub else sm.

(** One tick of the routine. *)
Definition cleanupStaleSubscriptions (ro : range_order) (now : Z) (sm : t) : t :=
  foldl (cleanup_one now) sm (range ro (subscriptions sm)).

End Manager.
