(* ===== verification/SubscriptionsFacts.v ===== *)
(** * The subscription manager keeps one map

    The manager's two maps act as one map of subscriptions with a quota for each
    client ([step_refines], by the invariant [consistent]), whatever the order in
    which operations arrive. *)

From stdpp Require Import base gmap strings list.
From Stdlib Require Import ZArith Lia.
From S2P Require Import Prelude.
From S2P Require Import Float64.
From S2P Require Import Subscriptions.

Import Manager.

(** ** The specification: a map of subscriptions *)

Inductive op : Type :=
  | Add (uuid : string) (created active : Z) (clientIP subType : string) (filters : list (string * value)) (ws : option nat)
  | Remove (subID : string)
  | Get (clientIP : string)
  | Notify (written : string → bool) (clock : string → Z) (eventType : string) (data : value)
  | Cleanup (now : Z).

Inductive reply : Type :=
  | Added (r : result string)
  | Removed (b : bool)
  | Ids (l : list string)
  | Sent (l : list Notification)
  | Cleaned.

(** The manager's own operations. *)
Definition exec (ro : range_order) (sm : t) (o : op) : outcome (reply * t) :=
  match o with
  | Add uuid created active clientIP subType filters ws =>
      let '(r, sm) := AddSubscription uuid created active sm clientIP subType filters ws in Done (Added r, sm)
  | Remove subID => let '(b, sm) := RemoveSubscription sm subID in Done (Removed b, sm)
  | Get clientIP => Done (Ids (GetSubscriptions ro sm clientIP), sm)
  | Notify written clock eventType data =>
      let! (out, sm) := NotifySubscribers ro written clock sm eventType data in Done (Sent out, sm)
  | Cleanup now => Done (Cleaned, cleanupStaleSubscriptions ro now sm)
  end.

Definition of_client (clientIP : string) (subs : gmap string Subscription) : gset string :=
  dom (filter (λ e : string * Subscription, sub_ClientIP e.2 = clientIP) subs).

(** A subscription to the type of the event whose filters let it through. *)
Definition interested (eventType : string) (data : value) (sub : Subscription) : bool :=
  str_eqb (sub_Type sub) eventType && match matchesFilters sub eventType data with Done b => b | _ => false end.

Definition note (eventType : string) (data : value) (sub : Subscription) : option Notification :=
  if interested eventType data sub then
    conn ← sub_WebSocket sub; Some (mkNotification conn (sub_ID sub) data)
  else None.

Definition touched (written : string → bool) (clock : string → Z) (eventType : string) (data : value)
    (subID : string) (sub : Subscription) : Subscription :=
  match note eventType data sub with
  | Some _ => if written subID then touch (clock subID) sub else sub
  | None => sub
  end.

Inductive spec_step (max : Z) : gmap string Subscription → op → reply → gmap string Subscription → Prop :=
  | spec_add subs uuid created active clientIP subType filters ws :
      Z.of_nat (size (of_client clientIP subs)) < max →
      spec_step max subs (Add uuid created active clientIP subType filters ws) (Added (Ok uuid))
        (<[uuid := mkSubscription uuid subType filters ws created active clientIP]> subs)
  | spec_refuse subs uuid created active clientIP subType filters ws :
      max ≤ Z.of_nat (size (of_client clientIP subs)) →
      spec_step max subs (Add uuid created active clientIP subType filters ws) (Added (Err limit_reached)) subs
  | spec_remove subs subID :
      spec_step max subs (Remove subID) (Removed (bool_decide (is_Some (subs !! subID)))) (delete subID subs)
  | spec_get subs clientIP l :
      l ≡ₚ elements (of_client clientIP subs) → spec_step max subs (Get clientIP) (Ids l) subs
  | spec_notify subs written clock eventType data l :
      l ≡ₚ omap (note eventType data) (map_to_list subs).*2 →
      spec_step max subs (Notify written clock eventType data) (Sent l)
        (map_imap (λ id sub, Some (touched written clock eventType data id sub)) subs)
  | spec_cleanup subs now :
      spec_step max subs (Cleanup now) Cleaned (filter (λ e : string * Subscription, is_stale now e.2 = false) subs).

(** ** The invariant *)

Record consistent (sm : t) : Prop := mk_consistent {
  con_index : ∀ c, default ∅ (clientSubscriptions sm !! c) = of_client c (subscriptions sm);
  con_nonempty : ∀ c s, clientSubscriptions sm !! c = Some s → s ≠ ∅;
  con_quota : ∀ c, Z.of_nat (size (of_client c (subscriptions sm))) ≤ maxPerClient sm;
  con_ids : ∀ id sub, subscriptions sm !! id = Some sub → sub_ID sub = id ∧ String.length id = 36%nat;
}.

(** [uuid.New] returns an id of 36 characters that is not in use. *)
Definition fresh (sm : t) (o : op) : Prop :=
  match o with
  | Add uuid _ _ _ _ _ _ => String.length uuid = 36%nat ∧ subscriptions sm !! uuid = None
  | _ => True
  end.

Lemma elem_of_client c subs id : id ∈ of_client c subs ↔ ∃ sub, subs !! id = Some sub ∧ sub_ClientIP sub = c.
Proof. unfold of_client. rewrite elem_of_dom. split.
  - intros [sub Hs]. apply map_lookup_filter_Some in Hs as [??]. eauto.
  - intros (sub & ? & ?). exists sub. by apply map_lookup_filter_Some.
Qed.

Lemma of_client_insert c subs id sub : subs !! id = None →
  of_client c (<[id := sub]> subs) = (if decide (sub_ClientIP sub = c) then {[id]} else ∅) ∪ of_client c subs.
Proof. intros Hn. apply set_eq. intros x. rewrite elem_of_union, !elem_of_client.
  destruct (decide (x = id)) as [->|Hx].
  - rewrite lookup_insert_eq. case_decide; set_solver.
  - rewrite lookup_insert_ne by done. case_decide; set_solver.
Qed.

Lemma of_client_delete c subs id : of_client c (delete id subs) = of_client c subs ∖ {[id]}.
Proof. apply set_eq. intros x. rewrite elem_of_difference, !elem_of_client, elem_of_singleton. split.
  - intros (sub & Hs & ?). apply lookup_delete_Some in Hs as [??]. eauto.
  - intros [(sub & ? & ?) ?]. exists sub. by rewrite lookup_delete_ne.
Qed.

Lemma consistent_new max : 0 ≤ max → consistent (NewSubscriptionManager max).
Proof. intros Hm. split; cbn.
  - intros c. rewrite lookup_empty. by apply leibniz_equiv.
  - intros c s. by rewrite lookup_empty.
  - intros c. done.
  - intros id sub. by rewrite lookup_empty.
Qed.

(** ** Dropping an id *)

Lemma drop_id_default clients c id c' :
  default ∅ (drop_id clients c id !! c') = if decide (c = c') then default ∅ (clients !! c) ∖ {[id]} else default ∅ (clients !! c').
Proof. unfold drop_id. destruct (clients !! c) as [s|] eqn:Hc; cbn [default from_option].
  - destruct (decide (size (s ∖ {[id]}) = 0%nat)) as [H0|H0].
    + apply size_empty_inv in H0. apply leibniz_equiv in H0. case_decide as Hd; [subst c'|].
      * by rewrite lookup_delete_eq.
      * by rewrite lookup_delete_ne.
    + case_decide as Hd; [subst c'|].
      * by rewrite lookup_insert_eq.
      * by rewrite lookup_insert_ne.
  - case_decide as Hd; [subst c'; rewrite Hc; cbn; apply leibniz_equiv; set_solver|done].
Qed.

Lemma drop_id_nonempty clients c id : (∀ c s, clients !! c = Some s → s ≠ ∅) →
  ∀ c' s, drop_id clients c id !! c' = Some s → s ≠ ∅.
Proof. intros Hne c' s. unfold drop_id. destruct (clients !! c) as [s0|] eqn:Hc; [|apply Hne].
  destruct (decide _) as [H0|H0].
  - intros Hs. apply lookup_delete_Some in Hs as [_ Hs]. by eapply Hne.
  - intros Hs. apply lookup_insert_Some in Hs as [[_ Hs]|[_ Hs]]; [|by eapply Hne].
    subst s. intros E. apply H0. rewrite E. apply size_empty.
Qed.

Lemma drop_consistent sm id sub : consistent sm → subscriptions sm !! id = Some sub → consistent (drop sm id sub).
Proof. intros [Hi Hn Hq Hd] Hs. split; cbn.
  - intros c. rewrite drop_id_default, of_client_delete, !Hi. case_decide as Hc; [by rewrite Hc|].
    apply leibniz_equiv. intros x. rewrite elem_of_difference, elem_of_singleton. split; [|by intros [??]].
    intros Hx. split; [done|]. intros ->. apply elem_of_client in Hx as (sub' & Hs' & ?). congruence.
  - by apply drop_id_nonempty.
  - intros c. rewrite of_client_delete. etrans; [|apply (Hq c)].
    apply Nat2Z.inj_le, subseteq_size. set_solver.
  - intros id' sub' Hl. apply lookup_delete_Some in Hl as [_ Hl]. by apply Hd.
Qed.

(** ** Adding *)

Lemma add_consistent uuid created active sm c ty fs ws : consistent sm →
  String.length uuid = 36%nat → subscriptions sm !! uuid = None →
  match AddSubscription uuid created active sm c ty fs ws with
  | (r, sm') =>
      if decide (Z.of_nat (size (of_client c (subscriptions sm))) < maxPerClient sm) then
        r = Ok uuid ∧ subscriptions sm' = <[uuid := mkSubscription uuid ty fs ws created active c]> (subscriptions sm) ∧
        consistent sm'
      else r = Err limit_reached ∧ subscriptions sm' = subscriptions sm ∧ (0 < maxPerClient sm → sm' = sm)
  end.
Proof. intros [Hi Hn Hq Hd] Hu Hf. unfold AddSubscription.
  set (clients := match clientSubscriptions sm !! c with Some _ => _ | None => _ end).
  assert (Hdef : ∀ c', default ∅ (clients !! c') = of_client c' (subscriptions sm)).
  { intros c'. rewrite <- Hi. unfold clients. destruct (clientSubscriptions sm !! c) as [s|] eqn:Hc; [done|].
    destruct (decide (c' = c)) as [->|]; [by rewrite lookup_insert_eq, Hc|by rewrite lookup_insert_ne]. }
  rewrite Hdef. case_decide as Hlt.
  - rewrite (proj2 (Z.leb_gt _ _)) by lia. cbn. split; [done|]. split; [done|]. split; cbn.
    + intros c'. rewrite of_client_insert by done. cbn [sub_ClientIP]. case_decide as Hc.
      * subst c'. by rewrite lookup_insert_eq.
      * rewrite lookup_insert_ne by done. rewrite Hdef. by rewrite (left_id_L ∅ (∪)).
    + intros c' s Hs. apply lookup_insert_Some in Hs as [[_ <-]|[Hne Hs]]; [set_solver|].
      unfold clients in Hs. destruct (clientSubscriptions sm !! c); [by eapply Hn|].
      rewrite lookup_insert_ne in Hs by done. by eapply Hn.
    + intros c'. rewrite of_client_insert by done. cbn [sub_ClientIP]. case_decide as Hc.
      * subst c'. etrans; [|apply (Zlt_le_succ _ _ Hlt)]. unfold Z.succ.
        rewrite size_union_alt, size_singleton. pose proof (subseteq_size (of_client c (subscriptions sm) ∖ {[uuid]})
          (of_client c (subscriptions sm)) ltac:(set_solver)). lia.
      * rewrite (left_id_L ∅ (∪)). apply Hq.
    + intros id sub Hl. apply lookup_insert_Some in Hl as [[<- <-]|[_ Hl]]; [done|by apply Hd].
  - rewrite (proj2 (Z.leb_le _ _)) by lia. split; [done|]. split; [done|]. intros H0.
    destruct sm as [subs cl mx]; cbn in *. f_equal. unfold clients. destruct (cl !! c) eqn:Hc; [done|].
    exfalso. apply Hlt. rewrite <- Hi, Hc. cbn. rewrite size_empty. lia.
Qed.

(** ** Loops over the subscriptions *)

Lemma range_entries {V} (ro : range_order) (m : gmap string V) : fair ro →
  NoDup (range ro m).*1 ∧ (∀ k v, (k, v) ∈ range ro m ↔ m !! k = Some v).
Proof. intros Hro. pose proof (range_perm ro m Hro) as Hp. split.
  - rewrite Hp. apply NoDup_fst_map_to_list.
  - intros k v. rewrite Hp. apply elem_of_map_to_list.
Qed.

Lemma cleanup_loop now l : ∀ sm, consistent sm → NoDup l.*1 → (∀ id sub, (id, sub) ∈ l → subscriptions sm !! id = Some sub) →
  consistent (foldl (cleanup_one now) sm l) ∧ maxPerClient (foldl (cleanup_one now) sm l) = maxPerClient sm ∧
  ∀ id sub, subscriptions (foldl (cleanup_one now) sm l) !! id = Some sub ↔
    subscriptions sm !! id = Some sub ∧ (id ∈ l.*1 → is_stale now sub = false).
Proof. induction l as [|[id0 sub0] l IH]; intros sm Hc Hnd Hin.
  - cbn. split; [done|]. split; [done|]. intros id sub. set_solver.
  - cbn [fmap list_fmap fst] in Hnd. apply NoDup_cons in Hnd as [Hni Hnd].
    pose proof (Hin id0 sub0 ltac:(left)) as H0. cbn [foldl cleanup_one].
    destruct (is_stale now sub0) eqn:Hst.
    + destruct (IH (drop sm id0 sub0)) as (Hc' & Hm & Hl); [by apply drop_consistent|done| |].
      { intros id sub Hi. cbn. rewrite lookup_delete_ne; [apply Hin; by right|].
        intros ->. apply Hni. by apply (list_elem_of_fmap_2 fst _ (id, sub)). }
      split; [done|]. split; [done|]. intros id sub. rewrite Hl. cbn [drop subscriptions fmap list_fmap fst].
      rewrite lookup_delete_Some, elem_of_cons. split.
      * intros [[Hne Hs] Hx]. split; [done|]. intros [->|Hi]; [done|by apply Hx].
      * intros [Hs Hx]. split; [|intros Hi; apply Hx; by right]. split; [|done].
        intros <-. rewrite H0 in Hs. apply (inj Some) in Hs. subst sub0. rewrite Hx in Hst by (by left). done.
    + destruct (IH sm) as (Hc' & Hm & Hl); [done|done|intros; apply Hin; by right|].
      split; [done|]. split; [done|]. intros id sub. rewrite Hl. cbn [fmap list_fmap fst]. rewrite elem_of_cons. split.
      * intros [Hs Hx]. split; [done|]. intros [->|Hi]; [|by apply Hx].
        rewrite H0 in Hs. apply (inj Some) in Hs. by subst sub0.
      * intros [Hs Hx]. split; [done|]. intros Hi. apply Hx. by right.
Qed.

Lemma cleanup_spec ro now sm : fair ro → consistent sm →
  consistent (cleanupStaleSubscriptions ro now sm) ∧
  maxPerClient (cleanupStaleSubscriptions ro now sm) = maxPerClient sm ∧
  subscriptions (cleanupStaleSubscriptions ro now sm) =
    filter (λ e : string * Subscription, is_stale now e.2 = false) (subscriptions sm).
Proof. intros Hro Hc. unfold cleanupStaleSubscriptions. destruct (range_entries ro (subscriptions sm) Hro) as [Hnd Hin].
  destruct (cleanup_loop now _ sm Hc Hnd (λ id sub, proj1 (Hin id sub))) as (Hc' & Hm & Hl).
  split; [done|]. split; [done|]. apply map_eq. intros id. apply option_eq. intros sub.
  rewrite Hl, map_lookup_filter_Some. cbn. split.
  - intros [Hs Hx]. split; [done|]. apply Hx. apply (list_elem_of_fmap_2 fst _ (id, sub)). by apply Hin.
  - intros [Hs Hx]. done.
Qed.

(** The loop of a notification, when it does not panic. *)
Lemma notify_loop written clock ty data l : ∀ out subs out' subs',
  foldl (notify_one written clock ty data) (Done (out, subs)) l = Done (out', subs') →
  NoDup l.*1 → (∀ id sub, (id, sub) ∈ l → subs !! id = Some sub) →
  out' = out ++ omap (note ty data) l.*2 ∧
  ∀ id, subs' !! id = if decide (id ∈ l.*1) then touched written clock ty data id <$> subs !! id else subs !! id.
Proof. induction l as [|[id0 sub0] l IH]; intros out subs out' subs' E Hnd Hin.
  - cbn in E. injection E as <- <-. cbn. rewrite app_nil_r. split; [done|]. intros id. by rewrite decide_False by set_solver.
  - cbn [fmap list_fmap fst] in Hnd. apply NoDup_cons in Hnd as [Hni Hnd].
    pose proof (Hin id0 sub0 ltac:(left)) as H0. cbn [foldl] in E.
    destruct (notify_one written clock ty data (Done (out, subs)) (id0, sub0)) as [[out1 subs1]| |] eqn:E1; [|exfalso|exfalso].
    2,3: clear -E; revert E; induction l; cbn; [done|exact IHl].
    assert (out1 = out ++ omap (note ty data) [sub0] ∧ subs1 = <[id0 := touched written clock ty data id0 sub0]> subs)
      as [-> ->].
    { assert (Hid : subs = <[id0 := sub0]> subs) by (by rewrite insert_id).
      revert E1. unfold notify_one, touched, note, interested. cbn [obind omap list_omap].
      destruct (str_eqb (sub_Type sub0) ty); cbn; [|intros E1; injection E1 as <- <-; by rewrite app_nil_r].
      destruct (matchesFilters sub0 ty data) as [[]| |]; cbn; try done;
        [|intros E1; injection E1 as <- <-; by rewrite app_nil_r].
      destruct (short_id id0); cbn; try done. destruct (sub_WebSocket sub0); cbn;
        intros E1; injection E1 as <- <-; [|by rewrite app_nil_r]. split; [done|]. by destruct (written id0). }
    destruct (IH _ _ _ _ E Hnd) as [-> Hl].
    { intros id sub Hi. rewrite lookup_insert_ne; [apply Hin; by right|].
      intros ->. apply Hni. by apply (list_elem_of_fmap_2 fst _ (id, sub)). }
    split.
    { rewrite <- app_assoc. f_equal. cbn. by destruct (note ty data sub0). }
    intros id. rewrite Hl. cbn [fmap list_fmap fst].
    destruct (decide (id = id0)) as [->|Hne].
    + rewrite (decide_False (P := id0 ∈ l.*1)) by done. rewrite (decide_True (P := id0 ∈ id0 :: _)) by left.
      by rewrite lookup_insert_eq, H0.
    + rewrite lookup_insert_ne by done. repeat case_decide; set_solver.
Qed.

Lemma notify_spec ro written clock sm ty data out sm' : fair ro →
  NotifySubscribers ro written clock sm ty data = Done (out, sm') →
  out ≡ₚ omap (note ty data) (map_to_list (subscriptions sm)).*2 ∧
  subscriptions sm' = map_imap (λ id sub, Some (touched written clock ty data id sub)) (subscriptions sm) ∧
  clientSubscriptions sm' = clientSubscriptions sm ∧ maxPerClient sm' = maxPerClient sm.
Proof. intros Hro. unfold NotifySubscribers. destruct (range_entries ro (subscriptions sm) Hro) as [Hnd Hin].
  destruct (foldl _ _ _) as [[out1 subs1]| |] eqn:E; cbn [obind]; try done. intros E'. injection E' as <- <-.
  destruct (notify_loop _ _ _ _ _ _ _ _ _ E Hnd (λ id sub, proj1 (Hin id sub))) as [-> Hl].
  split; [cbn; by rewrite (range_perm ro (subscriptions sm) Hro)|]. split; [|done].
  apply map_eq. intros id. cbn [subscriptions]. rewrite Hl, map_lookup_imap.
  case_decide as Hd; [by destruct (subscriptions sm !! id)|].
  destruct (subscriptions sm !! id) as [sub|] eqn:Hs; [|done]. exfalso. apply Hd.
  apply (list_elem_of_fmap_2 fst _ (id, sub)). by apply Hin.
Qed.

Lemma touched_same written clock ty data id sub :
  sub_ClientIP (touched written clock ty data id sub) = sub_ClientIP sub ∧
  sub_ID (touched written clock ty data id sub) = sub_ID sub.
Proof. unfold touched. destruct (note ty data sub); [|done]. by destruct (written id). Qed.

Lemma notify_consistent ro written clock sm ty data out sm' : fair ro → consistent sm →
  NotifySubscribers ro written clock sm ty data = Done (out, sm') → consistent sm'.
Proof. intros Hro [Hi Hn Hq Hd] E. destruct (notify_spec _ _ _ _ _ _ _ _ Hro E) as (_ & Hs & Hc & Hm).
  assert (Hof : ∀ c, of_client c (subscriptions sm') = of_client c (subscriptions sm)).
  { intros c. apply set_eq. intros id. rewrite !elem_of_client, Hs, map_lookup_imap.
    destruct (subscriptions sm !! id) as [sub|]; cbn.
    - destruct (touched_same written clock ty data id sub) as [Ht _]. split; intros (s & Hx & ?);
        apply (inj Some) in Hx; subst s; eexists; (split; [reflexivity|]); congruence.
    - split; intros (? & ? & _); done. }
  split.
  - intros c. by rewrite Hof, Hc.
  - intros c s. rewrite Hc. apply Hn.
  - intros c. by rewrite Hof, Hm.
  - intros id sub. rewrite Hs, map_lookup_imap. destruct (subscriptions sm !! id) as [sub0|] eqn:H0; [|done].
    cbn. intros E'. apply (inj Some) in E'. subst sub. rewrite (proj2 (touched_same written clock ty data id sub0)). by apply Hd.
Qed.

(** ** The refinement *)

(** Every operation of a consistent manager is a step of the specification, and
    leaves it consistent. *)
Lemma step_refines ro sm o a sm' : fair ro → 0 < maxPerClient sm → consistent sm → fresh sm o →
  exec ro sm o = Done (a, sm') →
  spec_step (maxPerClient sm) (subscriptions sm) o a (subscriptions sm') ∧ consistent sm' ∧ maxPerClient sm' = maxPerClient sm.
Proof. intros Hro Hmax Hc Hf. destruct o as [uuid cr ac c ty fs ws|id|c|written clock ty data|now]; cbn [exec].
  - destruct Hf as [Hu Hf]. pose proof (add_consistent uuid cr ac sm c ty fs ws Hc Hu Hf) as Ha.
    assert (Hm : maxPerClient (AddSubscription uuid cr ac sm c ty fs ws).2 = maxPerClient sm)
      by (unfold AddSubscription; destruct (_ <=? _); done).
    destruct (AddSubscription uuid cr ac sm c ty fs ws) as [r sm1]. intros E. injection E as <- <-. cbn in Hm.
    case_decide as Hlt.
    + destruct Ha as (-> & -> & ?). split; [by constructor|done].
    + destruct Ha as (-> & Hs & He). rewrite (He Hmax) in *. split; [constructor; lia|done].
  - unfold RemoveSubscription. destruct (subscriptions sm !! id) as [sub|] eqn:Hs; intros E; injection E as <- <-.
    + split; [|split; [by apply drop_consistent|done]]. cbn [drop subscriptions].
      replace true with (bool_decide (is_Some (subscriptions sm !! id))) by (apply bool_decide_eq_true; by eexists).
      constructor.
    + split; [|done].
      replace false with (bool_decide (is_Some (subscriptions sm !! id)))
        by (apply bool_decide_eq_false; rewrite Hs; by intros [??]).
      pose proof (spec_remove (maxPerClient sm) (subscriptions sm) id) as Hr. by rewrite (delete_id _ _ Hs) in Hr.
  - intros E. injection E as <- <-. split; [|done]. constructor. unfold GetSubscriptions.
    rewrite <- (con_index sm Hc). destruct (clientSubscriptions sm !! c); [apply Hro|]. cbn. by rewrite elements_empty.
  - destruct (NotifySubscribers _ _ _ _ _ _) as [[out sm1]| |] eqn:En; cbn [obind]; try done. intros E. injection E as <- <-.
    destruct (notify_spec _ _ _ _ _ _ _ _ Hro En) as (Hp & -> & _ & Hm).
    split; [by constructor|]. split; [by eapply notify_consistent|done].
  - intros E. injection E as <- <-. destruct (cleanup_spec ro now sm Hro Hc) as (? & ? & ->). split; [constructor|done].
Qed.

(** ** Sessions *)

(** No operation panics, but for a notification of a "logs" event, whose topics
    may have no equality. *)
Definition quiet (o : op) : Prop := match o with Notify _ _ eventType _ => eventType ≠ "logs" | _ => True end.

Lemma iface_eq_string s v : is_Done (iface_eq (VStr s) v) = true.
Proof. by destruct v. Qed.

Lemma matchesFilters_total sub ty data : ty ≠ "logs" → is_Done (matchesFilters sub ty data) = true.
Proof. intros Hty. unfold matchesFilters. destruct (sub_Filters sub) as [|f fs]; [done|].
  rewrite (proj2 (str_eqb_neq ty "logs")) by done. destruct (str_eqb ty "pending_transactions"); [|done].
  destruct data; try done. destruct (entry (f :: fs) "address") as [a|]; [|done].
  destruct (string_entry m "sender") as [s|].
  - pose proof (iface_eq_string s a) as Hs. destruct (iface_eq (VStr s) a) as [[]| |]; try done. cbn.
    destruct (string_entry m "receiver"); [apply iface_eq_string|done].
  - cbn. destruct (string_entry m "receiver"); [apply iface_eq_string|done].
Qed.

Lemma notify_one_total written clock ty data out subs id sub : ty ≠ "logs" → String.length id = 36%nat →
  is_Done (notify_one written clock ty data (Done (out, subs)) (id, sub)) = true.
Proof. intros Hty Hid. unfold notify_one. cbn [obind]. destruct (negb _); [done|].
  pose proof (matchesFilters_total sub ty data Hty) as Hm.
  destruct (matchesFilters sub ty data) as [[]| |]; try done. cbn [obind negb].
  unfold short_id. rewrite Hid. cbn. by destruct (sub_WebSocket sub).
Qed.

Lemma notify_loop_total written clock ty data l : ty ≠ "logs" → (∀ id sub, (id, sub) ∈ l → String.length id = 36%nat) →
  ∀ acc, is_Done acc = true → is_Done (foldl (notify_one written clock ty data) acc l) = true.
Proof. intros Hty. induction l as [|[id sub] l IH]; intros Hl acc Ha; [done|]. cbn [foldl]. apply IH.
  - intros. eapply Hl. right. eassumption.
  - apply is_Done_inv in Ha as [[out subs] ->]. apply notify_one_total; [done|]. apply (Hl id sub). left.
Qed.

Lemma exec_total ro sm o : fair ro → consistent sm → quiet o → is_Done (exec ro sm o) = true.
Proof. intros Hro Hc Hq. destruct o as [uuid cr ac c ty fs ws|id|c|written clock ty data|now]; cbn [exec]; try done.
  - by destruct (AddSubscription _ _ _ _ _ _ _ _).
  - by destruct (RemoveSubscription _ _).
  - unfold NotifySubscribers.
    assert (Ht : is_Done (foldl (notify_one written clock ty data) (Done ([], subscriptions sm))
      (range ro (subscriptions sm))) = true).
    { apply notify_loop_total; [done| |done]. intros id sub Hi.
      apply (proj2 (range_entries ro _ Hro)) in Hi. by apply (con_ids sm Hc) in Hi as [_ ?]. }
    apply is_Done_inv in Ht as [[out subs] ->]. done.
Qed.

Fixpoint session (ro : range_order) (sm : t) (ops : list op) : outcome (list reply * t) :=
  match ops with
  | [] => Done ([], sm)
  | o :: ops =>
      let! (a, sm) := exec ro sm o in
      let! (l, sm) := session ro sm ops in
      Done (a :: l, sm)
  end.

(** Every new id of the session is fresh when it is drawn. *)
Fixpoint fresh_session (ro : range_order) (sm : t) (ops : list op) : Prop :=
  match ops with
  | [] => True
  | o :: ops => fresh sm o ∧ match exec ro sm o with Done (_, sm) => fresh_session ro sm ops | _ => True end
  end.

Inductive spec_run (max : Z) : gmap string Subscription → list op → list reply → gmap string Subscription → Prop :=
  | spec_nil subs : spec_run max subs [] [] subs
  | spec_cons subs o a subs1 ops l subs2 :
      spec_step max subs o a subs1 → spec_run max subs1 ops l subs2 → spec_run max subs (o :: ops) (a :: l) subs2.

Lemma session_refines ro ops : fair ro → Forall quiet ops → ∀ sm, 0 < maxPerClient sm → consistent sm → fresh_session ro sm ops →
  ∃ l sm', session ro sm ops = Done (l, sm') ∧ consistent sm' ∧ maxPerClient sm' = maxPerClient sm ∧
    spec_run (maxPerClient sm) (subscriptions sm) ops l (subscriptions sm').
Proof. intros Hro. induction 1 as [|o ops Hq _ IH]; intros sm Hm Hc Hf.
  - exists [], sm. split; [done|]. split; [exact Hc|]. split; [done|constructor].
  - destruct Hf as [Hf1 Hf2]. cbn [session].
    destruct (is_Done_inv _ (exec_total ro sm o Hro Hc Hq)) as [[a sm1] E]. rewrite E in Hf2 |- *. cbn [obind].
    destruct (step_refines _ _ _ _ _ Hro Hm Hc Hf1 E) as (Hs & Hc1 & Hm1).
    destruct (IH sm1) as (l & sm2 & E2 & Hc2 & Hm2 & Hr); [by rewrite Hm1|done|done|].
    rewrite E2. cbn [obind]. rewrite Hm1 in *. exists (a :: l), sm2. split; [done|]. split; [done|]. split; [done|].
    by econstructor.
Qed.

(** C22 The subscription manager of the server (ten per client), driven by any
    sequence of additions, removals, listings, notifications and clean-ups with
    fresh ids, never fails: each answer is one that a single map of subscriptions
    gives (an addition is refused exactly when the client has ten; a listing is
    the client's ids; a notification goes once to each interested subscriber with a
    connection and to nobody else; a clean-up drops exactly the stale ones), and
    the index of the clients stays that of the map, with no empty sets. *)
Theorem subscriptions_refine_one_map ro ops : fair ro → Forall quiet ops →
  fresh_session ro (NewSubscriptionManager 10) ops →
  ∃ l sm, session ro (NewSubscriptionManager 10) ops = Done (l, sm) ∧
    spec_run 10 ∅ ops l (subscriptions sm) ∧
    (∀ c, default ∅ (clientSubscriptions sm !! c) = of_client c (subscriptions sm) ∧
          Z.of_nat (size (of_client c (subscriptions sm))) ≤ 10 ∧ clientSubscriptions sm !! c ≠ Some ∅).
Proof. intros Hro Hq Hf.
  destruct (session_refines ro ops Hro Hq (NewSubscriptionManager 10)) as (l & sm & E & [Hi Hn Hs _] & Hm & Hr);
    [done|by apply consistent_new|done|].
  exists l, sm. split; [done|]. split; [done|]. intros c. split; [apply Hi|]. cbn in Hm. rewrite Hm in Hs. split; [apply Hs|].
  intros E'. by apply (Hn c ∅).
Qed.

Definition demo_id (n : string) : string := "0d1e2f30-4a5b-4c6d-8e7f-90a1b2c3d4e" +:+ n.

Definition demo_ops : list op :=
  [ Add (demo_id "0") 0 0 "10.0.0.1:5000" "new_blocks" [] (Some 1%nat);
    Add (demo_id "1") 0 0 "10.0.0.1:5000" "pending_transactions" [("address", VStr "alice")] (Some 1%nat);
    Add (demo_id "2") 0 0 "10.0.0.2:6000" "new_blocks" [] (Some 2%nat);
    Notify (λ _, true) (λ _, 7) "pending_transactions" (VMap [("sender", VStr "bob"); ("receiver", VStr "alice")]);
    Get "10.0.0.1:5000"; Remove (demo_id "2"); Cleanup (31 * 60 * 10 ^ 9); Get "10.0.0.2:6000" ].

Lemma subscriptions_refine_one_map_witness :
  fresh_session id (NewSubscriptionManager 10) demo_ops ∧
  ∃ l sm, session id (NewSubscriptionManager 10) demo_ops = Done (l, sm) ∧ spec_run 10 ∅ demo_ops l (subscriptions sm).
Proof.
  assert (Hf : fresh_session id (NewSubscriptionManager 10) demo_ops).
  { vm_compute. repeat split. }
  split; [exact Hf|].
  destruct (subscriptions_refine_one_map id demo_ops) as (l & sm & E & Hr & _).
  - by intros ks.
  - repeat constructor; done.
  - exact Hf.
  - exists l, sm. split; [exact E|exact Hr].
Defined.
