(* ===== verification/Server.v ===== *)
(** * The RPC server

    [src/RPC/server.go]: the dispatch of JSON-RPC requests that arrive by HTTP or
    over a WebSocket ([Module Dispatch]), the subscription methods
    ([Module Events]), and the routine that announces new blocks and transactions
    ([Module Monitor]).

    A request is what the decoder makes of the bytes, [None] when it fails; its
    parameters are [None] when they are absent. A registered method takes the
    parameters and the node. The text of a decoder's own error is left out. *)

From stdpp Require Import base gmap strings list.
From Stdlib Require Import ZArith Lia.
From S2P Require Import Prelude.
From S2P Require Import Float64.
From S2P Require Import Database.
From S2P Require Import P256.
From S2P Require Import Transaction.
From S2P Require Import Mempool.
From S2P Require Import Trie.
From S2P Require Import Block.
From S2P Require Import Chain.
From S2P Require Import ChainStore.
From S2P Require Import P2p.
From S2P Require Import Subscriptions.
From S2P Require Import Rpc.

(** ** Subscription methods *)
Module Events.
Section events.
Context `{KV} `{ECDSA} `{GoImpl} (ord : child_order).

(** The client of a request; a request by HTTP has no connection. *)
Record context := mkContext { ctx_RawMessage : option value; ctx_ClientIP : string; ctx_WebSocket : option nat }.

(** What a request draws: new ids and the time, as often as it asks. *)
Record draw := mkDraw { dr_id : string; dr_id2 : string; dr_created : Z; dr_active : Z }.

(** [json.Unmarshal] into [[]interface{}] and into [[]string] *)
Definition read_args (raw : option value) : option (list value) :=
  match raw with Some (VList l) => Some l | Some VNil => Some [] | _ => None end.
Definition read_strings (raw : option value) : option (list string) :=
  l ← read_args raw; mapM (λ v, match v with VStr s => Some s | VNil => Some "" | _ => None end) l.

Definition validEventTypes : list string := ["new_blocks"; "pending_transactions"; "logs"].

Definition blockData (b : Block) : value :=
  VMap [("block_hash", VStr (hash_of_block b)); ("block_number", VUint (BlockNumber (Header b)));
        ("timestamp", VInt (hdr_Timestamp (Header b)))].
Definition txData (tx : Transaction) : value :=
  VMap [("tx_hash", VStr (TransactionID tx)); ("sender", VStr (Sender tx)); ("receiver", VStr (Receiver tx));
        ("amount", VFloat (Amount tx)); ("timestamp", VInt (Timestamp tx))].

(** The answer to a subscription by HTTP: made up, nothing is subscribed. *)
Definition sample_result (d : draw) (n : Node.t) (eventType : string) : outcome value :=
  if str_eqb eventType "new_blocks" then
    let! latest := GetLatestBlock ord (Node.n_bc n) in
    match latest with
    | None => Panic "nil pointer dereference"
    | Some b => Done (blockData b)
    end
  else if str_eqb eventType "pending_transactions" then
    Done (match Mempool.GetTransactions (Node.n_mempool n) with
          | tx :: _ => txData tx
          | [] => VMap [("tx_hash", VStr ("0x" +:+ dr_id2 d)); ("sender", VStr "0xSenderAddress");
                        ("receiver", VStr "0xReceiverAddress"); ("amount", VFloat (f64_of_Z 1));
                        ("timestamp", VInt (unix (dr_active d)))]
          end)
  else
    Done (VMap [("tx_hash", VStr ("0x" +:+ dr_id2 d)); ("address", VStr "0xContractAddress");
                ("topics", VList [VStr "0xTopicHash"]); ("data", VStr "0xEventData");
                ("block_number", VUint (GetHeight (Node.n_bc n))); ("log_index", VInt 0)]).

Definition mock_answer (d : draw) (n : Node.t) (eventType : string) : outcome value :=
  let! r := sample_result d n eventType in
  Done (VMap [("subscription_id", VStr (dr_id d)); ("test_mode", VBool true);
    ("message", VStr "Using HTTP connection - real-time updates not available. This is a mock response for testing.");
    ("sample_notification", VMap [("subscription_id", VStr (dr_id d)); ("result", r)])]).

Definition handleSupSubscribe (d : draw) (n : Node.t) (sm : Manager.t) (ctx : context) : outcome (result value * Manager.t) :=
  match read_args (ctx_RawMessage ctx) with
  | None => Done (Err invalid_parameters, sm)
  | Some [] => Done (Err "missing event type parameter", sm)
  | Some (VStr eventType :: rest) =>
      if negb (bool_decide (eventType ∈ validEventTypes)) then Done (Err ("unsupported event type: " +:+ eventType), sm)
      else
        let filters := match rest with VMap filtersArg :: _ => filtersArg | _ => [] end in
        match ctx_WebSocket ctx with
        | None => let! v := mock_answer d n eventType in Done (Ok v, sm)
        | Some ws =>
            let '(r, sm) :=
              Manager.AddSubscription (dr_id d) (dr_created d) (dr_active d) sm (ctx_ClientIP ctx) eventType filters (Some ws) in
            Done (match r with Ok subID => Ok (VStr subID) | Err e => Err e end, sm)
        end
  | Some (_ :: _) => Done (Err "event_type must be a string", sm)
  end.

Definition handleSupUnsubscribe (sm : Manager.t) (ctx : context) : result value * Manager.t :=
  match read_strings (ctx_RawMessage ctx) with
  | None => (Err invalid_parameters, sm)
  | Some [] => (Err "missing subscription_id parameter", sm)
  | Some (subscriptionID :: _) =>
      let '(success, sm) := Manager.RemoveSubscription sm subscriptionID in (Ok (VBool success), sm)
  end.

Definition handleSupGetSubscriptions (ro : range_order) (sm : Manager.t) (ctx : context) : result value :=
  Ok (VList (VStr <$> Manager.GetSubscriptions ro sm (ctx_ClientIP ctx))).

End events.
End Events.

(** ** Requests *)

Definition ErrParseError : Z := -32700.
Definition ErrInvalidRequest : Z := -32600.
Definition ErrMethodNotFound : Z := -32601.
Definition ErrInvalidParams : Z := -32602.
Definition ErrInternalError : Z := -32603.
Definition ErrServerError : Z := -32000.

Record JSONRPCRequest := mkRequest { req_JSONRPC : string; req_Method : string; req_Params : option value; req_ID : value }.

(** The [Data] of an error: nothing, a text, a Go error, or the decoder's error. *)
Inductive error_data : Type := DNil | DText (s : string) | DError (e : string) | DDecoder.

Record RPCError := mkRPCError { Code : Z; Message : string; Data : error_data }.

(** A response has a result or an error. *)
Record JSONRPCResponse := mkResponse { rsp_answer : value + RPCError; rsp_ID : value }.

(** The encoder refuses a float that is not finite. *)
Fixpoint encodable (v : value) : bool :=
  match v with
  | VFloat x => f64_is_finite x
  | VList l => forallb encodable l
  | VMap m => forallb (λ kv, encodable kv.2) m
  | _ => true
  end.
Definition response_encodable (r : JSONRPCResponse) : bool :=
  match rsp_answer r with inl v => encodable v | inr _ => true end && encodable (rsp_ID r).

Module Dispatch.
Section dispatch.
Context `{KV} `{ECDSA} `{GoImpl} (ord : child_order).

Definition RPCMethodHandler : Type := option value → Node.t → outcome (result value * Node.t).

Record RPCServer := mk {
  node : Node.t;
  methods : gmap string RPCMethodHandler;
  EnableSubscriptions : bool;
  subscriptionMgr : Manager.t;
  wsConnections : gmap nat string;
}.

Definition set_node (s : RPCServer) (n : Node.t) : RPCServer :=
  mk n (methods s) (EnableSubscriptions s) (subscriptionMgr s) (wsConnections s).
Definition set_mgr (s : RPCServer) (sm : Manager.t) : RPCServer :=
  mk (node s) (methods s) (EnableSubscriptions s) sm (wsConnections s).
Definition set_conns (s : RPCServer) (c : gmap nat string) : RPCServer :=
  mk (node s) (methods s) (EnableSubscriptions s) (subscriptionMgr s) c.

Definition registerMethod (s : RPCServer) (name : string) (handler : RPCMethodHandler) : RPCServer :=
  mk (node s) (<[name := handler]> (methods s)) (EnableSubscriptions s) (subscriptionMgr s) (wsConnections s).

(** The handlers that are registered for the subscription methods. *)
Definition wrapper : RPCMethodHandler :=
  λ _ n, Done (Err "subscription methods should be called via WebSocket connection", n).

Definition subscriptionMethods : list string := ["sup_subscribe"; "sup_unsubscribe"; "sup_getSubscriptions"].

(** The names of the methods of the five interfaces, in the order of their
    registration, and of the server's own handlers. *)
Definition apiMethods : list string :=
  ["createWallet"; "importWallet"; "getWalletInfo"; "createHDWallet"; "getAddresses"; "createMultiSigWallet";
   "signMessage"; "verifySignature"; "signTransaction"; "getBlockByHash"; "getBlockByHeight";
   "getBlockCount"; "getChainInfo"; "getValidationInfo"; "getBlockRange"; "getHashRate";
   "getNetworkDifficulty"; "getCirculatingSupply"; "getBlockTransactions"; "getRichList";
   "getBlockchainStats"; "getBlockTime"; "getStateRoot"; "getBlockHeaders"; "validateAddress"; "exportState";
   "getStateProof"; "getBalance"; "getUTXOs"; "getAccountState"; "createUnsignedTransaction";
   "createTransaction"; "sendTransaction"; "sendTransactionWithKey"; "getTransaction";
   "getPendingTransactions"; "estimateFee"; "getTransactionHistory"; "getTransactionProof";
   "decodeTransaction"; "debugTransaction"; "callReadOnly"; "getRecentTransactions"; "getMempoolInfo";
   "getAverageFees"; "traceBlock"; "searchByAddress"; "getFullTransactionHistory"; "getPeerInfo";
   "getNetworkStats"; "addPeer"; "getNodeStatus"; "syncStatus"; "getProtocolVersion"; "getNodePerformance";
   "getBootnodeInfo"; "getPeerLatency"; "getBandwidthUsage"; "getNetworkGrowth"; "getActiveAddresses";
   "getPeerCount"; "getSlashingEvents"; "getValidatorUptime"; "getDailyTransactionVolume"; "getValidators";
   "getStakeInfo"; "stakeTokens"; "unstakeTokens"; "getValidatorRewards"; "getValidatorPerformance";
   "verifyValidator"; "getTopValidators"; "getTotalStaked"; "getValidatorStats"; "getDailyValidatorRewards"].
Definition internalMethods : list string :=
  ["_internal_getBlockCount"; "_internal_getBlockByHash"; "_internal_getBlockByHeight";
   "_internal_getChainInfo"; "_internal_getBalance"; "_internal_getUTXOs"; "_internal_sendTransaction";
   "_internal_getTransaction"; "_internal_getPendingTransactions"; "_internal_estimateFee";
   "_internal_getTransactionHistory"; "_internal_getPeerInfo"; "_internal_getNetworkStats";
   "_internal_getNodeStatus"; "_internal_getAccountState"; "_internal_createWallet";
   "_internal_importWallet"; "_internal_createHDWallet"; "_internal_getAddresses";
   "_internal_createMultiSigWallet"; "_internal_getValidators"; "_internal_getStakeInfo";
   "_internal_signTransaction"; "_internal_getTransactionHistory"; "_internal_getFullTransactionHistory";
   "_internal_sendTransactionWithKey"].

(** [handler] gives the handler that the code registers under a name; a name
    that is registered twice has the same handler both times. *)
Definition registerAllHandlers (subs : bool) (handler : string → RPCMethodHandler) (s : RPCServer) : RPCServer :=
  let register := foldl (λ s m, registerMethod s m.1 m.2) in
  let s := register s ((λ m, (m, handler m)) <$> apiMethods) in
  let s := if subs then register s ((λ m, (m, wrapper)) <$> subscriptionMethods) else s in
  register s ((λ m, (m, handler m)) <$> internalMethods).

Definition NewRPCServer (n : Node.t) (subs : bool) (handler : string → RPCMethodHandler) : RPCServer :=
  registerAllHandlers subs handler (mk n ∅ subs (Manager.NewSubscriptionManager 10) ∅).

Definition answer_error (id : value) (code : Z) (message : string) (data : error_data) : JSONRPCResponse :=
  mkResponse (inr (mkRPCError code message data)) id.

(** The response to what a handler returns. *)
Definition answer (id : value) (r : result value) : JSONRPCResponse :=
  match r with
  | Ok v => mkResponse (inl v) id
  | Err e => answer_error id ErrInternalError "Internal error" (DError e)
  end.

Definition not_found (req : JSONRPCRequest) : JSONRPCResponse :=
  answer_error (req_ID req) ErrMethodNotFound "Method not found" (DText ("Method '" +:+ req_Method req +:+ "' not found")).
Definition not_available (req : JSONRPCRequest) : JSONRPCResponse :=
  answer_error (req_ID req) ErrMethodNotFound "Method not available" (DText "Subscription methods are disabled on this server").

(** The subscription methods, by name; [None] for another name. *)
Definition subscription_call (ro : range_order) (d : Events.draw) (s : RPCServer) (method : string) (ctx : Events.context)
    : option (outcome (result value * RPCServer)) :=
  if str_eqb method "sup_subscribe" then
    Some (let! (r, sm) := Events.handleSupSubscribe ord d (node s) (subscriptionMgr s) ctx in Done (r, set_mgr s sm))
  else if str_eqb method "sup_unsubscribe" then
    Some (let '(r, sm) := Events.handleSupUnsubscribe (subscriptionMgr s) ctx in Done (r, set_mgr s sm))
  else if str_eqb method "sup_getSubscriptions" then
    Some (Done (Events.handleSupGetSubscriptions ro (subscriptionMgr s) ctx, s))
  else None.

Definition call (s : RPCServer) (req : JSONRPCRequest) (handler : RPCMethodHandler) : outcome (JSONRPCResponse * RPCServer) :=
  let! (r, n) := handler (req_Params req) (node s) in
  Done (answer (req_ID req) r, set_node s n).

(** *** Messages

    The bytes that a client sends: the request that the JSON value at their start is
    decoded to, [None] if there is no value or it is not a request, and whether more
    than white space follows it. *)
Record raw_message := mkRaw { raw_request : option JSONRPCRequest; raw_trailing : bool }.

(** [Decoder.Decode], which reads one value and leaves the rest, and [json.Unmarshal],
    which refuses what follows the value. *)
Definition http_decode (m : raw_message) : option JSONRPCRequest := raw_request m.
Definition ws_decode (m : raw_message) : option JSONRPCRequest := if raw_trailing m then None else raw_request m.

(** *** HTTP *)

(** The response that [handleRPCRequest] makes to what it has decoded. *)
Definition http_response (ro : range_order) (d : Events.draw) (s : RPCServer) (remote : string) (body : option JSONRPCRequest)
    : outcome (JSONRPCResponse * RPCServer) :=
  match body with
  | None => Done (answer_error VNil ErrParseError "Parse error" DDecoder, s)
  | Some req =>
      if negb (str_eqb (req_JSONRPC req) "2.0") then
        Done (answer_error (req_ID req) ErrInvalidRequest "Invalid Request" (DText "Expected JSON-RPC 2.0"), s)
      else
        match methods s !! req_Method req with
        | None => Done (not_found req, s)
        | Some handler =>
            match subscription_call ro d s (req_Method req) (Events.mkContext (req_Params req) remote None) with
            | Some run =>
                if negb (EnableSubscriptions s) then Done (not_available req, s)
                else let! (r, s) := run in Done (answer (req_ID req) r, s)
            | None => call s req handler
            end
        end
  end.

(** What the client gets: the response, or a plain internal server error when it
    cannot be encoded. *)
Definition handleRPCRequest (ro : range_order) (d : Events.draw) (s : RPCServer) (remote : string) (body : raw_message)
    : outcome (option JSONRPCResponse * RPCServer) :=
  let! (r, s) := http_response ro d s remote (http_decode body) in
  Done (if response_encodable r then Some r else None, s).

(** *** WebSocket *)

(** The response of the loop of a connection to what it has decoded. *)
Definition ws_response (ro : range_order) (d : Events.draw) (s : RPCServer) (clientIP : string) (conn : nat)
    (msg : option JSONRPCRequest) : outcome (JSONRPCResponse * RPCServer) :=
  match msg with
  | None => Done (answer_error VNil ErrParseError "Parse error" DDecoder, s)
  | Some req =>
      if negb (str_eqb (req_JSONRPC req) "2.0") then
        Done (answer_error (req_ID req) ErrInvalidRequest "Invalid Request" (DText "Expected JSON-RPC 2.0"), s)
      else
        match subscription_call ro d s (req_Method req) (Events.mkContext (req_Params req) clientIP (Some conn)) with
        | Some run =>
            if negb (EnableSubscriptions s) then Done (not_available req, s)
            else let! (r, s) := run in Done (answer (req_ID req) r, s)
        | None =>
            match methods s !! req_Method req with
            | None => Done (not_found req, s)
            | Some handler => call s req handler
            end
        end
  end.

(** One turn of the loop of a connection: the response if it could be written, and
    whether the loop goes on. [up] says whether the connection takes a write. Only
    a result that cannot be written ends the loop. *)
Definition ws_turn (ro : range_order) (d : Events.draw) (up : bool) (s : RPCServer) (clientIP : string) (conn : nat)
    (msg : raw_message) : outcome (option JSONRPCResponse * bool * RPCServer) :=
  let! (r, s) := ws_response ro d s clientIP conn (ws_decode msg) in
  let written := up && response_encodable r in
  Done (if written then Some r else None, written || negb (match rsp_answer r with inl _ => true | inr _ => false end), s).

Definition ws_open (s : RPCServer) (conn : nat) (clientIP : string) : RPCServer :=
  set_conns s (<[conn := clientIP]> (wsConnections s)).

(** The end of a connection, which leaves its subscriptions. *)
Definition ws_close (s : RPCServer) (conn : nat) : RPCServer := set_conns s (delete conn (wsConnections s)).

End dispatch.
End Dispatch.

(** ** Announcing blocks and transactions *)
Module Monitor.
Section monitor.
Context `{KV} `{ECDSA} `{GoImpl} (ord : child_order).

(** The routine's own state. *)
Record t := mk { lastBlockHeight : Z; knownTxIDs : gset string }.

Definition ids (txs : list Transaction) : gset string := list_to_set (TransactionID <$> txs).

Definition start (n : Node.t) : t :=
  mk (GetHeight (Node.n_bc n)) (ids (Mempool.GetTransactions (Node.n_mempool n))).

(** How the notifications of an event go out: the order of the subscribers, the
    writes that succeed, and the time after each. *)
Record delivery := mkDelivery {
  dl_order : value → range_order;
  dl_written : value → string → bool;
  dl_clock : value → string → Z;
}.

(** An announcement: the type of the event, its data, and what was written. *)
Record announcement := mkAnnouncement { an_type : string; an_data : value; an_sent : list Manager.Notification }.

Definition announce (dl : delivery) (eventType : string) (data : value) (acc : list announcement * Manager.t)
    : outcome (list announcement * Manager.t) :=
  let '(out, sm) := acc in
  let! (sent, sm) := Manager.NotifySubscribers (dl_order dl data) (dl_written dl data) (dl_clock dl data) sm eventType data in
  Done (out ++ [mkAnnouncement eventType data sent], sm).

Definition block_turn (dl : delivery) (height : Z) (acc : list announcement * Manager.t * Blockchain)
    : outcome (turn (list announcement * Manager.t * Blockchain)) :=
  let '(a, bc) := acc in
  let! (r, bc) := ChainStore.GetBlockByHeight ord bc height in
  match r with
  | None => Done (Continue (a, bc))
  | Some b => let! a := announce dl "new_blocks" (Events.blockData b) a in Done (Continue (a, bc))
  end.

(** The blocks that are new since the last tick. *)
Definition new_blocks (fuel : nat) (dl : delivery) (w : t) (n : Node.t) (sm : Manager.t)
    : outcome (option (list announcement * Manager.t * Node.t * t)) :=
  let currentHeight := GetHeight (Node.n_bc n) in
  if lastBlockHeight w <? currentHeight then
    let! r := for_loop fuel (λ h _, h <=? currentHeight) up (block_turn dl) (u64 (lastBlockHeight w + 1))
                (([], sm), Node.n_bc n) in
    Done (match r with
          | None => None
          | Some (out, sm, bc) => Some (out, sm, Node.set_bc n bc, mk currentHeight (knownTxIDs w))
          end)
  else Done (Some ([], sm, n, w)).

(** [tx.TransactionID[:10]] *)
Definition log_id (id : string) : outcome string :=
  if (String.length id <? 10)%nat then Panic "slice bounds out of range" else Done (String.substring 0 10 id).

Definition tx_turn (dl : delivery) (acc : outcome (list announcement * Manager.t * gset string)) (tx : Transaction)
    : outcome (list announcement * Manager.t * gset string) :=
  let! (a, known) := acc in
  if bool_decide (TransactionID tx ∈ known) then Done (a, known)
  else
    let! _ := log_id (TransactionID tx) in
    let! a := announce dl "pending_transactions" (Events.txData tx) a in
    Done (a, {[TransactionID tx]} ∪ known).

(** A large set of known ids is cut down to those in the mempool. *)
Definition forget (known : gset string) (currentTxs : list Transaction) : gset string :=
  if (1000 <? size known)%nat then filter (λ id, id ∈ ids currentTxs) known else known.

(** One tick of the routine of [setupBlockchainSubscriptions]. *)
Definition tick (fuel : nat) (dl : delivery) (w : t) (n : Node.t) (sm : Manager.t)
    : outcome (option (list announcement * Manager.t * Node.t * t)) :=
  let! r := new_blocks fuel dl w n sm in
  match r with
  | None => Done None
  | Some (out, sm, n, w) =>
      let currentTxs := Mempool.GetTransactions (Node.n_mempool n) in
      let! (a, known) := foldl (tx_turn dl) (Done ((out, sm), knownTxIDs w)) currentTxs in
      let '(out, sm) := a in
      Done (Some (out, sm, n, mk (lastBlockHeight w) (forget known currentTxs)))
  end.

End monitor.
End Monitor.
