(* ===== verification/ServerHandlers.v ===== *)
(** * The server's own handlers

    [src/RPC/server.go], the handlers that are registered under names that start
    with [_internal_]. Each returns an answer or an RPC error; its wrapper keeps
    only the message of the error. What a handler asks of the network and of the
    clock is an argument. *)

From stdpp Require Import base gmap strings list.
From Stdlib Require Import ZArith Lia.
From S2P Require Import Prelude.
From S2P Require Import Float64.
From S2P Require Import Sha256.
From S2P Require Import Gas.
From S2P Require Import Database.
From S2P Require Import P256.
From S2P Require Import Crypto.
From S2P Require Import Transaction.
From S2P Require Import Wallet.
From S2P Require Import Utxo.
From S2P Require Import Mempool.
From S2P Require Import Trie.
From S2P Require Import Stake.
From S2P Require Import Block.
From S2P Require Import Chain.
From S2P Require Import ChainStore.
From S2P Require Import P2p.
From S2P Require Import Rpc.
From S2P Require Import Server.

Module Handlers.
Section handlers.
Context `{KV} `{ECDSA} `{GoImpl} (ord : child_order).

(** An answer, or an error. *)
Definition rpc (A : Type) : Type := A + RPCError.

Definition bad_params {A} : rpc A := inr (mkRPCError ErrInvalidParams "Invalid parameters" DDecoder).
Definition invalid {A} (message : string) : rpc A := inr (mkRPCError ErrInvalidParams message DNil).
Definition failed {A} (message : string) (data : error_data) : rpc A := inr (mkRPCError ErrServerError message data).

(** The wrappers [internal*]: code and data of an error are dropped. *)
Definition internal {A} (r : rpc A) : result A := match r with inl a => Ok a | inr e => Err (Message e) end.

(** ** Blocks and balances *)

Definition handleGetBlockCount (n : Node.t) : rpc Z := inl (GetHeight (Node.n_bc n)).

Definition handleGetBlockByHash (n : Node.t) (hash : option string) : outcome (rpc Block) :=
  match hash with
  | None => Done bad_params
  | Some hash =>
      let! r := ChainStore.GetBlock ord (Node.n_bc n) hash in
      Done (match r with Ok b => inl b | Err e => failed "Block not found" (DText e) end)
  end.

Definition handleGetBlockByHeight (n : Node.t) (height : option Z) : outcome (rpc Block * Node.t) :=
  match height with
  | None => Done (bad_params, n)
  | Some height =>
      let! (r, bc) := ChainStore.GetBlockByHeight ord (Node.n_bc n) height in
      Done (match r with Some b => inl b | None => failed "Block not found" DNil end, Node.set_bc n bc)
  end.

Definition handleGetChainInfo (n : Node.t) : outcome (rpc BlockchainAPI.ChainInfo) :=
  let! i := BlockchainAPI.GetChainInfo ord (Node.n_bc n) in Done (inl i).

Definition handleGetBalance (ro : range_order) (n : Node.t) (address : option string) : outcome (rpc float64) :=
  match address with
  | None => Done bad_params
  | Some address => let! x := Node.with_pool n (λ p, Utxo.GetBalance ro p address) in Done (inl x)
  end.

Definition handleGetUTXOs (ro : range_order) (n : Node.t) (address : option string) : outcome (rpc (list UTXO)) :=
  match address with
  | None => Done bad_params
  | Some address => let! l := Node.with_pool n (λ p, GetUTXOsForAddress ro p address) in Done (inl l)
  end.

(** ** Transactions *)

Record SendArgs := mkSendArgs {
  sd_from : string; sd_to : string; sd_amount : float64; sd_gasPrice : Z; sd_gasLimit : Z;
  sd_signature : string; sd_rawTransaction : string;
}.

Definition verified (tbl : key_table) (tx : Transaction) : outcome (rpc Transaction) :=
  let! ok := Tx.VerifySignature tbl tx in
  Done (if ok : bool then inl tx else failed "Transaction signature verification failed" DNil).

(** The transaction of a request: a raw one, or one made of the arguments. *)
Definition sent_transaction (now : Z) (tbl : key_table) (parse : bytes → option Transaction) (a : SendArgs)
    : outcome (rpc Transaction) :=
  if negb (str_eqb (sd_rawTransaction a) "") then
    match hex_decode (sd_rawTransaction a) with
    | None => Done (inr (mkRPCError ErrInvalidParams "Invalid transaction encoding" DDecoder))
    | Some data =>
        match parse data with
        | None => Done (failed "Failed to deserialize transaction" DDecoder)
        | Some tx => verified tbl tx
        end
    end
  else if str_eqb (sd_signature a) "" then Done (invalid "Transaction signature is required")
  else
    match Tx.NewTransaction now (sd_from a) (sd_to a) (sd_amount a) (sd_gasPrice a) (sd_gasLimit a) with
    | Err e => Done (failed "Transaction creation failed" (DText e))
    | Ok tx => verified tbl (Tx.set_signature tx (sd_signature a) (SenderPubKey tx))
    end.

(** The peers that got the transaction come with the answer; the node's own
    mempool is not touched. *)
Definition handleSendTransaction (now : Z) (tbl : key_table) (parse : bytes → option Transaction) (net : TransactionAPI.network)
    (args : option SendArgs) : outcome (rpc Transaction * list string) :=
  match args with
  | None => Done (bad_params, [])
  | Some a =>
      let! r := sent_transaction now tbl parse a in
      match r with
      | inr e => Done (inr e, [])
      | inl tx =>
          let '(got, e) := Node.BroadcastTransaction (TransactionAPI.net_encoded net) (TransactionAPI.net_self net) (TransactionAPI.net_boot net)
                             (TransactionAPI.net_reached net) (TransactionAPI.net_peers net) [] in
          Done (match e with Some e => failed "Broadcasting transaction failed" (DText e) | None => inl tx end, got)
      end
  end.

(** Where a transaction was found: in the mempool, or in a block. *)
Record Located := mkLocated { lo_tx : Transaction; lo_block : option Block }.

Definition maxSearchHeight : Z := 1000.
Definition search_top (n : Node.t) : Z :=
  let height := GetHeight (Node.n_bc n) in if maxSearchHeight <? height then maxSearchHeight else height.

Definition with_id (txid : string) (txs : list Transaction) : option Transaction :=
  find (λ tx, str_eqb (TransactionID tx) txid) txs.

Definition find_turn (txid : string) (i : Z) (acc : option Located * Blockchain) : outcome (turn (option Located * Blockchain)) :=
  let '(_, bc) := acc in
  let! (r, bc) := ChainStore.GetBlockByHeight ord bc i in
  Done (match r with
        | None => Continue (None, bc)
        | Some b =>
            match with_id txid (Trie.GetAllTransactions ord (block_Transactions b)) with
            | Some tx => Break (Some (mkLocated tx (Some b)), bc)
            | None => Continue (None, bc)
            end
        end).

Definition handleGetTransaction (fuel : nat) (n : Node.t) (txid : option string) : outcome (option (rpc Located * Node.t)) :=
  match txid with
  | None => Done (Some (bad_params, n))
  | Some txid =>
      if str_eqb txid "" then Done (Some (invalid "Transaction ID is required", n))
      else match with_id txid (Mempool.GetTransactions (Node.n_mempool n)) with
      | Some tx => Done (Some (inl (mkLocated tx None), n))
      | None =>
          let! r := for_loop fuel (λ i _, 0 <? i) down (find_turn txid) (search_top n) (None, Node.n_bc n) in
          Done (match r with
                | None => None
                | Some (found, bc) =>
                    Some (match found with Some l => inl l | None => failed "Transaction not found" DNil end, Node.set_bc n bc)
                end)
      end
  end.

Definition handleGetPendingTransactions (n : Node.t) : rpc (list Transaction) := inl (Mempool.GetTransactions (Node.n_mempool n)).

Record FeeAnswer := mkFeeAnswer { fa_gasLimit : Z; fa_gasPrice : Z; fa_fee : float64; fa_low : float64; fa_average : float64; fa_high : float64 }.

(** The lowest and the highest fee and their sum, over the pending transactions. *)
Definition fee_turn (acc : float64 * float64 * float64 * Z) (tx : Transaction) : float64 * float64 * float64 * Z :=
  let '(totalFee, lowFee, highFee, count) := acc in
  (f64_add totalFee (GasFee tx), if f64_lt (GasFee tx) lowFee then GasFee tx else lowFee,
   if f64_gt (GasFee tx) highFee then GasFee tx else highFee, count + 1).

Definition f64_four_fifths : float64 := f64_div (f64_of_Z 8) (f64_of_Z 10).
Definition f64_six_fifths : float64 := f64_div (f64_of_Z 12) (f64_of_Z 10).

Definition estimated_limit (hasModel : bool) (from to : string) (peers : Z) : Z :=
  let gasLimit := DefaultGasLimit in
  if hasModel then
    let gasLimit := if (40 <? String.length to)%nat || (40 <? String.length from)%nat then u64 (gasLimit * 2) else gasLimit in
    if 10 <? peers then u64 (gasLimit + gasLimit / 10) else gasLimit
  else gasLimit.

Definition handleEstimateFee (hasModel : bool) (peers : Z) (n : Node.t) (args : option (string * string * float64 * Z)) : rpc FeeAnswer :=
  match args with
  | None => bad_params
  | Some (from, to, amount, price) =>
      if str_eqb from "" then invalid "Sender address is required"
      else if str_eqb to "" then invalid "Receiver address is required"
      else if f64_le amount f64_zero then invalid "Amount must be greater than 0"
      else
        let gasPrice := if price =? 0 then DefaultGasPrice else price in
        let gasLimit := estimated_limit hasModel from to peers in
        let fee := ConvertGasToTokens (u64 (gasLimit * gasPrice)) in
        match Mempool.GetTransactions (Node.n_mempool n) with
        | [] => inl (mkFeeAnswer gasLimit gasPrice fee (f64_mul fee f64_four_fifths) fee (f64_mul fee f64_six_fifths))
        | tx :: _ as txs =>
            let '(totalFee, lowFee, highFee, count) := foldl fee_turn (f64_zero, GasFee tx, GasFee tx, 0) txs in
            inl (mkFeeAnswer gasLimit gasPrice fee lowFee (f64_div totalFee (f64_of_Z count)) highFee)
        end
  end.

(** ** Histories *)

Record HistoryArgs := mkHistoryArgs { ha_address : string; ha_limit : Z; ha_offset : Z; ha_sortDesc : bool }.

Definition confirmed_in (address : string) (b : Block) : list Located :=
  (λ tx, mkLocated tx (Some b)) <$>
    filter (λ tx, TransactionAPI.involves address tx = true) (Trie.GetAllTransactions ord (block_Transactions b)).
Definition pending_of (address : string) (n : Node.t) : list Located :=
  (λ tx, mkLocated tx None) <$> filter (λ tx, TransactionAPI.involves address tx = true) (Mempool.GetTransactions (Node.n_mempool n)).

Definition history_turn (address : string) (enough i : Z) (acc : list Located * Blockchain) : outcome (turn (list Located * Blockchain)) :=
  let '(l, bc) := acc in
  let! (r, bc) := ChainStore.GetBlockByHeight ord bc i in
  Done (match r with
        | None => Continue (l, bc)
        | Some b =>
            let l := l ++ confirmed_in address b in
            if enough <=? Z.of_nat (length l) then Break (l, bc) else Continue (l, bc)
        end).

Definition by_timestamp (desc : bool) : Located → Located → bool :=
  TransactionAPI.directed desc (λ a b, Timestamp (lo_tx a) <? Timestamp (lo_tx b)).

(** The page of the sorted list and the number of transactions collected. *)
Definition handleGetTransactionHistory (fuel : nat) (n : Node.t) (args : option HistoryArgs)
    : outcome (option (rpc (list Located * Z) * Node.t)) :=
  match args with
  | None => Done (Some (bad_params, n))
  | Some (mkHistoryArgs address limit offset desc) =>
      if str_eqb address "" then Done (Some (invalid "Address is required", n))
      else
        let limit := capped 20 100 limit in
        let! r := for_loop fuel (λ i _, 0 <? i) down (history_turn address (i64 (limit + offset))) (search_top n)
                    (pending_of address n, Node.n_bc n) in
        match r with
        | None => Done None
        | Some (l, bc) =>
            let! page := TransactionAPI.slice_page offset limit (stable_sort (by_timestamp desc) l) in
            Done (Some (inl (page, Z.of_nat (length l)), Node.set_bc n bc))
        end
  end.

(** The checks before the query of the interface; its parameters are decoded from
    the request again. *)
Definition handleGetFullTransactionHistory (fuel : nat) (n : Node.t) (args : option (string * Z * string * bool))
    : outcome (option (rpc (list TransactionAPI.Entry) * Node.t)) :=
  match args with
  | None => Done (Some (bad_params, n))
  | Some (address, _, _, _) =>
      if str_eqb address "" then Done (Some (invalid "Address is required", n))
      else if negb (Crypto.ValidateAddress address) then Done (Some (invalid "Invalid address format", n))
      else
        let! r := TransactionAPI.GetFullTransactionHistory (λ _, ord) fuel n args in
        Done (match r with
              | None => None
              | Some (r, n) =>
                  Some (match r with Ok l => inl l | Err e => failed "Failed to retrieve transaction history" (DText e) end, n)
              end)
  end.
Definition internalGetFullTransactionHistory {A} (r : rpc A) : result A :=
  match r with
  | inl a => Ok a
  | inr e => Err (Message e +:+ ": " +:+ match Data e with DNil => "<nil>" | DText s | DError s => s | DDecoder => invalid_parameters end)
  end.

(** ** Peers *)

(** What the node's host knows of a peer. *)
Record host_peer := mkHostPeer { hp_id : string; hp_addrs : list string; hp_protocols : option (list string) }.

Definition handleGetPeerInfo (boot : string → bool) (peers : list host_peer) : rpc (list (string * list string * bool)) :=
  inl ((λ p, (hp_id p, hp_addrs p, boot (hp_id p))) <$> peers).

(** Protocol by protocol, the peers that speak it; and a latency that is made up. *)
Definition count_protocols (counts : gmap string Z) (p : host_peer) : gmap string Z :=
  match hp_protocols p with
  | None => counts
  | Some l => foldl (λ c proto, <[proto := default 0 (c !! proto) + 1]> c) counts l
  end.
Definition placeholder_latency : Z := 100.

Record NetworkStats := mkNetworkStats {
  ns_peerCount : Z; ns_connections : Z; ns_isSyncing : bool; ns_protocolUsage : gmap string Z;
  ns_latency : option (Z * gmap string Z);
}.

Definition handleGetNetworkStats (n : Node.t) (peers : list host_peer) (connections : Z) : rpc NetworkStats :=
  let latency :=
    match peers with
    | [] => None
    | _ =>
        let total := foldl (λ t _, t + placeholder_latency) 0 peers in
        Some (Z.quot total (Z.of_nat (length peers)), foldl (λ m p, <[hp_id p := placeholder_latency]> m) ∅ peers)
    end in
  inl (mkNetworkStats (Z.of_nat (length peers)) connections (Node.n_isSyncing n) (foldl count_protocols ∅ peers) latency).

Record NodeStatus := mkNodeStatus { nst_synced : bool; nst_peerCount : Z; nst_currentTime : Z; nst_nodeID : string }.

Definition handleGetNodeStatus (now : Z) (self : string) (n : Node.t) (peers : list host_peer) : rpc NodeStatus :=
  inl (mkNodeStatus (negb (Node.n_isSyncing n)) (Z.of_nat (length peers)) (unix now) self).

(** ** Accounts and stakes *)

(** The node's stake pool, which may be nil. *)
Definition with_stakes {A} (n : Node.t) (k : StakePool.t → outcome A) : outcome A :=
  match Node.n_stakePool n with None => Panic "nil pointer dereference" | Some sp => k sp end.

Record Staking := mkStaking { sk_stake : float64; sk_hostID : option string; sk_info : option StakeInfo }.

(** The entry of the list of validators with the address. *)
Definition staking_of (sp : StakePool.t) (address : string) (validators : list ValidatorNode) : option Staking :=
  v ← find (λ v, str_eqb (vn_Address v) address) validators;
  Some (mkStaking (vn_Stake v) (if str_eqb (vn_hostID v) "" then None else Some (vn_hostID v)) (StakePool.Stakes sp !! address)).

Definition pending_turn (address : string) (acc : Z * float64) (tx : Transaction) : Z * float64 :=
  let '(count, amount) :=
    if str_eqb (Sender tx) address then (acc.1 + 1, f64_add acc.2 (f64_add (Amount tx) (GasFee tx))) else acc in
  if str_eqb (Receiver tx) address then (count + 1, f64_add amount (Amount tx)) else (count, amount).

Record AccountState := mkAccountState {
  as_address : string; as_balance : float64; as_nonce : Z; as_utxoCount : Z; as_isValidator : bool;
  as_pending : Z * float64; as_staking : option Staking;
}.

(** [isValidator]: the address is a key of the chain's [Validators]. *)
Definition handleGetAccountState (ro ro' ro'' : range_order) (now : Z) (isValidator : string → bool) (n : Node.t) (address : option string)
    : outcome (rpc AccountState) :=
  match address with
  | None => Done bad_params
  | Some address =>
      if str_eqb address "" then Done (invalid "Address is required")
      else if negb (Crypto.ValidateAddress address) then Done (invalid "Invalid address format")
      else
        let! us := Node.with_pool n (λ p, GetUTXOsForAddress ro p address) in
        let! balance := Node.with_pool n (λ p, Utxo.GetBalance ro' p address) in
        let! staking :=
          if isValidator address then
            with_stakes n (λ sp,
              let! vs := StakePool.GetValidators now ro'' sp 0 in
              Done (match vs with Ok vs => staking_of sp address vs | Err _ => None end))
          else Done None in
        let pending := foldl (pending_turn address) (0, f64_zero) (Mempool.GetTransactions (Node.n_mempool n)) in
        let count := Z.of_nat (length us) in
        Done (inl (mkAccountState address balance count count (isValidator address) pending staking))
  end.

Definition handleGetValidators (ro : range_order) (now : Z) (n : Node.t) : outcome (rpc (list ValidatorNode)) :=
  with_stakes n (λ sp,
    let! vs := StakePool.GetValidators now ro sp 10 in
    Done (match vs with Ok vs => inl vs | Err e => failed "Failed to get validators" (DText e) end)).

(** Without an address the whole pool: its stake, the number of validators and the
    mean stake. *)
Inductive StakeAnswer : Type :=
  | Overall (totalStake : float64) (validatorCount : Z) (avgStakeAmount : option float64)
  | StakeOf (address : string) (s : StakeInfo).

Definition handleGetStakeInfo (ro ro' : range_order) (now : Z) (n : Node.t) (address : option string) : outcome (rpc StakeAnswer) :=
  match address with
  | None => Done bad_params
  | Some address =>
      with_stakes n (λ sp,
        if str_eqb address "" then
          let totalStake := StakePool.GetTotalStake ro sp in
          let! vs := StakePool.GetValidators now ro' sp 0 in
          Done (match vs with
                | Err e => failed "Failed to get validators" (DText e)
                | Ok vs =>
                    let count := Z.of_nat (length vs) in
                    inl (Overall totalStake count (if 0 <? count then Some (f64_div totalStake (f64_of_Z count)) else None))
                end)
        else Done (match StakePool.Stakes sp !! address with
                   | None => failed "No stake found for address" DNil
                   | Some s => inl (StakeOf address s)
                   end))
  end.

(** ** Wallets *)

(** [mnemonic] is the new mnemonic, or the error of its generation. *)
Definition handleCreateWallet (wordlist : result (list string)) (mnemonic : result string) : outcome (rpc (string * string)) :=
  match mnemonic with
  | Err e => Done (failed "Failed to create wallet" (DText ("failed to generate mnemonic: " +:+ e)))
  | Ok mnemonic =>
      match RecoverFromMnemonic wordlist mnemonic with
      | Err e => Done (failed "Failed to create wallet" (DText ("failed to recover private key: " +:+ e)))
      | Ok privateKey =>
          let! r := NewWalletFromPrivateKeyAndMnemonic (Some privateKey) mnemonic in
          Done (match r with
                | Err e => failed "Failed to create wallet" (DText ("failed to create wallet: " +:+ e))
                | Ok w => inl (w_Address w, w_Mnemonic w)
                end)
      end
  end.

Definition handleImportWallet (wordlist : result (list string)) (mnemonic : option string) : outcome (rpc string) :=
  match mnemonic with
  | None => Done bad_params
  | Some mnemonic =>
      let! r := RecoverWalletFromMnemonic wordlist mnemonic in
      Done (match r with Err e => failed "Failed to recover wallet" (DText e) | Ok w => inl (w_Address w) end)
  end.

(** Parameters that cannot be read ask for one address. *)
Definition handleCreateHDWallet (wordlist : result (list string)) (mnemonic : result string) (initialAddresses : option Z)
    : rpc (string * list string) :=
  let number := capped 1 100 (default 1 initialAddresses) in
  match mnemonic with
  | Err e => failed "Failed to generate mnemonic" (DText e)
  | Ok mnemonic =>
      match CreateHDWallet wordlist mnemonic (Z.to_nat number) with
      | Err e => failed "Failed to create HD wallet" (DText e)
      | Ok w => inl (hd_Mnemonic w, hd_Addresses w)
      end
  end.

Fixpoint address_infos (ro : range_order) (n : Node.t) (index : Z) (addresses : list string) : outcome (list (Z * string * float64)) :=
  match addresses with
  | [] => Done []
  | address :: addresses =>
      let! balance := Node.with_pool n (λ p, Utxo.GetBalance ro p address) in
      let! l := address_infos ro n (index + 1) addresses in
      Done ((index, address, balance) :: l)
  end.

(** Every address up to the last one asked for is derived. *)
Definition handleGetAddresses (ro : range_order) (wordlist : result (list string)) (n : Node.t) (args : option (string * Z * Z))
    : outcome (rpc (list (Z * string * float64))) :=
  match args with
  | None => Done bad_params
  | Some (mnemonic, start, count) =>
      if str_eqb mnemonic "" then Done (invalid "Mnemonic is required")
      else
        let start := if start <? 0 then 0 else start in
        let count := capped 10 100 count in
        let upto := i64 (start + count) in
        match CreateHDWallet wordlist mnemonic (Z.to_nat upto) with
        | Err e => Done (failed "Failed to recover HD wallet" (DText e))
        | Ok w =>
            let total := Z.of_nat (length (hd_Addresses w)) in
            if total <=? start then Done (inl [])
            else
              let upto := if total <? upto then total else upto in
              let! l := address_infos ro n start (take (Z.to_nat (upto - start)) (drop (Z.to_nat start) (hd_Addresses w))) in
              Done (inl l)
        end
  end.

Record MultiSigAnswer := mkMultiSigAnswer { ma_address : string; ma_requiredSigs : Z; ma_totalSigs : Z; ma_participants : list string }.

Definition handleCreateMultiSigWallet (args : option (list string * Z)) : outcome (rpc MultiSigAnswer) :=
  match args with
  | None => Done bad_params
  | Some (addresses, requiredSigs) =>
      let total := Z.of_nat (length addresses) in
      if (length addresses <? 2)%nat then Done (invalid "Multisig wallet requires at least 2 addresses")
      else if (requiredSigs <? 1) || (total <? requiredSigs) then
        Done (invalid "Required signatures must be between 1 and the number of addresses")
      else
        match find (λ a, negb (Crypto.ValidateAddress a)) addresses with
        | Some a => Done (invalid ("Invalid address format: " +:+ a))
        | None =>
            let! multiSigAddr := Crypto.GenerateMultiSigAddress ∅ in
            Done (inl (mkMultiSigAnswer multiSigAddr requiredSigs total addresses))
        end
  end.

End handlers.
End Handlers.
