(* ===== verification/ServerFacts.v ===== *)
(** * Correctness of the RPC server

    A request is answered once, under its own id, and alike by HTTP and over a
    WebSocket. In every state that requests, connections, announcements and
    clean-ups can lead to, a connection has at most ten subscriptions, and what a
    client lists and is sent are its own. The announcements of new blocks are the
    blocks appended to the chain, each once and in order. *)

From stdpp Require Import base gmap strings list relations.
From Stdlib Require Import ZArith Lia.
From S2P Require Import Prelude.
From S2P Require Import Float64.
From S2P Require Import Database.
From S2P Require Import P256.
From S2P Require Import Transaction.
From S2P Require Import Utxo.
From S2P Require Import Mempool.
From S2P Require Import MempoolFacts.
From S2P Require Import Trie.
From S2P Require Import Block.
From S2P Require Import BlockFacts.
From S2P Require Import Chain.
From S2P Require Import ChainFacts.
From S2P Require Import ChainStore.
From S2P Require Import ChainStoreFacts.
From S2P Require Import SyncFacts.
From S2P Require Import Peers.
From S2P Require Import P2p.
From S2P Require Import Rpc.
From S2P Require Import RpcFacts.
From S2P Require Import RpcTxFacts.
From S2P Require Import Subscriptions.
From S2P Require Import SubscriptionsFacts.
From S2P Require Import Server.

Import Dispatch.

Section server.
Context `{KV} `{ECDSA} `{GoImpl} (ord : child_order).

(** ** Requests *)

Definition regular (req : JSONRPCRequest) : Prop := req_Method req ∉ subscriptionMethods.

Lemma regular_call ro d s req ctx : regular req → subscription_call ord ro d s (req_Method req) ctx = None.
Proof. unfold regular, subscriptionMethods. rewrite !not_elem_of_cons. intros (H1' & H2' & H3' & _). unfold subscription_call.
  by rewrite !(proj2 (str_eqb_neq _ _)).
Qed.

Definition request_id (msg : option JSONRPCRequest) : value := match msg with Some req => req_ID req | None => VNil end.

(** The codes that a request can be answered with, but for a result. *)
Definition error_code (s : RPCServer) (msg : option JSONRPCRequest) : option Z :=
  match msg with
  | None => Some ErrParseError
  | Some req =>
      if negb (str_eqb (req_JSONRPC req) "2.0") then Some ErrInvalidRequest
      else match methods s !! req_Method req with None => Some ErrMethodNotFound | Some _ => None end
  end.

Definition code_of (r : JSONRPCResponse) : option Z := match rsp_answer r with inl _ => None | inr e => Some (Code e) end.

Lemma call_answer s req h r s' : call s req h = Done (r, s') →
  ∃ v n, h (req_Params req) (node s) = Done (v, n) ∧ r = answer (req_ID req) v ∧ s' = set_node s n.
Proof. unfold call. destruct (h (req_Params req) (node s)) as [[v n]| |]; cbn; try done. intros E. injection E as <- <-. eauto. Qed.

(** C36 A decoded request for a regular method gets the same response by HTTP and over a
    WebSocket, from the same state to the same state. The response carries the id
    of the request; it is the error that the envelope calls for (not JSON, not
    version 2.0, no such method), without any effect, or else what the method
    returned, an error of it as -32603. *)
Theorem http_and_websocket_agree ro ro' d d' s remote clientIP conn msg r s' :
  (∀ req, msg = Some req → regular req) →
  http_response ord ro d s remote msg = Done (r, s') →
  ws_response ord ro' d' s clientIP conn msg = Done (r, s') ∧ rsp_ID r = request_id msg ∧
  match error_code s msg with
  | Some c => code_of r = Some c ∧ s' = s
  | None => ∃ req h v n, msg = Some req ∧ methods s !! req_Method req = Some h ∧ h (req_Params req) (node s) = Done (v, n) ∧
      s' = set_node s n ∧ rsp_answer r = match v with Ok x => inl x
                                         | Err e => inr (mkRPCError ErrInternalError "Internal error" (DError e)) end
  end.
Proof.
  intros Hreg. destruct msg as [req|]; [|intros E; injection E as <- <-; done].
  unfold http_response, ws_response, error_code. specialize (Hreg req eq_refl). destruct (negb _) eqn:Hv.
  { intros E. injection E as <- <-. done. }
  rewrite !regular_call by done. destruct (methods s !! req_Method req) as [h|] eqn:Hm.
  - intros E. rewrite E. split; [done|]. apply call_answer in E as (v & n & Ev & -> & ->).
    split; [by destruct v|]. exists req, h, v, n. split; [done|]. split; [done|]. split; [done|]. split; [done|]. by destruct v.
  - intros E. injection E as <- <-. done.
Qed.

(** The two ways differ in one more thing: what follows the request is ignored by HTTP,
    and makes a WebSocket message a parse error. *)
Theorem trailing_data_differs ro ro' d d' s remote clientIP conn req r s' :
  handleRPCRequest ord ro d s remote (mkRaw (Some req) false) = Done (r, s') →
  handleRPCRequest ord ro d s remote (mkRaw (Some req) true) = Done (r, s') ∧
  ws_turn ord ro' d' true s clientIP conn (mkRaw (Some req) true) =
    Done (Some (answer_error VNil ErrParseError "Parse error" DDecoder), true, s).
Proof. intros E. split; [exact E|]. reflexivity. Qed.

(** ** Subscriptions of connections *)

Definition same_but_time (sub sub' : Subscription) : Prop :=
  sub_Type sub' = sub_Type sub ∧ sub_WebSocket sub' = sub_WebSocket sub ∧ sub_ClientIP sub' = sub_ClientIP sub.

(** Every subscription of [sm'] is one of [sm]. *)
Definition shrinks (sm sm' : Manager.t) : Prop :=
  Manager.maxPerClient sm' = Manager.maxPerClient sm ∧
  ∀ id sub', Manager.subscriptions sm' !! id = Some sub' → ∃ sub, Manager.subscriptions sm !! id = Some sub ∧ same_but_time sub sub'.

Lemma shrinks_refl sm : shrinks sm sm.
Proof. split; [done|]. intros id sub. by exists sub. Qed.

Lemma shrinks_trans sm1 sm2 sm3 : shrinks sm1 sm2 → shrinks sm2 sm3 → shrinks sm1 sm3.
Proof. intros [M1 S1] [M2 S2]. split; [congruence|]. intros id sub3 Hs. destruct (S2 _ _ Hs) as (sub2 & Hs2 & (?&?&?)).
  destruct (S1 _ _ Hs2) as (sub1 & Hs1 & (?&?&?)). exists sub1. split; [done|]. unfold same_but_time. split_and!; congruence.
Qed.

Lemma notify_shrinks ro written clock sm ty data out sm' : fair ro →
  Manager.NotifySubscribers ro written clock sm ty data = Done (out, sm') → shrinks sm sm'.
Proof. intros Hro E. destruct (notify_spec _ _ _ _ _ _ _ _ Hro E) as (_ & Hs & _ & Hm). split; [done|].
  intros id sub'. rewrite Hs, map_lookup_imap. destruct (Manager.subscriptions sm !! id) as [sub|]; [|done]. cbn.
  intros E'. apply (inj Some) in E'. subst sub'. exists sub. split; [done|]. unfold same_but_time, touched.
  destruct (note ty data sub); [|done]. by destruct (written id).
Qed.

(** What holds of the subscriptions, given the open connections. *)
Definition served (conns : gmap nat string) (sm : Manager.t) : Prop :=
  consistent sm ∧ Manager.maxPerClient sm = 10 ∧
  ∀ id sub, Manager.subscriptions sm !! id = Some sub → sub_Type sub ∈ Events.validEventTypes ∧
    ∃ conn, sub_WebSocket sub = Some conn ∧ ∀ ip, conns !! conn = Some ip → sub_ClientIP sub = ip.

Lemma served_shrinks conns sm sm' : served conns sm → consistent sm' → shrinks sm sm' → served conns sm'.
Proof. intros (Hc & Hm & Hs) Hc' [Hm' Hsh]. split; [done|]. split; [congruence|]. intros id sub' Hl.
  destruct (Hsh _ _ Hl) as (sub & Hl0 & (-> & -> & ->)). by apply (Hs id).
Qed.

(** Fresh ids, as [uuid.New] returns them. *)
Definition fresh_draw (sm : Manager.t) (d : Events.draw) : Prop :=
  String.length (Events.dr_id d) = 36%nat ∧ Manager.subscriptions sm !! Events.dr_id d = None.

Lemma remove_served conns sm id : served conns sm → served conns (Manager.RemoveSubscription sm id).2.
Proof. intros Hs. unfold Manager.RemoveSubscription. destruct (Manager.subscriptions sm !! id) as [sub|] eqn:Hl; [|done]. cbn.
  eapply served_shrinks; [done|apply drop_consistent; [apply Hs|done]|]. split; [done|]. intros id' sub' Hl'.
  cbn in Hl'. apply lookup_delete_Some in Hl' as [_ Hl']. by exists sub'.
Qed.

Lemma subscribe_served conns d n sm raw ip ws r sm' : served conns sm → fresh_draw sm d →
  (∀ conn, ws = Some conn → conns !! conn = Some ip) →
  Events.handleSupSubscribe ord d n sm (Events.mkContext raw ip ws) = Done (r, sm') → served conns sm'.
Proof.
  intros Hs [Hid Hfr] Hws. unfold Events.handleSupSubscribe. cbn [Events.ctx_RawMessage Events.ctx_WebSocket Events.ctx_ClientIP].
  destruct (Events.read_args raw) as [[|[] rest]|]; try (intros E; injection E as <- <-; done).
  destruct (negb _) eqn:Hty; [intros E; injection E as <- <-; done|]. apply negb_false_iff, bool_decide_eq_true in Hty.
  destruct ws as [conn|]; [|destruct (Events.mock_answer _ _ _ _); cbn; try done; intros E; injection E as <- <-; done].
  set (fs := match rest with VMap m :: _ => m | _ => [] end).
  pose proof (add_consistent (Events.dr_id d) (Events.dr_created d) (Events.dr_active d) sm ip s fs (Some conn) (proj1 Hs) Hid Hfr) as Ha.
  assert (Hm : Manager.maxPerClient (Manager.AddSubscription (Events.dr_id d) (Events.dr_created d) (Events.dr_active d) sm ip s fs (Some conn)).2
    = Manager.maxPerClient sm) by (unfold Manager.AddSubscription; destruct (_ <=? _); done).
  destruct (Manager.AddSubscription _ _ _ _ _ _ _ _) as [r1 sm1]. intros E. injection E as <- <-. cbn in Hm.
  destruct Hs as (Hc & H10 & Hsub). case_decide as Hlt.
  - destruct Ha as (_ & Hl & Hc'). split; [done|]. split; [congruence|]. intros id sub Hl'. rewrite Hl in Hl'.
    apply lookup_insert_Some in Hl' as [[_ <-]|[_ Hl']]; [|by apply (Hsub id)]. cbn. split; [done|]. exists conn. split; [done|].
    intros ip' Hip. rewrite (Hws conn eq_refl) in Hip. by apply (inj Some) in Hip.
  - destruct Ha as (_ & _ & He). rewrite He by lia. done.
Qed.

Lemma subscription_call_served ro d s m ctx run r s' conns : served conns (subscriptionMgr s) → fresh_draw (subscriptionMgr s) d →
  (∀ conn, Events.ctx_WebSocket ctx = Some conn → conns !! conn = Some (Events.ctx_ClientIP ctx)) →
  subscription_call ord ro d s m ctx = Some run → run = Done (r, s') →
  served conns (subscriptionMgr s') ∧ wsConnections s' = wsConnections s.
Proof.
  intros Hs Hd Hws. destruct ctx as [raw ip ws]. cbn in Hws. unfold subscription_call.
  destruct (str_eqb m "sup_subscribe"); [|destruct (str_eqb m "sup_unsubscribe"); [|destruct (str_eqb m "sup_getSubscriptions"); [|done]]];
    intros E; apply (inj Some) in E; subst run.
  - destruct (Events.handleSupSubscribe _ _ _ _ _) as [[r1 sm1]| |] eqn:E1; cbn; try done. intros E. injection E as <- <-.
    cbn. split; [|done]. by eapply subscribe_served.
  - unfold Events.handleSupUnsubscribe. destruct (Events.read_strings _) as [[|id l]|];
      [intros E; injection E as <- <-; by split| |intros E; injection E as <- <-; by split].
    pose proof (remove_served conns _ id Hs) as Hr. destruct (Manager.RemoveSubscription (subscriptionMgr s) id) as [b sm1].
    intros E. injection E as <- <-. split; [exact Hr|done].
  - intros E. injection E as <- <-. done.
Qed.

Lemma http_served ro d s remote body r s' conns : served conns (subscriptionMgr s) → fresh_draw (subscriptionMgr s) d →
  http_response ord ro d s remote body = Done (r, s') → served conns (subscriptionMgr s') ∧ wsConnections s' = wsConnections s.
Proof.
  intros Hs Hd. destruct body as [req|]; [|intros E; injection E as <- <-; done]. unfold http_response.
  destruct (negb _); [intros E; injection E as <- <-; done|]. destruct (methods s !! _) as [h|]; [|intros E; injection E as <- <-; done].
  destruct (subscription_call _ _ _ _ _ _) as [run|] eqn:Ec.
  - destruct (negb _); [intros E; injection E as <- <-; done|]. destruct run as [[r1 s1]| |] eqn:Er; cbn; try done.
    intros E. injection E as <- <-. eapply subscription_call_served; [done..| |exact Ec|done]. done.
  - intros E. apply call_answer in E as (? & ? & _ & _ & ->). done.
Qed.

Lemma ws_served ro d s ip conn msg r s' conns : served conns (subscriptionMgr s) → fresh_draw (subscriptionMgr s) d →
  conns !! conn = Some ip →
  ws_response ord ro d s ip conn msg = Done (r, s') → served conns (subscriptionMgr s') ∧ wsConnections s' = wsConnections s.
Proof.
  intros Hs Hd Hconn. destruct msg as [req|]; [|intros E; injection E as <- <-; done]. unfold ws_response.
  destruct (negb _); [intros E; injection E as <- <-; done|]. destruct (subscription_call _ _ _ _ _ _) as [run|] eqn:Ec.
  - destruct (negb _); [intros E; injection E as <- <-; done|]. destruct run as [[r1 s1]| |] eqn:Er; cbn; try done.
    intros E. injection E as <- <-. eapply subscription_call_served; [done..| |exact Ec|done].
    cbn. intros c E. by apply (inj Some) in E as <-.
  - destruct (methods s !! _) as [h|]; [|intros E; injection E as <- <-; done].
    intros E. apply call_answer in E as (? & ? & _ & _ & ->). done.
Qed.

(** ** Announcements *)

Import Monitor.

Definition fair_delivery (dl : delivery) : Prop := ∀ v, fair (dl_order dl v).

(** An announcement reaches each interested subscriber once, and nobody else. *)
Definition delivered (sm : Manager.t) (a : announcement) : Prop :=
  an_sent a ≡ₚ omap (note (an_type a) (an_data a)) (map_to_list (Manager.subscriptions sm)).*2.

Lemma announce_spec dl ty data out sm : fair_delivery dl → ty ≠ "logs" → consistent sm →
  returns (announce dl ty data (out, sm)) (λ r, consistent r.2 ∧ shrinks sm r.2 ∧
    ∃ a, r.1 = out ++ [a] ∧ an_type a = ty ∧ an_data a = data ∧ delivered sm a).
Proof.
  intros Hf Hty Hc. unfold announce.
  pose proof (exec_total (dl_order dl data) sm (Notify (dl_written dl data) (dl_clock dl data) ty data) (Hf data) Hc Hty) as Ht.
  cbn [exec] in Ht. destruct (Manager.NotifySubscribers _ _ _ _ _ _) as [[sent sm1]| |] eqn:E; try done. cbn [obind].
  apply returns_Done. cbn. split; [by eapply notify_consistent|]. split; [by eapply notify_shrinks|].
  eexists. split; [done|]. split; [done|]. split; [done|]. apply (notify_spec _ _ _ _ _ _ _ _ (Hf data) E).
Qed.

Lemma announce_blocks dl bc : fair_delivery dl → numbered (Chain bc) →
  ∀ n fuel i last bc' out sm, same_reads bc bc' → (n < fuel)%nat → Z.of_nat i + Z.of_nat n = last + 1 → last < 2 ^ 64 - 1 →
  (i + n ≤ length (Chain bc))%nat → consistent sm →
  returns (for_loop fuel (λ h _, h <=? last) up (block_turn ord dl) (Z.of_nat i) ((out, sm), bc')) (λ r, ∃ new sm' bc'',
    r = Some (out ++ new, sm', bc'') ∧ same_reads bc bc'' ∧ consistent sm' ∧ shrinks sm sm' ∧
    an_data <$> new = Events.blockData ∘ read_out <$> take n (drop i (Chain bc)) ∧ Forall (λ a, an_type a = "new_blocks") new).
Proof.
  intros Hdl Hn n. induction n as [|n IH]; intros fuel i last bc' out sm Hs Hf Hi Hl Hlen Hc.
  { rewrite for_loop_stop; [|lia|apply Z.leb_gt; lia]. apply returns_Done. exists [], sm, bc'.
    rewrite app_nil_r, take_0. split_and!; first [done|apply shrinks_refl|constructor]. }
  destruct fuel as [|fuel]; [lia|].
  destruct (lookup_lt_is_Some_2 (Chain bc) i) as [b Hb]; [lia|].
  destruct (look ord bc bc' i b Hn Hs Hb) as (bc1 & E & Hs1).
  destruct (announce_spec dl "new_blocks" (Events.blockData (read_out b)) out sm Hdl) as ([out1 sm1] & Ea & Hc1 & Hsh & a & Ho & Ht & Hd & _);
    [done|done|]. cbn in Ho, Hc1, Hsh. subst out1.
  rewrite (for_loop_continue _ _ _ _ _ _ ((out ++ [a], sm1), bc1)); [|apply Z.leb_le; lia|].
  2: { unfold block_turn. rewrite E. cbn [obind]. rewrite Ea. done. }
  rewrite up_small by lia. replace (Z.of_nat i + 1) with (Z.of_nat (S i)) by lia.
  destruct (IH fuel (S i) last bc1 (out ++ [a]) sm1) as (r & Er & new & sm' & bc'' & -> & Hs' & Hc' & Hsh' & Hnew & Hty); [done|lia|lia|lia|lia|done|].
  exists (Some (out ++ a :: new, sm', bc'')). split; [by rewrite Er, <- app_assoc|].
  exists (a :: new), sm', bc''. split; [done|]. split; [done|]. split; [done|]. split; [by eapply shrinks_trans|].
  split; [|by constructor]. rewrite (drop_S _ _ _ Hb). cbn. by rewrite Hd, Hnew.
Qed.

(** The transactions with an unknown id, each id once. *)
Fixpoint unseen (known : gset string) (txs : list Transaction) : list Transaction :=
  match txs with
  | [] => []
  | tx :: txs =>
      if bool_decide (TransactionID tx ∈ known) then unseen known txs
      else tx :: unseen ({[TransactionID tx]} ∪ known) txs
  end.

Lemma ids_nil known : ids [] ∪ known = known.
Proof. apply leibniz_equiv. unfold ids. set_solver. Qed.
Lemma ids_seen tx txs known : TransactionID tx ∈ known → ids (tx :: txs) ∪ known = ids txs ∪ known.
Proof. intros Hk. apply leibniz_equiv. unfold ids. cbn. set_solver. Qed.
Lemma ids_cons tx txs known : ids (tx :: txs) ∪ known = ids txs ∪ ({[TransactionID tx]} ∪ known).
Proof. apply leibniz_equiv. unfold ids. cbn. set_solver. Qed.

Lemma announce_txs dl : fair_delivery dl → ∀ txs out sm known, consistent sm →
  Forall (λ tx, (10 ≤ String.length (TransactionID tx))%nat) (unseen known txs) →
  returns (foldl (tx_turn dl) (Done ((out, sm), known)) txs) (λ r, ∃ new sm',
    r = (out ++ new, sm', ids txs ∪ known) ∧ consistent sm' ∧ shrinks sm sm' ∧
    an_data <$> new = Events.txData <$> unseen known txs ∧ Forall (λ a, an_type a = "pending_transactions") new).
Proof.
  intros Hdl. induction txs as [|tx txs IH]; intros out sm known Hc Hlen.
  { apply returns_Done. exists [], sm. rewrite app_nil_r. rewrite ids_nil.
    split_and!; first [done|apply shrinks_refl|constructor]. }
  cbn [foldl tx_turn obind unseen] in *. case_bool_decide as Hk.
  { destruct (IH out sm known Hc Hlen) as (r & Er & new & sm' & -> & Hrest). exists (out ++ new, sm', ids txs ∪ known).
    split; [done|]. exists new, sm'. by rewrite ids_seen. }
  apply Forall_cons in Hlen as [Hid Hlen]. unfold log_id. rewrite (proj2 (Nat.ltb_ge _ _) Hid). cbn [obind].
  destruct (announce_spec dl "pending_transactions" (Events.txData tx) out sm Hdl) as ([out1 sm1] & Ea & Hc1 & Hsh & a & Ho & Ht & Hd & _);
    [done|done|]. cbn in Ho, Hc1, Hsh. subst out1. rewrite Ea. cbn [obind].
  destruct (IH (out ++ [a]) sm1 ({[TransactionID tx]} ∪ known) Hc1 Hlen) as (r & Er & new & sm' & -> & Hc' & Hsh' & Hnew & Hty).
  exists (out ++ a :: new, sm', ids (tx :: txs) ∪ known). split.
  { by rewrite Er, <- app_assoc, ids_cons. }
  exists (a :: new), sm'. split; [done|]. split; [done|]. split; [by eapply shrinks_trans|].
  split; [|by constructor]. cbn. by rewrite Hd, Hnew.
Qed.

(** The blocks after number [last]. *)
Definition after (last : Z) (chain : list Block) : list Block := drop (Z.to_nat (last + 1)) chain.

Definition short_ids_absent (w : Monitor.t) (n : Node.t) : Prop :=
  Forall (λ tx, (10 ≤ String.length (TransactionID tx))%nat) (unseen (knownTxIDs w) (Mempool.GetTransactions (Node.n_mempool n))).

Lemma new_blocks_spec fuel dl w n sm : fair_delivery dl → numbered (Chain (Node.n_bc n)) → (0 < length (Chain (Node.n_bc n)))%nat →
  Z.of_nat (length (Chain (Node.n_bc n))) < 2 ^ 64 → (length (Chain (Node.n_bc n)) < fuel)%nat → 0 ≤ lastBlockHeight w →
  consistent sm →
  returns (new_blocks ord fuel dl w n sm) (λ r, ∃ out sm' bc',
    r = Some (out, sm', Node.set_bc n bc', Monitor.mk (Z.max (lastBlockHeight w) (GetHeight (Node.n_bc n))) (knownTxIDs w)) ∧
    same_reads (Node.n_bc n) bc' ∧ consistent sm' ∧ shrinks sm sm' ∧
    an_data <$> out = Events.blockData ∘ read_out <$> after (lastBlockHeight w) (Chain (Node.n_bc n)) ∧
    Forall (λ a, an_type a = "new_blocks") out).
Proof.
  intros Hdl Hn Hpos Hmax Hf Hw Hc. unfold new_blocks, after.
  assert (Hh : GetHeight (Node.n_bc n) = Z.of_nat (length (Chain (Node.n_bc n))) - 1).
  { rewrite (height_numbered _ Hn); [lia|]. intros E. rewrite E in Hpos. cbn in Hpos. lia. }
  rewrite Hh. destruct (Z.ltb_spec (lastBlockHeight w) (Z.of_nat (length (Chain (Node.n_bc n))) - 1)) as [Hlt|Hge].
  - rewrite u64_small by (unfold is_u64; lia). set (i := Z.to_nat (lastBlockHeight w + 1)).
    replace (lastBlockHeight w + 1) with (Z.of_nat i) by lia.
    destruct (announce_blocks dl (Node.n_bc n) Hdl Hn (length (Chain (Node.n_bc n)) - i) fuel i
      (Z.of_nat (length (Chain (Node.n_bc n))) - 1) (Node.n_bc n) [] sm (same_reads_refl _)) as (r & Er & new & sm' & bc' & -> & Hrest);
      [lia..|done|]. rewrite Er. cbn [obind app]. apply returns_Done. exists new, sm', bc'.
    replace (Z.max _ _) with (Z.of_nat (length (Chain (Node.n_bc n))) - 1) by lia. split; [done|].
    rewrite (take_ge (drop i _)) in Hrest by (rewrite length_drop; lia). exact Hrest.
  - apply returns_Done. exists [], sm, (Node.n_bc n). rewrite drop_ge by lia.
    replace (Z.max _ _) with (lastBlockHeight w) by lia. split; [by destruct w, n|].
    split_and!; first [done|apply same_reads_refl|apply shrinks_refl|constructor].
Qed.

(** A chain that the routine can follow. *)
Definition followed (fuel : nat) (n : Node.t) : Prop :=
  numbered (Chain (Node.n_bc n)) ∧ (0 < length (Chain (Node.n_bc n)))%nat ∧
  Z.of_nat (length (Chain (Node.n_bc n))) < 2 ^ 64 ∧ (length (Chain (Node.n_bc n)) < fuel)%nat.

Lemma tick_spec fuel dl w n sm : fair_delivery dl → followed fuel n → 0 ≤ lastBlockHeight w → consistent sm → short_ids_absent w n →
  let txs := Mempool.GetTransactions (Node.n_mempool n) in
  returns (tick ord fuel dl w n sm) (λ r, ∃ blocks pending sm' bc',
    r = Some (blocks ++ pending, sm', Node.set_bc n bc',
              Monitor.mk (Z.max (lastBlockHeight w) (GetHeight (Node.n_bc n))) (forget (ids txs ∪ knownTxIDs w) txs)) ∧
    same_reads (Node.n_bc n) bc' ∧ consistent sm' ∧ shrinks sm sm' ∧
    an_data <$> blocks = Events.blockData ∘ read_out <$> after (lastBlockHeight w) (Chain (Node.n_bc n)) ∧
    Forall (λ a, an_type a = "new_blocks") blocks ∧
    an_data <$> pending = Events.txData <$> unseen (knownTxIDs w) txs ∧ Forall (λ a, an_type a = "pending_transactions") pending).
Proof.
  intros Hdl (Hn & Hpos & Hmax & Hf) Hw Hc Hids txs. unfold tick.
  destruct (new_blocks_spec fuel dl w n sm Hdl Hn Hpos Hmax Hf Hw Hc) as (r & Er & blocks & sm1 & bc1 & -> & Hs & Hc1 & Hsh1 & Hb & Hbt).
  rewrite Er. cbn [obind]. change (Node.n_mempool (Node.set_bc n bc1)) with (Node.n_mempool n). fold txs. cbn [knownTxIDs lastBlockHeight].
  destruct (announce_txs dl Hdl txs blocks sm1 (knownTxIDs w) Hc1 Hids) as (r & Et & pending & sm2 & -> & Hc2 & Hsh2 & Hp & Hpt).
  rewrite Et. cbn [obind]. apply returns_Done. exists blocks, pending, sm2, bc1.
  split; [done|]. split; [done|]. split; [done|]. split; [by eapply shrinks_trans|done].
Qed.

(** What the routine finds at each tick; other goroutines change the node and the
    subscriptions in between. *)
Record view := mkView { v_delivery : delivery; v_node : Node.t; v_mgr : Manager.t }.

Fixpoint ticks (fuel : nat) (w : Monitor.t) (views : list view) : outcome (option (list announcement * Monitor.t)) :=
  match views with
  | [] => Done (Some ([], w))
  | v :: views =>
      let! r := tick ord fuel (v_delivery v) w (v_node v) (v_mgr v) in
      match r with
      | None => Done None
      | Some (out, _, _, w) =>
          let! r := ticks fuel w views in
          Done ((λ o, (out ++ o.1, o.2)) <$> r)
      end
  end.

Definition block_events (l : list announcement) : list value := an_data <$> filter (λ a, an_type a = "new_blocks") l.

(** The chain is only appended to, from one tick to the next. *)
Fixpoint appended (fuel : nat) (chain : list Block) (views : list view) : Prop :=
  match views with
  | [] => True
  | v :: views =>
      fair_delivery (v_delivery v) ∧ followed fuel (v_node v) ∧ consistent (v_mgr v) ∧
      (read_out <$> chain) `prefix_of` (read_out <$> Chain (Node.n_bc (v_node v))) ∧
      appended fuel (Chain (Node.n_bc (v_node v))) views
  end.

(** Every transaction in the mempool has an id of at least ten characters. *)
Definition ten_character_ids (v : view) : Prop :=
  Forall (λ tx, (10 ≤ String.length (TransactionID tx))%nat) (Mempool.GetTransactions (Node.n_mempool (v_node v))).

Definition last_chain (chain : list Block) (views : list view) : list Block :=
  match last views with Some v => Chain (Node.n_bc (v_node v)) | None => chain end.

Lemma unseen_Forall (P : Transaction → Prop) txs : Forall P txs → ∀ known, Forall P (unseen known txs).
Proof. induction 1 as [|tx txs Hx _ IH]; intros known; cbn; [constructor|]. case_bool_decide; [apply IH|]. by constructor. Qed.

Lemma block_events_split blocks pending : Forall (λ a, an_type a = "new_blocks") blocks →
  Forall (λ a, an_type a = "pending_transactions") pending → block_events (blocks ++ pending) = an_data <$> blocks.
Proof. intros Hb Hp. unfold block_events. rewrite filter_app, (filter_none _ blocks Hb), (filter_unmatched _ pending), app_nil_r; [done|].
  eapply Forall_impl; [exact Hp|]. intros a Ha. cbn. by rewrite Ha.
Qed.

Lemma prefix_length_reads (l l' : list Block) : (read_out <$> l) `prefix_of` (read_out <$> l') → (length l ≤ length l')%nat.
Proof. intros Hp. apply prefix_length in Hp. by rewrite !length_fmap in Hp. Qed.

Lemma last_chain_cons chain v views : last_chain chain (v :: views) = last_chain (Chain (Node.n_bc (v_node v))) views.
Proof. unfold last_chain. rewrite last_cons. by destruct (last views). Qed.

Lemma appended_prefix fuel views : ∀ chain, appended fuel chain views →
  (read_out <$> chain) `prefix_of` (read_out <$> last_chain chain views).
Proof. induction views as [|v views IH]; intros chain Ha; [done|]. destruct Ha as (_ & _ & _ & Hp & Ha).
  rewrite last_chain_cons. etrans; [exact Hp|by apply IH].
Qed.

Lemma reads_between (l l' : list Block) (i : nat) : (read_out <$> l) `prefix_of` (read_out <$> l') → (i ≤ length l)%nat →
  read_out <$> drop i l' = (read_out <$> drop i l) ++ (read_out <$> drop (length l) l').
Proof. intros [k E] Hi. rewrite !fmap_drop, E, drop_app_le by (by rewrite length_fmap). f_equal.
  rewrite drop_app_length'; [done|by rewrite length_fmap].
Qed.

Lemma ticks_spec fuel views : ∀ w chain, appended fuel chain views → Forall ten_character_ids views → (0 < length chain)%nat →
  lastBlockHeight w = Z.of_nat (length chain) - 1 →
  returns (ticks fuel w views) (λ r, ∃ out w', r = Some (out, w') ∧
    block_events out = Events.blockData ∘ read_out <$> drop (length chain) (last_chain chain views)).
Proof.
  induction views as [|v views IH]; intros w chain Ha Hten Hpos Hw.
  { apply returns_Done. exists [], w. unfold last_chain. cbn. by rewrite drop_all. }
  destruct Ha as (Hdl & Hfol & Hc & Hp & Ha). apply Forall_cons in Hten as [Hids Hten]. cbn [ticks].
  destruct (tick_spec fuel (v_delivery v) w (v_node v) (v_mgr v) Hdl Hfol ltac:(lia) Hc (unseen_Forall _ _ Hids _))
    as (r & Er & blocks & pending & sm' & bc' & -> & _ & _ & _ & Hb & Hbt & _ & Hpt). rewrite Er. cbn [obind].
  destruct Hfol as (Hn & Hpos' & _). pose proof (prefix_length_reads _ _ Hp) as Hlen.
  assert (Hh : GetHeight (Node.n_bc (v_node v)) = Z.of_nat (length (Chain (Node.n_bc (v_node v)))) - 1).
  { rewrite (height_numbered _ Hn); [lia|]. intros E. rewrite E in Hpos'. cbn in Hpos'. lia. }
  match goal with |- context [ticks fuel ?w' views] => destruct (IH w' (Chain (Node.n_bc (v_node v))) Ha Hten) as (r & Er' & out & w'' & -> & Hout) end;
    [lia|cbn; lia|]. rewrite Er'. cbn [obind fmap option_fmap option_map]. apply returns_Done. exists ((blocks ++ pending) ++ out), w''.
  split; [done|]. rewrite last_chain_cons. pose proof (appended_prefix fuel views _ Ha) as Hpre.
  transitivity (block_events (blocks ++ pending) ++ block_events out).
  { unfold block_events. by rewrite filter_app, fmap_app. }
  rewrite (block_events_split _ _ Hbt Hpt), Hout, Hb. unfold after. rewrite Hw.
  replace (Z.to_nat (Z.of_nat (length chain) - 1 + 1)) with (length chain) by lia.
  rewrite !(list_fmap_compose read_out), <- fmap_app. f_equal. symmetry. by apply reads_between.
Qed.

(** C24 From its start on, over any number of ticks of a chain that is only appended
    to and at which every transaction in the mempool has an id of at least ten
    characters, the routine announces exactly the blocks that were appended, each of
    them once and in the order of the chain; whatever subscribers and failed writes
    there are. A shorter id, which any peer can send, ends the routine
    ([short_coinbase_stops_node]). *)
Theorem blocks_announced_once fuel n0 views : numbered (Chain (Node.n_bc n0)) → (0 < length (Chain (Node.n_bc n0)))%nat →
  appended fuel (Chain (Node.n_bc n0)) views → Forall ten_character_ids views →
  ∃ out w', ticks fuel (Monitor.start n0) views = Done (Some (out, w')) ∧
    block_events out = Events.blockData ∘ read_out <$>
      drop (length (Chain (Node.n_bc n0))) (last_chain (Chain (Node.n_bc n0)) views).
Proof.
  intros Hn Hpos Ha Hten. destruct (ticks_spec fuel views (Monitor.start n0) _ Ha Hten Hpos) as (r & E & out & w' & -> & Hb); [|eauto].
  cbn. rewrite (height_numbered _ Hn); [lia|]. intros E. rewrite E in Hpos. cbn in Hpos. lia.
Qed.

(** ** The server as a whole *)

(** A connection that is neither open nor referred to. *)
Definition unused (s : RPCServer) (conn : nat) : Prop :=
  wsConnections s !! conn = None ∧
  ∀ id sub, Manager.subscriptions (subscriptionMgr s) !! id = Some sub → sub_WebSocket sub ≠ Some conn.

(** What can happen: a request by HTTP, a connection that opens, sends a message
    (and is closed when its loop ends) or closes, a tick of the announcements, a
    tick of the clean-up, and a change of the node by its other parts. *)
Inductive server_step (ro : range_order) : RPCServer * Monitor.t → RPCServer * Monitor.t → Prop :=
  | step_http s w d remote body r s' :
      fresh_draw (subscriptionMgr s) d → handleRPCRequest ord ro d s remote body = Done (r, s') →
      server_step ro (s, w) (s', w)
  | step_open s w conn ip :
      EnableSubscriptions s = true → unused s conn → server_step ro (s, w) (ws_open s conn ip, w)
  | step_message s w d reachable conn ip msg r (on : bool) s' :
      wsConnections s !! conn = Some ip → fresh_draw (subscriptionMgr s) d →
      ws_turn ord ro d reachable s ip conn msg = Done (r, on, s') →
      server_step ro (s, w) (if on then s' else ws_close s' conn, w)
  | step_close s w conn : server_step ro (s, w) (ws_close s conn, w)
  | step_tick s w fuel dl out sm n w' :
      fair_delivery dl → tick ord fuel dl w (node s) (subscriptionMgr s) = Done (Some (out, sm, n, w')) →
      server_step ro (s, w) (set_node (set_mgr s sm) n, w')
  | step_clean s w now :
      server_step ro (s, w) (set_mgr s (Manager.cleanupStaleSubscriptions ro now (subscriptionMgr s)), w)
  | step_node s w n : server_step ro (s, w) (set_node s n, w).

(** *** What the ticks do to the subscriptions *)

Definition calmed (sm sm' : Manager.t) : Prop := consistent sm → consistent sm' ∧ shrinks sm sm'.

Lemma calmed_refl sm : calmed sm sm.
Proof. intros Hc. split; [done|apply shrinks_refl]. Qed.
Lemma calmed_trans sm1 sm2 sm3 : calmed sm1 sm2 → calmed sm2 sm3 → calmed sm1 sm3.
Proof. intros H12 H23 Hc. destruct (H12 Hc) as [Hc2 ?]. destruct (H23 Hc2). split; [done|by eapply shrinks_trans]. Qed.

Lemma announce_calm dl ty data out sm out' sm' : fair_delivery dl → announce dl ty data (out, sm) = Done (out', sm') → calmed sm sm'.
Proof. intros Hdl. unfold announce. destruct (Manager.NotifySubscribers _ _ _ _ _ _) as [[sent sm1]| |] eqn:E; cbn; try done.
  intros E'. injection E' as <- <-. intros Hc. split; [by eapply notify_consistent|by eapply notify_shrinks].
Qed.

Lemma blocks_calm dl last fuel : fair_delivery dl → ∀ h out sm bc out' sm' bc',
  for_loop fuel (λ h _, h <=? last) up (block_turn ord dl) h ((out, sm), bc) = Done (Some ((out', sm'), bc')) → calmed sm sm'.
Proof. intros Hdl. induction fuel as [|fuel IH]; intros h out sm bc out' sm' bc'; [done|]. cbn [for_loop].
  destruct (h <=? last); [|intros E; injection E as <- <- <-; apply calmed_refl]. unfold block_turn at 1.
  destruct (ChainStore.GetBlockByHeight ord bc h) as [[[b|] bc1]| |]; cbn [obind]; try done; [|apply IH].
  destruct (announce _ _ _ _) as [[out1 sm1]| |] eqn:Ea; cbn [obind]; try done. intros E.
  eapply calmed_trans; [by eapply announce_calm|by eapply IH].
Qed.

Lemma txs_panic dl txs : ∀ acc, is_Done acc = false → is_Done (foldl (tx_turn dl) acc txs) = false.
Proof. induction txs as [|tx txs IH]; intros acc Ha; [done|]. cbn. apply IH. by destruct acc. Qed.

Lemma txs_calm dl txs : fair_delivery dl → ∀ out sm known out' sm' known',
  foldl (tx_turn dl) (Done ((out, sm), known)) txs = Done ((out', sm'), known') → calmed sm sm'.
Proof. intros Hdl. induction txs as [|tx txs IH]; intros out sm known out' sm' known'; cbn [foldl].
  - intros E. injection E as <- <- <-. apply calmed_refl.
  - unfold tx_turn at 2. cbn [obind]. case_bool_decide; [apply IH|]. destruct (log_id _) as [x| |]; cbn [obind].
    2,3: intros E; match type of E with ?t = _ => assert (Hx : is_Done t = false) by (by apply txs_panic); by rewrite E in Hx end.
    destruct (announce _ _ _ _) as [[out1 sm1]| |] eqn:Ea; cbn [obind].
    2,3: intros E; match type of E with ?t = _ => assert (Hx : is_Done t = false) by (by apply txs_panic); by rewrite E in Hx end.
    intros E. eapply calmed_trans; [by eapply announce_calm|by eapply IH].
Qed.

Lemma tick_calm fuel dl w n sm out sm' n' w' : fair_delivery dl →
  tick ord fuel dl w n sm = Done (Some (out, sm', n', w')) → calmed sm sm'.
Proof. intros Hdl. unfold tick. destruct (new_blocks _ _ _ _ _ _) as [[[[[out1 sm1] n1] w1]|]| |] eqn:En; cbn [obind]; try done.
  destruct (foldl _ _ _) as [[[out2 sm2] known]| |] eqn:Et; cbn [obind]; try done. intros E. injection E as <- <- <- <-.
  eapply calmed_trans; [|by eapply txs_calm]. revert En. unfold new_blocks.
  destruct (_ <? _); [|intros E; injection E as <- <- <- <-; apply calmed_refl].
  destruct (for_loop _ _ _ _ _ _) as [[[[o s1] b]|]| |] eqn:El; cbn [obind]; try done. intros E. injection E as <- <- <- <-.
  by eapply blocks_calm.
Qed.

(** *** The invariant *)

Lemma served_step ro p q : fair ro → server_step ro p q → served (wsConnections p.1) (subscriptionMgr p.1) →
  served (wsConnections q.1) (subscriptionMgr q.1).
Proof.
  assert (Hclose : ∀ s conn, served (wsConnections s) (subscriptionMgr s) →
    served (wsConnections (ws_close s conn)) (subscriptionMgr (ws_close s conn))).
  { intros s conn (Hc & Hm & Hs). split; [done|]. split; [done|]. intros id sub Hl. destruct (Hs id sub Hl) as (? & c & ? & Hc').
    split; [done|]. exists c. split; [done|]. intros ip Hip. cbn in Hip. apply lookup_delete_Some in Hip as [_ Hip]. by apply Hc'. }
  intros Hro. destruct 1 as [s w d remote body r s' Hd E|s w conn ip He Hu|s w d rb conn ip msg r on s' Hconn Hd E|
    s w conn|s w fuel dl out sm n w' Hdl E|s w now|s w n]; cbn [fst]; intros Hs.
  - unfold handleRPCRequest in E. destruct (http_response _ _ _ _ _ _) as [[r1 s1]| |] eqn:E1; cbn in E; try done. injection E as <- <-.
    destruct (http_served _ _ _ _ _ _ _ _ Hs Hd E1) as [Hs' ->]. done.
  - destruct Hs as (Hc & Hm & Hs). split; [done|]. split; [done|]. intros id sub Hl. destruct (Hs id sub Hl) as (? & c & Hw & Hc').
    split; [done|]. exists c. split; [done|]. intros ip' Hip. cbn in Hip.
    apply lookup_insert_Some in Hip as [[<- _]|[_ Hip]]; [by destruct (proj2 Hu id sub Hl)|by apply Hc'].
  - unfold ws_turn in E. destruct (ws_response _ _ _ _ _ _ _) as [[r1 s1]| |] eqn:E1; cbn in E; try done.
    injection E as <- <- <-. destruct (ws_served _ _ _ _ _ _ _ _ _ Hs Hd Hconn E1) as [Hs' Hw]. rewrite <- Hw in Hs'.
    destruct (_ || _); [done|by apply Hclose].
  - by apply Hclose.
  - cbn. destruct (tick_calm _ _ _ _ _ _ _ _ _ Hdl E (proj1 Hs)) as [Hc' Hsh]. by eapply served_shrinks.
  - cbn. destruct (cleanup_spec ro now (subscriptionMgr s) Hro (proj1 Hs)) as (Hc' & Hm & Hl). eapply served_shrinks; [done..|].
    split; [done|]. intros id sub' Hx. rewrite Hl in Hx. apply map_lookup_filter_Some in Hx as [Hx _]. by exists sub'.
  - done.
Qed.

Definition server_ok (s : RPCServer) : Prop := served (wsConnections s) (subscriptionMgr s).

Lemma register_ok (l : list (string * RPCMethodHandler)) : ∀ s, server_ok s →
  server_ok (foldl (λ s m, registerMethod s m.1 m.2) s l).
Proof. induction l as [|m l IH]; intros s Hs; [done|]. by apply (IH (registerMethod s m.1 m.2)). Qed.

Lemma new_server_ok n b handler : server_ok (NewRPCServer n b handler).
Proof. unfold NewRPCServer, registerAllHandlers. cbn zeta. apply register_ok.
  assert (server_ok (Dispatch.mk n ∅ b (Manager.NewSubscriptionManager 10) ∅)).
  { split; [by apply consistent_new|]. split; [done|]. intros id sub. cbn. by rewrite lookup_empty. }
  destruct b; [apply register_ok|]; by apply register_ok.
Qed.

Lemma registered (handler : string → RPCMethodHandler) (l : list string) : ∀ s m,
  methods (foldl (λ s m, registerMethod s m.1 m.2) s ((λ m, (m, handler m)) <$> l)) !! m =
    if decide (m ∈ l) then Some (handler m) else methods s !! m.
Proof.
  induction l as [|x l IH]; intros s m; [done|]. cbn [fmap list_fmap foldl fst snd].
  etransitivity; [exact (IH (registerMethod s x (handler x)) m)|].
  destruct (decide (m ∈ l)) as [Hm|Hm].
  - rewrite decide_True by set_solver. done.
  - cbn [registerMethod methods]. destruct (decide (m = x)) as [->|Hx].
    + rewrite lookup_insert_eq. by rewrite decide_True by set_solver.
    + rewrite lookup_insert_ne by done. by rewrite decide_False by set_solver.
Qed.

(** A new server knows exactly the methods of the tables, each by its handler. *)
Lemma methods_registered n b handler m : methods (NewRPCServer n b handler) !! m =
  if decide (m ∈ internalMethods) then Some (handler m)
  else if decide (b = true ∧ m ∈ subscriptionMethods) then Some wrapper
  else if decide (m ∈ apiMethods) then Some (handler m) else None.
Proof.
  unfold NewRPCServer, registerAllHandlers. cbn zeta. rewrite registered. destruct (decide (m ∈ internalMethods)); [done|].
  destruct b.
  - rewrite (registered (λ _, wrapper)). destruct (decide (m ∈ subscriptionMethods)).
    + by rewrite decide_True.
    + rewrite decide_False by naive_solver. rewrite registered. cbn [methods]. by rewrite lookup_empty.
  - rewrite decide_False by naive_solver. rewrite registered. cbn [methods]. by rewrite lookup_empty.
Qed.

(** C23 In every state that the server can come to, by any interleaving of requests,
    messages, connections, announcements and clean-ups: an open connection's client
    has at most ten subscriptions; its list is exactly the ids of those; and every
    subscription that is served over the connection is on the list, under its own
    id and for a type of event that exists. *)
Theorem connections_isolated ro n b handler s w conn ip : fair ro →
  rtc (server_step ro) (NewRPCServer n b handler, Monitor.start n) (s, w) → wsConnections s !! conn = Some ip →
  let subs := Manager.subscriptions (subscriptionMgr s) in
  let listed := Manager.GetSubscriptions ro (subscriptionMgr s) ip in
  (length listed ≤ 10)%nat ∧ NoDup listed ∧
  (∀ id, id ∈ listed ↔ ∃ sub, subs !! id = Some sub ∧ sub_ClientIP sub = ip) ∧
  (∀ id sub, subs !! id = Some sub → sub_WebSocket sub = Some conn →
     id ∈ listed ∧ sub_ID sub = id ∧ sub_Type sub ∈ Events.validEventTypes).
Proof.
  intros Hro Hreach Hconn subs listed.
  assert (Hs : served (wsConnections s) (subscriptionMgr s)).
  { change s with ((s, w).1). refine (rtc_ind_r (λ p, served (wsConnections p.1) (subscriptionMgr p.1)) _ _ _ _ Hreach).
    - apply new_server_ok.
    - intros p q _ Hpq Hp. by eapply served_step. }
  destruct Hs as (Hc & Hm & Hs).
  assert (Hl : listed ≡ₚ elements (of_client ip subs)).
  { unfold listed, subs, Manager.GetSubscriptions. rewrite <- (con_index _ Hc ip).
    destruct (Manager.clientSubscriptions (subscriptionMgr s) !! ip); [apply Hro|]. cbn. by rewrite elements_empty. }
  assert (Hin : ∀ id, id ∈ listed ↔ ∃ sub, subs !! id = Some sub ∧ sub_ClientIP sub = ip).
  { intros id. rewrite Hl, elem_of_elements. apply elem_of_client. }
  split; [|split; [rewrite Hl; apply NoDup_elements|split; [exact Hin|]]].
  - rewrite Hl. pose proof (con_quota _ Hc ip) as Hq. rewrite Hm in Hq. unfold size, set_size in Hq. cbn in Hq. fold subs in Hq. lia.
  - intros id sub Hx Hw. destruct (Hs id sub Hx) as (Hty & c & Hw' & Hip). rewrite Hw in Hw'. apply (inj Some) in Hw'. subst c.
    split; [apply Hin; exists sub; split; [done|by apply Hip]|]. split; [by apply (con_ids _ Hc)|done].
Qed.

(** ** Ids that are too short *)

Definition short (tx : Transaction) : Prop := (String.length (TransactionID tx) < 10)%nat.

Lemma txs_panic_same dl txs e : foldl (tx_turn dl) (Panic e) txs = Panic e.
Proof. induction txs as [|tx txs IH]; [done|exact IH]. Qed.

Lemma short_id_panics dl tx : fair_delivery dl → short tx → ∀ txs out sm known, consistent sm →
  tx ∈ txs → TransactionID tx ∉ known →
  foldl (tx_turn dl) (Done ((out, sm), known)) txs = Panic "slice bounds out of range".
Proof.
  intros Hdl Hsh. induction txs as [|t txs IH]; intros out sm known Hc Hin Hk; [by apply not_elem_of_nil in Hin|].
  cbn [foldl]. unfold tx_turn at 2. cbn [obind]. case_bool_decide as Ht.
  { apply elem_of_cons in Hin as [->|Hin]; [done|by apply IH]. }
  unfold log_id. destruct (Nat.ltb_spec (String.length (TransactionID t)) 10) as [Hlt|Hge]; cbn [obind]; [apply txs_panic_same|].
  destruct (announce_spec dl "pending_transactions" (Events.txData t) out sm Hdl) as ([out1 sm1] & Ea & Hc1 & _); [done|done|].
  rewrite Ea. cbn [obind]. assert (Hne : TransactionID t ≠ TransactionID tx).
  { intros E. rewrite E in Hge. unfold short in Hsh. lia. }
  apply IH; [done| |set_solver]. apply elem_of_cons in Hin as [->|Hin]; [done|exact Hin].
Qed.

(** A peer can stop a node that announces events: a coinbase transaction with an
    id of fewer than ten characters is taken into the mempool unchecked, and the
    next tick panics in the routine, which nothing recovers. *)
Theorem short_coinbase_stops_node tbl n peer tx us fuel dl w sm :
  Tx.IsCoinbase tx = true → short tx → Mempool.has_id (TransactionID tx) (Mempool.Transactions (Node.n_mempool n)) = false →
  Z.of_nat (length (Mempool.Transactions (Node.n_mempool n))) < Mempool.maxSize (Node.n_mempool n) →
  Node.with_pool n Node.GetUTXOs = Done us → TransactionID tx ∉ knownTxIDs w → 0 ≤ lastBlockHeight w →
  fair_delivery dl → followed fuel n → consistent sm →
  ∃ n', Node.handleTransactionStream tbl n peer (Some ("NewTransaction", Some tx)) = Done (n', None) ∧
    tick ord fuel dl w n' sm = Panic "slice bounds out of range".
Proof.
  intros Hcb Hsh Hid Hsz Hus Hk Hw Hdl Hfol Hc.
  set (m := Mempool.set_txs (Node.n_mempool n) (stable_sort Mempool.by_fee (Mempool.Transactions (Node.n_mempool n) ++ [tx]))).
  exists (Node.score (Node.set_mempool n m) peer 1). split.
  - unfold Node.handleTransactionStream. cbn [orb]. change (str_eqb "NewTransaction" "NewTransaction") with true. cbn [orb].
    unfold Node.processTransaction, Node.validateTransaction. rewrite Hcb. cbn [orb obind negb]. rewrite Hus. cbn [obind].
    unfold Mempool.AddTransaction. rewrite Hid. unfold Mempool.ValidateTransaction. rewrite Hcb. cbn [orb obind negb].
    rewrite Z.geb_leb, (proj2 (Z.leb_gt _ _)) by lia. done.
  - unfold tick. set (n' := Node.score _ _ _).
    destruct Hfol as (Hn & Hpos & Hmax & Hf).
    destruct (new_blocks_spec fuel dl w n' sm Hdl Hn Hpos Hmax Hf Hw Hc) as (r & Er & blocks & sm1 & bc1 & -> & _ & Hc1 & _).
    rewrite Er. cbn [obind]. change (Mempool.GetTransactions (Node.n_mempool (Node.set_bc n' bc1)))
      with (stable_sort Mempool.by_fee (Mempool.Transactions (Node.n_mempool n) ++ [tx])). cbn [knownTxIDs].
    rewrite (short_id_panics dl tx Hdl Hsh); [done|done| |done].
    rewrite stable_sort_perm. apply elem_of_app. right. by apply list_elem_of_singleton.
Qed.

(** Any client that knows the id of a subscription can end it: the client that asks
    is not compared with the one that subscribed. *)
Lemma anyone_unsubscribes sm raw ip ws id sub : Events.read_strings raw = Some [id] → Manager.subscriptions sm !! id = Some sub →
  Events.handleSupUnsubscribe sm (Events.mkContext raw ip ws) = (Ok (VBool true), Manager.drop sm id sub).
Proof. intros Hr Hs. unfold Events.handleSupUnsubscribe. cbn [Events.ctx_RawMessage]. rewrite Hr. unfold Manager.RemoveSubscription. by rewrite Hs. Qed.

(** The end of a connection leaves its subscriptions in place, and in the quota. *)
Lemma close_keeps_subscriptions s conn : subscriptionMgr (ws_close s conn) = subscriptionMgr s.
Proof. done. Qed.

End server.

(** ** Witnesses *)

Import Monitor.

Definition block_count : @RPCMethodHandler mem_kv := λ _ n, Done (Ok (VUint (GetHeight (Node.n_bc n))), n).
Definition demo_server : @RPCServer mem_kv := NewRPCServer demo_node true (λ _, block_count).
Definition demo_draw : Events.draw := Events.mkDraw (demo_id "0") "" 0 0.
Definition ask (method : string) (params : option value) : option JSONRPCRequest :=
  Some (mkRequest "2.0" method params (VFloat (f64_of_Z 7))).

Lemma block_count_registered : methods demo_server !! "getBlockCount" = Some block_count.
Proof. reflexivity. Qed.
Lemma demo_height : GetHeight (Node.n_bc demo_node) = 1.
Proof. reflexivity. Qed.
Lemma demo_regular : regular (mkRequest "2.0" "getBlockCount" None (VFloat (f64_of_Z 7))).
Proof. unfold regular. cbn [req_Method]. by apply (bool_decide_eq_false _). Qed.

Lemma http_and_websocket_agree_witness :
  ws_response (λ l, l) id demo_draw demo_server "10.0.0.1:5000" 1 (ask "getBlockCount" None) =
    Done (mkResponse (inl (VUint 1)) (VFloat (f64_of_Z 7)), set_node demo_server demo_node).
Proof.
  refine (proj1 (http_and_websocket_agree (λ l, l) id id demo_draw demo_draw demo_server "10.0.0.9:80" "10.0.0.1:5000" 1
    (ask "getBlockCount" None) _ _ _ _)).
  - intros req E. apply (inj Some) in E. subst req. exact demo_regular.
  - unfold http_response, ask. cbn [req_JSONRPC]. change (negb (str_eqb "2.0" "2.0")) with false. cbn match.
    rewrite (regular_call _ _ _ _ _ _ demo_regular). cbn [req_Method]. rewrite block_count_registered.
    unfold call, block_count. cbn [obind req_Params]. change (node demo_server) with demo_node. rewrite demo_height. reflexivity.
Defined.

Lemma demo_numbered : numbered (Chain (Node.n_bc demo_node)).
Proof. exact (proj1 demo_scannable). Qed.

Definition bare_node : @Node.t mem_kv := Node.NewNode (ChainFacts.start plain_block []) None None false "net".
Definition demo_delivery : delivery := mkDelivery (λ _, id) (λ _ _, true) (λ _ _, 0).
Definition demo_view (n : @Node.t mem_kv) : @view mem_kv := mkView demo_delivery n (Manager.NewSubscriptionManager 10).

Lemma demo_followed : followed 5 demo_node.
Proof. split_and!; [exact demo_numbered|apply Nat.ltb_lt; reflexivity|reflexivity|apply Nat.ltb_lt; reflexivity]. Qed.

Lemma bare_numbered : numbered (Chain (Node.n_bc bare_node)).
Proof. intros [|i] b Hb; [injection Hb as <-; reflexivity|done]. Qed.

Lemma blocks_announced_once_witness :
  ∃ out w', ticks (λ l, l) 5 (Monitor.start bare_node) [demo_view bare_node; demo_view demo_node] = Done (Some (out, w')) ∧
    block_events out = [Events.blockData (read_out paid_block)].
Proof.
  refine (blocks_announced_once (λ l, l) 5 bare_node [demo_view bare_node; demo_view demo_node] bare_numbered _ _ _).
  - apply Nat.ltb_lt. reflexivity.
  - assert (Hdl : fair_delivery demo_delivery) by (intros v ks; reflexivity).
    assert (Hc : consistent (Manager.NewSubscriptionManager 10)) by (by apply consistent_new).
    split; [exact Hdl|]. split; [split_and!; [exact bare_numbered|apply Nat.ltb_lt; reflexivity|reflexivity|apply Nat.ltb_lt; reflexivity]|].
    split; [exact Hc|]. split; [reflexivity|].
    split; [exact Hdl|]. split; [exact demo_followed|]. split; [exact Hc|].
    split; [exists [read_out paid_block]; reflexivity|exact I].
  - constructor; [constructor|]. constructor; [constructor|constructor].
Defined.

(** A connection that opens and subscribes. *)
Definition open_server : @RPCServer mem_kv := ws_open demo_server 1 "10.0.0.1:5000".
Definition subscribe : raw_message := mkRaw (ask "sup_subscribe" (Some (VList [VStr "new_blocks"]))) false.
Definition subscribed : Manager.t :=
  (Manager.AddSubscription (demo_id "0") 0 0 (Manager.NewSubscriptionManager 10) "10.0.0.1:5000" "new_blocks" [] (Some 1%nat)).2.

Lemma demo_subscribes : ws_turn (λ l, l) id demo_draw true open_server "10.0.0.1:5000" 1 subscribe =
  Done (Some (mkResponse (inl (VStr (demo_id "0"))) (VFloat (f64_of_Z 7))), true, set_mgr open_server subscribed).
Proof. reflexivity. Qed.

Lemma connections_isolated_witness :
  ∃ sub, Manager.subscriptions subscribed !! demo_id "0" = Some sub ∧
    demo_id "0" ∈ Manager.GetSubscriptions id subscribed "10.0.0.1:5000" ∧ sub_Type sub = "new_blocks".
Proof.
  assert (Hro : fair id) by (intros ks; reflexivity).
  assert (Hrun : rtc (server_step (λ l, l) id) (demo_server, Monitor.start demo_node)
    (set_mgr open_server subscribed, Monitor.start demo_node)).
  { eapply rtc_l.
    - apply (step_open (λ l, l) id demo_server _ 1%nat "10.0.0.1:5000"); [reflexivity|]. split; [reflexivity|].
      intros i sub Hi. change (Manager.subscriptions (subscriptionMgr demo_server)) with (∅ : gmap string Subscription) in Hi.
      by rewrite lookup_empty in Hi.
    - apply rtc_once. refine (step_message (λ l, l) id open_server _ demo_draw true 1%nat "10.0.0.1:5000" subscribe _ true _ _ _ demo_subscribes);
        [reflexivity|split; reflexivity]. }
  eexists. split; [vm_compute; reflexivity|].
  destruct (connections_isolated (λ l, l) id demo_node true (λ _, block_count) (set_mgr open_server subscribed)
    (Monitor.start demo_node) 1%nat "10.0.0.1:5000" Hro Hrun eq_refl) as (_ & _ & _ & Hown).
  split; [|reflexivity]. eapply (Hown (demo_id "0")); [vm_compute; reflexivity|reflexivity].
Defined.

Definition short_coinbase : Transaction :=
  mkTransaction "x" "" "" f64_zero 0 0 f64_zero [] [] TX_COINBASE 0 0 0 0 0 [] "" [].
Definition pooled_node : @Node.t mem_kv :=
  Node.mk (Node.n_bc demo_node) Mempool.NewMempool (Some Pool.NewUTXOPool) None PeerManager.NewPeerManager ∅ false false 0 None ∅ None "net".

Lemma short_coinbase_stops_node_witness :
  ∃ n', Node.handleTransactionStream ∅ pooled_node "peer" (Some ("NewTransaction", Some short_coinbase)) = Done (n', None) ∧
    tick (λ l, l) 5 demo_delivery (Monitor.start pooled_node) n' (Manager.NewSubscriptionManager 10) = Panic "slice bounds out of range".
Proof.
  refine (short_coinbase_stops_node (λ l, l) ∅ pooled_node "peer" short_coinbase ∅ 5 demo_delivery (Monitor.start pooled_node)
    (Manager.NewSubscriptionManager 10) eq_refl _ eq_refl _ eq_refl _ _ _ demo_followed _).
  - apply Nat.ltb_lt. reflexivity.
  - reflexivity.
  - change (knownTxIDs (Monitor.start pooled_node)) with (∅ : gset string). apply not_elem_of_empty.
  - vm_compute. discriminate.
  - intros v ks. reflexivity.
  - by apply consistent_new.
Defined.
