(* ===== verification/ServerHandlersFacts.v ===== *)
(** * Correctness of the server's own handlers

    A transaction is found in the mempool or in the newest block that the search
    reaches, which are the blocks up to number 1000; the history of an address is a
    page of the sorted list of what was collected, and a negative offset panics.
    All multi-signature wallets get one address. *)

From stdpp Require Import base gmap strings list.
From Stdlib Require Import ZArith Lia.
From S2P Require Import Prelude.
From S2P Require Import Float64.
From S2P Require Import Sha256.
From S2P Require Import Database.
From S2P Require Import P256.
From S2P Require Import Crypto.
From S2P Require Import Transaction.
From S2P Require Import Utxo.
From S2P Require Import Mempool.
From S2P Require Import MempoolFacts.
From S2P Require Import Trie.
From S2P Require Import Block.
From S2P Require Import BlockFacts.
From S2P Require Import Chain.
From S2P Require Import ChainFacts.
From S2P Require Import ChainStore.
From S2P Require Import ChainStoreFacts.
From S2P Require Import SyncFacts.
From S2P Require Import P2p.
From S2P Require Import Rpc.
From S2P Require Import RpcFacts.
From S2P Require Import RpcTxFacts.
From S2P Require Import Server.
From S2P Require Import ServerFacts.
From S2P Require Import ServerHandlers.

Import Handlers.

Section handlers.
Context `{KV} `{ECDSA} `{GoImpl} (ord : child_order).

(** ** Looking for a transaction *)

(** The newest block from number [k] down to number 1 with the transaction. *)
Fixpoint newest_with (txid : string) (chain : list Block) (k : nat) : option Located :=
  match k with
  | O => None
  | S below =>
      match b ← chain !! k; (λ tx, mkLocated tx (Some (read_out b))) <$>
              with_id txid (Trie.GetAllTransactions ord (block_Transactions (read_out b))) with
      | Some l => Some l
      | None => newest_with txid chain below
      end
  end.

Lemma find_down txid bc : numbered (Chain bc) → Z.of_nat (length (Chain bc)) < 2 ^ 64 →
  ∀ k fuel bc', same_reads bc bc' → (k < fuel)%nat → (k < length (Chain bc))%nat →
  ∃ bc'', for_loop fuel (λ i _, 0 <? i) down (find_turn ord txid) (Z.of_nat k) (None, bc') =
    Done (Some (newest_with txid (Chain bc) k, bc'')) ∧ same_reads bc bc''.
Proof.
  intros Hn Hu. induction k as [|k IH]; intros fuel bc' Hs Hf Hk.
  { exists bc'. by rewrite for_loop_stop. }
  destruct fuel as [|fuel]; [lia|]. destruct (lookup_lt_is_Some_2 _ _ Hk) as [b Hb].
  destruct (look ord bc bc' (S k) b Hn Hs Hb) as (bc1 & E & Hs1). cbn [newest_with]. rewrite Hb. cbn [mbind option_bind].
  cbn [for_loop]. rewrite (proj2 (Z.ltb_lt 0 _)) by lia. unfold find_turn at 1. rewrite E. cbn [obind].
  destruct (with_id txid _) as [tx|]; cbn [obind fmap option_fmap option_map].
  - exists bc1. done.
  - rewrite down_small by lia. replace (Z.of_nat (S k) - 1) with (Z.of_nat k) by lia. apply IH; [done|lia|lia].
Qed.

(** The number of the block the search starts at. *)
Definition first_searched (chain : list Block) : nat := Nat.min (length chain - 1) 1000.

Lemma search_top_numbered n : numbered (Chain (Node.n_bc n)) → Chain (Node.n_bc n) ≠ [] →
  search_top n = Z.of_nat (first_searched (Chain (Node.n_bc n))).
Proof. intros Hn Hne. unfold search_top, maxSearchHeight, first_searched. rewrite (height_numbered _ Hn Hne).
  assert (length (Chain (Node.n_bc n)) ≠ 0%nat) by (by destruct (Chain (Node.n_bc n))).
  destruct (Z.ltb_spec 1000 (Z.of_nat (length (Chain (Node.n_bc n))) - 1)); lia.
Qed.

(** Looking for a transaction returns it from the mempool if it is pending, and
    else from the newest block that has it among those with the numbers 1 to 1000;
    blocks above are never searched, although the comment says that the search
    starts with the latest. *)
Theorem handleGetTransaction_spec fuel n txid : scannable fuel (Node.n_bc n) → txid ≠ "" →
  let chain := Chain (Node.n_bc n) in
  ∃ bc', handleGetTransaction ord fuel n (Some txid) =
    Done (Some (match with_id txid (Mempool.GetTransactions (Node.n_mempool n)) with
                | Some tx => inl (mkLocated tx None)
                | None => match newest_with txid chain (first_searched chain) with
                          | Some l => inl l
                          | None => failed "Transaction not found" DNil
                          end
                end, Node.set_bc n bc')) ∧ same_reads (Node.n_bc n) bc'.
Proof.
  intros (Hn & Hne & Hu & Hf) Hid chain. unfold handleGetTransaction. rewrite (proj2 (str_eqb_neq _ _) Hid).
  destruct (with_id txid _) as [tx|].
  { exists (Node.n_bc n). split; [by destruct n|apply same_reads_refl]. }
  assert (length chain ≠ 0%nat) by (unfold chain; by destruct (Chain (Node.n_bc n))).
  destruct (find_down txid (Node.n_bc n) Hn Hu (first_searched chain) fuel (Node.n_bc n) (same_reads_refl _)) as (bc' & E & Hs);
    [unfold first_searched, chain in *; lia..|].
  exists bc'. rewrite (search_top_numbered n Hn Hne). fold chain. rewrite E. cbn [obind]. split; [|exact Hs].
  fold chain. by destruct (newest_with txid chain (first_searched chain)).
Qed.

(** ** Histories *)

(** What the search collects, from number [k] down, until it has enough. *)
Fixpoint collected (address : string) (enough : Z) (chain : list Block) (k : nat) (l : list Located) : list Located :=
  match k with
  | O => l
  | S below =>
      match chain !! k with
      | None => collected address enough chain below l
      | Some b =>
          let l := l ++ confirmed_in ord address (read_out b) in
          if enough <=? Z.of_nat (length l) then l else collected address enough chain below l
      end
  end.

Lemma collect_history address enough bc : numbered (Chain bc) → Z.of_nat (length (Chain bc)) < 2 ^ 64 →
  ∀ k fuel bc' l, same_reads bc bc' → (k < fuel)%nat → (k < length (Chain bc))%nat →
  ∃ bc'', for_loop fuel (λ i _, 0 <? i) down (Handlers.history_turn ord address enough) (Z.of_nat k) (l, bc') =
    Done (Some (collected address enough (Chain bc) k l, bc'')) ∧ same_reads bc bc''.
Proof.
  intros Hn Hu. induction k as [|k IH]; intros fuel bc' l Hs Hf Hk.
  { exists bc'. by rewrite for_loop_stop. }
  destruct fuel as [|fuel]; [lia|]. destruct (lookup_lt_is_Some_2 _ _ Hk) as [b Hb].
  destruct (look ord bc bc' (S k) b Hn Hs Hb) as (bc1 & E & Hs1). cbn [collected]. rewrite Hb.
  cbn [for_loop]. rewrite (proj2 (Z.ltb_lt 0 _)) by lia. unfold Handlers.history_turn at 1. rewrite E. cbn [obind].
  destruct (enough <=? _); cbn [obind].
  - exists bc1. done.
  - rewrite down_small by lia. replace (Z.of_nat (S k) - 1) with (Z.of_nat k) by lia. apply IH; [done|lia|lia].
Qed.

(** The history of an address is a page, cut at offset and limit, of what was
    collected, sorted by time: the pending transactions and then those of the blocks
    from the newest searched (at most number 1000) down, until the page is full. An
    offset past the end gives an empty page. With a negative offset the handler
    panics, whatever the chain holds. *)
Theorem handleGetTransactionHistory_spec fuel n address limit offset desc : scannable fuel (Node.n_bc n) → address ≠ "" →
  is_i64 offset → offset < 2 ^ 63 - 101 →
  let chain := Chain (Node.n_bc n) in
  let lim := capped 20 100 limit in
  let l := collected address (lim + offset) chain (first_searched chain) (pending_of address n) in
  let answer := handleGetTransactionHistory ord fuel n (Some (mkHistoryArgs address limit offset desc)) in
  if decide (offset < 0) then answer = Panic "slice bounds out of range"
  else ∃ bc', answer = Done (Some (inl (take (Z.to_nat lim) (drop (Z.to_nat offset) (stable_sort (by_timestamp desc) l)),
                                        Z.of_nat (length l)), Node.set_bc n bc')) ∧ same_reads (Node.n_bc n) bc'.
Proof.
  intros (Hn & Hne & Hu & Hf) Hid Ho Ho' chain lim l answer.
  pose proof (capped_range 20 100 limit ltac:(lia)) as Hl. fold lim in Hl.
  assert (length chain ≠ 0%nat) by (unfold chain; by destruct (Chain (Node.n_bc n))).
  assert (Hi : i64 (lim + offset) = lim + offset) by (apply i64_small; unfold is_i64 in *; lia).
  destruct (collect_history address (lim + offset) (Node.n_bc n) Hn Hu (first_searched chain) fuel (Node.n_bc n) (pending_of address n)
    (same_reads_refl _)) as (bc' & E & Hs); [unfold first_searched, chain in *; lia..|].
  assert (Ha : answer = let! page := TransactionAPI.slice_page offset lim (stable_sort (by_timestamp desc) l) in
    Done (Some (inl (page, Z.of_nat (length l)), Node.set_bc n bc'))).
  { unfold answer, handleGetTransactionHistory. rewrite (proj2 (str_eqb_neq _ _) Hid). fold lim. rewrite Hi.
    rewrite (search_top_numbered n Hn Hne). fold chain. rewrite E. reflexivity. }
  rewrite Ha. clear Ha answer. unfold TransactionAPI.slice_page. rewrite length_stable_sort.
  case_decide as Hneg.
  - rewrite (proj2 (Z.ltb_lt _ _)) by lia. by rewrite (proj2 (Z.leb_gt 0 offset)) by lia.
  - exists bc'. split; [|exact Hs]. destruct (Z.ltb_spec offset (Z.of_nat (length l))) as [Hlt|Hge].
    + replace (i64 (offset + lim)) with (offset + lim) by (rewrite Z.add_comm; done).
      rewrite Z.gtb_ltb. rewrite (proj2 (Z.leb_le 0 offset)) by lia. cbn [andb].
      destruct (Z.ltb_spec (Z.of_nat (length l)) (offset + lim)) as [Hx|Hx].
      * rewrite (proj2 (Z.leb_le _ _)) by lia. cbn [obind]. do 5 f_equal.
        rewrite !take_ge by (rewrite length_drop, length_stable_sort; lia). done.
      * rewrite (proj2 (Z.leb_le _ _)) by lia. cbn [obind]. do 6 f_equal. lia.
    + cbn [obind]. rewrite drop_ge by (rewrite length_stable_sort; lia). by rewrite take_nil.
Qed.

(** ** Multi-signature wallets *)

(** Two groups of owners, with whatever numbers of signatures, get the same address:
    it is computed from an empty table of keys. *)
Lemma multisig_address_shared args args' a a' :
  handleCreateMultiSigWallet (Some args) = Done (inl a) → handleCreateMultiSigWallet (Some args') = Done (inl a') →
  ma_address a = ma_address a'.
Proof.
  assert (Hone : ∀ args a, handleCreateMultiSigWallet (Some args) = Done (inl a) → Crypto.GenerateMultiSigAddress ∅ = Done (ma_address a)).
  { intros [l r] x. unfold handleCreateMultiSigWallet. destruct (_ <? 2)%nat; [done|]. destruct (_ || _); [done|].
    destruct (find _ l); [done|]. destruct (Crypto.GenerateMultiSigAddress ∅) as [m| |]; [|done|done]. cbn [obind]. intros E.
    injection E as <-. done. }
  intros E E'. apply Hone in E, E'. rewrite E in E'. by injection E'.
Qed.

(** What is sent was signed, and sending does not go through the node's mempool. *)
Lemma sent_is_signed now tbl parse net args tx got :
  handleSendTransaction now tbl parse net args = Done (inl tx, got) → Tx.VerifySignature tbl tx = Done true.
Proof.
  destruct args as [a|]; [|done]. unfold handleSendTransaction.
  assert (Hv : ∀ t, verified tbl t = Done (inl tx) → Tx.VerifySignature tbl tx = Done true).
  { intros t. unfold verified. destruct (Tx.VerifySignature tbl t) as [[]| |] eqn:E; cbn; try done. intros E'. injection E' as <-. done. }
  destruct (sent_transaction now tbl parse a) as [[t|e]| |] eqn:Es; cbn [obind]; try done.
  destruct (Node.BroadcastTransaction _ _ _ _ _ _) as [g [e|]]; [done|]. intros E. injection E as -> _. revert Es.
  unfold sent_transaction. destruct (negb _).
  - destruct (hex_decode _); [|done]. destruct (parse _); [apply Hv|done].
  - destruct (str_eqb _ _); [done|]. destruct (Tx.NewTransaction _ _ _ _ _ _); [apply Hv|done].
Qed.

End handlers.

(** ** Witnesses *)
Lemma handleGetTransaction_spec_witness :
  ∃ bc', handleGetTransaction (λ l, l) 2 demo_node (Some "p3") =
    Done (Some (inl (mkLocated (payment "p3" 1 3 [spend_c1]) (Some (read_out paid_block))), Node.set_bc demo_node bc')).
Proof.
  destruct (handleGetTransaction_spec (λ l, l) 2 demo_node "p3" demo_scannable ltac:(done)) as (bc' & E & _).
  exists bc'. rewrite E. vm_compute. reflexivity.
Defined.

Lemma handleGetTransactionHistory_spec_witness :
  handleGetTransactionHistory (λ l, l) 2 demo_node (Some (mkHistoryArgs payer 20 (-1) true)) = Panic "slice bounds out of range".
Proof.
  pose proof (handleGetTransactionHistory_spec (λ l, l) 2 demo_node payer 20 (-1) true demo_scannable ltac:(vm_compute; discriminate)
    ltac:(unfold is_i64; lia) ltac:(lia)) as Hp. cbv zeta in Hp. rewrite decide_True in Hp by lia. exact Hp.
Defined.
