(* ===== verification/ValidatorApi.v ===== *)
(** * The validator interface of the RPC server

    [src/RPC/api/validator.go]. The interface reads the chain's table of validators
    and the stake pool, which the node and the chain share; [StakeTokens] and
    [UnstakeTokens] change the pool. Answers are records with the fields of the
    maps the code returns. *)

From stdpp Require Import base gmap strings list.
From Stdlib Require Import ZArith Lia.
From S2P Require Import Prelude.
From S2P Require Import Float64.
From S2P Require Import Sha256.
From S2P Require Import Database.
From S2P Require Import P256.
From S2P Require Import Crypto.
From S2P Require Import Transaction.
From S2P Require Import Utxo.
From S2P Require Import Trie.
From S2P Require Import Stake.
From S2P Require Import Block.
From S2P Require Import Chain.
From S2P Require Import ChainStore.
From S2P Require Import Validator.
From S2P Require Import P2p.
From S2P Require Import Rpc.

Module ValidatorAPI.
Section api.
Context `{KV} `{ECDSA} `{GoImpl} (ord : child_order).

(** The node and the table [blockchain.Validators]. *)
Record t := mk { api_node : Node.t; Validators : gmap string Validator }.

Definition no_pool : string := "stake pool not available".

(** [float64(stake.Amount) / 100000000.0] *)
Definition tokens (amount : Z) : float64 := f64_div (f64_of_Z amount) (f64_of_Z 100000000).

(** The figures of a performance, which may be missing. *)
Record Figures := mkFigures { fg_blocksProposed : Z; fg_blocksValidated : Z; fg_missedValidations : Z; fg_uptime : float64 }.
Definition figures (p : option ValidatorPerformance) : option Figures :=
  p ← p; Some (mkFigures (BlocksProposed p) (BlocksValidated p) (MissedValidations p) (UptimePercentage p)).

(** A stake as it is shown: the amount in tokens, and the record. *)
Record StakeView := mkStakeView { sv_amount : float64; sv_stake : option StakeInfo }.
Definition stake_view (s : StakeInfo) : StakeView := mkStakeView (tokens (st_Amount s)) (Some s).
Definition no_stake : StakeView := mkStakeView f64_zero None.

Record ValidatorView := mkView {
  vv_address : string; vv_status : Z; vv_score : Z; vv_lastActive : Z; vv_performance : option Figures; vv_stake : StakeView;
}.

Definition registered_view (stakes : gmap string StakeInfo) (addr : string) (v : Validator) : ValidatorView :=
  mkView addr (Status v) (Score v) (val_LastActive v) (figures (val_Performance v))
    (match stakes !! addr with Some s => stake_view s | None => no_stake end).
Definition staked_view (addr : string) (s : StakeInfo) : ValidatorView :=
  mkView addr 0 0 (st_LastActive s) (figures (st_Performance s)) (stake_view s).

(** The two loops that fill the map: the registered validators, then the stakes of
    addresses that are not there yet; with each the counter. *)
Definition add_registered (stakes : gmap string StakeInfo) (acc : gmap string ValidatorView * Z) (e : string * Validator)
    : gmap string ValidatorView * Z := (<[e.1 := registered_view stakes e.1 e.2]> acc.1, acc.2 + 1).
Definition add_staked (acc : gmap string ValidatorView * Z) (e : string * StakeInfo) : gmap string ValidatorView * Z :=
  match acc.1 !! e.1 with
  | Some _ => acc
  | None => (<[e.1 := staked_view e.1 e.2]> acc.1, acc.2 + 1)
  end.

(** Three maps are visited, each in an order of its own. *)
Definition GetValidators (ro1 ro2 ro3 : range_order) (s : t) (limit : option Z) : result (list ValidatorView * Z) :=
  let limit := match limit with None => 100 | Some l => if l <=? 0 then 100 else l end in
  match Node.n_stakePool (api_node s) with
  | None => Err no_pool
  | Some sp =>
      let acc := foldl (add_registered (StakePool.Stakes sp)) (∅, 0) (range ro1 (Validators s)) in
      let '(m, count) := foldl add_staked acc (range ro2 (StakePool.Stakes sp)) in
      let l := (range ro3 m).*2 in
      Ok (if limit <? Z.of_nat (length l) then take (Z.to_nat limit) l else l, count)
  end.

Definition GetStakeInfo (s : t) (address : option string) : result StakeInfo :=
  match address with
  | None => Err invalid_parameters
  | Some address =>
      if str_eqb address "" then Err "validator address is required"
      else match Node.n_stakePool (api_node s) with
      | None => Err no_pool
      | Some sp => match StakePool.Stakes sp !! address with
                   | None => Err ("no stake found for address " +:+ address)
                   | Some st => Ok st
                   end
      end
  end.

(** ** Staking *)

Record StakeArgs := mkStakeArgs {
  sa_address : string; sa_amount : float64; sa_signature : string; sa_publicKey : string; sa_transaction : string;
}.

Definition signed (tbl : key_table) (tx : Transaction) : outcome (result Transaction) :=
  let! ok := Tx.VerifySignature tbl tx in
  Done (if ok : bool then Ok tx else Err "transaction signature verification failed").

(** The transaction of the request: one that is signed already, or a new one from
    [sender] to [receiver] with no gas price and no gas limit. *)
Definition request_transaction (now : Z) (tbl : key_table) (parse : bytes → option Transaction) (what sender receiver : string) (a : StakeArgs)
    : outcome (result Transaction) :=
  if negb (str_eqb (sa_transaction a) "") then
    match hex_decode (sa_transaction a) with
    | None => Done (Err "invalid transaction encoding")
    | Some data =>
        match parse data with
        | None => Done (Err "failed to deserialize transaction")
        | Some tx => signed tbl tx
        end
    end
  else
    match Tx.NewTransaction now sender receiver (sa_amount a) 0 0 with
    | Err e => Done (Err ("failed to create " +:+ what +:+ " transaction: " +:+ e))
    | Ok tx =>
        if str_eqb (sa_signature a) "" then Done (Err "transaction signature is required")
        else if str_eqb (sa_publicKey a) "" then Done (Err "sender's public key is required")
        else match hex_decode (sa_publicKey a) with
             | None => Done (Err "invalid public key format")
             | Some pk => signed tbl (Tx.set_signature tx (sa_signature a) pk)
             end
    end.

(** Sends the transaction and then changes the pool. The peers that got it come
    with the answer. *)
Definition broadcast_then (net : TransactionAPI.network) (s : t) (tx : Transaction) (failure : string)
    (change : StakePool.t → StakePool.t * error) (sp : StakePool.t) : result string * list string * t :=
  let '(got, e) := Node.BroadcastTransaction (TransactionAPI.net_encoded net) (TransactionAPI.net_self net) (TransactionAPI.net_boot net)
                     (TransactionAPI.net_reached net) (TransactionAPI.net_peers net) [] in
  match e with
  | Some e => (Err ("failed to broadcast transaction: " +:+ e), got, s)
  | None =>
      let '(sp, e) := change sp in
      let s := mk (Node.set_stakes (api_node s) (Some sp)) (Validators s) in
      (match e with Some e => Err (failure +:+ e) | None => Ok (TransactionID tx) end, got, s)
  end.

(** The answer is the id of the transaction. *)
Definition StakeTokens (now : Z) (tbl : key_table) (parse : bytes → option Transaction) (net : TransactionAPI.network) (s : t)
    (args : option StakeArgs) : outcome (result string * list string * t) :=
  match args with
  | None => Done (Err invalid_parameters, [], s)
  | Some a =>
      if str_eqb (sa_address a) "" then Done (Err "address is required", [], s)
      else if f64_le (sa_amount a) f64_zero then Done (Err "amount must be greater than 0", [], s)
      else match Node.n_stakePool (api_node s) with
      | None => Done (Err no_pool, [], s)
      | Some sp =>
          let balance := Chain.GetBalance (Node.n_bc (api_node s)) (sa_address a) in
          if f64_lt balance (sa_amount a) then
            Done (Err ("insufficient balance: " +:+ fmt_f 6 balance +:+ " (required " +:+ fmt_f 6 (sa_amount a) +:+ ")"), [], s)
          else
            let! r := request_transaction now tbl parse "stake" (sa_address a) "STAKEPOOL" a in
            Done (match r with
                  | Err e => (Err e, [], s)
                  | Ok tx => broadcast_then net s tx "failed to add stake: " (λ sp, StakePool.AddStake now sp (sa_address a) "" (sa_amount a)) sp
                  end)
      end
  end.

Definition UnstakeTokens (now : Z) (tbl : key_table) (parse : bytes → option Transaction) (net : TransactionAPI.network) (s : t)
    (args : option StakeArgs) : outcome (result string * list string * t) :=
  match args with
  | None => Done (Err invalid_parameters, [], s)
  | Some a =>
      if str_eqb (sa_address a) "" then Done (Err "address is required", [], s)
      else if f64_le (sa_amount a) f64_zero then Done (Err "amount must be greater than 0", [], s)
      else match Node.n_stakePool (api_node s) with
      | None => Done (Err no_pool, [], s)
      | Some sp =>
          match StakePool.Stakes sp !! sa_address a with
          | None => Done (Err ("no stake found for address " +:+ sa_address a), [], s)
          | Some stake =>
              if f64_lt (tokens (st_Amount stake)) (sa_amount a) then
                Done (Err ("insufficient staked amount: " +:+ fmt_f 6 (tokens (st_Amount stake)) +:+ " (requested "
                           +:+ fmt_f 6 (sa_amount a) +:+ ")"), [], s)
              else
                let! r := request_transaction now tbl parse "unstake" "STAKEPOOL" (sa_address a) a in
                Done (match r with
                      | Err e => (Err e, [], s)
                      | Ok tx => broadcast_then net s tx "failed to remove stake: " (λ sp, StakePool.RemoveStake sp (sa_address a) (sa_amount a)) sp
                      end)
          end
      end
  end.

(** ** Rewards *)

Definition is_reward_of (u : UTXO) (tx : Transaction) : bool :=
  str_eqb (TransactionID tx) (utxo_TransactionID u) && (TxType tx =? TX_VALIDATOR_REWARD).

(** One output: a reward if the block of its height has a reward transaction with
    its id. *)
Definition reward_turn (acc : outcome (list UTXO * float64 * Blockchain)) (u : UTXO) : outcome (list UTXO * float64 * Blockchain) :=
  let! (a, bc) := acc in
  let '(l, total) := a in
  if str_eqb (utxo_TransactionID u) "" then Done (l, total, bc)
  else
    let! (r, bc) := ChainStore.GetBlockByHeight ord bc (utxo_BlockHeight u) in
    Done (match r with
          | None => (l, total, bc)
          | Some b =>
              if existsb (is_reward_of u) (Trie.GetAllTransactions ord (block_Transactions b))
              then (l ++ [u], f64_add total (utxo_Amount u), bc) else (l, total, bc)
          end).

Definition rewards_of (ro : range_order) (s : t) (address : string) : outcome (result (list UTXO * float64) * t) :=
  match TransactionAPI.pool_of (api_node s) with
  | None => Done (Err "UTXO pool not available", s)
  | Some p =>
      let! us := GetUTXOsForAddress ro p address in
      let! (a, bc) := foldl reward_turn (Done ([], f64_zero, Node.n_bc (api_node s))) us in
      Done (Ok a, mk (Node.set_bc (api_node s) bc) (Validators s))
  end.

Definition GetValidatorRewards (ro : range_order) (s : t) (address : option string) : outcome (result (list UTXO * float64) * t) :=
  match address with
  | None => Done (Err invalid_parameters, s)
  | Some address =>
      if str_eqb address "" then Done (Err "validator address is required", s) else rewards_of ro s address
  end.

(** The number of days is not used. *)
Definition GetDailyValidatorRewards (ro : range_order) (s : t) (args : option (string * Z)) : outcome (result (list UTXO * float64) * t) :=
  match args with
  | None => Done (Err invalid_parameters, s)
  | Some (address, _) =>
      if str_eqb address "" then Done (Err "validator address is required", s) else rewards_of ro s address
  end.

(** ** Rankings and figures *)

Record Ranked := mkRanked { rk_address : string; rk_score : Z; rk_status : Z; rk_stake : float64; rk_performance : option Figures; rk_info : option StakeInfo }.

Definition ranked (stakes : gmap string StakeInfo) (e : string * Validator) : Ranked :=
  let stake := stakes !! e.1 in
  mkRanked e.1 (Score e.2) (Status e.2) (match stake with Some s => tokens (st_Amount s) | None => f64_zero end)
    (figures (val_Performance e.2)) stake.

Definition higher (byStake : bool) (a b : Ranked) : bool :=
  if byStake then f64_gt (rk_stake a) (rk_stake b) else rk_score b <? rk_score a.

(** The best validators, with the number of all of them. The sort is not stable, but
    the order in which the map is read is arbitrary. *)
Definition GetTopValidators (ro : range_order) (s : t) (args : option (Z * bool)) : result (list Ranked * Z) :=
  let '(limit, byStake) := default (10, false) args in
  let limit := capped 10 100 limit in
  match Node.n_stakePool (api_node s) with
  | None => Err no_pool
  | Some sp =>
      let l := stable_sort (higher byStake) (ranked (StakePool.Stakes sp) <$> range ro (Validators s)) in
      Ok (take (Z.to_nat limit) l, Z.of_nat (size (Validators s)))
  end.

Record Performance := mkPerformanceView {
  pf_validator : Validator; pf_figures : option Figures; pf_totalRewards : option float64; pf_participationRate : option float64;
  pf_stake : option StakeView;
}.

Definition participation (v : Validator) (totalBlocks : Z) : float64 :=
  match val_Performance v with
  | Some p => if 0 <? BlocksValidated p
              then f64_mul (f64_div (f64_of_Z (BlocksValidated p)) (f64_of_Z totalBlocks)) (f64_of_Z 100) else f64_zero
  | None => f64_zero
  end.

Definition GetValidatorPerformance (ro : range_order) (s : t) (address : option string) : outcome (result Performance * t) :=
  match address with
  | None => Done (Err invalid_parameters, s)
  | Some address =>
      if str_eqb address "" then Done (Err "validator address is required", s)
      else match Validators s !! address with
      | None => Done (Err ("validator not found: " +:+ address), s)
      | Some v =>
          let! (r, s) := GetValidatorRewards ro s (Some address) in
          let totalRewards := match r with Ok (_, total) => Some total | Err _ => None end in
          let! latest := GetLatestBlock ord (Node.n_bc (api_node s)) in
          match latest with
          | None => Panic "nil pointer dereference"
          | Some b =>
              let number := BlockNumber (Header b) in
              let rate := if 0 <? number then Some (participation v number) else None in
              let stake := sp ← Node.n_stakePool (api_node s); stake_view <$> StakePool.Stakes sp !! address in
              Done (Ok (mkPerformanceView v (figures (val_Performance v)) totalRewards rate stake), s)
          end
      end
  end.

Inductive Verdict : Type :=
  | NoValidator
  | Staked (stake : StakeView)
  | Registered (isActive : bool) (status score : Z) (stake : option StakeView).

Definition VerifyValidator (s : t) (address : option string) : result Verdict :=
  match address with
  | None => Err invalid_parameters
  | Some address =>
      if str_eqb address "" then Err "validator address is required"
      else
        let stake := sp ← Node.n_stakePool (api_node s); StakePool.Stakes sp !! address in
        Ok (match Validators s !! address with
            | None => match stake with
                      | Some st => if IsValidator st then Staked (stake_view st) else NoValidator
                      | None => NoValidator
                      end
            | Some v => Registered (Status v =? ValidatorStatusActive) (Status v) (Score v) (stake_view <$> stake)
            end)
  end.

Definition total_tokens (ro : range_order) (sp : StakePool.t) : float64 :=
  foldl (λ total e, f64_add total (tokens (st_Amount e.2))) f64_zero (range ro (StakePool.Stakes sp)).

(** The sum, the number of stakers and the time. *)
Definition GetTotalStaked (ro : range_order) (now : Z) (s : t) : result (float64 * Z * Z) :=
  match Node.n_stakePool (api_node s) with
  | None => Err no_pool
  | Some sp => Ok (total_tokens ro sp, Z.of_nat (size (StakePool.Stakes sp)), unix now)
  end.

Record Tally := mkTally {
  ty_active : Z; ty_slashed : Z; ty_probation : Z; ty_score : Z; ty_validated : Z; ty_proposed : Z; ty_uptime : float64; ty_performing : Z;
}.
Definition tally (c : Tally) (v : Validator) : Tally :=
  let one st := Z.b2z (Status v =? st) in
  let p := val_Performance v in
  mkTally (ty_active c + one ValidatorStatusActive) (ty_slashed c + one ValidatorStatusSlashed)
    (ty_probation c + one ValidatorStatusProbation) (u64 (ty_score c + Score v))
    (match p with Some p => u64 (ty_validated c + BlocksValidated p) | None => ty_validated c end)
    (match p with Some p => u64 (ty_proposed c + BlocksProposed p) | None => ty_proposed c end)
    (match p with Some p => f64_add (ty_uptime c) (UptimePercentage p) | None => ty_uptime c end)
    (match p with Some _ => ty_performing c + 1 | None => ty_performing c end).

Record Stats := mkStats {
  vs_total : Z; vs_tally : Tally; vs_averageScore : Z; vs_averageUptime : float64; vs_totalStaked : float64; vs_height : Z; vs_timestamp : Z;
}.

Definition GetValidatorStats (ro ro' : range_order) (now : Z) (s : t) : outcome Stats :=
  let total := Z.of_nat (size (Validators s)) in
  let c := foldl tally (mkTally 0 0 0 0 0 0 f64_zero 0) (range ro (Validators s)).*2 in
  let averageScore := if 0 <? total then ty_score c / total else 0 in
  let averageUptime := if 0 <? ty_performing c then f64_div (ty_uptime c) (f64_of_Z (ty_performing c)) else f64_zero in
  let staked := match Node.n_stakePool (api_node s) with Some sp => total_tokens ro' sp | None => f64_zero end in
  let! latest := GetLatestBlock ord (Node.n_bc (api_node s)) in
  match latest with
  | None => Panic "nil pointer dereference"
  | Some b => Done (mkStats total c averageScore averageUptime staked (BlockNumber (Header b)) (unix now))
  end.

End api.
End ValidatorAPI.
