(* ===== verification/ValidatorApiFacts.v ===== *)
(** * Correctness of the validator interface

    The list of validators has every registered and every staked address once; the
    rewards of an address are its outputs that reward transactions of the chain
    made; a ranking is the top of the sorted list. Stake is added and removed only
    on a request that carries a signed transaction, whatever that transaction
    says. *)

From stdpp Require Import base gmap strings list sorting.
From Stdlib Require Import ZArith Lia.
From S2P Require Import Prelude.
From S2P Require Import Float64.
From S2P Require Import Sha256.
From S2P Require Import Database.
From S2P Require Import P256.
From S2P Require Import Crypto.
From S2P Require Import Transaction.
From S2P Require Import Utxo.
From S2P Require Import MempoolFacts.
From S2P Require Import Trie.
From S2P Require Import Stake.
From S2P Require Import StakeFacts.
From S2P Require Import Block.
From S2P Require Import BlockFacts.
From S2P Require Import Chain.
From S2P Require Import ChainFacts.
From S2P Require Import ChainStore.
From S2P Require Import ChainStoreFacts.
From S2P Require Import SyncFacts.
From S2P Require Import Validator.
From S2P Require Import P2p.
From S2P Require Import Peers.
From S2P Require Import Rpc.
From S2P Require Import RpcFacts.
From S2P Require Import RpcTxFacts.
From S2P Require Import SubscriptionsFacts.
From S2P Require Import ValidatorApi.

Import ValidatorAPI.

Section api.
Context `{KV} `{ECDSA} `{GoImpl} (ord : child_order).

(** ** The list of validators *)

(** Every registered address, and every staked one that is not registered. *)
Definition directory (vals : gmap string Validator) (stakes : gmap string StakeInfo) : gmap string ValidatorView :=
  map_imap (λ addr v, Some (registered_view stakes addr v)) vals ∪ map_imap (λ addr s, Some (staked_view addr s)) stakes.

Lemma registered_loop stakes l : ∀ m c, NoDup l.*1 → (∀ k, k ∈ l.*1 → m !! k = None) → c = Z.of_nat (size m) →
  foldl (add_registered stakes) (m, c) l =
  (map_imap (λ addr v, Some (registered_view stakes addr v)) (list_to_map l) ∪ m,
   Z.of_nat (size (map_imap (λ addr v, Some (registered_view stakes addr v)) (list_to_map l : gmap string Validator) ∪ m))).
Proof.
  induction l as [|[k v] l IH]; intros m c Hnd Hm ->.
  { cbn [foldl]. assert (map_imap (λ addr v, Some (registered_view stakes addr v)) (list_to_map [] : gmap string Validator) = ∅) as ->.
    { apply map_eq. intros i. by rewrite map_lookup_imap, lookup_empty. }
    by rewrite (left_id_L ∅ (∪)). }
  cbn [fmap list_fmap fst] in Hnd, Hm. apply NoDup_cons in Hnd as [Hk Hnd]. cbn [foldl]. unfold add_registered at 2. cbn [fst snd].
  rewrite IH.
  - assert (map_imap (λ addr v, Some (registered_view stakes addr v)) (list_to_map l) ∪ <[k := registered_view stakes k v]> m =
      map_imap (λ addr v, Some (registered_view stakes addr v)) (list_to_map ((k, v) :: l) : gmap string Validator) ∪ m) as ->; [|done].
    apply map_eq. intros i. rewrite !lookup_union, !map_lookup_imap. cbn [list_to_map foldr]. destruct (decide (i = k)) as [->|Hi].
    + rewrite !lookup_insert_eq. cbn. rewrite (not_elem_of_list_to_map_1 l k Hk). cbn. rewrite (Hm k ltac:(left)). done.
    + cbn [fst snd uncurry]. by rewrite !lookup_insert_ne by done.
  - done.
  - intros i Hi. rewrite lookup_insert_ne by set_solver. apply Hm. by right.
  - rewrite map_size_insert_None by (apply Hm; left). lia.
Qed.

Lemma staked_loop l : ∀ m c, NoDup l.*1 → c = Z.of_nat (size m) →
  foldl add_staked (m, c) l =
  (m ∪ map_imap (λ addr s, Some (staked_view addr s)) (list_to_map l),
   Z.of_nat (size (m ∪ map_imap (λ addr s, Some (staked_view addr s)) (list_to_map l : gmap string StakeInfo)))).
Proof.
  induction l as [|[k s] l IH]; intros m c Hnd ->.
  { cbn [foldl]. assert (map_imap (λ addr s, Some (staked_view addr s)) (list_to_map [] : gmap string StakeInfo) = ∅) as ->.
    { apply map_eq. intros i. by rewrite map_lookup_imap, lookup_empty. }
    by rewrite (right_id_L ∅ (∪)). }
  cbn [fmap list_fmap fst] in Hnd. apply NoDup_cons in Hnd as [Hk Hnd]. cbn [foldl]. unfold add_staked at 2. cbn [fst snd].
  destruct (m !! k) as [w|] eqn:Hm; (rewrite IH; [|done|]); try done.
  - assert (m ∪ map_imap (λ addr s, Some (staked_view addr s)) (list_to_map l) =
      m ∪ map_imap (λ addr s, Some (staked_view addr s)) (list_to_map ((k, s) :: l) : gmap string StakeInfo)) as ->; [|done].
    apply map_eq. intros i. rewrite !lookup_union, !map_lookup_imap. cbn [list_to_map foldr fst snd]. destruct (decide (i = k)) as [->|Hi].
    + rewrite Hm. by destruct (_ ≫= _), (_ ≫= _).
    + cbn [uncurry]. by rewrite lookup_insert_ne by done.
  - assert (<[k := staked_view k s]> m ∪ map_imap (λ addr s, Some (staked_view addr s)) (list_to_map l) =
      m ∪ map_imap (λ addr s, Some (staked_view addr s)) (list_to_map ((k, s) :: l) : gmap string StakeInfo)) as ->; [|done].
    apply map_eq. intros i. rewrite !lookup_union, !map_lookup_imap. cbn [list_to_map foldr fst snd]. destruct (decide (i = k)) as [->|Hi].
    + cbn [uncurry]. rewrite !lookup_insert_eq, Hm, (not_elem_of_list_to_map_1 l k Hk). done.
    + cbn [uncurry]. by rewrite !lookup_insert_ne by done.
  - rewrite map_size_insert_None by done. lia.
Qed.

Lemma range_to_map {V} ro (m : gmap string V) : fair ro → list_to_map (range ro m) = m.
Proof. intros Hro. destruct (range_entries ro m Hro) as [Hnd _]. rewrite (list_to_map_proper _ (map_to_list m)); [apply list_to_map_to_list|done|].
  by apply range_perm.
Qed.

(** The list of validators shows every address that is registered or staked
    exactly once (the registration before the stake), cut at the limit, and counts
    them all. *)
Theorem GetValidators_spec ro1 ro2 ro3 s sp limit : fair ro1 → fair ro2 → fair ro3 → Node.n_stakePool (api_node s) = Some sp → 0 < limit →
  let dir := directory (Validators s) (StakePool.Stakes sp) in
  ∃ l, l ≡ₚ (map_to_list dir).*2 ∧ GetValidators ro1 ro2 ro3 s (Some limit) = Ok (take (Z.to_nat limit) l, Z.of_nat (size dir)) ∧
    (∀ addr, is_Some (dir !! addr) ↔ is_Some (Validators s !! addr) ∨ is_Some (StakePool.Stakes sp !! addr)).
Proof.
  intros H1' H2' H3' Hsp Hlim dir. unfold GetValidators. rewrite Hsp, (proj2 (Z.leb_gt _ _)) by lia.
  rewrite (registered_loop (StakePool.Stakes sp) (range ro1 (Validators s)) ∅ 0); [|by apply range_entries|intros; apply lookup_empty|done].
  rewrite (right_id_L ∅ (∪)), (range_to_map ro1) by done.
  rewrite staked_loop; [|by apply range_entries|done]. rewrite (range_to_map ro2) by done. fold (directory (Validators s) (StakePool.Stakes sp)). fold dir.
  exists (range ro3 dir).*2. split; [by rewrite (range_perm ro3)|]. split.
  - do 2 f_equal. destruct (Z.ltb_spec limit (Z.of_nat (length (range ro3 dir).*2))); [done|]. rewrite take_ge; [done|lia].
  - intros addr. unfold dir, directory. rewrite lookup_union, !map_lookup_imap.
    destruct (Validators s !! addr), (StakePool.Stakes sp !! addr); cbn; split; intros Hx; eauto; try (by left); try (by right).
    all: by destruct Hx as [[? Hx]|[? Hx]] || by destruct Hx.
Qed.

(** ** Staking *)

Lemma request_needs_transaction now tbl parse what from to a r :
  request_transaction now tbl parse what from to a = Done (Ok r) →
  sa_transaction a ≠ "" ∧ ∃ data, hex_decode (sa_transaction a) = Some data ∧ parse data = Some r ∧
    (Tx.is_system r = true ∨ signed_by_sender tbl r).
Proof.
  unfold request_transaction. destruct (str_eqb (sa_transaction a) "") eqn:Et; cbn [negb].
  - done.
  - apply str_eqb_neq in Et. destruct (hex_decode _) as [data|]; [|done]. destruct (parse data) as [tx|] eqn:Ep; [|done].
    unfold signed. destruct (Tx.VerifySignature tbl tx) as [[]| |] eqn:Ev; cbn; try done. intros E. injection E as <-.
    split; [done|]. exists data. split_and!; [done..|]. by apply VerifySignature_signed.
Qed.

Lemma broadcast_then_ok net s tx failure change sp id got s' :
  broadcast_then net s tx failure change sp = (Ok id, got, s') →
  id = TransactionID tx ∧ ∃ sp', change sp = (sp', None) ∧ s' = mk (Node.set_stakes (api_node s) (Some sp')) (Validators s).
Proof.
  unfold broadcast_then. destruct (Node.BroadcastTransaction _ _ _ _ _ _) as [g [e|]]; [done|].
  destruct (change sp) as [sp' [e|]]; [done|]. intros E. injection E as <- _ <-. eauto.
Qed.

(** C35 Stake is added through the interface only for a request that carries a whole
    transaction which either holds a signature of its hash under its sender's key or
    declares itself a coinbase or a validator's reward, which need none (one that is
    built from the arguments has no gas price and is always refused). Then the pool is the pool of [AddStake] for the
    address and amount of the request, a positive amount that the chain's ledger
    covers; nothing else of the node changes, in particular no balance. The
    transaction may be anyone's, and of any amount. *)
Theorem StakeTokens_sound now tbl parse net s a id got s' :
  StakeTokens now tbl parse net s (Some a) = Done (Ok id, got, s') →
  ∃ data tx sp sp', hex_decode (sa_transaction a) = Some data ∧ parse data = Some tx ∧
    (Tx.is_system tx = true ∨ signed_by_sender tbl tx) ∧ id = TransactionID tx ∧ Node.n_stakePool (api_node s) = Some sp ∧
    StakePool.AddStake now sp (sa_address a) "" (sa_amount a) = (sp', None) ∧
    f64_le (sa_amount a) f64_zero = false ∧ f64_lt (Chain.GetBalance (Node.n_bc (api_node s)) (sa_address a)) (sa_amount a) = false ∧
    s' = mk (Node.set_stakes (api_node s) (Some sp')) (Validators s).
Proof.
  unfold StakeTokens. destruct (str_eqb _ _); [done|]. destruct (f64_le _ _) eqn:Hpos; [done|].
  destruct (Node.n_stakePool (api_node s)) as [sp|]; [|done]. destruct (f64_lt _ _) eqn:Hbal; [done|].
  destruct (request_transaction _ _ _ _ _ _ _) as [[tx|e]| |] eqn:Er; cbn [obind]; try done. intros E. injection E as E.
  destruct (request_needs_transaction _ _ _ _ _ _ _ _ Er) as (_ & data & Hd & Hp & Hv).
  destruct (broadcast_then_ok _ _ _ _ _ _ _ _ _ E) as (-> & sp' & Ha & ->). exists data, tx, sp, sp'. split_and!; done.
Qed.

(** The same for taking stake out: at most a hundred-millionth of what the address
    has staked. *)
Theorem UnstakeTokens_sound now tbl parse net s a id got s' :
  UnstakeTokens now tbl parse net s (Some a) = Done (Ok id, got, s') →
  ∃ data tx sp sp' stake, hex_decode (sa_transaction a) = Some data ∧ parse data = Some tx ∧
    (Tx.is_system tx = true ∨ signed_by_sender tbl tx) ∧ id = TransactionID tx ∧ Node.n_stakePool (api_node s) = Some sp ∧ StakePool.Stakes sp !! sa_address a = Some stake ∧
    f64_lt (tokens (st_Amount stake)) (sa_amount a) = false ∧
    StakePool.RemoveStake sp (sa_address a) (sa_amount a) = (sp', None) ∧
    s' = mk (Node.set_stakes (api_node s) (Some sp')) (Validators s).
Proof.
  unfold UnstakeTokens. destruct (str_eqb _ _); [done|]. destruct (f64_le _ _); [done|].
  destruct (Node.n_stakePool (api_node s)) as [sp|]; [|done]. destruct (StakePool.Stakes sp !! _) as [stake|] eqn:Hs; [|done].
  destruct (f64_lt _ _) eqn:Hbal; [done|].
  destruct (request_transaction _ _ _ _ _ _ _) as [[tx|e]| |] eqn:Er; cbn [obind]; try done. intros E. injection E as E.
  destruct (request_needs_transaction _ _ _ _ _ _ _ _ Er) as (_ & data & Hd & Hp & Hv).
  destruct (broadcast_then_ok _ _ _ _ _ _ _ _ _ E) as (-> & sp' & Ha & ->). exists data, tx, sp, sp', stake. split_and!; done.
Qed.

(** ** Rewards *)

(** The output was made by a reward transaction of the block of its height. *)
Definition rewarded (chain : list Block) (u : UTXO) : Prop :=
  utxo_TransactionID u ≠ "" ∧ ∃ b, chain !! Z.to_nat (utxo_BlockHeight u) = Some b ∧
    existsb (is_reward_of u) (Trie.GetAllTransactions ord (block_Transactions (read_out b))) = true.

#[local] Instance rewarded_dec chain u : Decision (rewarded chain u).
Proof.
  unfold rewarded. destruct (decide (utxo_TransactionID u = "")) as [E|E]; [right; by intros [? _]|].
  destruct (chain !! Z.to_nat (utxo_BlockHeight u)) as [b|]; [|right; by intros (_ & ? & ? & _)].
  destruct (existsb (is_reward_of u) (Trie.GetAllTransactions ord (block_Transactions (read_out b)))) eqn:Eb.
  - left. split; [done|]. by exists b.
  - right. intros (_ & b' & Hb & Hx). apply (inj Some) in Hb. subst b'. congruence.
Defined.

Lemma reward_loop bc us : numbered (Chain bc) → nothing_above (λ _, ord) bc → Forall (λ u, 0 ≤ utxo_BlockHeight u) us →
  ∀ l total bc', same_reads bc bc' →
  ∃ bc'', foldl (reward_turn ord) (Done (l, total, bc')) us =
    Done (l ++ filter (rewarded (Chain bc)) us,
          foldl (λ t u, f64_add t (utxo_Amount u)) total (filter (rewarded (Chain bc)) us), bc'') ∧ same_reads bc bc''.
Proof.
  intros Hn Ha. induction 1 as [|u us Hu _ IH]; intros l total bc' Hs.
  { exists bc'. by rewrite app_nil_r. }
  cbn [foldl]. unfold reward_turn at 2. cbn [obind]. destruct (str_eqb (utxo_TransactionID u) "") eqn:Ei.
  { apply str_eqb_eq in Ei. rewrite filter_cons_False by (by intros [? _]). by apply IH. }
  apply str_eqb_neq in Ei. destruct (Chain bc !! Z.to_nat (utxo_BlockHeight u)) as [b|] eqn:Hb.
  - destruct (look ord bc bc' _ b Hn Hs Hb) as (bc1 & E & Hs1). rewrite Z2Nat.id in E by done. rewrite E. cbn [obind].
    destruct (existsb _ _) eqn:Ee.
    + rewrite filter_cons_True by (split; [done|by exists b]).
      destruct (IH (l ++ [u]) (f64_add total (utxo_Amount u)) bc1 Hs1) as (bc2 & E2 & Hs2). exists bc2. by rewrite E2, <- app_assoc.
    + rewrite filter_cons_False; [by apply IH|]. intros (_ & b' & Hb' & Hx). rewrite Hb in Hb'. apply (inj Some) in Hb'. subst b'. congruence.
  - pose proof (look_above (λ _, ord) bc bc' (utxo_BlockHeight u) Hn Ha Hs) as E. rewrite E by (apply lookup_ge_None in Hb; lia).
    cbn [obind]. rewrite filter_cons_False; [by apply IH|]. intros (_ & b' & Hb' & _). congruence.
Qed.

(** The rewards of an address are exactly its outputs that a reward transaction
    of the block at their height made, with the sum of their amounts; the figures
    of the days are the same, whatever number of days is asked for. *)
Theorem GetValidatorRewards_spec ro s address days p us : numbered (Chain (Node.n_bc (api_node s))) →
  nothing_above (λ _, ord) (Node.n_bc (api_node s)) → TransactionAPI.pool_of (api_node s) = Some p →
  GetUTXOsForAddress ro p address = Done us → Forall (λ u, 0 ≤ utxo_BlockHeight u) us → address ≠ "" →
  let mine := filter (rewarded (Chain (Node.n_bc (api_node s)))) us in
  ∃ bc', GetValidatorRewards ord ro s (Some address) =
      Done (Ok (mine, f64_sum (utxo_Amount <$> mine)), mk (Node.set_bc (api_node s) bc') (Validators s)) ∧
    same_reads (Node.n_bc (api_node s)) bc' ∧
    GetDailyValidatorRewards ord ro s (Some (address, days)) = GetValidatorRewards ord ro s (Some address).
Proof.
  intros Hn Ha Hp Hus Hh Hid mine. unfold GetDailyValidatorRewards, GetValidatorRewards. rewrite (proj2 (str_eqb_neq _ _) Hid).
  unfold rewards_of. rewrite Hp, Hus. cbn [obind].
  destruct (reward_loop _ us Hn Ha Hh [] f64_zero _ (same_reads_refl _)) as (bc' & E & Hs). rewrite E. cbn [obind app].
  exists bc'. split; [|done]. fold mine. do 4 f_equal. unfold f64_sum. clearbody mine. clear.
  generalize f64_zero. induction mine as [|u l IH]; intros z; [done|apply IH].
Qed.

(** ** Rankings and figures *)

Definition by_score (a b : Ranked) : Prop := rk_score b ≤ rk_score a.

(** The top validators are the first ones of the list of all registered
    validators in the order of falling scores. *)
Theorem GetTopValidators_spec ro s sp limit : fair ro → Node.n_stakePool (api_node s) = Some sp →
  ∃ l, l ≡ₚ ranked (StakePool.Stakes sp) <$> map_to_list (Validators s) ∧ StronglySorted by_score l ∧
    GetTopValidators ro s (Some (limit, false)) = Ok (take (Z.to_nat (capped 10 100 limit)) l, Z.of_nat (size (Validators s))).
Proof.
  intros Hro Hsp. unfold GetTopValidators. rewrite Hsp. cbn [default from_option id].
  exists (stable_sort (higher false) (ranked (StakePool.Stakes sp) <$> range ro (Validators s))).
  split; [by rewrite stable_sort_perm, (range_perm ro _ Hro)|]. split; [|done].
  assert (Hs : StronglySorted (sort_rel (higher false)) (stable_sort (higher false) (ranked (StakePool.Stakes sp) <$> range ro (Validators s)))).
  { apply (stable_sort_sorted (higher false) (λ _, True)).
    - intros x y. unfold higher. rewrite !Z.ltb_lt, Z.ltb_ge. lia.
    - intros x y z _ _ _. unfold sort_rel, higher. rewrite !Z.ltb_ge. lia.
    - by apply Forall_true. }
  induction Hs as [|x l Hs IH Hx]; constructor; [done|]. eapply Forall_impl; [exact Hx|]. intros y. unfold sort_rel, higher, by_score.
  by rewrite Z.ltb_ge.
Qed.

Definition with_status (st : Z) (vals : gmap string Validator) : nat :=
  length (filter (λ v, Status v = st) (map_to_list vals).*2).

Lemma tally_counts l : ∀ c, let c' := foldl tally c l in
  ty_active c' = ty_active c + Z.of_nat (length (filter (λ v, Status v = ValidatorStatusActive) l)) ∧
  ty_slashed c' = ty_slashed c + Z.of_nat (length (filter (λ v, Status v = ValidatorStatusSlashed) l)) ∧
  ty_probation c' = ty_probation c + Z.of_nat (length (filter (λ v, Status v = ValidatorStatusProbation) l)).
Proof.
  assert (Hone : ∀ v st (l : list Validator), Z.of_nat (length (filter (λ v, Status v = st) (v :: l))) =
    Z.b2z (Status v =? st) + Z.of_nat (length (filter (λ v, Status v = st) l))).
  { intros v st l'. rewrite filter_cons. destruct (Z.eqb_spec (Status v) st); [rewrite decide_True by done|rewrite decide_False by done]; cbn; lia. }
  induction l as [|v l IH]; intros c; [cbn; lia|]. cbn [foldl]. rewrite !Hone. specialize (IH (tally c v)). cbn zeta in IH |- *.
  unfold tally at 3 6 9 in IH. cbn [ty_active ty_slashed ty_probation] in IH. lia.
Qed.

(** The counts of the statistics are those of the table, in whatever order it is
    visited, and add up to at most its size. *)
Lemma GetValidatorStats_counts ro ro' now s r : fair ro → GetValidatorStats ord ro ro' now s = Done r →
  ty_active (vs_tally r) = Z.of_nat (with_status ValidatorStatusActive (Validators s)) ∧
  ty_slashed (vs_tally r) = Z.of_nat (with_status ValidatorStatusSlashed (Validators s)) ∧
  ty_probation (vs_tally r) = Z.of_nat (with_status ValidatorStatusProbation (Validators s)) ∧
  vs_total r = Z.of_nat (size (Validators s)).
Proof.
  intros Hro. unfold GetValidatorStats. destruct (GetLatestBlock _ _) as [[b|]| |]; cbn [obind]; try done. intros E. injection E as <-.
  cbn [vs_tally vs_total]. destruct (tally_counts (range ro (Validators s)).*2 (mkTally 0 0 0 0 0 0 f64_zero 0)) as (-> & -> & ->).
  cbn [ty_active ty_slashed ty_probation]. unfold with_status.
  pose proof (range_perm ro (Validators s) Hro) as Hp. split_and!; try (rewrite Hp; lia). done.
Qed.

(** An address is a validator if it is registered, or its stake says so. *)
Lemma VerifyValidator_spec s address : address ≠ "" →
  ∃ v, VerifyValidator s (Some address) = Ok v ∧
    (v = NoValidator ↔ Validators s !! address = None ∧
       ∀ sp st, Node.n_stakePool (api_node s) = Some sp → StakePool.Stakes sp !! address = Some st → IsValidator st = false).
Proof.
  intros Hid. unfold VerifyValidator. rewrite (proj2 (str_eqb_neq _ _) Hid). eexists. split; [done|].
  destruct (Validators s !! address) as [v|]; [split; [done|by intros [? _]]|].
  destruct (Node.n_stakePool (api_node s)) as [sp|]; cbn [mbind option_bind]; [|split; [|done]; intros _; split; [done|by intros ? ? ?]].
  destruct (StakePool.Stakes sp !! address) as [st|] eqn:Hs.
  - destruct (IsValidator st) eqn:Hv; (split; [try done|]).
    + intros [_ Hx]. rewrite (Hx sp st eq_refl Hs) in Hv. done.
    + intros _. split; [done|]. intros sp' st' Esp Est. apply (inj Some) in Esp. subst sp'. congruence.
    + done.
  - split; [|done]. intros _. split; [done|]. intros sp' st' Esp Est. apply (inj Some) in Esp. subst sp'. congruence.
Qed.

End api.

(** ** Witnesses *)

(** A node with one stake, and a ledger that covers another address. *)
Definition staked_pool : StakePool.t := (StakePool.AddStake 0 (StakePool.mk ∅ ∅ "") "sup1" "host" (f64_of_Z 5)).1.
Definition funded : @Blockchain mem_kv :=
  mkBlockchain [plain_block; paid_block] "" None (world (Node.n_bc demo_node)) "" {[ "mallory" := f64_of_Z 3 ]}.
Definition staking : @ValidatorAPI.t mem_kv := mk (Node.NewNode funded (Some staked_pool) None false "net") ∅.
Definition stake_args : StakeArgs := mkStakeArgs "mallory" (f64_of_Z 2) "" "" "00".

Lemma GetValidators_spec_witness :
  ∃ l, l ≡ₚ (map_to_list (directory ∅ (StakePool.Stakes staked_pool))).*2 ∧
    GetValidators id id id staking (Some 7) = Ok (take 7 l, 1).
Proof.
  destruct (GetValidators_spec id id id staking staked_pool 7) as (l & Hl & E & _); [by intros ks..|reflexivity|lia|].
  exists l. split; [exact Hl|]. rewrite E. reflexivity.
Defined.

Lemma GetTopValidators_spec_witness :
  ∃ l, GetTopValidators id staking (Some (3, false)) = Ok (take 3 l, 0) ∧ StronglySorted by_score l.
Proof.
  destruct (GetTopValidators_spec id staking staked_pool 3) as (l & _ & Hs & E); [by intros ks|reflexivity|].
  exists l. split; [rewrite E; reflexivity|exact Hs].
Defined.

Lemma StakeTokens_sound_witness :
  ∃ got s' tx, StakeTokens 0 ∅ raw_parse one_peer staking (Some stake_args) = Done (Ok "p3", got, s') ∧
    signed_by_sender ∅ tx ∧ TransactionID tx = "p3" ∧ Sender tx ≠ "mallory".
Proof.
  assert (match StakeTokens 0 ∅ raw_parse one_peer staking (Some stake_args) with
          | Done (Ok id, _, _) => str_eqb id "p3" | _ => false end = true) as Hrun by (vm_compute; reflexivity).
  destruct (StakeTokens 0 ∅ raw_parse one_peer staking (Some stake_args)) as [[[r got] s']| |] eqn:E; [|discriminate..].
  destruct r as [id|]; [|discriminate]. apply str_eqb_eq in Hrun. subst id.
  destruct (StakeTokens_sound 0 ∅ raw_parse one_peer staking stake_args "p3" got s' E) as (data & tx & sp & sp' & Hd & Hp & Hv & Hi & _).
  unfold raw_parse in Hp. apply (inj Some) in Hp. subst tx. destruct Hv as [Hv|Hv]; [vm_compute in Hv; discriminate|].
  exists got, s', (payment "p3" 1 3 [spend_c1]). split; [reflexivity|]. split; [exact Hv|]. split; [by symmetry|]. vm_compute. discriminate.
Defined.

(** A transaction that nobody signed is enough: one that calls itself a coinbase. *)
Theorem unsigned_coinbase_stakes :
  match StakeTokens 0 ∅ (λ _, Some minted) one_peer staking (Some stake_args) with
  | Done (Ok id, ["peer"], s') =>
      id = "m1" ∧ Signature minted = "" ∧
      (st_Amount <$> match Node.n_stakePool (api_node s') with Some sp => StakePool.Stakes sp !! "mallory" | None => None end) = Some 2
  | _ => False
  end.
Proof. vm_compute. split_and!; reflexivity. Qed.

(** The stake of five tokens cannot be taken out: the interface takes the amounts of
    the pool for hundred-millionths. *)
Lemma unstaking_one_of_five :
  match UnstakeTokens 0 ∅ raw_parse one_peer staking (Some (mkStakeArgs "sup1" (f64_of_Z 1) "" "" "00")) with
  | Done (Err _, _, _) => true | _ => false end = true.
Proof. vm_compute. reflexivity. Qed.

Definition reward_tx : Transaction :=
  mkTransaction "r1" "" "sup1" (f64_of_Z 4) 0 0 f64_zero [] [] TX_VALIDATOR_REWARD 0 0 0 0 0 [] "" [].
Definition reward_block : Block :=
  mkBlock (Header (child plain_block "c" 2)) (Trie.Insert Trie.NewPatriciaTrie reward_tx) [] "c" 0 1 2 "c".
Definition reward_utxo : UTXO := mkUTXO "r1" 0 (f64_of_Z 4) "sup1" false 1 0 "".
Definition reward_pool : UTXOPool := mkUTXOPool {[ "r1-0" := reward_utxo ]} Unlocked "" "" 0 None [] [] false.
Definition rewarding : @ValidatorAPI.t mem_kv :=
  mk (Node.mk (ChainFacts.start plain_block [reward_block]) (Node.n_mempool demo_node) (Some reward_pool) None PeerManager.NewPeerManager
        ∅ false false 0 None ∅ None "net") ∅.

Lemma GetValidatorRewards_spec_witness :
  ∃ s', GetValidatorRewards (λ l, l) id rewarding (Some "sup1") = Done (Ok ([reward_utxo], f64_of_Z 4), s').
Proof.
  destruct (GetValidatorRewards_spec (λ l, l) id rewarding "sup1" 30 reward_pool [reward_utxo]) as (bc' & E & _).
  - intros [|[|i]] b Hb; [injection Hb as <-; reflexivity|injection Hb as <-; reflexivity|done].
  - intros h _. reflexivity.
  - reflexivity.
  - reflexivity.
  - repeat constructor. done.
  - done.
  - eexists. rewrite E. vm_compute. reflexivity.
Defined.
