(* ===== verification/WalletApi.v ===== *)
(** * The wallet interface of the RPC server

    [src/RPC/api/wallet.go]. The word list, a new mnemonic and the nonce of a
    signature come from files and from the random reader and are arguments; the
    parameters are [None] when the decoder fails. *)

From stdpp Require Import base gmap strings list.
From Stdlib Require Import ZArith Lia.
From S2P Require Import Prelude.
From S2P Require Import Float64.
From S2P Require Import Sha256.
From S2P Require Import Json.
From S2P Require Import Database.
From S2P Require Import P256.
From S2P Require Import Crypto.
From S2P Require Import Transaction.
From S2P Require Import Wallet.
From S2P Require Import Account.
From S2P Require Import Utxo.
From S2P Require Import Mempool.
From S2P Require Import BlockJson.
From S2P Require Import P2p.
From S2P Require Import Rpc.
From S2P Require Import ServerHandlers.

Module WalletAPI.
Section api.
Context `{KV} `{ECDSA} `{GoImpl} (wordlist : result (list string)).

Record WalletView := mkWalletView { wv_address : string; wv_mnemonic : string; wv_privateKey : string; wv_publicKey : string }.

Definition show (w : Wallet) : WalletView :=
  mkWalletView (w_Address w) (w_Mnemonic w) (hex_encode (w_PrivateKeyBytes w)) (hex_encode (w_PublicKeyBytes w)).

(** [blockchain.NewWallet] on a new mnemonic *)
Definition NewWallet (mnemonic : result string) : outcome (result Wallet) :=
  match mnemonic with
  | Err e => Done (Err ("failed to generate mnemonic: " +:+ e))
  | Ok mnemonic =>
      match RecoverFromMnemonic wordlist mnemonic with
      | Err e => Done (Err ("failed to recover private key: " +:+ e))
      | Ok privateKey =>
          let! r := NewWalletFromPrivateKeyAndMnemonic (Some privateKey) mnemonic in
          Done (match r with Err e => Err ("failed to create wallet: " +:+ e) | Ok w => Ok w end)
      end
  end.

Definition CreateWallet (mnemonic : result string) : outcome (result WalletView) :=
  let! r := NewWallet mnemonic in
  Done (match r with Err e => Err ("failed to create wallet: " +:+ e) | Ok w => Ok (show w) end).

(** By mnemonic or, without one, by private key. *)
Definition ImportWallet (args : option (string * string)) : outcome (result WalletView) :=
  match args with
  | None => Done (Err invalid_parameters)
  | Some (mnemonic, privateKey) =>
      if negb (str_eqb mnemonic "") then
        let! r := RecoverWalletFromMnemonic wordlist mnemonic in
        Done (match r with Err e => Err ("failed to recover wallet from mnemonic: " +:+ e) | Ok w => Ok (show w) end)
      else if negb (str_eqb privateKey "") then
        match hex_decode privateKey with
        | None => Done (Err "invalid private key format")
        | Some privateKeyBytes =>
            match DeserializeKeys privateKeyBytes [] with
            | Err e => Done (Err ("failed to deserialize private key: " +:+ e))
            | Ok (privateKey, _) => let! w := NewWalletFromPrivateKey privateKey in Done (Ok (show w))
            end
        end
      else Done (Err "either mnemonic or private key is required")
  end.

Record WalletInfo := mkWalletInfo {
  wi_address : string; wi_balance : float64; wi_nonce : Z; wi_utxoCount : Z; wi_isValidator : bool; wi_publicKey : option string;
}.

(** [isValidator]: the address is a key of the chain's [Validators]. *)
Definition GetWalletInfo (ro ro' : range_order) (isValidator : string → bool) (n : Node.t) (args : option (string * string))
    : outcome (result WalletInfo) :=
  match args with
  | None => Done (Err invalid_parameters)
  | Some (address, mnemonic) =>
      if negb (Crypto.ValidateAddress address) then Done (Err "invalid address format")
      else
        let! balance := Node.with_pool n (λ p, Utxo.GetBalance ro p address) in
        let! us := Node.with_pool n (λ p, GetUTXOsForAddress ro' p address) in
        let count := Z.of_nat (length us) in
        let info := mkWalletInfo address balance count count (isValidator address) in
        if str_eqb mnemonic "" then Done (Ok (info None))
        else
          let! r := RecoverWalletFromMnemonic wordlist mnemonic in
          Done (match r with
                | Err e => Err ("failed to recover wallet from mnemonic: " +:+ e)
                | Ok w => if negb (str_eqb (w_Address w) address) then Err "mnemonic does not match the provided address"
                          else Ok (info (Some (hex_encode (w_PublicKeyBytes w))))
                end)
  end.

Record HDView := mkHDView { hv_mnemonic : string; hv_addresses : list string; hv_root : WalletView }.

(** Parameters that cannot be read ask for one address. *)
Definition CreateHDWallet (mnemonic : result string) (initialAddresses : option Z) : outcome (result HDView) :=
  let number := capped 1 100 (default 1 initialAddresses) in
  match mnemonic with
  | Err e => Done (Err ("failed to generate mnemonic: " +:+ e))
  | Ok mnemonic =>
      match Wallet.CreateHDWallet wordlist mnemonic (Z.to_nat number) with
      | Err e => Done (Err ("failed to create HD wallet: " +:+ e))
      | Ok hd =>
          let! r := RecoverWalletFromMnemonic wordlist mnemonic in
          Done (match r with
                | Err e => Err ("failed to create first wallet from mnemonic: " +:+ e)
                | Ok w => Ok (mkHDView (hd_Mnemonic hd) (hd_Addresses hd) (show w))
                end)
      end
  end.

(** The addresses with their balances, and the indices of the first and the last;
    nothing when the start is past the end. *)
Definition GetAddresses (ro : range_order) (n : Node.t) (args : option (string * Z * Z))
    : outcome (result (list (Z * string * float64) * option (Z * Z))) :=
  match args with
  | None => Done (Err invalid_parameters)
  | Some (mnemonic, start, count) =>
      if str_eqb mnemonic "" then Done (Err "mnemonic is required")
      else
        let start := if start <? 0 then 0 else start in
        let count := capped 10 100 count in
        let upto := i64 (start + count) in
        match Wallet.CreateHDWallet wordlist mnemonic (Z.to_nat upto) with
        | Err e => Done (Err ("failed to recover HD wallet: " +:+ e))
        | Ok w =>
            let total := Z.of_nat (length (hd_Addresses w)) in
            if total <=? start then Done (Ok ([], None))
            else
              let upto := if total <? upto then total else upto in
              let! l := Handlers.address_infos ro n start (take (Z.to_nat (upto - start)) (drop (Z.to_nat start) (hd_Addresses w))) in
              Done (Ok (l, Some (start, start + Z.of_nat (length l) - 1)))
        end
  end.

(** The keys of the participants are not known here: the table of keys is empty. *)
Definition CreateMultiSigWallet (args : option (list string * Z)) : outcome (result Handlers.MultiSigAnswer) :=
  match args with
  | None => Done (Err invalid_parameters)
  | Some (addresses, requiredSigs) =>
      let total := Z.of_nat (length addresses) in
      if (length addresses <? 2)%nat then Done (Err "multisig wallet requires at least 2 addresses")
      else if (requiredSigs <? 1) || (total <? requiredSigs) then
        Done (Err "required signatures must be between 1 and the number of addresses")
      else
        match find (λ a, negb (Crypto.ValidateAddress a)) addresses with
        | Some a => Done (Err ("invalid address format: " +:+ a))
        | None =>
            let! address := Crypto.GenerateMultiSigAddress ∅ in
            Done (Ok (Handlers.mkMultiSigAnswer address requiredSigs total addresses))
        end
  end.

(** ** Signatures *)

(** The address of the signer and the signature. *)
Definition SignMessage (nonce : result Z) (args : option (string * string)) : outcome (result (string * string)) :=
  match args with
  | None => Done (Err invalid_parameters)
  | Some (message, mnemonic) =>
      if str_eqb message "" then Done (Err "message is required")
      else if str_eqb mnemonic "" then Done (Err "mnemonic is required")
      else
        let! r := RecoverWalletFromMnemonic wordlist mnemonic in
        Done (match r with
              | Err e => Err ("failed to recover wallet: " +:+ e)
              | Ok w => match Crypto.SignMessage nonce (w_PrivateKey w) message with
                        | Err e => Err ("failed to sign message: " +:+ e)
                        | Ok signature => Ok (w_Address w, signature)
                        end
              end)
  end.

Record VerifyArgs := mkVerifyArgs { va_address : string; va_publicKey : string; va_message : string; va_signature : string }.

(** Whether the signature is valid, or that the key is another address's. *)
Inductive SignatureVerdict : Type :=
  | WrongKey (expected : string)
  | Checked (isValid : bool).

Definition VerifySignature (args : option VerifyArgs) : outcome (result SignatureVerdict) :=
  match args with
  | None => Done (Err invalid_parameters)
  | Some a =>
      if str_eqb (va_address a) "" then Done (Err "address is required")
      else if str_eqb (va_publicKey a) "" then Done (Err "publicKey is required")
      else if str_eqb (va_message a) "" then Done (Err "message is required")
      else if str_eqb (va_signature a) "" then Done (Err "signature is required")
      else match hex_decode (va_publicKey a) with
      | None => Done (Err "invalid public key format")
      | Some pk =>
          if (length pk <? 64)%nat then
            Done (Err ("invalid public key length: got " +:+ fmt_d (Z.of_nat (length pk)) +:+ ", need at least 64 bytes"))
          else
            let x := big_SetBytes (take 32 pk) in
            let y := big_SetBytes (take 32 (drop 32 pk)) in
            if negb (IsOnCurve x y) then Done (Err "public key is not a valid point on the curve")
            else
              let publicKey := mkPublicKey x y in
              let derivedAddress := GenerateAddress publicKey in
              if negb (str_eqb derivedAddress (va_address a)) then Done (Ok (WrongKey derivedAddress))
              else
                let! isValid := Crypto.VerifySignature (Some publicKey) (va_message a) (va_signature a) in
                Done (Ok (Checked isValid))
      end
  end.

(** ** Signing a transaction *)

(** [sg_unsigned] is the transaction given as an object, if one is given, and what
    the decoder makes of it. *)
Record SignArgs := mkSignArgs {
  sg_mnemonic : string; sg_privateKey : string; sg_transactionId : string; sg_unsigned : option (option Transaction); sg_rawTransaction : string;
}.

(** The wallet of the request; the key is read with 64 zero bytes as its public half. *)
Definition signing_wallet (a : SignArgs) : outcome (result Wallet) :=
  if negb (str_eqb (sg_mnemonic a) "") then
    let! r := RecoverWalletFromMnemonic wordlist (sg_mnemonic a) in
    Done (match r with Err e => Err ("failed to recover wallet from mnemonic: " +:+ e) | Ok w => Ok w end)
  else
    match hex_decode (sg_privateKey a) with
    | None => Done (Err "invalid private key format")
    | Some privateKeyBytes =>
        match DeserializeKeys privateKeyBytes (replicate 64 0) with
        | Err e => Done (Err ("failed to deserialize private key: " +:+ e))
        | Ok (privateKey, _) => let! w := NewWalletFromPrivateKey privateKey in Done (Ok w)
        end
    end.

(** The transaction of the request; [parse] is the JSON decoding of a raw one. *)
Definition signing_transaction (parse : bytes → option Transaction) (n : Node.t) (a : SignArgs) : result Transaction :=
  match sg_unsigned a with
  | Some None => Err "failed to parse unsigned transaction"
  | Some (Some tx) => Ok tx
  | None =>
      if negb (str_eqb (sg_rawTransaction a) "") then
        match hex_decode (sg_rawTransaction a) with
        | None => Err "invalid raw transaction format"
        | Some data => match parse data with None => Err "failed to deserialize transaction" | Some tx => Ok tx end
        end
      else
        match find (λ tx, str_eqb (TransactionID tx) (sg_transactionId a)) (Mempool.GetTransactions (Node.n_mempool n)) with
        | None => Err ("transaction not found in mempool: " +:+ sg_transactionId a)
        | Some tx => Ok tx
        end
  end.

(** The signed transaction; it must have a JSON form. *)
Definition SignTransaction (nonce : result Z) (parse : bytes → option Transaction) (n : Node.t) (args : option SignArgs)
    : outcome (result Transaction) :=
  match args with
  | None => Done (Err invalid_parameters)
  | Some a =>
      if str_eqb (sg_mnemonic a) "" && str_eqb (sg_privateKey a) "" then
        Done (Err "either mnemonic or private key is required to sign transaction")
      else if match sg_unsigned a with None => true | Some _ => false end
              && str_eqb (sg_rawTransaction a) "" && str_eqb (sg_transactionId a) "" then
        Done (Err "transaction data is required (provide either unsignedTransaction, rawTransaction, or transactionId)")
      else
        let! r := signing_wallet a in
        match r with
        | Err e => Done (Err e)
        | Ok w =>
            match signing_transaction parse n a with
            | Err e => Done (Err e)
            | Ok tx =>
                if negb (str_eqb (Sender tx) (w_Address w)) then
                  Done (Err ("transaction sender (" +:+ Sender tx +:+ ") does not match wallet address (" +:+ w_Address w +:+ ")"))
                else
                  let! (p, e) := Wallet.SignTransaction nonce w tx in
                  Done (match e with
                        | Some e => Err ("failed to sign transaction: " +:+ e)
                        | None => match enc p.2 with
                                  | None => Err ("failed to serialize signed transaction: " +:+ JsonUnsupported)
                                  | Some _ => Ok p.2
                                  end
                        end)
            end
        end
  end.

End api.
End WalletAPI.
