(* ===== verification/WalletApiFacts.v ===== *)
(** * Correctness of the wallet interface

    What the interface signs for the owner of a mnemonic, the interface and the node
    accept: messages and transactions. A wallet cannot be imported, nor a
    transaction signed, by private key alone. *)

From stdpp Require Import base gmap strings list.
From Stdlib Require Import ZArith Lia.
From S2P Require Import Prelude.
From S2P Require Import Float64.
From S2P Require Import Sha256.
From S2P Require Import Database.
From S2P Require Import P256.
From S2P Require Import Crypto.
From S2P Require Import Transaction.
From S2P Require Import Wallet.
From S2P Require Import WalletFacts.
From S2P Require Import Mempool.
From S2P Require Import MempoolFacts.
From S2P Require Import BlockJson.
From S2P Require Import P2p.
From S2P Require Import Rpc.
From S2P Require Import RpcTxFacts.
From S2P Require Import ServerHandlers.
From S2P Require Import WalletApi.

Section api.
Context `{KV} `{ECDSA} `{GoImpl} (wordlist : result (list string)).

Lemma pad32_bytes z b : pad32 (big_Bytes z) = Done b → Forall is_byte b.
Proof. unfold pad32. destruct (32 <? _)%nat; [done|]. intros E. injection E as <-. apply Forall_app. split; [|apply big_Bytes_range].
  apply Forall_replicate. unfold is_byte. lia.
Qed.

(** The wallet that a mnemonic recovers. *)
Lemma recovered_wallet mnemonic priv : RecoverFromMnemonic wordlist mnemonic = Ok priv → key_pair priv →
  ∃ w, RecoverWalletFromMnemonic wordlist mnemonic = Done (Ok w) ∧ wallet_of priv mnemonic = Done w ∧ w_PrivateKey w = priv ∧
    w_Address w = GenerateAddress (sk_PublicKey priv) ∧ length (w_PublicKeyBytes w) = 64%nat ∧ Forall is_byte (w_PublicKeyBytes w) ∧
    big_SetBytes (take 32 (w_PublicKeyBytes w)) = pk_X (sk_PublicKey priv) ∧
    big_SetBytes (drop 32 (w_PublicKeyBytes w)) = pk_Y (sk_PublicKey priv).
Proof.
  intros Hr Hk. destruct (wallet_of_spec priv mnemonic Hk) as (w & Hw & Hp & _ & Ha & Hl & Hx & Hy).
  exists w. unfold RecoverWalletFromMnemonic. rewrite Hr, Hw. split_and!; try done.
  revert Hw. unfold wallet_of, serializeKeys.
  destruct (pad32 (big_Bytes (pk_X _))) as [bx| |] eqn:Ex; cbn; try done.
  destruct (pad32 (big_Bytes (pk_Y _))) as [by_| |] eqn:Ey; cbn; try done.
  intros E. injection E as <-. cbn. apply Forall_app. split; by eapply pad32_bytes.
Qed.

Lemma hex_encode_not_empty b : (0 < length b)%nat → hex_encode b ≠ "".
Proof. intros Hl E. apply (f_equal String.length) in E. rewrite length_hex_encode in E. cbn in E. lia. Qed.

Lemma empty_signature_invalid pub message : Crypto.VerifySignature (Some pub) message "" ≠ Done true.
Proof. unfold Crypto.VerifySignature. change (hex_decode "") with (Some ([] : list Z)). cbv zeta.
  change (big_SetBytes (take _ [])) with 0. unfold ecdsa_Verify. cbn [length Nat.div]. repeat case_match; try done.
  all: intros E; injection E as E; rewrite ?andb_false_r in E; done.
Qed.

(** C34 A message that the interface signs for a mnemonic, the interface verifies: with
    the address and the public key it shows for that mnemonic, the verdict on the
    signature is that it is valid (when its two components have the same length). *)
Theorem signed_message_verifies k mnemonic privateKey message priv :
  message ≠ "" → mnemonic ≠ "" → RecoverFromMnemonic wordlist mnemonic = Ok priv → key_pair priv →
  (let '(r, s) := ecdsa_sign k priv (sha256 (bytes_of_string message)) in big_len r = big_len s) →
  ∃ view sig, WalletAPI.ImportWallet wordlist (Some (mnemonic, privateKey)) = Done (Ok view) ∧
    WalletAPI.SignMessage wordlist (Ok k) (Some (message, mnemonic)) = Done (Ok (WalletAPI.wv_address view, sig)) ∧
    WalletAPI.VerifySignature (Some (WalletAPI.mkVerifyArgs (WalletAPI.wv_address view) (WalletAPI.wv_publicKey view) message sig))
      = Done (Ok (WalletAPI.Checked true)).
Proof.
  intros Hmsg Hmn Hr Hk Hlen. destruct (recovered_wallet _ _ Hr Hk) as (w & Hw & _ & Hp & Ha & Hl & Hb & Hx & Hy).
  destruct (SignMessage_verifies k priv message Hk Hlen) as (sig & Hs & Hv).
  exists (WalletAPI.show w), sig. unfold WalletAPI.ImportWallet, WalletAPI.SignMessage.
  rewrite (proj2 (str_eqb_neq _ _) Hmn), (proj2 (str_eqb_neq _ _) Hmsg). cbn [negb]. rewrite Hw. cbn [obind]. rewrite Hp, Hs.
  split; [done|]. split; [done|]. unfold WalletAPI.VerifySignature. cbn [WalletAPI.va_address WalletAPI.va_publicKey WalletAPI.va_message
    WalletAPI.va_signature WalletAPI.show WalletAPI.wv_address WalletAPI.wv_publicKey].
  rewrite (proj2 (str_eqb_neq (w_Address w) "")) by (rewrite Ha; done).
  rewrite (proj2 (str_eqb_neq (hex_encode _) "")) by (apply hex_encode_not_empty; lia).
  rewrite (proj2 (str_eqb_neq _ _) Hmsg), (proj2 (str_eqb_neq sig "")) by (intros ->; by apply empty_signature_invalid in Hv).
  rewrite (hex_decode_encode _ Hb), Hl. cbn [Nat.ltb Nat.leb]. rewrite (take_ge (drop 32 (w_PublicKeyBytes w))) by (rewrite length_drop; lia).
  rewrite Hx, Hy, (key_pair_on_curve _ Hk). cbn [negb].
  replace (mkPublicKey _ _) with (sk_PublicKey priv) by (by destruct (sk_PublicKey priv)).
  rewrite Ha, str_eqb_refl. cbn [negb]. rewrite Hv. done.
Qed.

(** C33 A transaction that the interface signs for a mnemonic has the address of the
    mnemonic as its sender and passes the node's signature check (when the two
    components of the signature have the same length); only signature and public key
    differ from the transaction given. *)
Theorem api_signed_transaction_verifies k parse n tbl a tx tx' priv :
  WalletAPI.sg_mnemonic a ≠ "" → RecoverFromMnemonic wordlist (WalletAPI.sg_mnemonic a) = Ok priv → key_pair priv →
  WalletAPI.signing_transaction parse n a = Ok tx → Tx.is_system tx = false →
  (let '(r, s) := ecdsa_sign k priv (sha256 (bytes_of_string (Tx.Hash tx))) in big_len r = big_len s) →
  WalletAPI.SignTransaction wordlist (Ok k) parse n (Some a) = Done (Ok tx') →
  Sender tx' = GenerateAddress (sk_PublicKey priv) ∧ Tx.VerifySignature tbl tx' = Done true ∧
  tx' = Tx.set_signature tx (Signature tx') (SenderPubKey tx').
Proof.
  intros Hmn Hr Hk Htx Hsys Hlen. destruct (recovered_wallet _ _ Hr Hk) as (w & Hw & Hof & _ & Ha & _).
  unfold WalletAPI.SignTransaction. rewrite (proj2 (str_eqb_neq _ _) Hmn). cbn [andb]. destruct (_ && _ && _); [done|].
  unfold WalletAPI.signing_wallet. rewrite (proj2 (str_eqb_neq _ _) Hmn). cbn [negb]. rewrite Hw. cbn [obind]. rewrite Htx.
  destruct (str_eqb (Sender tx) (w_Address w)) eqn:Hs; cbn [negb]; [|done]. apply str_eqb_eq in Hs. rewrite Ha in Hs.
  destruct (signed_transaction_verifies k priv (WalletAPI.sg_mnemonic a) tbl tx Hk Hsys Hs Hlen) as (w' & t & Hof' & Hsign & Hver).
  rewrite Hof in Hof'. injection Hof' as <-. rewrite Hsign. cbn [obind snd fst]. destruct (enc t); [|done].
  intros E. injection E as <-. split; [|split; [exact Hver|]].
  - rewrite <- Hs. revert Hsign. unfold SignTransaction. destruct (if (_ =? 0)%nat then _ else _) as [w1| |]; cbn [obind]; try done.
    destruct (Crypto.SignMessage _ _ _); [|done]. intros E. injection E as _ <-. done.
  - revert Hsign. unfold SignTransaction. destruct (if (_ =? 0)%nat then _ else _) as [w1| |]; cbn [obind]; try done.
    destruct (Crypto.SignMessage _ _ _); [|done]. intros E. injection E as _ <-. done.
Qed.

(** ** Private keys *)

(** The key bytes are read together with those of the public key, of which there are
    none, or 64 zeros, a point that is not on the curve. *)
Lemma no_import_by_key privateKey : ∃ e, WalletAPI.ImportWallet wordlist (Some ("", privateKey)) = Done (Err e).
Proof.
  unfold WalletAPI.ImportWallet. change (negb (str_eqb "" "")) with false. cbv beta iota.
  destruct (negb _); [|eauto]. destruct (hex_decode privateKey) as [b|]; [|eauto].
  unfold DeserializeKeys. destruct (_ =? 0)%nat; eauto.
Qed.

Lemma no_signing_by_key nonce parse n a : WalletAPI.sg_mnemonic a = "" →
  ∃ e, WalletAPI.SignTransaction wordlist nonce parse n (Some a) = Done (Err e).
Proof.
  intros Hm. unfold WalletAPI.SignTransaction. destruct (_ && _) eqn:E1; [eauto|]. destruct (_ && _ && _); [eauto|].
  assert (∃ e, WalletAPI.signing_wallet wordlist a = Done (Err e)) as [e ->]; [|cbn; eauto].
  unfold WalletAPI.signing_wallet. rewrite Hm. change (negb (str_eqb "" "")) with false. cbv beta iota.
  destruct (hex_decode _) as [b|]; [|eauto]. unfold DeserializeKeys. destruct (_ =? 0)%nat; [eauto|].
  change (length (replicate 64 0) <? 64)%nat with false. cbv beta iota zeta.
  change (IsOnCurve (big_SetBytes (take 32 (replicate 64 0))) (big_SetBytes (drop 32 (replicate 64 0)))) with false. cbn. eauto.
Qed.

End api.

(** ** Witnesses *)

Definition demo_words : list string := replicate 12 "abandon".
Definition demo_mnemonic : string :=
  "abandon abandon abandon abandon abandon abandon abandon abandon abandon abandon abandon abandon".

Definition demo_private : PrivateKey :=
  match RecoverFromMnemonic (Ok demo_words) demo_mnemonic with Ok k => k | Err _ => toy_key end.

Lemma demo_recovers : RecoverFromMnemonic (Ok demo_words) demo_mnemonic = Ok demo_private.
Proof. vm_compute. reflexivity. Qed.
Lemma demo_key_pair : key_pair demo_private.
Proof. split; [vm_compute; split; [reflexivity|discriminate || reflexivity]|reflexivity]. Qed.

Lemma signed_message_verifies_witness :
  ∃ view sig, WalletAPI.SignMessage (Ok demo_words) (Ok (2 ^ 254)) (Some ("hello", demo_mnemonic)) =
      Done (Ok (WalletAPI.wv_address view, sig)) ∧
    WalletAPI.VerifySignature (Some (WalletAPI.mkVerifyArgs (WalletAPI.wv_address view) (WalletAPI.wv_publicKey view) "hello" sig))
      = Done (Ok (WalletAPI.Checked true)).
Proof.
  destruct (signed_message_verifies (Ok demo_words) (2 ^ 254) demo_mnemonic "" "hello" demo_private ltac:(done) ltac:(done) demo_recovers
    demo_key_pair ltac:(vm_compute; reflexivity)) as (view & sig & _ & Hs & Hv).
  exists view, sig. split; [exact Hs|exact Hv].
Defined.

Definition own_tx : Transaction := toy_tx (GenerateAddress (sk_PublicKey demo_private)).
Definition sign_args : WalletAPI.SignArgs := WalletAPI.mkSignArgs demo_mnemonic "" "" (Some (Some own_tx)) "".

Lemma api_signed_transaction_verifies_witness :
  ∃ tx', WalletAPI.SignTransaction (Ok demo_words) (Ok (2 ^ 254)) (λ _, None) demo_node (Some sign_args) = Done (Ok tx') ∧
    Tx.VerifySignature ∅ tx' = Done true.
Proof.
  assert (match WalletAPI.SignTransaction (Ok demo_words) (Ok (2 ^ 254)) (λ _, None) demo_node (Some sign_args) with
          | Done (Ok _) => true | _ => false end = true) as Hrun by (vm_compute; reflexivity).
  destruct (WalletAPI.SignTransaction (Ok demo_words) (Ok (2 ^ 254)) (λ _, None) demo_node (Some sign_args)) as [[tx'|]| |] eqn:E;
    [|discriminate..]. exists tx'. split; [reflexivity|].
  refine (proj1 (proj2 (api_signed_transaction_verifies (Ok demo_words) (2 ^ 254) (λ _, None) demo_node ∅ sign_args own_tx tx' demo_private
    _ demo_recovers demo_key_pair eq_refl _ _ E))); [done|reflexivity|vm_compute; reflexivity].
Defined.
