(* ===== verification/NetworkApi.v ===== *)
(** * The network interface of the RPC server

    [src/RPC/api/network.go]. What the libp2p host knows (peers, addresses,
    latencies) and the clock are arguments. Loops over heights run over [uint64];
    [fuel] bounds their turns, and [None] says that it was used up. *)

From stdpp Require Import base gmap strings list.
From Stdlib Require Import ZArith Lia.
From S2P Require Import Prelude.
From S2P Require Import Float64.
From S2P Require Import Database.
From S2P Require Import P256.
From S2P Require Import Transaction.
From S2P Require Import Mempool.
From S2P Require Import Trie.
From S2P Require Import Stake.
From S2P Require Import Block.
From S2P Require Import Chain.
From S2P Require Import ChainStore.
From S2P Require Import Validator.
From S2P Require Import Peers.
From S2P Require Import P2p.
From S2P Require Import Rpc.
From S2P Require Import ServerHandlers.
From S2P Require Import ValidatorApi.

(** [int(x)] *)
Definition f64_to_int `{GoImpl} (x : float64) : Z :=
  match f64_trunc x with
  | Some v => if (- 2 ^ 63 <=? v) && (v <? 2 ^ 63) then v else i64 (conv_u64_oob x)
  | None => i64 (conv_u64_oob x)
  end.

Module NetworkAPI.
Section api.
Context `{KV} `{ECDSA} `{GoImpl} (ord : child_order).

(** ** The time between blocks *)

(** The sum of the differences that are positive; with [all], of all of them. *)
Fixpoint sum_diffs (all : bool) (timestamps : list Z) (totalDiff : Z) : Z :=
  match timestamps with
  | t :: (t' :: _) as rest =>
      let diff := i64 (t - t') in
      sum_diffs all rest (if all || (0 <? diff) then i64 (totalDiff + diff) else totalDiff)
  | _ => totalDiff
  end.

Definition mean_diff (all : bool) (timestamps : list Z) (dflt : float64) : float64 :=
  if (length timestamps <? 2)%nat then dflt
  else f64_div (f64_of_Z (sum_diffs all timestamps 0)) (f64_of_Z (Z.of_nat (length timestamps) - 1)).

(** The times of the blocks from the newest down, as long as the number is above
    [lowest] and, where [stop], above 0. *)
Definition recent_times (fuel : nat) (stop : bool) (lowest height : Z) (bc : Blockchain) : outcome (option (list Z * Blockchain)) :=
  for_loop fuel (λ i _, (lowest <? i) && (negb stop || (0 <? i))) down
    (BlockchainAPI.collect ord (λ b, hdr_Timestamp (Header b))) height ([], bc).

(** Ten seconds, or the mean of the last hundred blocks if there are as many. *)
Definition avg_block_time (fuel : nat) (stop : bool) (height : Z) (bc : Blockchain) : outcome (option (float64 * Blockchain)) :=
  if 100 <=? height then
    let! r := recent_times fuel stop (u64 (height - 100)) height bc in
    Done ((λ p, (mean_diff false p.1 (f64_of_Z 10), p.2)) <$> r)
  else Done (Some (f64_of_Z 10, bc)).

Definition blocks_per_day (avgBlockTime : float64) : Z := f64_to_int (f64_div (f64_of_Z 86400) avgBlockTime).

(** [uint64(days * blocksPerDay)] *)
Definition span (days blocksPerDay : Z) : Z := u64 (i64 (days * blocksPerDay)).

(** The days asked for, which the decoder may fail to read. *)
Definition asked_days (dflt most : Z) (days : option Z) : Z := capped dflt most (default dflt days).

(** ** Active addresses *)

Record Activity := mkActivity { ac_active : gset string; ac_senders : gset string; ac_receivers : gset string; ac_new : gset string }.

Definition known_turn (known : gset string) (tx : Transaction) : gset string :=
  let known := if str_eqb (Sender tx) "" then known else {[Sender tx]} ∪ known in
  if str_eqb (Receiver tx) "" then known else {[Receiver tx]} ∪ known.

Definition note_address (known : gset string) (addr : string) (a : Activity) (senders receivers : gset string) : Activity :=
  mkActivity ({[addr]} ∪ ac_active a) senders receivers (if bool_decide (addr ∈ known) then ac_new a else {[addr]} ∪ ac_new a).

Definition activity_turn (known : gset string) (a : Activity) (tx : Transaction) : Activity :=
  let a := if str_eqb (Sender tx) "" then a
           else note_address known (Sender tx) a ({[Sender tx]} ∪ ac_senders a) (ac_receivers a) in
  if str_eqb (Receiver tx) "" then a
  else note_address known (Receiver tx) a (ac_senders a) ({[Receiver tx]} ∪ ac_receivers a).

(** A loop that folds the transactions of the blocks of a range of heights. *)
Definition tx_scan {A} (f : A → Transaction → A) (h : Z) (acc : A * Blockchain) : outcome (turn (A * Blockchain)) :=
  let '(a, bc) := acc in
  let! (r, bc) := ChainStore.GetBlockByHeight ord bc h in
  Done (Continue (match r with Some b => foldl f a (Trie.GetAllTransactions ord (block_Transactions b)) | None => a end, bc)).

Record ActiveAddresses := mkActiveAddresses {
  aa_total : Z; aa_new : Z; aa_returning : Z; aa_send : Z; aa_receive : Z; aa_both : Z;
  aa_startBlock : Z; aa_endBlock : Z; aa_blocksPerDay : Z; aa_avgBlockTime : float64;
}.

Definition count (s : gset string) : Z := Z.of_nat (size s).

Definition addresses_answer (a : Activity) (startHeight height blocksPerDay : Z) (avg : float64) : ActiveAddresses :=
  let both := filter (λ addr, addr ∈ ac_receivers a) (ac_senders a) in
  mkActiveAddresses (count (ac_active a)) (count (ac_new a)) (count (ac_active a) - count (ac_new a)) (count (ac_senders a))
    (count (ac_receivers a)) (count both) startHeight height blocksPerDay avg.

(** The height some days ago, at least [least]. *)
Definition height_ago (least height days blocksPerDay : Z) : Z :=
  if span days blocksPerDay <? height then u64 (height - span days blocksPerDay) else least.

Definition GetActiveAddresses (fuel : nat) (n : Node.t) (days : option Z) : outcome (option (ActiveAddresses * Node.t)) :=
  let days := asked_days 30 365 days in
  let height := GetHeight (Node.n_bc n) in
  let! r := avg_block_time fuel true height (Node.n_bc n) in
  match r with
  | None => Done None
  | Some (avg, bc) =>
      let perDay := blocks_per_day avg in
      let startHeight := height_ago 1 height days perDay in
      let! r := if 1 <? startHeight then for_loop fuel (λ h _, h <? startHeight) up (tx_scan known_turn) 1 (∅, bc)
                else Done (Some (∅, bc)) in
      match r with
      | None => Done None
      | Some (known, bc) =>
          let! r := for_loop fuel (λ h _, h <=? height) up (tx_scan (activity_turn known)) startHeight (mkActivity ∅ ∅ ∅ ∅, bc) in
          Done (match r with
                | None => None
                | Some (a, bc) => Some (addresses_answer a startHeight height perDay avg, Node.set_bc n bc)
                end)
      end
  end.

(** ** Slashing events *)

Record SlashingEvent := mkSlashingEvent {
  se_validator : string; se_amount : float64; se_reason : string; se_blockHeight : Z; se_timestamp : Z;
}.

Definition determineSlashingReason (v : Validator) : string :=
  if match val_Performance v with Some p => 10 <? MissedValidations p | None => false end then "missed_blocks"
  else if 0 <? ConsensusFailures v then "consensus_failures"
  else if 0 <? val_Violations v then "protocol_violations"
  else "unknown".

Definition slash_amount (sp : option StakePool.t) (addr : string) : float64 :=
  match sp ≫= λ sp, StakePool.Stakes sp !! addr with
  | Some s => f64_mul (f64_of_Z (st_Amount s)) (f64_ratio 1 10)
  | None => f64_zero
  end.

Definition event_key (addr : string) (h : Z) : string := addr +:+ "-" +:+ fmt_d h.

Definition slashing_turn (sp : option StakePool.t) (only : string) (h timestamp : Z) (events : gmap string SlashingEvent) (e : string * Validator)
    : gmap string SlashingEvent :=
  let '(addr, v) := e in
  if negb (str_eqb only "") && negb (str_eqb addr only) then events
  else if Status v =? ValidatorStatusSlashed then
    <[event_key addr h := mkSlashingEvent addr (slash_amount sp addr) (determineSlashingReason v) h timestamp]> events
  else events.

(** At each height the validators are visited in the order [ro h]. *)
Definition slashing_block (ro : Z → range_order) (s : ValidatorAPI.t) (only : string) (h : Z) (acc : gmap string SlashingEvent * Blockchain)
    : outcome (turn (gmap string SlashingEvent * Blockchain)) :=
  let '(events, bc) := acc in
  let! (r, bc) := ChainStore.GetBlockByHeight ord bc h in
  Done (Continue (match r with
    | None => events
    | Some b => foldl (slashing_turn (Node.n_stakePool (ValidatorAPI.api_node s)) only h (hdr_Timestamp (Header b))) events
                  (range (ro h) (ValidatorAPI.Validators s))
    end, bc)).

(** The page; a slice with a negative start panics. *)
Definition event_page {A} (offset limit : Z) (events : list A) : outcome (list A) :=
  let total := Z.of_nat (length events) in
  let startIdx := if total <=? offset then total else offset in
  let endIdx := i64 (startIdx + limit) in
  let endIdx := if total <? endIdx then total else endIdx in
  if startIdx <? endIdx then
    if 0 <=? startIdx then Done (take (Z.to_nat (endIdx - startIdx)) (drop (Z.to_nat startIdx) events))
    else Panic "slice bounds out of range"
  else Done [].

(** The arguments are limit, offset and the validator; the sort is not stable, but
    the order [ro'] in which the events are read is arbitrary. *)
Definition GetSlashingEvents (fuel : nat) (ro : Z → range_order) (ro' : range_order) (s : ValidatorAPI.t) (args : option (Z * Z * string))
    : outcome (option (list SlashingEvent * Z * ValidatorAPI.t)) :=
  let '(limit, offset, only) := default (10, 0, "") args in
  let limit := capped 10 100 limit in
  let n := ValidatorAPI.api_node s in
  let height := GetHeight (Node.n_bc n) in
  let startHeight := if 5000 <? height then u64 (height - 5000) else 1 in
  let! r := for_loop fuel (λ h _, h <=? height) up (slashing_block ro s only) startHeight (∅, Node.n_bc n) in
  match r with
  | None => Done None
  | Some (events, bc) =>
      let l := stable_sort (λ a b, se_timestamp b <? se_timestamp a) (range ro' events).*2 in
      let! page := event_page offset limit l in
      Done (Some (page, Z.of_nat (length l), ValidatorAPI.mk (Node.set_bc n bc) (ValidatorAPI.Validators s)))
  end.

(** ** Uptime *)

Record Uptime := mkUptime {
  up_percentage : float64; up_totalBlocks : Z; up_validatedBlocks : Z; up_missedBlocks : Z; up_height : Z; up_startHeight : Z;
  up_avgBlockTime : float64; up_validator : Validator;
}.

Definition validated_turn (validator : string) (i : Z) (acc : Z * Blockchain) : outcome (turn (Z * Blockchain)) :=
  let '(validated, bc) := acc in
  let! (r, bc) := ChainStore.GetBlockByHeight ord bc i in
  Done (Continue (match r with
    | Some b => if str_eqb (ValidatorAddress (Header b)) validator then u64 (validated + 1) else validated
    | None => validated
    end, bc)).

Definition uptime_answer (avg : float64) (height start validated : Z) (v : Validator) : Uptime :=
  let totalBlocks := if start <=? height then u64 (height - start) else 0 in
  let percentage := if 0 <? totalBlocks
    then f64_mul (f64_div (f64_of_Z validated) (f64_of_Z totalBlocks)) (f64_of_Z 100) else f64_zero in
  mkUptime percentage totalBlocks validated (u64 (totalBlocks - validated)) height start avg v.

Definition GetValidatorUptime (fuel : nat) (s : ValidatorAPI.t) (args : option (string * Z)) : outcome (option (result Uptime * ValidatorAPI.t)) :=
  match args with
  | None => Done (Some (Err invalid_parameters, s))
  | Some (validator, days) =>
      if str_eqb validator "" then Done (Some (Err "validator address is required", s))
      else
        let days := capped 7 90 days in
        match ValidatorAPI.Validators s !! validator with
        | None => Done (Some (Err ("validator not found: " +:+ validator), s))
        | Some v =>
            let n := ValidatorAPI.api_node s in
            let! latest := GetLatestBlock ord (Node.n_bc n) in
            match latest with
            | None => Panic "nil pointer dereference"
            | Some b =>
                let height := BlockNumber (Header b) in
                let! r := avg_block_time fuel false height (Node.n_bc n) in
                match r with
                | None => Done None
                | Some (avg, bc) =>
                    let start := height_ago 0 height days (blocks_per_day avg) in
                    let! r := for_loop fuel (λ i _, i <=? height) up (validated_turn validator) start (0, bc) in
                    Done (match r with
                          | None => None
                          | Some (validated, bc) =>
                              Some (Ok (uptime_answer avg height start validated v),
                                    ValidatorAPI.mk (Node.set_bc n bc) (ValidatorAPI.Validators s))
                          end)
                end
            end
        end
  end.

(** ** Daily volume *)

Record Volume := mkVolume { vo_count : Z; vo_volume : float64; vo_addresses : gset string }.

Definition volume_turn (v : Volume) (tx : Transaction) : Volume :=
  mkVolume (vo_count v + 1) (f64_add (vo_volume v) (Amount tx)) (known_turn (vo_addresses v) tx).

(** The figures of a day, the first and the last block of it. *)
Record DayVolume := mkDayVolume { dv_count : Z; dv_volume : float64; dv_addresses : Z; dv_average : float64; dv_start : Z; dv_end : Z }.

Definition day_answer (v : Volume) (start end_ : Z) : DayVolume :=
  mkDayVolume (vo_count v) (vo_volume v) (count (vo_addresses v))
    (if 0 <? vo_count v then f64_div (vo_volume v) (f64_of_Z (vo_count v)) else f64_zero) start end_.

(** The blocks of a day; both heights wrap around below 0. *)
Definition day_range (height perDay : Z) (day : nat) : Z * Z :=
  let endHeight := u64 (height - span (Z.of_nat day) perDay) in
  let startHeight := u64 (endHeight - u64 perDay) in
  (if startHeight <? 1 then 1 else startHeight, endHeight).

(** The days from [day] on, until one is out of the chain. *)
Fixpoint volume_days (fuel : nat) (height perDay : Z) (days day : nat) (bc : Blockchain) : outcome (option (list DayVolume * Blockchain)) :=
  match days with
  | O => Done (Some ([], bc))
  | S days =>
      let '(start, end_) := day_range height perDay day in
      if (end_ <? 1) || (end_ <? start) then Done (Some ([], bc))
      else
        let! r := for_loop fuel (λ h _, h <=? end_) up (tx_scan volume_turn) start (mkVolume 0 f64_zero ∅, bc) in
        match r with
        | None => Done None
        | Some (v, bc) =>
            let! r := volume_days fuel height perDay days (S day) bc in
            Done ((λ p, (day_answer v start end_ :: p.1, p.2)) <$> r)
        end
  end.

Definition GetDailyTransactionVolume (fuel : nat) (n : Node.t) (days : option Z) : outcome (option (list DayVolume * Z * float64 * Node.t)) :=
  let days := asked_days 30 365 days in
  let height := GetHeight (Node.n_bc n) in
  let! r := avg_block_time fuel true height (Node.n_bc n) in
  match r with
  | None => Done None
  | Some (avg, bc) =>
      let! r := volume_days fuel height (blocks_per_day avg) (Z.to_nat days) 0 bc in
      Done (match r with
            | None => None
            | Some (l, bc) => Some (l, blocks_per_day avg, avg, Node.set_bc n bc)
            end)
  end.

(** ** Growth *)

(** [block.TransactionCount()] on a block of the chain, which keeps the number. *)
Definition counted (bc : Blockchain) (h : Z) (b : Block) : Z * Blockchain :=
  let '(k, b) := Blk.TransactionCount ord b in
  (k, match list_find (λ b, BlockNumber (Header b) = h) (Chain bc) with
      | Some (i, _) => set_chain bc (<[i := b]> (Chain bc))
      | None => bc
      end).

(** The heights at which the days start, going back. *)
Fixpoint daily_heights (days : nat) (perDay endHeight : Z) : list Z :=
  match days with
  | O => []
  | S days =>
      let startHeight := if u64 perDay <? endHeight then u64 (endHeight - u64 perDay) else 0 in
      startHeight :: (if startHeight =? 0 then [] else daily_heights days perDay startHeight)
  end.

Record Period := mkPeriod { pe_blocks : Z; pe_txs : Z; pe_addresses : gset string }.

Definition period_turn (h : Z) (acc : Period * Blockchain) : outcome (turn (Period * Blockchain)) :=
  let '(p, bc) := acc in
  let! (r, bc) := ChainStore.GetBlockByHeight ord bc h in
  Done (Continue (match r with
    | None => (p, bc)
    | Some b =>
        let '(k, bc) := counted bc h b in
        (mkPeriod (pe_blocks p + 1) (pe_txs p + k)
           (foldl known_turn (pe_addresses p) (Trie.GetAllTransactions ord (block_Transactions b))), bc)
    end)).

(** The periods from the newest back: transactions, blocks, and the addresses that
    no later period has. *)
Fixpoint growth (fuel : nat) (heights : list Z) (currentHeight : Z) (unique : gset string) (bc : Blockchain)
    : outcome (option (list (Z * Z * Z) * Blockchain)) :=
  match heights with
  | [] => Done (Some ([], bc))
  | start :: heights =>
      let! r := for_loop fuel (λ h _, (start <? h) && (0 <? h)) down period_turn currentHeight (mkPeriod 0 0 ∅, bc) in
      match r with
      | None => Done None
      | Some (p, bc) =>
          let new := pe_addresses p ∖ unique in
          let! r := growth fuel heights start (new ∪ unique) bc in
          Done ((λ q, ((pe_txs p, pe_blocks p, count new) :: q.1, q.2)) <$> r)
      end
  end.

(** In chronological order. *)
Definition GetNetworkGrowth (fuel : nat) (n : Node.t) (days : option Z) : outcome (option (list (Z * Z * Z) * Z * float64 * Node.t)) :=
  let days := asked_days 30 365 days in
  let height := GetHeight (Node.n_bc n) in
  let! r := avg_block_time fuel true height (Node.n_bc n) in
  match r with
  | None => Done None
  | Some (avg, bc) =>
      let perDay := blocks_per_day avg in
      let! r := growth fuel (daily_heights (Z.to_nat days) perDay height) height ∅ bc in
      Done (match r with
            | None => None
            | Some (l, bc) => Some (reverse l, perDay, avg, Node.set_bc n bc)
            end)
  end.

(** ** Performance and bandwidth *)

Record NodePerformance := mkNodePerformance {
  np_txPerSecond : float64; np_blocksPerMinute : float64; np_averageBlockTime : float64; np_currentHeight : Z; np_pending : Z;
  np_lastBlockHash : string; np_lastBlockTime : Z;
}.

Definition GetNodePerformance (fuel : nat) (n : Node.t) : outcome (option (NodePerformance * Node.t)) :=
  let height := GetHeight (Node.n_bc n) in
  let! latest := GetLatestBlock ord (Node.n_bc n) in
  match latest with
  | None => Panic "nil pointer dereference"
  | Some b =>
      let blockCount := if i64 height <? 100 then i64 height else 100 in
      let! r := if 2 <=? height then recent_times fuel false (u64 (height - u64 blockCount)) height (Node.n_bc n)
                else Done (Some ([], Node.n_bc n)) in
      Done (match r with
            | None => None
            | Some (timestamps, bc) =>
                let avg := mean_diff true timestamps f64_zero in
                let positive := f64_gt avg f64_zero in
                let txs := (Blk.TransactionCount ord b).1 in
                Some (mkNodePerformance (if positive then f64_div (f64_of_Z txs) avg else f64_zero)
                        (if positive then f64_div (f64_of_Z 60) avg else f64_zero) avg height
                        (Z.of_nat (length (Mempool.GetTransactions (Node.n_mempool n)))) (hash_of_block b) (hdr_Timestamp (Header b)),
                      Node.set_bc n bc)
            end)
  end.

Definition bandwidth_turn (h : Z) (acc : Z * Z * Blockchain) : outcome (turn (Z * Z * Blockchain)) :=
  let '(totalTxs, blockCount, bc) := acc in
  let! (r, bc) := ChainStore.GetBlockByHeight ord bc h in
  Done (Continue (match r with
    | None => (totalTxs, blockCount, bc)
    | Some b => let '(k, bc) := counted bc h b in (totalTxs + k, blockCount + 1, bc)
    end)).

Record Bandwidth := mkBandwidth {
  bw_total : Z; bw_byPeer : gmap string Z; bw_blocks : Z; bw_transactions : Z; bw_mempool : Z; bw_avgTxPerBlock : Z; bw_sample : Z;
}.

(** In and out are estimated alike. *)
Definition GetBandwidthUsage (fuel : nat) (peers : list string) (n : Node.t) : outcome (option (Bandwidth * Node.t)) :=
  let peerCount := Z.of_nat (length peers) in
  let height := GetHeight (Node.n_bc n) in
  let startHeight := if 100 <? height then u64 (height - 100) else 1 in
  let! r := for_loop fuel (λ h _, h <=? height) up bandwidth_turn startHeight (0, 0, Node.n_bc n) in
  Done (match r with
        | None => None
        | Some (totalTxs, blockCount, bc) =>
            let avg := if 0 <? blockCount then Z.quot totalTxs blockCount else 0 in
            let total := peerCount * 100 + avg * 250 in
            Some (mkBandwidth total (foldl (λ m p, <[p := Z.quot total peerCount]> m) ∅ peers) (100 * peerCount) (250 * avg)
                    (Z.of_nat (length (Mempool.GetTransactions (Node.n_mempool n))) * 250) avg blockCount, Node.set_bc n bc)
        end).

(** ** Peers and state of the node *)

(** Bootstrap nodes, TXNS nodes, and all others. *)
Definition peer_kinds (boot : string → bool) (peers : list string) : Z * Z * Z :=
  foldl (λ c p, let '(b, t, v) := c in
    if boot p then (b + 1, t, v) else if IsPeerTXNSNode p then (b, t + 1, v) else (b, t, v + 1)) (0, 0, 0) peers.

Definition GetNetworkStats (boot : string → bool) (peers : list string) (n : Node.t) : outcome (Z * Z * Z * Z * Z * Z) :=
  let! latest := GetLatestBlock ord (Node.n_bc n) in
  match latest with
  | None => Panic "nil pointer dereference"
  | Some b =>
      let '(bn, tn, vn) := peer_kinds boot peers in
      Done (Z.of_nat (length peers), bn, tn, vn, GetHeight (Node.n_bc n), hdr_Timestamp (Header b))
  end.

(** [connect] is what the host's attempt to connect returns. *)
Definition AddPeer (connect : string → error) (peerAddress : option string) : result string :=
  match peerAddress with
  | None => Err invalid_parameters
  | Some peerAddress =>
      if str_eqb peerAddress "" then Err "peer address is required"
      else match connect peerAddress with
           | Some e => Err ("failed to connect to peer: " +:+ e)
           | None => Ok ("Connected to peer: " +:+ peerAddress)
           end
  end.

(** While the node synchronises the target is taken to be the own height. *)
Record SyncProgress := mkSyncProgress { sy_target : Z; sy_remaining : Z; sy_speed : float64; sy_timeRemaining : Z; sy_startTime : Z }.

Definition GetSyncStatus (now : Z) (n : Node.t) : bool * Z * option SyncProgress :=
  let currentHeight := GetHeight (Node.n_bc n) in
  (Node.n_isSyncing n, currentHeight,
   if Node.n_isSyncing n then
     let targetHeight := currentHeight in
     let remainingBlocks := if currentHeight <? targetHeight then i64 (u64 (targetHeight - currentHeight)) else 0 in
     Some (mkSyncProgress targetHeight remainingBlocks f64_zero 0 (unix now))
   else None).

Definition GetBootnodeInfo (boot : string → bool) (peers : list string) : list string := filter (λ p, boot p = true) peers.

Definition GetPeerCount (peers : list string) : Z := Z.of_nat (length peers).

End api.
End NetworkAPI.
