(* ===== verification/NetworkApiFacts.v ===== *)
(** * Correctness of the network interface

    On a chain whose blocks are numbered, the active addresses are those of the
    transactions of the period and the new ones those not seen before it; the
    blocks of a validator are counted over the period, whose length is taken one too
    short; each slashed validator has an event in every block searched. *)

From stdpp Require Import base gmap strings list sorting.
From Stdlib Require Import ZArith Lia.
From S2P Require Import Prelude.
From S2P Require Import Float64.
From S2P Require Import Database.
From S2P Require Import P256.
From S2P Require Import Transaction.
From S2P Require Import Utxo.
From S2P Require Import UtxoFacts.
From S2P Require Import MempoolFacts.
From S2P Require Import Trie.
From S2P Require Import Stake.
From S2P Require Import Block.
From S2P Require Import BlockFacts.
From S2P Require Import Chain.
From S2P Require Import ChainFacts.
From S2P Require Import ChainStore.
From S2P Require Import ChainStoreFacts.
From S2P Require Import SyncFacts.
From S2P Require Import Validator.
From S2P Require Import P2p.
From S2P Require Import Rpc.
From S2P Require Import RpcFacts.
From S2P Require Import RpcTxFacts.
From S2P Require Import SubscriptionsFacts.
From S2P Require Import ValidatorApi.
From S2P Require Import NetworkApi.

Import NetworkAPI.

Section api.
Context `{KV} `{ECDSA} `{GoImpl} (ord : child_order).

(** ** Loops over a range of blocks *)

(** Folds blocks with their numbers. *)
Fixpoint fold_from {A} (f : Z → A → Block → A) (i : nat) (l : list Block) (a : A) : A :=
  match l with
  | [] => a
  | b :: l => fold_from f (S i) l (f (Z.of_nat i) a (read_out b))
  end.

(** A loop up to a height whose turns all go on, over blocks that are there. *)
Lemma loop_up {A} (body : Z → A * Blockchain → outcome (turn (A * Blockchain))) (f : Z → A → Block → A) (cond : Z → A * Blockchain → bool) bc :
  (∀ i b a bc', same_reads bc bc' → Chain bc !! i = Some b →
     ∃ bc'', body (Z.of_nat i) (a, bc') = Done (Continue (f (Z.of_nat i) a (read_out b), bc'')) ∧ same_reads bc bc'') →
  ∀ n fuel i a bc', same_reads bc bc' → (n < fuel)%nat → (i + n ≤ length (Chain bc))%nat → Z.of_nat (i + n) < 2 ^ 64 →
  (∀ k a, (i ≤ k < i + n)%nat → cond (Z.of_nat k) a = true) → (∀ a, cond (Z.of_nat (i + n)) a = false) →
  ∃ bc'', for_loop fuel cond up body (Z.of_nat i) (a, bc') =
    Done (Some (fold_from f i (take n (drop i (Chain bc))) a, bc'')) ∧ same_reads bc bc''.
Proof.
  intros Hbody n. induction n as [|n IH]; intros fuel i a bc' Hs Hf Hlen Hu Hc Hend.
  { exists bc'. rewrite Nat.add_0_r in Hend. rewrite take_0. cbn. rewrite for_loop_stop; [done|lia|apply Hend]. }
  destruct fuel as [|fuel]; [lia|]. destruct (lookup_lt_is_Some_2 (Chain bc) i) as [b Hb]; [lia|].
  destruct (Hbody i b a bc' Hs Hb) as (bc1 & E & Hs1).
  rewrite (for_loop_continue _ _ _ _ _ _ (f (Z.of_nat i) a (read_out b), bc1)); [|apply Hc; lia|exact E].
  rewrite up_small by lia. replace (Z.of_nat i + 1) with (Z.of_nat (S i)) by lia.
  destruct (IH fuel (S i) (f (Z.of_nat i) a (read_out b)) bc1 Hs1) as (bc2 & E2 & Hs2); [lia|lia|lia| | |].
  - intros k a' Hk. apply Hc. lia.
  - intros a'. replace (S i + n)%nat with (i + S n)%nat by lia. apply Hend.
  - exists bc2. split; [|exact Hs2]. rewrite E2. by rewrite (drop_S _ _ _ Hb).
Qed.

(** The transactions of [n] blocks from number [i] on. *)
Definition txs_of (chain : list Block) (i n : nat) : list Transaction :=
  concat ((λ b, Trie.GetAllTransactions ord (block_Transactions (read_out b))) <$> take n (drop i chain)).

Lemma scan_up {A} (f : A → Transaction → A) (cond : Z → A * Blockchain → bool) bc : numbered (Chain bc) →
  ∀ n fuel i a bc', same_reads bc bc' → (n < fuel)%nat → (i + n ≤ length (Chain bc))%nat → Z.of_nat (i + n) < 2 ^ 64 →
  (∀ k a, (i ≤ k < i + n)%nat → cond (Z.of_nat k) a = true) → (∀ a, cond (Z.of_nat (i + n)) a = false) →
  ∃ bc'', for_loop fuel cond up (tx_scan ord f) (Z.of_nat i) (a, bc') = Done (Some (foldl f a (txs_of (Chain bc) i n), bc'')) ∧ same_reads bc bc''.
Proof.
  intros Hn n fuel i a bc' Hs Hf Hlen Hu Hc Hend.
  destruct (loop_up (tx_scan ord f) (λ _ a b, foldl f a (Trie.GetAllTransactions ord (block_Transactions b))) cond bc) with
    (n := n) (fuel := fuel) (i := i) (a := a) (bc' := bc') as (bc2 & E & Hs2); try done.
  { intros j b a' bc1 Hs1 Hb. destruct (look ord bc bc1 j b Hn Hs1 Hb) as (bc2 & E & Hs2). exists bc2. unfold tx_scan. by rewrite E. }
  exists bc2. split; [|exact Hs2]. rewrite E. do 3 f_equal. unfold txs_of. clear.
  generalize i at 1. revert a. induction (take n (drop i (Chain bc))) as [|b l IH]; intros a j; [done|].
  cbn [fold_from fmap list_fmap concat]. rewrite foldl_app. apply IH.
Qed.

(** ** The time between blocks *)
Lemma recent_times_total fuel stop lowest height bc : scannable fuel bc → 0 ≤ lowest → 0 ≤ height < Z.of_nat (length (Chain bc)) →
  ∃ l bc', recent_times ord fuel stop lowest height bc = Done (Some (l, bc')) ∧ same_reads bc bc'.
Proof.
  intros (Hn & _ & Hu & Hf) Hl. unfold recent_times.
  assert (∀ k fuel bc' l, same_reads bc bc' → (k < length (Chain bc))%nat → (k < fuel)%nat →
    ∃ l' bc'', for_loop fuel (λ i _, (lowest <? i) && (negb stop || (0 <? i))) down
      (BlockchainAPI.collect ord (λ b, hdr_Timestamp (Header b))) (Z.of_nat k) (l, bc') = Done (Some (l', bc'')) ∧ same_reads bc bc'') as Hk.
  { induction k as [|k IH]; intros fl bc' l Hs Hk Hfl.
    - exists l, bc'. rewrite for_loop_stop; [done|lia|]. by rewrite (proj2 (Z.ltb_ge lowest _)) by lia.
    - destruct fl as [|fl]; [lia|]. destruct ((lowest <? Z.of_nat (S k)) && (negb stop || (0 <? Z.of_nat (S k)))) eqn:Ec.
      + destruct (lookup_lt_is_Some_2 _ _ Hk) as [b Hb]. destruct (look ord bc bc' (S k) b Hn Hs Hb) as (bc1 & E & Hs1).
        erewrite for_loop_continue; [|exact Ec|unfold BlockchainAPI.collect; rewrite E; reflexivity].
        rewrite down_small by lia. replace (Z.of_nat (S k) - 1) with (Z.of_nat k) by lia. apply IH; [done|lia|lia].
      + exists l, bc'. rewrite for_loop_stop; [done|lia|exact Ec]. }
  intros Hh. destruct (Hk (Z.to_nat height) fuel bc [] (same_reads_refl bc)) as (l & bc' & E & Hs); [lia|lia|].
  rewrite Z2Nat.id in E by lia. eauto.
Qed.

Lemma avg_block_time_total fuel stop bc height : scannable fuel bc → height = Z.of_nat (length (Chain bc)) - 1 → 0 ≤ height →
  ∃ avg bc', avg_block_time ord fuel stop height bc = Done (Some (avg, bc')) ∧ same_reads bc bc' ∧ (height < 100 → avg = f64_of_Z 10).
Proof.
  intros Hsc Hh H0'. unfold avg_block_time. destruct (Z.leb_spec 100 height) as [Hge|Hlt].
  - destruct Hsc as (Hn & Hne & Hu & Hf).
    destruct (recent_times_total fuel stop (u64 (height - 100)) height bc) as (l & bc' & E & Hs); [done|apply u64_range|lia|].
    rewrite E. cbn [obind fmap option_fmap option_map fst snd]. eexists _, bc'. split; [done|]. split; [done|lia].
  - exists (f64_of_Z 10), bc. split; [done|]. split; [apply same_reads_refl|done].
Qed.

Lemma same_reads_trans bc1 bc2 bc3 : same_reads bc1 bc2 → same_reads bc2 bc3 → same_reads bc1 bc3.
Proof. intros [E1 R1] [E2 R2]. split; [|by rewrite R2, R1]. rewrite E2, E1. done. Qed.

Lemma height_ago_le least height days perDay : 0 ≤ least ≤ height → is_u64 height →
  0 ≤ height_ago least height days perDay ≤ height ∧ (least = 1 → 1 ≤ height_ago least height days perDay).
Proof.
  intros Hl Hh. unfold height_ago, span. pose proof (u64_range (i64 (days * perDay))) as [Hs _].
  destruct (Z.ltb_spec (u64 (i64 (days * perDay))) height); [|lia].
  rewrite u64_small; unfold is_u64 in *; lia.
Qed.

(** ** Active addresses *)

Definition named (s : string) : gset string := if str_eqb s "" then ∅ else {[s]}.
Definition senders (txs : list Transaction) : gset string := ⋃ (named ∘ Sender <$> txs).
Definition receivers (txs : list Transaction) : gset string := ⋃ (named ∘ Receiver <$> txs).

Lemma senders_cons tx txs : senders (tx :: txs) = named (Sender tx) ∪ senders txs.
Proof. done. Qed.
Lemma receivers_cons tx txs : receivers (tx :: txs) = named (Receiver tx) ∪ receivers txs.
Proof. done. Qed.

Lemma known_fold txs : ∀ known, foldl known_turn known txs = known ∪ (senders txs ∪ receivers txs).
Proof.
  induction txs as [|tx txs IH]; intros known; cbn [foldl].
  - change (senders []) with (∅ : gset string). change (receivers []) with (∅ : gset string). by rewrite !(right_id_L ∅ (∪)).
  - rewrite IH, senders_cons, receivers_cons. generalize (senders txs) (receivers txs). intros S R. apply leibniz_equiv.
    unfold known_turn, named. destruct (str_eqb (Sender tx) ""), (str_eqb (Receiver tx) ""); set_solver.
Qed.

Lemma activity_fold known txs : ∀ a, foldl (activity_turn known) a txs =
  mkActivity (ac_active a ∪ (senders txs ∪ receivers txs)) (ac_senders a ∪ senders txs) (ac_receivers a ∪ receivers txs)
    (ac_new a ∪ (senders txs ∪ receivers txs) ∖ known).
Proof.
  induction txs as [|tx txs IH]; intros a; cbn [foldl].
  - change (senders []) with (∅ : gset string). change (receivers []) with (∅ : gset string).
    destruct a as [x y z w]. cbn. f_equal; apply leibniz_equiv; set_solver.
  - rewrite IH, senders_cons, receivers_cons. generalize (senders txs) (receivers txs). intros S R.
    unfold activity_turn, note_address, named.
    destruct (str_eqb (Sender tx) ""), (str_eqb (Receiver tx) ""); cbn [ac_active ac_senders ac_receivers ac_new];
      repeat case_bool_decide; (f_equal; apply leibniz_equiv; set_solver).
Qed.

(** The count of active addresses over a period is right: the addresses that sent or
    received in the blocks of the period; the new ones are those not in any earlier
    block, the returning ones the others, and "both" those that sent and received.
    The period starts inside the chain. *)
Theorem GetActiveAddresses_spec fuel n days : scannable fuel (Node.n_bc n) → (2 ≤ length (Chain (Node.n_bc n)))%nat →
  let chain := Chain (Node.n_bc n) in
  let height := (length chain - 1)%nat in
  ∃ r start bc', GetActiveAddresses ord fuel n days = Done (Some (r, Node.set_bc n bc')) ∧ same_reads (Node.n_bc n) bc' ∧
    (1 ≤ start ≤ height)%nat ∧ aa_startBlock r = Z.of_nat start ∧ aa_endBlock r = Z.of_nat height ∧
    let txs := txs_of chain start (S height - start) in
    let earlier := txs_of chain 1 (start - 1) in
    let before := senders earlier ∪ receivers earlier in
    let active := senders txs ∪ receivers txs in
    aa_total r = count active ∧ aa_new r = count (active ∖ before) ∧ aa_returning r = count (active ∩ before) ∧
    aa_send r = count (senders txs) ∧ aa_receive r = count (receivers txs) ∧ aa_both r = count (senders txs ∩ receivers txs).
Proof.
  intros Hsc Hlen chain height. destruct Hsc as (Hn & Hne & Hu & Hf). unfold GetActiveAddresses.
  assert (Hh : height = (length chain - 1)%nat) by done. clearbody height. fold chain in Hlen, Hu, Hf.
  rewrite (height_numbered _ Hn Hne). fold chain. replace (Z.of_nat (length chain) - 1) with (Z.of_nat height) by lia.
  destruct (avg_block_time_total fuel true (Node.n_bc n) (Z.of_nat height)) as (avg & bc1 & E1 & Hs1 & _); [done|fold chain; lia|lia|].
  rewrite E1. cbn [obind]. set (d := asked_days 30 365 days).
  destruct (height_ago_le 1 (Z.of_nat height) d (blocks_per_day avg)) as [Hr Hr1]; [lia|unfold is_u64; lia|]. specialize (Hr1 eq_refl).
  set (start := Z.to_nat (height_ago 1 (Z.of_nat height) d (blocks_per_day avg))).
  replace (height_ago 1 (Z.of_nat height) d (blocks_per_day avg)) with (Z.of_nat start) by lia.
  assert (∃ bc2, (if 1 <? Z.of_nat start then for_loop fuel (λ h _, h <? Z.of_nat start) up (tx_scan ord known_turn) 1 (∅, bc1)
      else Done (Some (∅, bc1))) = Done (Some (foldl known_turn ∅ (txs_of chain 1 (start - 1)), bc2)) ∧ same_reads (Node.n_bc n) bc2)
    as (bc2 & E2 & Hs2).
  { destruct (Z.ltb_spec 1 (Z.of_nat start)) as [Hst|Hst].
    - apply (scan_up known_turn _ (Node.n_bc n) Hn (start - 1) fuel 1 ∅ bc1 Hs1); [fold chain; lia..| |].
      + intros k a Hk. apply Z.ltb_lt. lia.
      + intros a. apply Z.ltb_ge. lia.
    - exists bc1. split; [|exact Hs1]. replace (start - 1)%nat with 0%nat by lia. unfold txs_of. by rewrite take_0. }
  rewrite E2. cbn [obind].
  destruct (scan_up (activity_turn (foldl known_turn ∅ (txs_of chain 1 (start - 1)))) (λ h _, h <=? Z.of_nat height) (Node.n_bc n) Hn
    (S height - start) fuel start (mkActivity ∅ ∅ ∅ ∅) bc2 Hs2) as (bc3 & E3 & Hs3); [fold chain; lia..| | |].
  { intros k a Hk. apply Z.leb_le. lia. }
  { intros a. apply Z.leb_gt. lia. }
  rewrite E3. cbn [obind]. eexists _, start, bc3. split; [done|]. split; [exact Hs3|]. split; [lia|]. fold chain.
  cbn [addresses_answer aa_startBlock aa_endBlock aa_total aa_new aa_returning aa_send aa_receive aa_both].
  rewrite activity_fold, known_fold. cbn [ac_active ac_senders ac_receivers ac_new].
  set (S := senders (txs_of chain start _)). set (R := receivers (txs_of chain start _)).
  set (B := senders (txs_of chain 1 _) ∪ receivers (txs_of chain 1 _)).
  rewrite !(left_id_L ∅ (∪)). split; [done|]. split; [done|]. split; [done|]. split; [done|]. split.
  - assert (size (S ∪ R) = size ((S ∪ R) ∖ B) + size ((S ∪ R) ∩ B))%nat as Hsz.
    { rewrite <- size_union by set_solver. apply set_size_proper. intros x. destruct (decide (x ∈ B)); set_solver. }
    unfold count. lia.
  - split; [done|]. split; [done|]. f_equal. apply leibniz_equiv. set_solver.
Qed.

(** ** Slashing events *)

(** The validators that the query is about. *)
Definition slashed_one (only : string) (vals : gmap string Validator) (addr : string) (v : Validator) : Prop :=
  vals !! addr = Some v ∧ (only = "" ∨ addr = only) ∧ Status v = ValidatorStatusSlashed.

Definition event_of (sp : option StakePool.t) (addr : string) (v : Validator) (h ts : Z) : SlashingEvent :=
  mkSlashingEvent addr (slash_amount sp addr) (determineSlashingReason v) h ts.

Definition selected (only : string) (addr : string) (v : Validator) : bool :=
  negb (negb (str_eqb only "") && negb (str_eqb addr only)) && (Status v =? ValidatorStatusSlashed).

Lemma selected_spec only vals addr v : vals !! addr = Some v → selected only addr v = true ↔ slashed_one only vals addr v.
Proof.
  intros Hv. unfold selected, slashed_one. rewrite andb_true_iff, negb_true_iff, andb_false_iff, !negb_false_iff, !str_eqb_eq, Z.eqb_eq. naive_solver.
Qed.

Lemma slashing_turn_spec sp only h ts events addr v :
  slashing_turn sp only h ts events (addr, v) =
  if selected only addr v then <[event_key addr h := event_of sp addr v h ts]> events else events.
Proof. unfold slashing_turn, selected. destruct (_ && _); [done|]. cbn. by destruct (_ =? _). Qed.

Lemma event_key_inj addr addr' h h' : 0 ≤ h → 0 ≤ h' → event_key addr h = event_key addr' h' → addr = addr' ∧ h = h'.
Proof. apply utxo_key_split. Qed.

Lemma slashing_fold sp only h ts l : NoDup l.*1 → 0 ≤ h → ∀ events key e,
  (foldl (slashing_turn sp only h ts) events l) !! key = Some e ↔
  (∃ addr v, (addr, v) ∈ l ∧ selected only addr v = true ∧ key = event_key addr h ∧ e = event_of sp addr v h ts) ∨
  (events !! key = Some e ∧ ∀ addr v, (addr, v) ∈ l → selected only addr v = true → key ≠ event_key addr h).
Proof.
  intros Hnd Hh. induction l as [|[a0 v0] l IH]; intros events key e.
  { cbn. split; [intros Hx; right; split; [done|by intros ? ? ?%not_elem_of_nil]|]. intros [(? & ? & ?%not_elem_of_nil & _)|[? _]]; done. }
  cbn [fmap list_fmap fst] in Hnd. apply NoDup_cons in Hnd as [Hni Hnd]. cbn [foldl]. rewrite (IH Hnd), slashing_turn_spec. clear IH.
  assert (Hfresh : ∀ addr v, (addr, v) ∈ l → event_key addr h ≠ event_key a0 h).
  { intros addr v Hin E. apply event_key_inj in E as [-> _]; [|done..]. apply Hni. by apply (list_elem_of_fmap_2 fst _ (a0, v)). }
  destruct (selected only a0 v0) eqn:Hsel.
  - split.
    + intros [(addr & v & Hin & Hs & -> & ->)|[Hl Hno]].
      * left. exists addr, v. split; [by right|done].
      * apply lookup_insert_Some in Hl as [[<- <-]|[Hne Hl]].
        { left. exists a0, v0. split; [by left|done]. }
        right. split; [done|]. intros addr v [[= -> ->]|Hin]%elem_of_cons Hs; [done|by eapply Hno].
    + intros [(addr & v & Hin & Hs & -> & ->)|[Hl Hno]].
      * apply elem_of_cons in Hin as [[= -> ->]|Hin]; [|left; by exists addr, v].
        right. split; [by rewrite lookup_insert_eq|]. intros addr v Hin _ E. by apply (Hfresh addr v Hin).
      * right. split; [rewrite lookup_insert_ne; [done|intros E; eapply (Hno a0 v0); [by left|done|done]]|].
        intros addr v Hin. apply Hno. by right.
  - split.
    + intros [(addr & v & Hin & Hs & -> & ->)|[Hl Hno]]; [left; exists addr, v; split; [by right|done]|].
      right. split; [done|]. intros addr v [[= -> ->]|Hin]%elem_of_cons Hs; [congruence|by eapply Hno].
    + intros [(addr & v & Hin & Hs & -> & ->)|[Hl Hno]].
      * apply elem_of_cons in Hin as [[= -> ->]|Hin]; [congruence|left; by exists addr, v].
      * right. split; [done|]. intros addr v Hin. apply Hno. by right.
Qed.

(** The events of the blocks from number [i] on. *)
Lemma slashing_blocks (ro : Z → range_order) s only : (∀ h, fair (ro h)) → ∀ l i events,
  (∀ key e, events !! key = Some e → ∃ addr h, key = event_key addr h ∧ 0 ≤ h < Z.of_nat i) →
  ∀ key e, fold_from (λ h evs b, foldl (slashing_turn (Node.n_stakePool (ValidatorAPI.api_node s)) only h (hdr_Timestamp (Header b))) evs
      (range (ro h) (ValidatorAPI.Validators s))) i l events !! key = Some e ↔
    events !! key = Some e ∨
    ∃ k b addr v, l !! k = Some b ∧ slashed_one only (ValidatorAPI.Validators s) addr v ∧ key = event_key addr (Z.of_nat (i + k)) ∧
      e = event_of (Node.n_stakePool (ValidatorAPI.api_node s)) addr v (Z.of_nat (i + k)) (hdr_Timestamp (Header b)).
Proof.
  intros Hro. set (sp := Node.n_stakePool (ValidatorAPI.api_node s)). induction l as [|b l IH]; intros i events Hev key e.
  { cbn. split; [by left|]. intros [?|(k & b & addr & v & Hk & _)]; [done|]. by rewrite lookup_nil in Hk. }
  cbn [fold_from]. destruct (range_entries (ro (Z.of_nat i)) (ValidatorAPI.Validators s) (Hro _)) as [Hnd Hin].
  set (evs := foldl _ events _).
  assert (Hone : ∀ key e, evs !! key = Some e ↔ events !! key = Some e ∨
    ∃ addr v, slashed_one only (ValidatorAPI.Validators s) addr v ∧ key = event_key addr (Z.of_nat i) ∧
      e = event_of sp addr v (Z.of_nat i) (hdr_Timestamp (Header b))).
  { intros key' e'. unfold evs. rewrite slashing_fold; [|done|lia]. rewrite header_read_out. split.
    - intros [(addr & v & Hl & Hs & -> & ->)|[Hl _]]; [|by left]. right. exists addr, v. split; [|done].
      apply Hin in Hl. by apply (selected_spec only _ addr v Hl).
    - intros [Hl|(addr & v & Hs & -> & ->)].
      + right. split; [done|]. intros addr v _ _ ->. destruct (Hev _ _ Hl) as (a & h & E & Hh).
        apply event_key_inj in E as [_ E]; lia.
      + left. exists addr, v. destruct Hs as (Hv & Hx). split; [by apply Hin|]. split; [|done]. by apply (selected_spec only _ addr v Hv). }
  rewrite IH.
  - rewrite Hone. split.
    + intros [[Hl|(addr & v & Hs & -> & ->)]|(k & b' & addr & v & Hk & Hs & -> & ->)]; [by left| |].
      * right. exists 0%nat, b, addr, v. by rewrite Nat.add_0_r.
      * right. exists (S k), b', addr, v. by rewrite Nat.add_succ_r.
    + intros [Hl|([|k] & b' & addr & v & Hk & Hs & -> & ->)]; [by do 2 left| |].
      * left. right. injection Hk as <-. exists addr, v. by rewrite Nat.add_0_r.
      * right. exists k, b', addr, v. by rewrite Nat.add_succ_r.
  - intros key' e' Hl. apply Hone in Hl as [Hl|(addr & v & _ & -> & _)].
    + destruct (Hev _ _ Hl) as (a & h & E & Hh). exists a, h. split; [done|lia].
    + exists addr, (Z.of_nat i). split; [done|lia].
Qed.

Lemma event_page_spec {A} offset limit (l : list A) : is_i64 offset → 1 ≤ limit ≤ 100 → Z.of_nat (length l) < 2 ^ 62 →
  event_page offset limit l = if decide (offset < 0) then Panic "slice bounds out of range"
                              else Done (take (Z.to_nat limit) (drop (Z.to_nat offset) l)).
Proof.
  intros Ho Hl Hn. unfold event_page, is_i64 in *. case_decide as Hneg.
  - rewrite (proj2 (Z.leb_gt _ offset)) by lia. rewrite i64_small by (unfold is_i64; lia).
    destruct (Z.ltb_spec (Z.of_nat (length l)) (offset + limit)); (rewrite (proj2 (Z.ltb_lt offset _)) by lia);
      by rewrite (proj2 (Z.leb_gt 0 offset)) by lia.
  - destruct (Z.leb_spec (Z.of_nat (length l)) offset) as [Hge|Hlt].
    + rewrite i64_small by (unfold is_i64; lia). rewrite (proj2 (Z.ltb_lt (Z.of_nat (length l)) (Z.of_nat (length l) + limit))) by lia.
      rewrite Z.ltb_irrefl. rewrite drop_ge by lia. by rewrite take_nil.
    + rewrite i64_small by (unfold is_i64; lia). rewrite (proj2 (Z.leb_le 0 offset)) by lia.
      destruct (Z.ltb_spec (Z.of_nat (length l)) (offset + limit)); (rewrite (proj2 (Z.ltb_lt offset _)) by lia).
      * by rewrite !take_ge by (rewrite length_drop; lia).
      * do 3 f_equal. lia.
Qed.

(** The event, in a block of the range that is searched. *)
Definition happened (s : ValidatorAPI.t) (only : string) (chain : list Block) (start : nat) (e : SlashingEvent) : Prop :=
  ∃ h b addr v, (start ≤ h)%nat ∧ chain !! h = Some b ∧ slashed_one only (ValidatorAPI.Validators s) addr v ∧
    e = event_of (Node.n_stakePool (ValidatorAPI.api_node s)) addr v (Z.of_nat h) (hdr_Timestamp (Header b)).

Definition first_scanned (height : nat) : nat := if decide (5000 < height)%nat then (height - 5000)%nat else 1%nat.

Lemma slashing_run fuel ro s only : (∀ h, fair (ro h)) → scannable fuel (Node.n_bc (ValidatorAPI.api_node s)) →
  let chain := Chain (Node.n_bc (ValidatorAPI.api_node s)) in let height := (length chain - 1)%nat in (2 ≤ length chain)%nat →
  ∃ events bc', for_loop fuel (λ h _, h <=? Z.of_nat height) up (slashing_block ord ro s only) (Z.of_nat (first_scanned height))
      (∅, Node.n_bc (ValidatorAPI.api_node s)) = Done (Some (events, bc')) ∧ same_reads (Node.n_bc (ValidatorAPI.api_node s)) bc' ∧
    (∀ key e, events !! key = Some e ↔ happened s only chain (first_scanned height) e ∧ key = event_key (se_validator e) (se_blockHeight e)).
Proof.
  intros Hro (Hn & Hne & Hu & Hf) chain height Hlen. set (bc := Node.n_bc (ValidatorAPI.api_node s)) in *.
  assert (Hh : height = (length chain - 1)%nat) by done. clearbody height. fold chain in Hu, Hf.
  assert (Hst : (1 ≤ first_scanned height ≤ height)%nat) by (unfold first_scanned; case_decide; lia).
  set (start := first_scanned height) in *. clearbody start.
  destruct (loop_up (slashing_block ord ro s only) (λ h evs b, foldl (slashing_turn (Node.n_stakePool (ValidatorAPI.api_node s)) only h (hdr_Timestamp (Header b))) evs
      (range (ro h) (ValidatorAPI.Validators s))) (λ h _, h <=? Z.of_nat height) bc) with
    (n := (S height - start)%nat) (fuel := fuel) (i := start) (a := ∅ : gmap string SlashingEvent) (bc' := bc) as (bc' & E & Hs).
  - intros i b a bc1 Hs1 Hb. destruct (look ord bc bc1 i b Hn Hs1 Hb) as (bc2 & E & Hs2). exists bc2. unfold slashing_block. by rewrite E.
  - apply same_reads_refl.
  - lia.
  - fold chain. lia.
  - lia.
  - intros k a Hk. apply Z.leb_le. lia.
  - intros a. apply Z.leb_gt. lia.
  - eexists _, bc'. split; [exact E|]. split; [exact Hs|]. intros key e. rewrite slashing_blocks; [|done|intros ? ?; by rewrite lookup_empty].
    fold chain. rewrite take_ge by (rewrite length_drop; lia). rewrite lookup_empty. split.
    + intros [?|(k & b & addr & v & Hk & Hsl & -> & ->)]; [done|]. rewrite lookup_drop in Hk. split; [|done].
      exists (start + k)%nat, b, addr, v. split; [lia|done].
    + intros [(h & b & addr & v & Hsh & Hb & Hsl & ->) ->]. right. exists (h - start)%nat, b, addr, v. rewrite lookup_drop.
      replace (start + (h - start))%nat with h by lia. done.
Qed.

(** There are at most as many events as blocks times validators. *)
Lemma events_bounded s only chain start (l : list SlashingEvent) m : NoDup l → (∀ e, e ∈ l ↔ happened s only chain start e) →
  Z.of_nat (length chain) * Z.of_nat (size (ValidatorAPI.Validators s)) < m → Z.of_nat (length l) < m.
Proof.
  intros Hnd Hin Hm.
  assert (length l ≤ length (list_prod (seq 0 (length chain)) (map_keys (ValidatorAPI.Validators s))))%nat as Hle.
  { rewrite <- (length_fmap (λ e, (Z.to_nat (se_blockHeight e), se_validator e)) l). apply submseteq_length, NoDup_submseteq.
    - apply NoDup_fmap_2_strong; [|exact Hnd]. intros x y Hx%Hin Hy%Hin. destruct Hx as (h1 & b1 & a1 & v1 & _ & Hb1 & (Hv1 & _) & ->).
      destruct Hy as (h2 & b2 & a2 & v2 & _ & Hb2 & (Hv2 & _) & ->). cbn. rewrite !Nat2Z.id. intros [= -> ->].
      rewrite Hb1 in Hb2. rewrite Hv1 in Hv2. apply (inj Some) in Hb2, Hv2. by subst.
    - intros [h a] Hx. apply list_elem_of_fmap in Hx as (e & [= -> ->] & (h1 & b1 & a1 & v1 & _ & Hb1 & (Hv1 & _) & ->)%Hin).
      cbn. rewrite Nat2Z.id. apply list_elem_of_In, in_prod.
      + apply in_seq. apply lookup_lt_Some in Hb1. lia.
      + apply list_elem_of_In, list_elem_of_fmap. exists (a1, v1). split; [done|]. by apply elem_of_map_to_list. }
  rewrite length_prod, length_seq in Hle. unfold map_keys in Hle. rewrite length_fmap, length_map_to_list in Hle. lia.
Qed.

(** Every validator that is slashed now has one slashing event in each block that
    is searched (the last five thousand), and there are no others; the answer is a
    page of them, the newest first. A negative offset panics. *)
Theorem GetSlashingEvents_spec fuel ro ro' s limit offset only : (∀ h, fair (ro h)) → fair ro' →
  scannable fuel (Node.n_bc (ValidatorAPI.api_node s)) → is_i64 offset →
  let chain := Chain (Node.n_bc (ValidatorAPI.api_node s)) in let height := (length chain - 1)%nat in
  (2 ≤ length chain)%nat → Z.of_nat (length chain) * Z.of_nat (size (ValidatorAPI.Validators s)) < 2 ^ 62 →
  ∃ l bc', (∀ e, e ∈ l ↔ happened s only chain (first_scanned height) e) ∧ NoDup l ∧
    StronglySorted (λ a b, se_timestamp b ≤ se_timestamp a) l ∧ same_reads (Node.n_bc (ValidatorAPI.api_node s)) bc' ∧
    GetSlashingEvents ord fuel ro ro' s (Some (limit, offset, only)) =
      if decide (offset < 0) then Panic "slice bounds out of range"
      else Done (Some (take (Z.to_nat (capped 10 100 limit)) (drop (Z.to_nat offset) l), Z.of_nat (length l),
             ValidatorAPI.mk (Node.set_bc (ValidatorAPI.api_node s) bc') (ValidatorAPI.Validators s))).
Proof.
  intros Hro Hro' Hsc Ho chain height Hlen Hsize.
  destruct (slashing_run fuel ro s only Hro Hsc Hlen) as (events & bc' & E & Hs & Hev). fold chain height in E, Hev.
  set (l := stable_sort (λ a b, se_timestamp b <? se_timestamp a) (range ro' events).*2).
  assert (Hperm : l ≡ₚ (map_to_list events).*2) by (unfold l; by rewrite stable_sort_perm, (range_perm ro' _ Hro')).
  assert (Hin : ∀ e, e ∈ l ↔ happened s only chain (first_scanned height) e).
  { intros e. rewrite Hperm, list_elem_of_fmap. split.
    - intros ([key e'] & -> & Hl%elem_of_map_to_list). by apply Hev in Hl as [? _].
    - intros Hh. exists (event_key (se_validator e) (se_blockHeight e), e). split; [done|]. apply elem_of_map_to_list, Hev. done. }
  assert (Hnd : NoDup l).
  { rewrite Hperm. apply NoDup_fmap_2_strong; [|apply NoDup_map_to_list]. intros [k1 e1] [k2 e2] H1'%elem_of_map_to_list H2'%elem_of_map_to_list. cbn.
    intros ->. apply Hev in H1' as [_ ->]. apply Hev in H2' as [_ ->]. done. }
  exists l, bc'. split; [exact Hin|]. split; [exact Hnd|]. split; [|split; [exact Hs|]].
  { assert (Hsort : StronglySorted (sort_rel (λ a b, se_timestamp b <? se_timestamp a)) l).
    { apply (stable_sort_sorted _ (λ _, True)); [| |by apply Forall_true].
      - intros x y. rewrite Z.ltb_lt, Z.ltb_ge. lia.
      - intros x y z _ _ _. unfold sort_rel. rewrite !Z.ltb_ge. lia. }
    clear -Hsort. induction Hsort as [|x l' Hs IH Hx]; constructor; [done|]. eapply Forall_impl; [exact Hx|]. intros y. unfold sort_rel. by rewrite Z.ltb_ge. }
  assert (Hbound : Z.of_nat (length l) < 2 ^ 62) by (by eapply (events_bounded s only chain (first_scanned height))).
  unfold GetSlashingEvents. cbn [default from_option id]. destruct Hsc as (Hn & Hne & Hu & _). fold chain in Hu.
  rewrite (height_numbered _ Hn Hne). fold chain.
  replace (Z.of_nat (length chain) - 1) with (Z.of_nat height) by (unfold height; lia).
  replace (if 5000 <? Z.of_nat height then u64 (Z.of_nat height - 5000) else 1) with (Z.of_nat (first_scanned height)).
  2: { unfold first_scanned. destruct (Z.ltb_spec 5000 (Z.of_nat height)); [rewrite decide_True by lia|rewrite decide_False by lia; done].
       rewrite u64_small; [lia|]. unfold is_u64, height in *. lia. }
  rewrite E. cbn [obind]. fold l. rewrite event_page_spec; [|done|apply capped_range; lia|exact Hbound]. by case_decide.
Qed.

(** ** Uptime *)

Definition made_by (validator : string) (b : Block) : Prop := ValidatorAddress (Header b) = validator.
#[local] Instance made_by_dec validator b : Decision (made_by validator b).
Proof. unfold made_by. apply _. Defined.

Lemma count_made validator l : ∀ i c, 0 ≤ c → c + Z.of_nat (length l) < 2 ^ 64 →
  fold_from (λ _ c b, if str_eqb (ValidatorAddress (Header b)) validator then u64 (c + 1) else c) i l c =
  c + Z.of_nat (length (filter (made_by validator) l)).
Proof.
  induction l as [|b l IH]; intros i c Hc Hl; cbn [fold_from length] in *; [cbn; lia|]. rewrite header_read_out, filter_cons.
  destruct (str_eqb _ _) eqn:E.
  - apply str_eqb_eq in E. rewrite decide_True by exact E. rewrite u64_small by (unfold is_u64; lia). rewrite IH by lia. cbn [length]. lia.
  - apply str_eqb_neq in E. rewrite decide_False by exact E. rewrite IH by lia. done.
Qed.

(** The uptime of a validator over a period from block [start] to the newest: the
    blocks that it made are counted over all the blocks of the period, but the
    number of blocks is taken to be one less; so the blocks missed are what is left,
    or 2^64 - 1 when the validator made every block. *)
Theorem GetValidatorUptime_spec fuel s validator days v : scannable fuel (Node.n_bc (ValidatorAPI.api_node s)) →
  let chain := Chain (Node.n_bc (ValidatorAPI.api_node s)) in let height := (length chain - 1)%nat in
  (length chain < fuel)%nat → validator ≠ "" → ValidatorAPI.Validators s !! validator = Some v →
  ∃ r start bc', GetValidatorUptime ord fuel s (Some (validator, days)) =
      Done (Some (Ok r, ValidatorAPI.mk (Node.set_bc (ValidatorAPI.api_node s) bc') (ValidatorAPI.Validators s))) ∧
    same_reads (Node.n_bc (ValidatorAPI.api_node s)) bc' ∧ (start ≤ height)%nat ∧ up_startHeight r = Z.of_nat start ∧
    let made := length (filter (made_by validator) (drop start chain)) in
    up_totalBlocks r = Z.of_nat (length (drop start chain)) - 1 ∧ up_validatedBlocks r = Z.of_nat made ∧
    up_missedBlocks r = if decide (made = length (drop start chain)) then 2 ^ 64 - 1 else Z.of_nat (length (drop start chain) - 1 - made).
Proof.
  intros Hsc chain height Hfuel Hid Hv. destruct Hsc as (Hn & Hne & Hu & Hf). set (bc := Node.n_bc (ValidatorAPI.api_node s)) in *.
  assert (Hh : height = (length chain - 1)%nat) by done. clearbody height. fold chain in Hu, Hf.
  assert (Hpos : length chain ≠ 0%nat) by (unfold chain; by destruct (Chain bc)).
  unfold GetValidatorUptime. rewrite (proj2 (str_eqb_neq _ _) Hid), Hv. fold bc.
  assert (∃ b, GetLatestBlock ord bc = Done (Some b) ∧ BlockNumber (Header b) = Z.of_nat height) as (b & Eb & Hb).
  { unfold GetLatestBlock. fold chain. rewrite last_lookup. destruct (chain !! pred (length chain)) as [b|] eqn:El.
    - exists b. split; [done|]. rewrite (Hn _ _ El). lia.
    - apply lookup_ge_None in El. lia. }
  rewrite Eb. cbn [obind]. rewrite Hb.
  destruct (avg_block_time_total fuel false bc (Z.of_nat height)) as (avg & bc1 & E1 & Hs1 & _); [done|fold chain; lia|lia|].
  rewrite E1. cbn [obind]. set (d := capped 7 90 days).
  destruct (height_ago_le 0 (Z.of_nat height) d (blocks_per_day avg)) as [Hr _]; [lia|unfold is_u64; lia|].
  set (start := Z.to_nat (height_ago 0 (Z.of_nat height) d (blocks_per_day avg))).
  replace (height_ago 0 (Z.of_nat height) d (blocks_per_day avg)) with (Z.of_nat start) by lia.
  destruct (loop_up (validated_turn ord validator)
      (λ _ c b, if str_eqb (ValidatorAddress (Header b)) validator then u64 (c + 1) else c) (λ i _, i <=? Z.of_nat height) bc) with
    (n := (S height - start)%nat) (fuel := fuel) (i := start) (a := 0) (bc' := bc1) as (bc2 & E2 & Hs2).
  - intros i b' a bc' Hs Hb'. destruct (look ord bc bc' i b' Hn Hs Hb') as (bc'' & E & Hs''). exists bc''. unfold validated_turn. by rewrite E.
  - exact Hs1.
  - lia.
  - fold chain. lia.
  - lia.
  - intros k a Hk. apply Z.leb_le. lia.
  - intros a. apply Z.leb_gt. lia.
  - rewrite E2. cbn [obind]. fold chain. rewrite take_ge by (rewrite length_drop; lia). rewrite count_made by (rewrite ?length_drop; lia).
    eexists _, start, bc2. split; [reflexivity|]. split; [exact Hs2|]. split; [lia|].
    cbn [uptime_answer up_startHeight up_totalBlocks up_validatedBlocks up_missedBlocks]. rewrite (proj2 (Z.leb_le _ _)) by lia.
    pose proof (length_filter (made_by validator) (drop start chain)) as Hle.
    set (made := length (filter (made_by validator) (drop start chain))) in *. rewrite length_drop in *.
    rewrite (u64_small (Z.of_nat height - Z.of_nat start)) by (unfold is_u64; lia). split; [done|]. split; [lia|]. split; [lia|].
    case_decide as Hm.
    + unfold u64. replace (Z.of_nat height - Z.of_nat start - (0 + Z.of_nat made)) with (-1) by lia. reflexivity.
    + rewrite u64_small by (unfold is_u64; lia). lia.
Qed.

(** ** Daily volume *)

(** A chain of less than a hundred blocks has no volume to show: the first block of
    the first day would have a negative number, which wraps around. *)
Lemma short_chain_no_volume fuel n days : scannable fuel (Node.n_bc n) → (length (Chain (Node.n_bc n)) ≤ 100)%nat →
  ∃ avg bc', GetDailyTransactionVolume ord fuel n days = Done (Some ([], 8640, avg, Node.set_bc n bc')) ∧ same_reads (Node.n_bc n) bc'.
Proof.
  intros Hsc Hlen. unfold GetDailyTransactionVolume. pose proof Hsc as (Hn & Hne & Hu & Hf). rewrite (height_numbered _ Hn Hne).
  assert (length (Chain (Node.n_bc n)) ≠ 0%nat) by (by destruct (Chain (Node.n_bc n))).
  destruct (avg_block_time_total fuel true (Node.n_bc n) (Z.of_nat (length (Chain (Node.n_bc n))) - 1)) as (avg & bc' & E & Hs & Ha); [done|lia|lia|].
  rewrite E. cbn [obind]. rewrite (Ha ltac:(lia)). change (blocks_per_day (f64_of_Z 10)) with 8640.
  pose proof (capped_range 30 365 (default 30 days) ltac:(lia)) as Hd. unfold asked_days.
  destruct (Z.to_nat (capped 30 365 (default 30 days))) as [|k] eqn:Ek; [lia|]. cbn [volume_days].
  unfold day_range. change (span (Z.of_nat 0) 8640) with 0. change (u64 8640) with 8640. set (h := Z.of_nat (length (Chain (Node.n_bc n))) - 1).
  rewrite Z.sub_0_r. rewrite (u64_small h) by (unfold is_u64, h; lia).
  assert (u64 (h - 8640) = h - 8640 + 2 ^ 64) as Hw.
  { unfold u64. rewrite <- (Z.mod_add _ 1) by lia. apply Z.mod_small. unfold h. lia. }
  rewrite Hw. rewrite (proj2 (Z.ltb_ge (h - 8640 + 2 ^ 64) 1)) by (unfold h; lia).
  rewrite (proj2 (Z.ltb_lt h (h - 8640 + 2 ^ 64))) by (unfold h; lia). rewrite orb_true_r.
  cbn [obind]. exists (f64_of_Z 10), bc'. done.
Qed.

End api.

(** ** Witnesses *)

Lemma GetActiveAddresses_spec_witness :
  ∃ r s', GetActiveAddresses (λ l, l) 2 demo_node (Some 7) = Done (Some (r, s')) ∧ aa_endBlock r = 1.
Proof.
  destruct (GetActiveAddresses_spec (λ l, l) 2 demo_node (Some 7) demo_scannable ltac:(apply Nat.leb_le; reflexivity))
    as (r & start & bc' & E & _ & _ & _ & He & _).
  exists r, (Node.set_bc demo_node bc'). split; [exact E|]. rewrite He. reflexivity.
Defined.

Definition punished : Validator := Val.set_status (Val.NewValidator 0 None None "m") ValidatorStatusSlashed 0.
Definition watched : @ValidatorAPI.t mem_kv := ValidatorAPI.mk demo_node {[ "m" := punished ]}.

Lemma GetSlashingEvents_spec_witness :
  GetSlashingEvents (λ l, l) 2 (λ _, id) id watched (Some (10, -1, "")) = Panic "slice bounds out of range".
Proof.
  destruct (GetSlashingEvents_spec (λ l, l) 2 (λ _, id) id watched 10 (-1) "") as (l & bc' & _ & _ & _ & _ & E).
  - intros h ks. reflexivity.
  - intros ks. reflexivity.
  - exact demo_scannable.
  - unfold is_i64. lia.
  - apply Nat.leb_le. reflexivity.
  - reflexivity.
  - rewrite E. rewrite decide_True by lia. reflexivity.
Defined.

Lemma GetValidatorUptime_spec_witness :
  ∃ r s', GetValidatorUptime (λ l, l) 3 watched (Some ("m", 7)) = Done (Some (Ok r, s')) ∧ up_totalBlocks r = 1 ∧ up_missedBlocks r = 1.
Proof.
  assert (Hsc : scannable 3 (Node.n_bc demo_node)).
  { destruct demo_scannable as (? & ? & ? & ?). split; [done|]. split; [done|]. split; [done|]. apply Nat.leb_le. reflexivity. }
  destruct (GetValidatorUptime_spec (λ l, l) 3 watched "m" 7 punished Hsc ltac:(apply Nat.ltb_lt; reflexivity) ltac:(done) eq_refl)
    as (r & start & bc' & E & _ & Hst & Hs & Ht & Hv & Hm).
  assert (start = 0%nat) as ->.
  { assert (Hr : match GetValidatorUptime (λ l, l) 3 watched (Some ("m", 7)) with Done (Some (Ok r, _)) => up_startHeight r =? 0 | _ => false end = true)
      by (vm_compute; reflexivity). rewrite E in Hr. apply Z.eqb_eq in Hr. lia. }
  eexists r, _. split; [exact E|]. split; [rewrite Ht; reflexivity|]. rewrite Hm. vm_compute. reflexivity.
Defined.
