(* ===== verification/Bootnode.v ===== *)
(** * The bootstrap node

    [src/blockchain/bootnode.go]: a node that keeps no chain but introduces the
    others to each other. It remembers peers in a file ([Module PeerStore]), limits
    the messages of each peer ([RateLimiter]), passes blocks and transactions on,
    answers requests for peers, relays, reports its state and watches heartbeats
    ([BootstrapNode]).

    A peer id is its printed form. What libp2p and the operating system do is an
    argument: which streams open, who is connected, what a file holds. A handler
    takes its request as the decoder delivers it ([None] when it fails). *)

From stdpp Require Import base gmap strings list.
From Stdlib Require Import ZArith Lia.
From S2P Require Import Prelude.
From S2P Require Import Float64.
From S2P Require Import Sha256.
From S2P Require Import Wallet.
From S2P Require Import Transaction.
From S2P Require Import Block.

(** ** The file of known peers *)

(** [peer.AddrInfo] *)
Record AddrInfo := mkAddrInfo { ai_ID : string; ai_Addrs : list string }.

Module PeerStore.

(** What reading the file of the store finds. *)
Inductive file : Type :=
  | Missing
  | Unreadable (why : string)
  | Contents (data : bytes).

(** What a write does: it succeeds, or it fails and leaves something behind. *)
Inductive written : Type := Stored | Failed (remains : file).

Section store.
(** The JSON form of a map from printed ids to peers. *)
Context (marshal : gmap string AddrInfo → option bytes) (unmarshal : bytes → option (gmap string AddrInfo)).

(** The peers of the file are entered under their own ids, not under the keys of
    the document. *)
Definition load (ro : range_order) (f : file) (peers : gmap string AddrInfo) : result (gmap string AddrInfo) :=
  match f with
  | Missing => Ok peers
  | Unreadable why => Err why
  | Contents [] => Ok peers
  | Contents data =>
      match unmarshal data with
      | None => Err "invalid peer data"
      | Some loadedPeers => Ok (foldl (λ m e, <[ai_ID e.2 := e.2]> m) peers (range ro loadedPeers))
      end
  end.

Definition NewPersistentPeerStore (ro : range_order) (f : file) : result (gmap string AddrInfo) :=
  match load ro f ∅ with
  | Err e => Err ("failed to load peer store: " +:+ e)
  | Ok peers => Ok peers
  end.

(** An empty store is never saved. *)
Definition save (w : written) (peers : gmap string AddrInfo) (f : file) : file :=
  if decide (size peers = 0%nat) then f
  else match marshal peers with
  | None => f
  | Some data => match w with Stored => Contents data | Failed remains => remains end
  end.
End store.

(** The second component says whether a goroutine that saves was started. *)
Definition AddPeer (peers : gmap string AddrInfo) (info : AddrInfo) : gmap string AddrInfo * bool :=
  if str_eqb (ai_ID info) "" then (peers, false) else (<[ai_ID info := info]> peers, true).

Definition GetPeers (ro : range_order) (peers : gmap string AddrInfo) : list AddrInfo := (range ro peers).*2.

Definition HasPeer (peers : gmap string AddrInfo) (p : string) : bool := bool_decide (is_Some (peers !! p)).

End PeerStore.

(** ** Limits on messages *)
Module RateLimiter.

(** [messageLimits]: for each peer the messages counted and when the count began.
    The [connectionLimits] are never used. *)
Record t := mk { messageLimits : gmap string (Z * Z) }.

Definition resetInterval : Z := 60 * 10 ^ 9.
Definition maxMessages : Z := 100.

Definition enforceRateLimits (now : Z) (rl : t) (peerID : string) : error * t :=
  match messageLimits rl !! peerID with
  | Some (count, lastReset) =>
      let '(count, lastReset) := if time_since now lastReset >? resetInterval then (0, now) else (count, lastReset) in
      if count >=? maxMessages then (Some ("message rate limit exceeded for peer " +:+ peerID), rl)
      else (None, mk (<[peerID := (u64 (count + 1), lastReset)]> (messageLimits rl)))
  | None => (None, mk (<[peerID := (1, now)]> (messageLimits rl)))
  end.

End RateLimiter.

(** ** Keys of nodes *)

(** [loadOrCreatePrivateKey] and [loadOrCreateIdentity]: the key of the file, or a
    new one that is saved there. [stored] is what the file holds; the file after
    the call is the second component. A write that fails leaves some file behind. *)
Definition loadOrCreatePrivateKey {K} (unmarshal : bytes → result K) (marshal : K → result bytes) (generated : result K)
    (write : option (string * option bytes)) (stored : option bytes) : result K * option bytes :=
  match stored with
  | Some keyBytes => (unmarshal keyBytes, stored)
  | None =>
      match generated with
      | Err e => (Err e, stored)
      | Ok priv =>
          match marshal priv with
          | Err e => (Err e, stored)
          | Ok keyBytes => match write with Some (e, remains) => (Err e, remains) | None => (Ok priv, Some keyBytes) end
          end
      end
  end.

(** ** The public address *)

Definition ascii_lower (c : Ascii.ascii) : Ascii.ascii :=
  let n := Ascii.N_of_ascii c in
  if (65 <=? n)%N && (n <=? 90)%N then Ascii.ascii_of_N (n + 32) else c.
Fixpoint to_lower (s : string) : string :=
  match s with EmptyString => EmptyString | String c s => String (ascii_lower c) (to_lower s) end.

(** An address of an interface: not an IP network, or one with its text. *)
Inductive iface_addr : Type := NoIP | IPv4 (ip : string) | IPv6 (ip : string).

Definition first_ipv4 (addrs : list iface_addr) : option string :=
  head (omap (λ a, match a with IPv4 ip => Some ip | _ => None end) addrs).

Definition tailscale (name : string) : bool := has_prefix (to_lower name) "tailscale" || has_prefix (to_lower name) "ts".

Definition tailscale_ip (ifaces : list (string * option (list iface_addr))) : option string :=
  head (omap (λ i, if tailscale i.1 then i.2 ≫= first_ipv4 else None) ifaces).

(** [services] are the answers of the three services, [None] where the request or
    its reading failed; [is_ip] is [net.ParseIP(s) != nil]. *)
Definition getPublicIP (is_ip : string → bool) (interfaces : result (list (string * option (list iface_addr))))
    (services : list (option string)) : result string :=
  match interfaces with
  | Err e => Err ("failed to get network interfaces: " +:+ e)
  | Ok ifaces =>
      match tailscale_ip ifaces with
      | Some ip => Ok ip
      | None =>
          match head (omap (λ body, body ≫= λ b, if is_ip (trim_space b) then Some (trim_space b) else None) services) with
          | Some ip => Ok ip
          | None => Err "failed to get IP address"
          end
      end
  end.

Definition GetMultiaddr (listenPort : Z) (publicIP peerID : string) : string :=
  if str_eqb publicIP "" then "/ip4/0.0.0.0/tcp/" +:+ fmt_d listenPort
  else "/ip4/" +:+ publicIP +:+ "/tcp/" +:+ fmt_d listenPort +:+ "/p2p/" +:+ peerID.

(** ** The node *)

Record PeerScore := mkPeerScore {
  ConnectionUptime : float64;
  ResponseTime : float64;
  MessageSuccess : Z;
  ps_BandwidthUsage : Z;
  ValidationSuccess : Z;
  ps_LastUpdated : Z;
}.

Record NetworkMetrics := mkMetrics {
  Latency : gmap string Z;
  BandwidthUsage : gmap string Z;
  ConnectionSuccess : gmap string float64;
  MessagePropagation : gmap string Z;
  StartTime : Z;
  PeerCount : Z;
}.

Definition no_metrics (now : Z) : NetworkMetrics := mkMetrics ∅ ∅ ∅ ∅ now 0.
Definition set_bandwidth (m : NetworkMetrics) (b : gmap string Z) : NetworkMetrics :=
  mkMetrics (Latency m) b (ConnectionSuccess m) (MessagePropagation m) (StartTime m) (PeerCount m).
Definition set_success (m : NetworkMetrics) (s : gmap string float64) : NetworkMetrics :=
  mkMetrics (Latency m) (BandwidthUsage m) s (MessagePropagation m) (StartTime m) (PeerCount m).
Definition set_propagation (m : NetworkMetrics) (peer : string) (d : Z) : NetworkMetrics :=
  mkMetrics (Latency m) (BandwidthUsage m) (ConnectionSuccess m) (<[peer := d]> (MessagePropagation m)) (StartTime m) (PeerCount m).
Definition IncrementPeerCount (m : NetworkMetrics) : NetworkMetrics :=
  mkMetrics (Latency m) (BandwidthUsage m) (ConnectionSuccess m) (MessagePropagation m) (StartTime m) (i64 (PeerCount m + 1)).

(** [syncprotocol.SyncResponse], the fields that the node sets *)
Record SyncResponse := mkSyncResponse { sr_Success : bool; sr_Error : string; sr_HasChain : bool; sr_Height : Z }.

(** Requests and answers *)
Record PeerDiscoveryRequest := mkDiscovery { MaxPeers : Z; ExcludedPeers : list string }.
Record PeerDiscoveryResponse := mkPeers { pd_Success : bool; pd_Peers : list AddrInfo }.
Record RelayRequest := mkRelay { TargetPeer : string; relay_Data : bytes }.
Record RelayResponse := mkRelayed { rr_Success : bool; rr_Error : string }.
Record NodeStatus := mkStatus { ns_PeerCount : Z; ns_Uptime : Z; ns_Version : string; ns_NetworkState : string }.

(** What the decoder makes of the bytes of a validator's message. *)
Record decoder := mkDecoder {
  envelope : bytes → option (string * bytes);
  heartbeat_ok : bytes → bool;
  timeout_ok : bytes → bool;
  set_update : bytes → option (list string);
}.

Module BootstrapNode.
Section node.
Context `{GoImpl}.

(** The maps and the parts that the node owns; [peers] maps a peer to itself. *)
Record t := mk {
  peerStore : gmap string AddrInfo;
  peerScores : gmap string PeerScore;
  metrics : NetworkMetrics;
  rateLimiter : RateLimiter.t;
  peers : gmap string string;
  lastHeartbeat : gmap string Z;
  started : bool;
  startTime : Z;
}.

Definition set_store (bn : t) (s : gmap string AddrInfo) : t :=
  mk s (peerScores bn) (metrics bn) (rateLimiter bn) (peers bn) (lastHeartbeat bn) (started bn) (startTime bn).
Definition set_scores (bn : t) (s : gmap string PeerScore) : t :=
  mk (peerStore bn) s (metrics bn) (rateLimiter bn) (peers bn) (lastHeartbeat bn) (started bn) (startTime bn).
Definition set_metrics (bn : t) (m : NetworkMetrics) : t :=
  mk (peerStore bn) (peerScores bn) m (rateLimiter bn) (peers bn) (lastHeartbeat bn) (started bn) (startTime bn).
Definition set_limits (bn : t) (rl : RateLimiter.t) : t :=
  mk (peerStore bn) (peerScores bn) (metrics bn) rl (peers bn) (lastHeartbeat bn) (started bn) (startTime bn).
Definition set_peers (bn : t) (ps : gmap string string) : t :=
  mk (peerStore bn) (peerScores bn) (metrics bn) (rateLimiter bn) ps (lastHeartbeat bn) (started bn) (startTime bn).
Definition set_heartbeats (bn : t) (hb : gmap string Z) : t :=
  mk (peerStore bn) (peerScores bn) (metrics bn) (rateLimiter bn) (peers bn) hb (started bn) (startTime bn).
Definition set_started (bn : t) (b : bool) : t :=
  mk (peerStore bn) (peerScores bn) (metrics bn) (rateLimiter bn) (peers bn) (lastHeartbeat bn) b (startTime bn).

(** The node that [NewBootstrapNode] builds once its key, its directory, its host,
    its store and its DHT are there, in this order; the text is the address that it
    writes to the file for the miners. *)
Definition NewBootstrapNode (now : Z) (ip key : result string) (dir host : error) (store : result (gmap string AddrInfo))
    (dht : error) (listenPort : Z) : result (t * string) :=
  let publicIP := match ip with Ok ip => ip | Err _ => "0.0.0.0" end in
  match key with
  | Err e => Err ("failed to create/load identity: " +:+ e)
  | Ok peerID =>
      let multiAddr := "/ip4/" +:+ publicIP +:+ "/tcp/" +:+ fmt_d listenPort +:+ "/p2p/" +:+ peerID in
      match dir with
      | Some e => Err ("failed to create node directory: " +:+ e)
      | None =>
          match host with
          | Some e => Err ("failed to create libp2p host: " +:+ e)
          | None =>
              match store with
              | Err e => Err ("failed to create peer store: " +:+ e)
              | Ok peers =>
                  match dht with
                  | Some e => Err ("failed to create DHT: " +:+ e)
                  | None => Ok (mk peers ∅ (no_metrics now) (RateLimiter.mk ∅) ∅ ∅ false now, multiAddr)
                  end
              end
          end
      end
  end.

(** The two callbacks of [Start] *)
Definition Connected (bn : t) (peerID : string) : t := set_peers bn (<[peerID := peerID]> (peers bn)).
Definition Disconnected (bn : t) (peerID : string) : t := set_peers bn (delete peerID (peers bn)).

(** The result says whether the node was closed. *)
Definition Stop (bn : t) : bool * t := if started bn then (true, set_started bn false) else (false, bn).

(** *** Scores *)

Definition update_score (now : Z) (metric : string) (v : float64) (s : PeerScore) : PeerScore :=
  let '(mkPeerScore up resp msgs bw val _) := s in
  if str_eqb metric "uptime" then mkPeerScore v resp msgs bw val now
  else if str_eqb metric "response" then mkPeerScore up v msgs bw val now
  else if str_eqb metric "messages" then mkPeerScore up resp (u64 (msgs + 1)) bw val now
  else if str_eqb metric "bandwidth" then mkPeerScore up resp msgs (u64 (bw + f64_to_u64 v)) val now
  else if str_eqb metric "validation" then mkPeerScore up resp msgs bw (u64 (val + 1)) now
  else mkPeerScore up resp msgs bw val now.

Definition updatePeerScore (now : Z) (bn : t) (peerID metric : string) (v : float64) : t :=
  let score := default (mkPeerScore f64_zero f64_zero 0 0 0 now) (peerScores bn !! peerID) in
  set_scores bn (<[peerID := update_score now metric v score]> (peerScores bn)).

(** One tick of [updatePeerScores]; [Duration.Milliseconds] truncates. *)
Definition refresh (now : Z) (connected : string → bool) (m : NetworkMetrics) (peerID : string) (s : PeerScore) : PeerScore :=
  mkPeerScore (if connected peerID then f64_add (ConnectionUptime s) (f64_of_Z 1) else ConnectionUptime s)
    (match Latency m !! peerID with Some l => f64_of_Z (Z.quot l (10 ^ 6)) | None => ResponseTime s end)
    (MessageSuccess s)
    (default (ps_BandwidthUsage s) (BandwidthUsage m !! peerID))
    (ValidationSuccess s) now.

Definition updatePeerScores (now : Z) (connected : string → bool) (bn : t) : t :=
  set_scores bn (map_imap (λ p s, Some (refresh now connected (metrics bn) p s)) (peerScores bn)).

(** One tick of [collectMetrics]: [active] are the peers of the host, with the
    number of their connections. *)
Definition collectMetrics (active : list (string * nat)) (bn : t) : t :=
  set_metrics bn (set_success (metrics bn)
    (foldl (λ m p, if (0 <? p.2)%nat then <[p.1 := f64_of_Z 1]> m else m) (ConnectionSuccess (metrics bn)) active)).

(** *** Passing messages on *)

(** [deliver] says whether a stream to a peer for a protocol opens and takes the
    document. The messages that are sent: peer, protocol, document. *)
Definition broadcastToOtherPeers {A} (ro : range_order) (deliver : string → string → bool) (bn : t) (source msgType : string)
    (data : A) : list (string * string * A) * t :=
  let protocolID := "/blockchain/" +:+ msgType +:+ "/1.0.0" in
  let sent := filter (λ p, p ≠ source ∧ deliver p protocolID = true) (range ro (peers bn)).*1 in
  ((λ p, (p, protocolID, data)) <$> sent,
   set_metrics bn (set_bandwidth (metrics bn)
     (foldl (λ m p, <[p := u64 (default 0 (m !! p) + 1)]> m) (BandwidthUsage (metrics bn)) sent))).

Definition handleBlockAnnouncement (now : Z) (ro : range_order) (deliver : string → string → bool) (bn : t) (peer : string)
    (msg : option Block) : list (string * string * Block) * t :=
  let '(e, rl) := RateLimiter.enforceRateLimits now (rateLimiter bn) peer in
  let bn := set_limits bn rl in
  match e, msg with
  | Some _, _ | None, None => ([], bn)
  | None, Some block =>
      let age := time_since now (hdr_Timestamp (Header block) * 10 ^ 9) in
      if age >? hour_ns then ([], bn)
      else broadcastToOtherPeers ro deliver (set_metrics bn (set_propagation (metrics bn) peer age)) peer "block" block
  end.

Definition handleTransaction (now : Z) (ro : range_order) (deliver : string → string → bool) (bn : t) (peer : string)
    (msg : option Transaction) : list (string * string * Transaction) * t :=
  let '(e, rl) := RateLimiter.enforceRateLimits now (rateLimiter bn) peer in
  let bn := set_limits bn rl in
  match e, msg with
  | Some _, _ | None, None => ([], bn)
  | None, Some tx =>
      if f64_le (Amount tx) f64_zero then ([], bn)
      else
        let age := time_since now (Timestamp tx * 10 ^ 9) in
        broadcastToOtherPeers ro deliver (set_metrics bn (set_propagation (metrics bn) peer age)) peer "tx" tx
  end.

Definition updatePeerLastSeen (now : Z) (bn : t) (peerID : string) : t :=
  set_heartbeats bn (<[peerID := now]> (lastHeartbeat bn)).

(** [stream] is all that the peer writes before it closes; the handler wants
    exactly 1024 bytes, and resets the stream ([None]) when there are fewer or when
    they do not decode. *)
Definition handleValidatorMessage (now : Z) (ro : range_order) (deliver : string → string → bool) (d : decoder) (bn : t)
    (peer : string) (stream : bytes) : option (list (string * string * list string)) * t :=
  if (length stream <? 1024)%nat then (None, bn)
  else match envelope d (take 1024 stream) with
  | None => (None, bn)
  | Some (type, payload) =>
      if str_eqb type "VALIDATOR_HEARTBEAT" then
        if heartbeat_ok d payload
        then (Some [], updatePeerLastSeen now (updatePeerScore now bn peer "heartbeat" (f64_of_Z 1)) peer)
        else (None, bn)
      else if str_eqb type "VALIDATOR_TIMEOUT" then
        if timeout_ok d payload
        then (Some [], updatePeerLastSeen now (updatePeerScore now bn peer "timeout" (f64_of_Z (-1))) peer)
        else (None, bn)
      else if str_eqb type "VALIDATOR_SET_UPDATE" then
        match set_update d payload with
        | None => (None, bn)
        | Some update =>
            let '(sent, bn) := broadcastToOtherPeers ro deliver bn peer "VALIDATOR_SET_UPDATE" update in
            (Some sent, updatePeerLastSeen now bn peer)
        end
      else (Some [], updatePeerLastSeen now bn peer)
  end.

(** *** Answers *)

Definition no_chain : SyncResponse := mkSyncResponse false "bootnode does not maintain blockchain" false 0.

Definition handleSync : SyncResponse := no_chain.
(** The handler that [NewBootstrapNode] puts in its place reads a request first. *)
Definition sync_handler (req : option (Z * Z)) : option SyncResponse := (λ _, no_chain) <$> req.

(** The loop over the peers of the store: [n] counts the peers that were taken. *)
Fixpoint pick (max : Z) (requester : string) (excluded : list string) (n : Z) (l : list AddrInfo) : list AddrInfo :=
  match l with
  | [] => []
  | p :: l =>
      if n >=? max then []
      else if negb (str_eqb (ai_ID p) requester) && negb (bool_decide (ai_ID p ∈ excluded))
      then p :: pick max requester excluded (i64 (n + 1)) l
      else pick max requester excluded n l
  end.

Definition handlePeerDiscovery (ro : range_order) (bn : t) (peer : string) (req : option PeerDiscoveryRequest)
    : option PeerDiscoveryResponse :=
  (λ r, mkPeers true (pick (MaxPeers r) peer (ExcludedPeers r) 0 (PeerStore.GetPeers ro (peerStore bn)))) <$> req.

(** [valid] is [peer.Decode]; [opened] and [takes] say whether a stream to the target
    opens and takes the data. The answer, and what was passed on. *)
Definition handleRelay (valid connected opened takes : string → bool) (req : option RelayRequest)
    : option RelayResponse * option (string * bytes) :=
  match req with
  | None => (None, None)
  | Some r =>
      let target := TargetPeer r in
      if negb (valid target) then (None, None)
      else if negb (connected target) then (Some (mkRelayed false "target peer not connected"), None)
      else if negb (opened target) then (None, None)
      else if negb (takes target) then (None, None)
      else (Some (mkRelayed true ""), Some (target, relay_Data r))
  end.

Definition getNetworkState (peerCount : Z) : string :=
  if peerCount >=? 10 then "healthy" else if peerCount >=? 5 then "stable"
  else if peerCount >? 0 then "developing" else "starting".

Definition handleStatus (now : Z) (bn : t) (hostPeers : list string) (req : option bool) : option NodeStatus :=
  let n := Z.of_nat (length hostPeers) in
  (λ _, mkStatus n (time_since now (startTime bn)) "1.0.0" (getNetworkState n)) <$> req.

(** *** Protocols *)

(** The handlers by protocol; that of the chain is replaced by [sync_handler]. *)
Inductive handler : Type := Sync | PeerDiscovery | BlockAnnouncement | TransactionMessage | ValidatorMessage.

Definition initializeProtocols : gmap string handler :=
  <["/blockchain/validator/1.0.0" := ValidatorMessage]>
    (<["/blockchain/tx/1.0.0" := TransactionMessage]>
      (<["/blockchain/block/1.0.0" := BlockAnnouncement]>
        (<["/blockchain/peer/1.0.0" := PeerDiscovery]>
          (<["/blockchain/sync/1.0.0" := Sync]> ∅)))).

(** *** Heartbeats *)

Definition HeartbeatTimeout : Z := 90 * 10 ^ 9.

(** The answer is the time in seconds and the node's id. *)
Definition handleHeartbeat (now : Z) (id : string) (bn : t) (peer : string) (msg : option (Z * string)) : option (Z * string) * t :=
  match msg with
  | None => (None, bn)
  | Some _ => (Some (unix now, id), set_heartbeats bn (<[peer := now]> (lastHeartbeat bn)))
  end.

(** The peers whose connections are closed, in the order of the loop. *)
Definition checkPeerHeartbeats (ro : range_order) (now : Z) (bn : t) : list string * t :=
  foldl (λ acc e, if time_since now e.2 >? HeartbeatTimeout
                  then (acc.1 ++ [e.1], set_heartbeats acc.2 (delete e.1 (lastHeartbeat acc.2))) else acc)
    ([], bn) (range ro (lastHeartbeat bn)).

Definition IsPeerHealthy (now : Z) (bn : t) (peerID : string) : bool :=
  match lastHeartbeat bn !! peerID with
  | None => false
  | Some lastBeat => time_since now lastBeat <=? HeartbeatTimeout
  end.

(** *** Discovery *)

(** One turn of the loop of [discoverPeers] over the DHT's table; [connect] is the
    result of the node's [ConnectToPeer] for the text of an id. *)
Definition discoverPeers (connect : string → error) (table : list string) (bn : t) : t :=
  foldl (λ bn p, match peers bn !! p, connect p with
                 | None, None => set_peers bn (<[p := p]> (peers bn))
                 | _, _ => bn
                 end) bn table.

Definition handleNewPeer (connect : error) (bn : t) (p : AddrInfo) : error * t :=
  if PeerStore.HasPeer (peerStore bn) (ai_ID p) then (None, bn)
  else match connect with
  | Some e => (Some ("failed to connect to peer: " +:+ e), bn)
  | None =>
      let bn := set_store bn (PeerStore.AddPeer (peerStore bn) p).1 in
      (None, set_metrics bn (IncrementPeerCount (metrics bn)))
  end.
End node.
End BootstrapNode.
