(* ===== verification/BootnodeFacts.v ===== *)
(** * Facts about the bootstrap node

    The limit on messages, the file of known peers, the answers to requests for
    peers, heartbeats, and what holds in every state that the node can come to. *)

From Stdlib Require Import ZArith Lia.
From stdpp Require Import base gmap strings list countable sorting.
From S2P Require Import Prelude.
From S2P Require Import Float64.
From S2P Require Import Sha256.
From S2P Require Import Transaction.
From S2P Require Import Block.
From S2P Require Import Bootnode.

(** ** Limits on messages *)
Section limits.
Import RateLimiter.

(** Messages with the time of their arrival, and their handling one by one. *)
Abbreviation arrivals := (list (Z * string)).

Definition limit_one (rl : t) (m : Z * string) : t := (enforceRateLimits m.1 rl m.2).2.
Definition limit_all (msgs : arrivals) : t := foldl limit_one (mk ∅) msgs.

(** The times at which messages of [p] get through. *)
Fixpoint admitted (p : string) (rl : t) (msgs : arrivals) : list Z :=
  match msgs with
  | [] => []
  | (now, q) :: l =>
      (if decide (q = p ∧ (enforceRateLimits now rl q).1 = None) then [now] else []) ++ admitted p (limit_one rl (now, q)) l
  end.

Definition within (a : Z) (l : list Z) : nat := length (filter (λ t, a ≤ t ≤ a + resetInterval) l).
Definition in_order (msgs : arrivals) : Prop := StronglySorted Z.le msgs.*1.

Lemma since_gt now r : (time_since now r >? resetInterval) = (resetInterval <? now - r).
Proof. unfold time_since, resetInterval. rewrite Z.gtb_ltb. apply Bool.eq_iff_eq_true. rewrite !Z.ltb_lt. lia. Qed.

(** The window of a peer that has one. *)
Definition window (rl : t) (p : string) (c r : Z) : Prop := messageLimits rl !! p = Some (c, r) ∧ 1 ≤ c ≤ maxMessages.

Lemma enforce_other now rl p q : p ≠ q → messageLimits (limit_one rl (now, q)) !! p = messageLimits rl !! p.
Proof.
  intros Hpq. unfold limit_one, enforceRateLimits. cbn [fst snd].
  destruct (messageLimits rl !! q) as [[c r]|]; [|by cbn; rewrite lookup_insert_ne].
  destruct (_ >? _); destruct (_ >=? _); cbn; rewrite ?lookup_insert_ne by done; done.
Qed.

(** The four ways in which the message of a peer is handled. *)
Lemma enforce_cases now rl p : (∀ c r, messageLimits rl !! p = Some (c, r) → 1 ≤ c ≤ maxMessages) →
  let '(e, rl') := enforceRateLimits now rl p in
  (messageLimits rl !! p = None ∧ e = None ∧ window rl' p 1 now) ∨
  ∃ c r, window rl p c r ∧
    ((resetInterval < now - r ∧ e = None ∧ window rl' p 1 now) ∨
     (now - r ≤ resetInterval ∧ c < maxMessages ∧ e = None ∧ window rl' p (c + 1) r) ∨
     (now - r ≤ resetInterval ∧ c = maxMessages ∧ is_Some e ∧ rl' = rl)).
Proof.
  intros Hrl. unfold enforceRateLimits, window, maxMessages in *. destruct (messageLimits rl !! p) as [[c r]|] eqn:E.
  - specialize (Hrl c r eq_refl). rewrite since_gt. destruct (Z.ltb_spec resetInterval (now - r)) as [Hr|Hr].
    + right. exists c, r. cbn. rewrite lookup_insert_eq. split; [done|]. left. split; [lia|]. split; [done|]. split; [done|lia].
    + rewrite Z.geb_leb. destruct (Z.leb_spec 100 c).
      * right. exists c, r. split; [done|]. right. right. split; [lia|]. split; [lia|]. split; [done|done].
      * right. exists c, r. cbn. rewrite lookup_insert_eq. split; [done|]. right. left. split; [lia|]. split; [lia|]. split; [done|].
        rewrite u64_small by (unfold is_u64; lia). split; [done|lia].
  - left. cbn. rewrite lookup_insert_eq. split; [done|]. split; [done|]. split; [done|lia].
Qed.

Definition counted (rl : t) : Prop := ∀ p c r, messageLimits rl !! p = Some (c, r) → 1 ≤ c ≤ maxMessages.

Lemma counted_step rl m : counted rl → counted (limit_one rl m).
Proof.
  destruct m as [now q]. intros Hrl p c r E. destruct (decide (p = q)) as [->|Hpq].
  - pose proof (enforce_cases now rl q (Hrl q)) as Hc. unfold limit_one in E. cbn [fst snd] in E.
    destruct (enforceRateLimits now rl q) as [e rl']. cbn in E. unfold window in Hc. naive_solver.
  - rewrite enforce_other in E by done. by eapply Hrl.
Qed.

Lemma within_app a l l' : within a (l ++ l') = (within a l + within a l')%nat.
Proof. unfold within. by rewrite filter_app, length_app. Qed.
Lemma within_one a t : (within a [t] ≤ 1)%nat.
Proof. unfold within. cbn. destruct (decide _); cbn; lia. Qed.
Lemma within_out a t : ¬ (a ≤ t ≤ a + resetInterval) → within a [t] = 0%nat.
Proof. intros Ht. unfold within. cbn. by rewrite decide_False. Qed.

Lemma admitted_times p msgs : ∀ rl, admitted p rl msgs ⊆ msgs.*1.
Proof. induction msgs as [|[now q] l IH]; intros rl; [done|]. cbn. specialize (IH (limit_one rl (now, q))).
  destruct (decide _); set_solver. Qed.

Lemma within_late a p msgs rl : Forall (λ t, a + resetInterval < t) msgs.*1 → within a (admitted p rl msgs) = 0%nat.
Proof.
  intros Hl. unfold within. rewrite filter_unmatched; [done|]. apply Forall_forall. intros t Ht.
  apply admitted_times in Ht. rewrite Forall_forall in Hl. specialize (Hl t Ht). lia.
Qed.

Lemma admitted_other p q now rl l : q ≠ p → admitted p rl ((now, q) :: l) = admitted p (limit_one rl (now, q)) l.
Proof. intros Hq. cbn. by rewrite decide_False by naive_solver. Qed.

(** Once the period has begun, a window that began in it lets through what is left of
    it, and one that began earlier may be followed by a second one. *)
Lemma within_started a p : ∀ msgs rl, counted rl → in_order msgs → Forall (λ t, a ≤ t) msgs.*1 →
  Z.of_nat (within a (admitted p rl msgs)) ≤
    match messageLimits rl !! p with Some (c, r) => if r <? a then 200 - c else 100 - c | None => 100 end.
Proof.
  induction msgs as [|[now q] l IH]; intros rl Hrl Hs Ha.
  { cbn. destruct (messageLimits rl !! p) as [[c r]|] eqn:E; [|lia]. specialize (Hrl p c r E). unfold maxMessages in Hrl.
    destruct (_ <? _); lia. }
  apply StronglySorted_inv in Hs as [Hs Hnow]. inversion_clear Ha as [|?? Ha1 Ha2]. cbn [fst] in Ha1.
  specialize (IH (limit_one rl (now, q)) (counted_step _ _ Hrl) Hs Ha2).
  destruct (decide (q = p)) as [->|Hq]; [|by rewrite admitted_other, enforce_other in * by done].
  assert (Hlate : a + resetInterval < now → within a (admitted p rl ((now, p) :: l)) = 0%nat).
  { intros Hgt. apply within_late. cbn. constructor; [done|]. eapply Forall_impl; [exact Hnow|]. cbn. lia. }
  cbn [admitted]. cbn [admitted] in Hlate. revert IH Hlate. unfold limit_one. cbn [fst snd].
  pose proof (enforce_cases now rl p (Hrl p)) as Hc. destruct (enforceRateLimits now rl p) as [e rl']. cbn [fst snd].
  rewrite within_app. pose proof (within_one a now) as H1.
  destruct Hc as [(E & -> & E' & _)|(c & r & (E & Hcr) & Hc)]; rewrite E.
  { rewrite decide_True by done. rewrite E'. destruct (Z.ltb_spec now a); lia. }
  unfold maxMessages in *. destruct Hc as [(Hr & -> & E' & _)|[(Hr & Hlt & -> & E' & _)|(Hr & -> & [x ->] & ->)]].
  - rewrite decide_True by done. rewrite E'. destruct (Z.ltb_spec now a); [lia|]. destruct (Z.ltb_spec r a); [lia|].
    intros _ Hlate. rewrite Hlate; lia.
  - rewrite decide_True by done. rewrite E'. destruct (Z.ltb_spec r a); lia.
  - rewrite decide_False by naive_solver. rewrite E. destruct (Z.ltb_spec r a); cbn; lia.
Qed.

Lemma within_bound a p : ∀ msgs rl, counted rl → in_order msgs → (within a (admitted p rl msgs) ≤ 199)%nat.
Proof.
  induction msgs as [|[now q] l IH]; intros rl Hrl Hs; [cbn; lia|].
  destruct (decide (a ≤ now)) as [Ha|Ha].
  - assert (Forall (λ t, a ≤ t) ((now, q) :: l).*1) as Hall.
    { apply StronglySorted_inv in Hs as [_ Hnow]. constructor; [done|]. eapply Forall_impl; [exact Hnow|]. cbn. lia. }
    pose proof (within_started a p _ rl Hrl Hs Hall) as Hb.
    destruct (messageLimits rl !! p) as [[c r]|] eqn:E; [|lia]. specialize (Hrl p c r E). destruct (_ <? _); lia.
  - apply StronglySorted_inv in Hs as [Hs _]. specialize (IH (limit_one rl (now, q)) (counted_step _ _ Hrl) Hs).
    cbn [admitted]. rewrite within_app. destruct (decide _); [|done]. rewrite within_out by lia. done.
Qed.

(** The messages of [p] since the time [r]. *)
Definition since (p : string) (r : Z) (msgs : arrivals) : nat := length (filter (λ m, m.2 = p ∧ r ≤ m.1) msgs).

Lemma since_snoc p r msgs now q :
  since p r (msgs ++ [(now, q)]) = (since p r msgs + if decide (q = p ∧ (r ≤ now)%Z) then 1 else 0)%nat.
Proof. unfold since. rewrite filter_app, length_app. cbn. by destruct (decide _). Qed.

Lemma limit_all_inv p msgs : in_order msgs → counted (limit_all msgs) ∧
  ∀ c r, messageLimits (limit_all msgs) !! p = Some (c, r) → c ≤ Z.of_nat (since p r msgs) ∧ r ∈ msgs.*1.
Proof.
  induction msgs as [|[now q] l IH] using rev_ind; intros Hs; [split; [intros ?|intros ??]; cbn; by rewrite ?lookup_empty|].
  unfold in_order in Hs. rewrite fmap_app in Hs.
  apply StronglySorted_app in Hs as (Hle & Hs & _). specialize (IH Hs) as [Hrl IH].
  unfold limit_all. rewrite foldl_app. fold (limit_all l). cbn [foldl]. split; [by apply counted_step|].
  intros c r. rewrite fmap_app, since_snoc. destruct (decide (q = p)) as [->|Hq].
  - pose proof (enforce_cases now (limit_all l) p (Hrl p)) as Hc. unfold limit_one. cbn [fst snd].
    destruct (enforceRateLimits now (limit_all l) p) as [e rl']. cbn [snd]. unfold window in Hc.
    destruct Hc as [(_ & _ & E & _)|(c' & r' & (E' & _) & [(_ & _ & E & _)|[(_ & _ & _ & E & _)|(_ & _ & _ & ->)]])].
    + rewrite E. intros Heq. injection Heq as <- <-. rewrite decide_True by done. split; [lia|set_solver].
    + rewrite E. intros Heq. injection Heq as <- <-. rewrite decide_True by done. split; [lia|set_solver].
    + rewrite E. intros Heq. injection Heq as <- <-. apply IH in E' as [Hc' Hr].
      assert (r' ≤ now) by (apply (Hle r' now); set_solver). rewrite decide_True by done. split; [lia|set_solver].
    + intros E. apply IH in E as [Hc' Hr]. split; [destruct (decide _); lia|set_solver].
  - rewrite enforce_other by done. intros E. apply IH in E as [Hc' Hr]. split; [destruct (decide _); lia|set_solver].
Qed.

(** C30 The limit on messages: whatever the peers send and in whatever order, in no
    period of a minute do more than 199 messages of a peer get through (and so many
    can); a message is refused only if the peer sent at least a hundred others in the
    minute before it. *)
Theorem rate_limited msgs p : in_order msgs →
  (∀ a, (within a (admitted p (mk ∅) msgs) ≤ 199)%nat) ∧
  (∀ now before rest, msgs = before ++ (now, p) :: rest → (enforceRateLimits now (limit_all before) p).1 ≠ None →
     (100 ≤ since p (now - resetInterval) before)%nat).
Proof.
  intros Hs. split; [intros a; apply within_bound; [intros ???; cbn; by rewrite lookup_empty|done]|].
  intros now before rest -> Hno. unfold in_order in Hs. rewrite fmap_app in Hs. apply StronglySorted_app in Hs as (_ & Hs & _).
  destruct (limit_all_inv p before Hs) as [Hrl Hinv]. pose proof (enforce_cases now (limit_all before) p (Hrl p)) as Hc.
  destruct (enforceRateLimits now (limit_all before) p) as [e rl']. cbn [fst] in Hno. unfold window in Hc.
  destruct Hc as [(_ & -> & _)|(c & r & (E & _) & [(_ & -> & _)|[(_ & _ & -> & _)|(Hr & -> & _)]])]; [done..|].
  apply Hinv in E as [Hc _]. unfold maxMessages in Hc.
  assert (since p r before ≤ since p (now - resetInterval) before)%nat; [|lia].
  unfold since. apply length_filter_mono. intros [t q] [-> Ht]. cbn in *. split; [done|lia].
Qed.

(** One message, then ninety-nine at the end of its minute and a hundred after it. *)
Definition burst : arrivals :=
  (0, "peer") :: replicate 99 (resetInterval, "peer") ++ replicate 100 (resetInterval + 1, "peer").

Lemma burst_in_order : in_order burst.
Proof.
  unfold in_order. apply Sorted_StronglySorted; [intros ??? ; lia|]. unfold burst. cbn [fmap list_fmap fst].
  vm_compute. repeat (constructor; [|try (constructor; done)]); repeat constructor; done.
Qed.

Lemma rate_limited_witness : (within resetInterval (admitted "peer" (mk ∅) burst) ≤ 199)%nat ∧
  within resetInterval (admitted "peer" (mk ∅) burst) = 199%nat.
Proof.
  split; [exact (proj1 (rate_limited burst "peer" burst_in_order) resetInterval)|]. vm_compute. reflexivity.
Defined.
End limits.

(** ** The file of known peers *)
Section store.
Import PeerStore.
Context (marshal : gmap string AddrInfo → option bytes) (unmarshal : bytes → option (gmap string AddrInfo)).
(** The peers that can be printed and read back. *)
Context (valid : AddrInfo → Prop).

(** Every peer is stored under its own id, which is not empty. *)
Definition keyed (peers : gmap string AddrInfo) : Prop := ∀ k i, peers !! k = Some i → valid i ∧ ai_ID i = k ∧ k ≠ "".

(** What is documented of the JSON form: a map of peers is printed as a document that
    is not empty and that is read back as a map with the same values; the keys are
    the texts of the ids. *)
Definition json_law : Prop := ∀ peers, peers ≠ ∅ → keyed peers →
  ∃ data doc, marshal peers = Some data ∧ data ≠ [] ∧ unmarshal data = Some doc ∧ (map_to_list doc).*2 ≡ₚ (map_to_list peers).*2.

(** A store, the goroutines that were started to save it, and its file. *)
Record running := mkRunning { r_peers : gmap string AddrInfo; r_pending : nat; r_file : file }.

Inductive store_step : running → running → Prop :=
  | step_add ps n f info ps' b : valid info → AddPeer ps info = (ps', b) →
      store_step (mkRunning ps n f) (mkRunning ps' (if b then S n else n) f)
  | step_save ps n f : store_step (mkRunning ps (S n) f) (mkRunning ps n (save marshal Stored ps f)).

Definition entered (l : list AddrInfo) (m : gmap string AddrInfo) : gmap string AddrInfo := foldl (λ m i, <[ai_ID i := i]> m) m l.

Lemma entered_lookup l : ∀ m, NoDup (ai_ID <$> l) → entered l m = list_to_map ((λ i, (ai_ID i, i)) <$> l) ∪ m.
Proof.
  induction l as [|i l IH]; intros m Hnd; [cbn; by rewrite (left_id_L ∅ (∪))|]. cbn in Hnd. apply NoDup_cons in Hnd as [Hi Hnd].
  cbn [entered foldl]. fold (entered l (<[ai_ID i := i]> m)). rewrite IH by done. rewrite fmap_cons, list_to_map_cons. cbn [fst snd].
  rewrite <- insert_union_l, insert_union_r; [done|]. apply not_elem_of_list_to_map_1.
  rewrite <- list_fmap_compose. done.
Qed.

Lemma keyed_entries peers : keyed peers → (λ i, (ai_ID i, i)) <$> (map_to_list peers).*2 = map_to_list peers.
Proof.
  intros Hk. rewrite <- list_fmap_compose. rewrite <- (list_fmap_id (map_to_list peers)) at 2. apply list_fmap_ext.
  intros n [k i] E. apply list_elem_of_lookup_2, elem_of_map_to_list in E. cbn. by destruct (Hk k i E) as (_ & -> & _).
Qed.

(** Reading a document whose values are the peers of a store gives the store. *)
Lemma load_values ro peers doc : fair ro → keyed peers → (map_to_list doc).*2 ≡ₚ (map_to_list peers).*2 →
  foldl (λ m e, <[ai_ID e.2 := e.2]> m) ∅ (range ro doc) = peers.
Proof.
  intros Hro Hk Hdoc. transitivity (entered (range ro doc).*2 ∅).
  { unfold entered. generalize (∅ : gmap string AddrInfo). induction (range ro doc) as [|e l IH]; intros m; [done|]. apply IH. }
  assert (Hl : (range ro doc).*2 ≡ₚ (map_to_list peers).*2) by (rewrite (range_perm ro doc Hro); exact Hdoc).
  assert (Hids : ai_ID <$> (map_to_list peers).*2 = (map_to_list peers).*1).
  { rewrite <- (keyed_entries peers Hk) at 2. by rewrite <- (list_fmap_compose (λ i, (ai_ID i, i)) fst). }
  rewrite entered_lookup by (rewrite Hl, Hids; apply NoDup_fst_map_to_list). rewrite (right_id_L ∅ (∪)).
  transitivity (list_to_map (map_to_list peers) : gmap string AddrInfo); [|apply list_to_map_to_list].
  apply list_to_map_proper; [|by rewrite <- (keyed_entries peers Hk), Hl].
  rewrite <- list_fmap_compose. change (NoDup (ai_ID <$> (range ro doc).*2)). rewrite Hl, Hids. apply NoDup_fst_map_to_list.
Qed.

(** What holds of a store at all times: its file is up to date when nothing is
    waiting to be saved. *)
Definition up_to_date (r : running) : Prop :=
  keyed (r_peers r) ∧ (r_pending r ≠ 0%nat → r_peers r ≠ ∅) ∧
  (r_pending r = 0%nat → r_peers r = ∅ ∧ r_file r = Missing ∨
     r_peers r ≠ ∅ ∧ ∃ data, marshal (r_peers r) = Some data ∧ r_file r = Contents data).

Lemma up_to_date_step r r' : json_law → store_step r r' → up_to_date r → up_to_date r'.
Proof.
  intros Hlaw Hs (Hk & Hne & Hf). destruct Hs as [ps n f info ps' b Hv Ha|ps n f]; cbn in *.
  - unfold AddPeer in Ha. destruct (str_eqb (ai_ID info) "") eqn:E; injection Ha as <- <-; [done|].
    apply str_eqb_neq in E. split; [|split; [intros _; apply insert_non_empty|done]]. cbn.
    intros k i. rewrite lookup_insert_Some. intros [[<- <-]|[_ Hi]]; [done|by apply Hk].
  - assert (ps ≠ ∅) as Hps by (by apply Hne). split; [done|]. split; [done|]. intros _. right. split; [done|].
    destruct (Hlaw ps Hps Hk) as (data & doc & Hm & _). exists data. split; [done|]. unfold save.
    rewrite decide_False, Hm by (by rewrite map_size_empty_iff). done.
Qed.

(** The file of the peer store survives a restart: after any additions, with the
    goroutines that save running at any time and in any order, once none of them is
    left a new store that is opened on the file has exactly the peers of the old one. *)
Theorem peer_store_survives ro r : json_law → fair ro →
  rtc store_step (mkRunning ∅ 0 Missing) r → r_pending r = 0%nat →
  NewPersistentPeerStore unmarshal ro (r_file r) = Ok (r_peers r).
Proof.
  intros Hlaw Hro Hr Hp. assert (Hu : up_to_date r).
  { refine (rtc_ind_r up_to_date _ _ _ _ Hr); [|intros ?? _ Hs Hu; by eapply up_to_date_step].
    split; [intros k i; cbn; by rewrite lookup_empty|]. split; [done|]. intros _. by left. }
  destruct Hu as (Hk & _ & Hf). unfold NewPersistentPeerStore. destruct (Hf Hp) as [[-> ->]|(Hne & data & Hm & ->)]; [done|].
  destruct (Hlaw _ Hne Hk) as (data' & doc & Hm' & Hd & Hun & Hv). rewrite Hm in Hm'. injection Hm' as <-.
  unfold load. destruct data as [|x data]; [done|]. rewrite Hun. by rewrite (load_values ro (r_peers r) doc).
Qed.
End store.

(** A store of two peers, with the codec that enumerates maps. *)
#[local] Instance addr_info_eq_dec : EqDecision AddrInfo.
Proof. solve_decision. Defined.
#[local] Program Instance addr_info_countable : Countable AddrInfo :=
  inj_countable' (λ i, (ai_ID i, ai_Addrs i)) (λ p, mkAddrInfo p.1 p.2) _.
Next Obligation. by intros []. Qed.

Definition demo_marshal (m : gmap string AddrInfo) : option bytes := Some [Z.pos (encode m)].
Definition demo_unmarshal (data : bytes) : option (gmap string AddrInfo) :=
  match data with [Z.pos p] => decode p | _ => None end.
Definition demo_peer (id : string) : AddrInfo := mkAddrInfo id ["/ip4/10.0.0.1/tcp/50505"].

Lemma demo_json : json_law demo_marshal demo_unmarshal (λ _, True).
Proof. intros peers _ _. exists [Z.pos (encode peers)], peers. cbn. rewrite decode_encode. done. Qed.

Lemma peer_store_survives_witness :
  let ps := <["QmB" := demo_peer "QmB"]> {["QmA" := demo_peer "QmA"]} in
  PeerStore.NewPersistentPeerStore demo_unmarshal id (PeerStore.Contents [Z.pos (encode ps)]) = Ok ps.
Proof.
  set (ps := <["QmB" := demo_peer "QmB"]> {["QmA" := demo_peer "QmA"]}).
  assert (Hrun : rtc (store_step demo_marshal (λ _, True)) (mkRunning ∅ 0 PeerStore.Missing)
                   (mkRunning ps 0 (PeerStore.Contents [Z.pos (encode ps)]))).
  { eapply rtc_l; [exact (step_add _ _ _ _ _ (demo_peer "QmA") _ _ I eq_refl)|].
    eapply rtc_l; [exact (step_add _ _ _ _ _ (demo_peer "QmB") _ _ I eq_refl)|].
    eapply rtc_l; [exact (step_save _ _ _ _ _)|]. eapply rtc_l; [exact (step_save _ _ _ _ _)|]. apply rtc_refl. }
  refine (peer_store_survives demo_marshal demo_unmarshal (λ _, True) id _ demo_json _ Hrun eq_refl). intros ks. done.
Defined.

(** ** Keys *)

(** A node keeps its identity: once a call has returned a key, the next one returns
    the same key from the file, without a new one being made. *)
Lemma identity_kept {K} (unmarshal : bytes → result K) marshal generated generated' write write' stored stored' k :
  (∀ k data, marshal k = Ok data → unmarshal data = Ok k) →
  loadOrCreatePrivateKey unmarshal marshal generated write stored = (Ok k, stored') →
  loadOrCreatePrivateKey unmarshal marshal generated' write' stored' = (Ok k, stored').
Proof.
  intros Hlaw. unfold loadOrCreatePrivateKey at 1. destruct stored as [data|].
  - intros E. injection E as E <-. cbn. by rewrite E.
  - destruct generated as [priv|]; [|done]. destruct (marshal priv) as [data|] eqn:Hm; [|done].
    destruct write as [[e f]|]; [done|]. intros E. injection E as -> <-. cbn. by rewrite (Hlaw _ _ Hm).
Qed.

(** ** Answers and heartbeats *)
Section node.
Import BootstrapNode.
Context `{GoImpl}.

Definition introduced (requester : string) (excluded : list string) (p : AddrInfo) : Prop :=
  ai_ID p ≠ requester ∧ ai_ID p ∉ excluded.
#[local] Instance introduced_dec requester excluded p : Decision (introduced requester excluded p) := and_dec _ _.

Lemma pick_take max requester excluded l : ∀ n, 0 ≤ n → n + Z.of_nat (length l) < 2 ^ 63 →
  pick max requester excluded n l = take (Z.to_nat (max - n)) (filter (introduced requester excluded) l).
Proof.
  induction l as [|p l IH]; intros n Hn Hl; cbn [pick]; [by destruct (Z.to_nat _)|]. cbn [length] in Hl. rewrite Z.geb_leb.
  destruct (Z.leb_spec max n). { by replace (Z.to_nat (max - n)) with 0%nat by lia. }
  assert (Hd : (negb (str_eqb (ai_ID p) requester) && negb (bool_decide (ai_ID p ∈ excluded))) = bool_decide (introduced requester excluded p)).
  { apply Bool.eq_iff_eq_true. unfold introduced. rewrite andb_true_iff, !negb_true_iff, bool_decide_eq_true, bool_decide_eq_false.
    by rewrite str_eqb_neq. }
  rewrite Hd, filter_cons. destruct (decide (introduced requester excluded p)) as [Hp|Hp].
  - rewrite bool_decide_eq_true_2 by done. rewrite i64_small by (unfold is_i64; lia). rewrite IH by lia.
    replace (Z.to_nat (max - n)) with (S (Z.to_nat (max - (n + 1)))) by lia. done.
  - rewrite bool_decide_eq_false_2 by done. apply IH; lia.
Qed.

(** A request for peers is answered with peers of the store, each at most once, none
    of them the requester or excluded, and as many as there are up to the number
    asked for. *)
Theorem handlePeerDiscovery_spec ro bn peer r : fair ro → Z.of_nat (size (peerStore bn)) < 2 ^ 63 →
  ∃ l, l ≡ₚ (map_to_list (peerStore bn)).*2 ∧
    handlePeerDiscovery ro bn peer (Some r) =
      Some (mkPeers true (take (Z.to_nat (MaxPeers r)) (filter (introduced peer (ExcludedPeers r)) l))).
Proof.
  intros Hro Hsz. exists (PeerStore.GetPeers ro (peerStore bn)).
  assert (Hl : PeerStore.GetPeers ro (peerStore bn) ≡ₚ (map_to_list (peerStore bn)).*2).
  { unfold PeerStore.GetPeers. by rewrite (range_perm ro _ Hro). }
  split; [done|]. cbn. rewrite pick_take; [by rewrite Z.sub_0_r|lia|]. rewrite Hl, length_fmap, length_map_to_list. lia.
Qed.

Definition overdue (now last : Z) : Prop := HeartbeatTimeout < now - last.
#[local] Instance overdue_dec now last : Decision (overdue now last) := Z_lt_dec _ _.

Lemma since_overdue now last : (time_since now last >? HeartbeatTimeout) = bool_decide (overdue now last).
Proof.
  unfold overdue, time_since, HeartbeatTimeout. rewrite Z.gtb_ltb. apply Bool.eq_iff_eq_true.
  rewrite Z.ltb_lt, bool_decide_eq_true. lia.
Qed.

(** A check closes the connections of the peers whose last heartbeat is more than
    ninety seconds old and forgets these peers, and no others; afterwards the peers
    that are remembered are the healthy ones. *)
Theorem checkPeerHeartbeats_spec ro now bn : fair ro →
  let '(closed, bn') := checkPeerHeartbeats ro now bn in
  closed ≡ₚ (filter (λ e, overdue now e.2) (map_to_list (lastHeartbeat bn))).*1 ∧
  bn' = set_heartbeats bn (filter (λ e, ¬ overdue now e.2) (lastHeartbeat bn)) ∧
  ∀ p, IsPeerHealthy now bn' p = bool_decide (is_Some (lastHeartbeat bn' !! p)).
Proof.
  intros Hro. unfold checkPeerHeartbeats.
  assert (Hfold : ∀ l acc, foldl (λ acc e, if time_since now e.2 >? HeartbeatTimeout
      then (acc.1 ++ [e.1], set_heartbeats acc.2 (delete e.1 (lastHeartbeat acc.2))) else acc) acc l =
    (acc.1 ++ (filter (λ e, overdue now e.2) l).*1,
     set_heartbeats acc.2 (foldl (λ m k, delete k m) (lastHeartbeat acc.2) (filter (λ e, overdue now e.2) l).*1))).
  { induction l as [|e l IH]; intros [c b]; [cbn; rewrite app_nil_r; by destruct b|]. cbn [foldl]. rewrite IH, since_overdue, filter_cons.
    case_bool_decide; [rewrite decide_True by done|by rewrite decide_False]. cbn. by rewrite <- app_assoc. }
  rewrite Hfold. cbn [fst snd]. clear Hfold.
  assert (Hm : foldl (λ m k, delete k m) (lastHeartbeat bn) (filter (λ e, overdue now e.2) (range ro (lastHeartbeat bn))).*1 =
               filter (λ e, ¬ overdue now e.2) (lastHeartbeat bn)).
  { assert (Hdel : ∀ ks (m : gmap string Z) k, foldl (λ m k, delete k m) m ks !! k = if decide (k ∈ ks) then None else m !! k).
    { induction ks as [|x ks IH]; intros m k; [done|]. cbn [foldl]. rewrite IH, lookup_delete.
      repeat case_decide; try done; set_solver. }
    apply map_eq. intros k. rewrite Hdel, map_lookup_filter.
    assert (Hin : k ∈ (filter (λ e, overdue now e.2) (range ro (lastHeartbeat bn))).*1 ↔ ∃ v, lastHeartbeat bn !! k = Some v ∧ overdue now v).
    { rewrite list_elem_of_fmap. setoid_rewrite list_elem_of_filter. setoid_rewrite (range_perm ro _ Hro).
      split; [intros ([k' v] & -> & Ho & Hi)|intros (v & Hi & Ho); exists (k, v); cbn; rewrite elem_of_map_to_list; done].
      cbn in *. apply elem_of_map_to_list in Hi. eauto. }
    case_decide as Hk; destruct (lastHeartbeat bn !! k) as [v|] eqn:E; cbn; try done.
    - apply Hin in Hk as (v' & [= <-] & Ho). by rewrite option_guard_False by tauto.
    - rewrite option_guard_True; [done|]. intros Ho. apply Hk, Hin. eauto. }
  rewrite Hm. split_and!; [by rewrite (range_perm ro _ Hro)|done|].
  intros p. unfold IsPeerHealthy. cbn [lastHeartbeat set_heartbeats].
  destruct (filter _ _ !! p) as [v|] eqn:E; [|done]. apply map_lookup_filter_Some in E as [_ Ho].
  rewrite (bool_decide_eq_true_2 _ (mk_is_Some _ _ eq_refl)). apply Z.leb_le.
  unfold overdue, time_since, HeartbeatTimeout in *. cbn in Ho. lia.
Qed.

(** A validator's message of fewer than 1024 bytes, which is every one that a node
    sends, changes nothing. *)
Lemma short_validator_message now ro deliver d bn peer stream : (length stream < 1024)%nat →
  handleValidatorMessage now ro deliver d bn peer stream = (None, bn).
Proof. intros Hl. unfold handleValidatorMessage. by rewrite (proj2 (Nat.ltb_lt _ _)). Qed.

(** The metrics that the validator messages give have no effect on a score. *)
Lemma heartbeat_not_scored now v s metric : metric ∈ ["heartbeat"; "timeout"] →
  update_score now metric v s = mkPeerScore (ConnectionUptime s) (ResponseTime s) (MessageSuccess s)
    (ps_BandwidthUsage s) (ValidationSuccess s) now.
Proof. intros Hm. destruct s. rewrite !elem_of_cons in Hm. destruct Hm as [->|[->|Hm]]; [reflexivity|reflexivity|].
  by apply not_elem_of_nil in Hm. Qed.

(** A message is passed on once to each other peer that takes it, and to nobody else. *)
Lemma passed_on_once {A} ro deliver bn source type (data : A) : fair ro →
  let '(sent, _) := broadcastToOtherPeers ro deliver bn source type data in
  NoDup sent.*1.*1 ∧ ∀ p, p ∈ sent.*1.*1 ↔ is_Some (peers bn !! p) ∧ p ≠ source ∧ deliver p ("/blockchain/" +:+ type +:+ "/1.0.0") = true.
Proof.
  intros Hro. unfold broadcastToOtherPeers. rewrite <- !list_fmap_compose.
  rewrite (list_fmap_ext _ id) by done. rewrite list_fmap_id.
  assert (Hk : (range ro (peers bn)).*1 ≡ₚ (map_to_list (peers bn)).*1) by (by rewrite (range_perm ro _ Hro)).
  split; [apply NoDup_filter; rewrite Hk; apply NoDup_fst_map_to_list|].
  intros p. rewrite list_elem_of_filter, Hk, list_elem_of_fmap. split.
  - intros ((Hp & Hd) & [k v] & -> & Hi). apply elem_of_map_to_list in Hi. cbn. eauto.
  - intros ([v Hv] & Hp & Hd). split; [done|]. exists (p, v). by rewrite elem_of_map_to_list.
Qed.

(** ** The running node *)

(** What changes a node that [NewBootstrapNode] and [Start] have set up: connections,
    streams of the registered protocols, and the watch over heartbeats. *)
Inductive bn_step : t → t → Prop :=
  | bn_connected bn p : bn_step bn (Connected bn p)
  | bn_disconnected bn p : bn_step bn (Disconnected bn p)
  | bn_block now ro deliver bn peer msg : bn_step bn (handleBlockAnnouncement now ro deliver bn peer msg).2
  | bn_transaction now ro deliver bn peer msg : bn_step bn (handleTransaction now ro deliver bn peer msg).2
  | bn_validator now ro deliver d bn peer stream : bn_step bn (handleValidatorMessage now ro deliver d bn peer stream).2
  | bn_check ro now bn : bn_step bn (checkPeerHeartbeats ro now bn).2.

(** The parts of a node that no step changes. *)
Definition fixed (bn bn' : t) : Prop := peerStore bn' = peerStore bn ∧ started bn' = started bn.

Lemma broadcast_fixed {A} ro deliver bn source type (data : A) : fixed bn (broadcastToOtherPeers ro deliver bn source type data).2.
Proof. done. Qed.

Lemma check_fixed ro now bn : fixed bn (checkPeerHeartbeats ro now bn).2.
Proof.
  unfold checkPeerHeartbeats. generalize (range ro (lastHeartbeat bn)) as l.
  assert (Hf : ∀ l acc, fixed bn acc.2 → fixed bn (foldl (λ acc e, if time_since now e.2 >? HeartbeatTimeout
      then (acc.1 ++ [e.1], set_heartbeats acc.2 (delete e.1 (lastHeartbeat acc.2))) else acc) acc l).2).
  { induction l as [|e l IH]; intros acc Ha; [done|]. cbn [foldl]. apply IH. by destruct (_ >? _). }
  intros l. by apply Hf.
Qed.

Lemma step_fixed bn bn' : bn_step bn bn' → fixed bn bn'.
Proof.
  destruct 1 as [| |now ro deliver bn peer msg|now ro deliver bn peer msg|now ro deliver d bn peer stream|]; try done.
  - unfold handleBlockAnnouncement. destruct (RateLimiter.enforceRateLimits _ _ _) as [[e|] rl]; [done|]. destruct msg; [|done].
    by destruct (_ >? _).
  - unfold handleTransaction. destruct (RateLimiter.enforceRateLimits _ _ _) as [[e|] rl]; [done|]. destruct msg; [|done].
    by destruct (f64_le _ _).
  - unfold handleValidatorMessage. destruct (_ <? _)%nat; [done|]. destruct (envelope d _) as [[type payload]|]; [|done].
    destruct (str_eqb type _); [by destruct (heartbeat_ok d payload)|]. destruct (str_eqb type _); [by destruct (timeout_ok d payload)|].
    destruct (str_eqb type _); [|done]. by destruct (set_update d payload).
  - apply check_fixed.
Qed.

(** A bootstrap node introduces only the peers of the file it was started with: in
    every state that it comes to, whoever connects and whatever is sent, its answer to
    a request for peers is a selection from that file; and a call of [Stop] does
    nothing, since no code marks the node as started. *)
Theorem bootstrap_never_learns now ip key store port bn addr bn' ro peer r :
  NewBootstrapNode now ip key None None (Ok store) None port = Ok (bn, addr) → rtc bn_step bn bn' → fair ro →
  Z.of_nat (size store) < 2 ^ 63 →
  Stop bn' = (false, bn') ∧
  ∃ l, l ≡ₚ (map_to_list store).*2 ∧ handlePeerDiscovery ro bn' peer (Some r) =
    Some (mkPeers true (take (Z.to_nat (MaxPeers r)) (filter (introduced peer (ExcludedPeers r)) l))).
Proof.
  intros Hnew Hr Hro Hsz.
  assert (Hf : fixed bn bn').
  { refine (rtc_ind_r (fixed bn) _ _ _ _ Hr); [done|]. intros x y _ Hs [E1 E2]. apply step_fixed in Hs as [E3 E4].
    split; congruence. }
  assert (H0 : peerStore bn = store ∧ started bn = false).
  { revert Hnew. unfold NewBootstrapNode. destruct key; [|done]. intros E. injection E as <- _. done. }
  destruct Hf as [E1 E2], H0 as [E3 E4]. rewrite E3 in E1. rewrite E4 in E2. split; [unfold Stop; by rewrite E2|].
  rewrite <- E1. apply handlePeerDiscovery_spec; [done|by rewrite E1].
Qed.
End node.

Definition demo_bootnode : BootstrapNode.t :=
  BootstrapNode.mk {["QmA" := demo_peer "QmA"]} ∅ (no_metrics 0) (RateLimiter.mk ∅) ∅ ∅ false 0.

Lemma bootstrap_never_learns_witness :
  BootstrapNode.handlePeerDiscovery id (BootstrapNode.Connected demo_bootnode "QmB") "QmC" (Some (mkDiscovery 10 [])) =
    Some (mkPeers true [demo_peer "QmA"]).
Proof.
  assert (Hro : fair id) by (intros ks; done).
  assert (Hsz : Z.of_nat (size ({["QmA" := demo_peer "QmA"]} : gmap string AddrInfo)) < 2 ^ 63) by (by rewrite map_size_singleton).
  destruct (bootstrap_never_learns 0 (Ok "10.0.0.1") (Ok "QmBoot") {["QmA" := demo_peer "QmA"]} 50505 demo_bootnode _
    (BootstrapNode.Connected demo_bootnode "QmB") id "QmC" (mkDiscovery 10 []) eq_refl
    (rtc_once _ _ (bn_connected demo_bootnode "QmB")) Hro Hsz) as (_ & l & Hl & ->).
  rewrite map_to_list_singleton in Hl. cbn in Hl. apply Permutation_singleton_r in Hl as ->. reflexivity.
Defined.
