(* ===== verification/UtxoProof.v ===== *)
(** * Two proofs about a chunk of outputs ([utxo.go])

    [generateMerkleProof] and [verifyMerkleProof] of the UTXO pool, which no code
    calls. The first collects siblings along the paths from a chunk to the root; the
    flags of the nodes on the paths are kept from one level to the next. The second
    does not use a proof: it builds a tree over the chunk alone and hashes the root
    again and again until it is the one asked for. *)

From stdpp Require Import base gmap strings list.
From Stdlib Require Import ZArith Lia.
From S2P Require Import Prelude.
From S2P Require Import Float64.
From S2P Require Import Sha256.
From S2P Require Import Merkle.
From S2P Require Import Utxo.
From S2P Require Import UtxoSync.

Module ChunkProof.

(** The positions of the keys of a chunk. *)
Definition positions (allKeys chunkKeys : list string) : gset nat :=
  list_to_set (omap (λ k, fst <$> list_find (k =.) allKeys) chunkKeys).

(** One level from position [i] on; the state is the flags and the proof. *)
Fixpoint prove_level (i : nat) (nodes : list string) (s : gset nat * list string) : gset nat * list string :=
  match nodes with
  | [] => s
  | [_] => (if bool_decide (i ∈ s.1) then {[(i / 2)%nat]} ∪ s.1 else s.1, s.2)
  | left' :: right' :: nodes =>
      let '(need, proof) := s in
      let proof := if bool_decide (i ∈ need) then proof ++ [right'] else proof in
      let proof := if bool_decide (S i ∈ need) then proof ++ [left'] else proof in
      let need := if bool_decide (i ∈ need) || bool_decide (S i ∈ need) then {[(i / 2)%nat]} ∪ need else need in
      prove_level (S (S i)) nodes (need, proof)
  end.

Fixpoint prove_levels (fuel : nat) (nodes : list string) (s : gset nat * list string) : list string :=
  match fuel with
  | O => s.2
  | S fuel => if (1 <? length nodes)%nat then prove_levels fuel (next_level nodes) (prove_level 0 nodes s) else s.2
  end.

(** Each level has about half the nodes, so the number of leaves is fuel enough. *)
Definition generateMerkleProof (m : utxo_set) (chunkKeys : list string) : list string :=
  let allKeys := sorted_keys m in
  prove_levels (length allKeys) (leaf_hashes m allKeys) (positions allKeys chunkKeys, []).

(** [None] when the fuel is used up. *)
Fixpoint verify_levels (fuel : nat) (stateRoot : string) (nodes : list string) : option bool :=
  match fuel with
  | O => None
  | S fuel =>
      match nodes with
      | [] => Some false
      | [h] => if str_eqb h stateRoot then Some true else verify_levels fuel stateRoot (next_level nodes)
      | _ => verify_levels fuel stateRoot (next_level nodes)
      end
  end.

Definition verifyMerkleProof (fuel : nat) (ro : range_order) (chunk : StateChunk) (stateRoot : string) : option bool :=
  verify_levels fuel stateRoot ((λ e, UTXO_Hash e.2) <$> range ro (sc_UTXOs chunk)).

(** ** What the verification says *)

Lemma next_level_nonempty hs : hs ≠ [] → next_level hs ≠ [].
Proof.
  intros Hne E. apply (f_equal length) in E. rewrite length_next_level in E. cbn in E.
  pose proof (half_pos (length hs)). destruct hs; [done|]. cbn in *. lia.
Qed.

Lemma verify_levels_true stateRoot : ∀ fuel nodes b, nodes ≠ [] → verify_levels fuel stateRoot nodes = Some b → b = true.
Proof.
  induction fuel as [|fuel IH]; intros nodes b Hne; [done|]. cbn [verify_levels].
  pose proof (next_level_nonempty nodes Hne) as Hn. destruct nodes as [|h [|h' nodes]]; [done| |].
  - destruct (str_eqb h stateRoot); [by intros [= <-]|]. by apply IH.
  - by apply IH.
Qed.

(** The verification never refuses a chunk that is not empty: it accepts it or does
    not end. *)
Theorem verify_never_refuses fuel ro chunk stateRoot b : fair ro → sc_UTXOs chunk ≠ ∅ →
  verifyMerkleProof fuel ro chunk stateRoot = Some b → b = true.
Proof.
  intros Hro Hne. apply verify_levels_true. intros E. apply (f_equal length) in E. rewrite length_fmap in E.
  rewrite (range_perm ro _ Hro), length_map_to_list in E. cbn in E. by apply map_size_empty_iff in E.
Qed.

Lemma next_level_long hs : Forall (λ h, String.length h = 64%nat) (next_level hs).
Proof. induction hs as [| |a b hs IH] using pair_ind; cbn; repeat constructor; try apply length_sha_hex. done. Qed.

(** A root that is no digest, like the empty one of a pool that was never hashed, is
    looked for without end. *)
Lemma verify_endless ro chunk stateRoot : fair ro → sc_UTXOs chunk ≠ ∅ → String.length stateRoot ≠ 64%nat →
  ∀ fuel, verifyMerkleProof fuel ro chunk stateRoot = None.
Proof.
  intros Hro Hne Hr. unfold verifyMerkleProof.
  assert (Hloop : ∀ fuel nodes, nodes ≠ [] → Forall (λ h, String.length h = 64%nat) nodes → verify_levels fuel stateRoot nodes = None).
  { induction fuel as [|fuel IH]; intros nodes Hn Hl; [done|]. cbn [verify_levels].
    pose proof (IH _ (next_level_nonempty nodes Hn) (next_level_long nodes)) as Hnext.
    destruct nodes as [|h [|h' nodes]]; [done| |done]. inversion_clear Hl as [|?? Hh _].
    destruct (str_eqb h stateRoot) eqn:E; [|done]. apply str_eqb_eq in E. congruence. }
  intros fuel. apply Hloop.
  - intros E. apply (f_equal length) in E. rewrite length_fmap, (range_perm ro _ Hro), length_map_to_list in E. cbn in E.
    by apply map_size_empty_iff in E.
  - apply Forall_fmap, Forall_forall. intros e _. apply length_sha_hex.
Qed.

(** The siblings on the way from one leaf to the root: one for each level. *)
Fixpoint path (fuel i : nat) (nodes : list string) : list string :=
  match fuel with
  | O => []
  | S fuel =>
      if (1 <? length nodes)%nat then
        (if Nat.even i then option_list (nodes !! S i) else option_list (nodes !! pred i)) ++ path fuel (i / 2) (next_level nodes)
      else []
  end.

(** The proof of the second of four outputs has a third node, which is not on its way:
    the flag of a leaf is taken for that of an inner node. *)
Lemma proof_has_stranger a b c d :
  prove_levels 4 [a; b; c; d] ({[1%nat]}, []) = path 4 1 [a; b; c; d] ++ [hash_concat a b].
Proof. reflexivity. Qed.
End ChunkProof.
