(* ===== verification/P2pPeers.v ===== *)
(** * Peers and chains of a node ([p2p.go])

    How a node looks for peers and keeps its connections, asks for chains and sends
    its own: what [P2p] leaves out. libp2p is outside: which addresses parse, who is
    connected, which streams open and what arrives over them are arguments. The
    routines that run on a ticker are modelled by one tick. *)

From stdpp Require Import base gmap strings list.
From Stdlib Require Import ZArith Lia.
From S2P Require Import Prelude.
From S2P Require Import Float64.
From S2P Require Import Json.
From S2P Require Import Database.
From S2P Require Import P256.
From S2P Require Import Crypto.
From S2P Require Import Transaction.
From S2P Require Import Utxo.
From S2P Require Import Mempool.
From S2P Require Import Trie.
From S2P Require Import Stake.
From S2P Require Import Block.
From S2P Require Import BlockJson.
From S2P Require Import Chain.
From S2P Require Import ChainStore.
From S2P Require Import Peers.
From S2P Require Import Mining.
From S2P Require Import P2p.
From S2P Require Import Rpc.

(** [NodeConfig.BootstrapNodes] and the fields of the node that only discovery uses. *)
Record peering := mkPeering {
  pr_isInitializedValidator : bool;
  pr_isRunning : bool;
  pr_lastPeerDiscovery : Z;
}.

(** An address, as [ma.NewMultiaddr] and [peer.AddrInfoFromP2pAddr] read it: the id
    of the peer, or the error of one of them. *)
Inductive address : Type :=
  | NoMultiaddr (e : string)
  | NoPeerInfo (e : string)
  | AddressOf (id : string).

(** What an attempt to connect finds: the peer is already connected, or connecting
    fails, or it succeeds and the host then reports a connection or none. *)
Inductive dial : Type := Already | Refused (e : string) | Dialled (verified : bool).

(** [chainData] of [BroadcastChain] *)
Record ChainData := mkChainData { cd_Height : Z; cd_Blocks : list Block; cd_Timestamp : Z; cd_NetworkID : string }.

Module Peering.
Section peering.
Context `{KV} `{ECDSA} `{GoImpl}.

Definition set_bootstrap (n : Node.t) (s : gset string) : Node.t :=
  Node.mk (Node.n_bc n) (Node.n_mempool n) (Node.n_ownPool n) (Node.n_stakePool n) (Node.n_peers n)
    (Node.n_broadcastedBlocks n) (Node.n_isSyncing n) (Node.n_syncComplete n) (Node.n_lastSyncTime n)
    (Node.n_validatorProtocol n) s (Node.n_wallet n) (Node.n_NetworkID n).

Definition add_peer (now : Z) (n : Node.t) (id : string) : outcome Node.t :=
  let! pm := PeerManager.AddPeer now (Node.n_peers n) id in Done (Node.set_peers n pm).

(** ** Connecting *)

Definition ConnectToPeer (now : Z) (addr : address) (connect : error) (n : Node.t) : outcome (error * Node.t) :=
  match addr with
  | NoMultiaddr e => Done (Some ("invalid multiaddr: " +:+ e), n)
  | NoPeerInfo e => Done (Some ("invalid peer address: " +:+ e), n)
  | AddressOf id =>
      match connect with
      | Some e => Done (Some ("failed to connect to peer: " +:+ e), n)
      | None => let! n := add_peer now n id in Done (None, n)
      end
  end.

Definition maxRetries : nat := 5.

(** The attempts for one address, from [attempt] on; the state is the last error, the
    bootstrap nodes and whether one is connected. A failed attempt ends the loop only
    when it is the last; a peer that is connected already does not end it. *)
Fixpoint dial_loop (more attempt : nat) (addr : address) (dials : nat → dial) (s : error * gset string * bool)
    : error * gset string * bool :=
  match more with
  | O => s
  | S more =>
      let '(lastErr, boot, connected) := s in
      match addr with
      | NoMultiaddr e | NoPeerInfo e => dial_loop more (S attempt) addr dials (Some e, boot, connected)
      | AddressOf id =>
          match dials attempt with
          | Already => dial_loop more (S attempt) addr dials (lastErr, {[id]} ∪ boot, true)
          | Refused e => dial_loop more (S attempt) addr dials (Some e, boot, connected)
          | Dialled true => (lastErr, {[id]} ∪ boot, true)
          | Dialled false => dial_loop more (S attempt) addr dials s
          end
      end
  end.

(** [dials i k] is the attempt number [k] for the address number [i]. *)
Definition ConnectToBootstrapNodes (nodes : list address) (dials : nat → nat → dial) (n : Node.t) : error * Node.t :=
  match nodes with
  | [] => (Some "no bootstrap nodes configured", n)
  | _ =>
      let '(lastErr, boot, connected) :=
        foldl (λ s ia, dial_loop maxRetries 1 ia.2 (dials ia.1) s) (None, Node.n_bootstrapNodes n, false)
          (zip (seq 0 (length nodes)) nodes) in
      let n := set_bootstrap n boot in
      if connected then (None, n)
      else (Some ("failed to connect to any bootstrap nodes after retries: " +:+ default "<nil>" lastErr), n)
  end.

(** [connected] are the host's peers before, and [now] is read at the end. *)
Definition DiscoverPeers (now : Z) (nodes : list address) (dials : nat → nat → dial) (connected : list string)
    (n : Node.t) (p : peering) : Node.t * peering :=
  if pr_isInitializedValidator p && pr_isRunning p then (n, p)
  else
    let n := if (length connected =? 0)%nat then (ConnectToBootstrapNodes nodes dials n).2 else n in
    (n, mkPeering (pr_isInitializedValidator p) (pr_isRunning p) now).

(** One tick of [maintainConnections]. *)
Definition maintainConnections (now : Z) (nodes : list address) (dials : nat → nat → dial) (connected : list string)
    (n : Node.t) (p : peering) : Node.t * peering :=
  if (length connected =? 0)%nat then ((ConnectToBootstrapNodes nodes dials n).2, p)
  else if (length connected <? 3)%nat && (time_since now (pr_lastPeerDiscovery p) >? 15 * 60 * 10 ^ 9) then
    let '(n, p) := DiscoverPeers now nodes dials connected n p in
    (n, mkPeering (pr_isInitializedValidator p) (pr_isRunning p) now)
  else (n, p).

(** [table] is the DHT's routing table, [connect] the result of connecting. *)
Definition findAndConnectPeers (now : Z) (self : string) (table : list string) (connect : string → error) (n : Node.t)
    : outcome Node.t :=
  foldl (λ acc id,
    let! n := acc in
    if str_eqb id self then Done n
    else
      let! (pm, banned) := PeerManager.IsBlacklisted now (Node.n_peers n) id in
      let n := Node.set_peers n pm in
      if banned then Done n
      else match connect id with
      | Some _ => Done n
      | None => let! n := add_peer now n id in Done (Node.touch now n id)
      end) (Done n) table.

(** The peers that the DHT finds under the network's tag, less the node itself, the
    bootstrap nodes and those that are connected. *)
Definition findPeersWithRendezvous (self : string) (boot connected : string → bool) (advertise : error)
    (found : result (list string)) : result (list string) :=
  match advertise with
  | Some e => Err ("failed to advertise: " +:+ e)
  | None =>
      match found with
      | Err e => Err ("failed to find peers: " +:+ e)
      | Ok l => Ok (filter (λ p, p ≠ self ∧ boot p = false ∧ connected p = false) l)
      end
  end.

Definition discoverPeers (now : Z) (self : string) (file : option string) (connected : list string)
    (bootstrap advertise : error) (found : result (list string)) (connect : string → error) (n : Node.t) : outcome Node.t :=
  if Node.hasEnoughPeers file n connected then Done n
  else match bootstrap with
  | Some _ => Done n
  | None =>
      match findPeersWithRendezvous self (Node.IsPeerBootstrapNode file n) (λ p, bool_decide (p ∈ connected)) advertise found with
      | Err _ => Done n
      | Ok peers =>
          foldl (λ acc p,
            let! n := acc in
            if Node.IsPeerBootstrapNode file n p || bool_decide (p ∈ connected) then Done n
            else match connect p with Some _ => Done n | None => add_peer now n p end) (Done n) peers
      end
  end.

(** ** Heartbeats *)

(** One tick of [StartHeartbeat]: [sent] is the result of [SendHeartbeat]. *)
Definition StartHeartbeat (ro : range_order) (now : Z) (sent : string → error) (n : Node.t) : outcome Node.t :=
  let! connected := PeerManager.GetConnectedPeers ro (Node.n_peers n) in
  foldl (λ acc p,
    let! n := acc in
    match sent p with
    | None => Done n
    | Some _ => let! pm := PeerManager.RemovePeer now (Node.n_peers n) p in Done (Node.set_peers n pm)
    end) (Done n) connected.

(** ** Messages *)

(** The peers that a message reaches, in the order of the loop. *)
Definition BroadcastMessage (ro : range_order) (self : string) (reached : string → bool) (n : Node.t) : outcome (list string) :=
  let! connected := PeerManager.GetConnectedPeers ro (Node.n_peers n) in
  Done (filter (λ p, p ≠ self ∧ reached p = true) connected).

(** [BroadcastNewValidator]: [answer p] is what the peer sends back, [None] when the
    stream or the read fails. The number of peers that said yes is only logged. *)
Definition BroadcastNewValidator (self : string) (answer : string → option string) (connected : list string) : Z :=
  Z.of_nat (length (filter (λ p, p ≠ self ∧ answer p = Some "OK") connected)).

(** [broadcastNewChainState]: number and cached hash of the newest block, to every
    peer that a stream opens to; a chain without blocks makes it panic. *)
Definition broadcastNewChainState (ord : child_order) (reached : string → bool) (connected : list string) (n : Node.t)
    : outcome (list (string * (Z * string))) :=
  let! latest := GetLatestBlock ord (Node.n_bc n) in
  match latest with
  | None => Panic "nil pointer dereference"
  | Some b => Done ((λ p, (p, (BlockNumber (Header b), block_hash b))) <$> filter (λ p, reached p = true) connected)
  end.

(** ** Chains *)

Definition batchSize : Z := 100.

(** The batch that starts at height [i], and what is sent of it. The state is what
    was sent before and the chain, whose blocks are hashed as they are read. With
    [fuel] above [batchSize] the inner loop always ends. *)
Definition send_batch (ord : child_order) (fuel : nat) (now : Z) (ro : Z → range_order) (self : string)
    (reached : Z → string → bool) (height : Z) (networkID : string) (pm : PeerManager.t) (i : Z)
    (acc : list (string * ChainData) * Blockchain) : outcome (turn (list (string * ChainData) * Blockchain)) :=
  let last := if height <? u64 (i + batchSize) then height else u64 (i + batchSize) in
  let! r := for_loop fuel (λ j _, j <? last) up (BlockchainAPI.collect ord (λ b, b)) i ([], acc.2) in
  match r with
  | None => Done (Continue acc)
  | Some (blocks, bc) =>
      let! connected := PeerManager.GetConnectedPeers (ro i) pm in
      let data := mkChainData height blocks (unix now) networkID in
      Done (Continue (acc.1 ++ ((λ p, (p, data)) <$> filter (λ p, p ≠ self ∧ reached i p = true) connected), bc))
  end.

Definition BroadcastChain (ord : child_order) (fuel : nat) (now : Z) (ro : Z → range_order) (self : string)
    (reached : Z → string → bool) (n : Node.t) : outcome (option (list (string * ChainData) * Node.t)) :=
  let height := GetHeight (Node.n_bc n) in
  let! r := for_loop fuel (λ i _, i <? height) (λ i, u64 (i + batchSize))
              (send_batch ord (Z.to_nat batchSize + 1) now ro self reached height (Node.n_NetworkID n) (Node.n_peers n)) 0
              ([], Node.n_bc n) in
  Done ((λ r, (r.1, Node.set_bc n r.2)) <$> r).

(** [answer p] is what arrives from a peer for the request, [None] when the stream,
    the request or the decoding fails. *)
Definition RequestChain (ro : range_order) (answer : string → option (list Block * bool)) (n : Node.t) : outcome (result (list Block)) :=
  let! connected := PeerManager.GetConnectedPeers ro (Node.n_peers n) in
  Done match connected with
  | [] => Err "no peers available"
  | _ =>
      match head (omap (λ p, match answer p with Some (blocks, true) => Some blocks | _ => None end) connected) with
      | Some blocks => Ok blocks
      | None => Err "failed to retrieve chain from any peer"
      end
  end.

(** ** Synchronisation of blocks *)

(** What one call of [AddBlock] draws from outside. *)
Record add_draw := mkAddDraw {
  ad_orders : Orders;
  ad_ro1 : range_order;
  ad_ro2 : range_order;
  ad_rnd : float64;
  ad_fuel : nat;
  ad_now : Z;
  ad_tbl : key_table;
  ad_replies : ValidatorNode → Blk.reply;
  ad_broadcast : error;
}.

(** [utxoMap]: the outputs by the id of their transaction alone. *)
Definition by_transaction (l : list UTXO) : utxo_set := foldl (λ m u, <[utxo_TransactionID u := u]> m) ∅ l.

(** The loop over the received blocks; [i] is the index of the first one. *)
Fixpoint sync_loop (draws : nat → add_draw) (peer : string) (startHeight endHeight : Z) (i : nat) (blocks : list Block)
    (s : Adder) (pm : PeerManager.t) : outcome (option (Adder * PeerManager.t * error)) :=
  match blocks with
  | [] => Done (Some (s, pm, None))
  | b :: blocks =>
      let height := i64 (startHeight + Z.of_nat i) in
      let original := block_hash b in
      match validateBlockStructure b with
      | Some e => Done (Some (s, pm, Some ("invalid block structure at height " +:+ fmt_d height +:+ ": " +:+ e)))
      | None =>
          if negb (str_eqb (hash_of_block b) original) then
            Done (Some (s, pm, Some ("block hash mismatch at height " +:+ fmt_d height +:+ ": expected " +:+ original
                                     +:+ ", got " +:+ hash_of_block b)))
          else
            let d := draws i in
            let! r := AddBlock (ad_orders d) (ad_ro1 d) (ad_ro2 d) (ad_rnd d) (ad_fuel d) (unix (ad_now d)) (ad_now d)
                        (ad_tbl d) (ad_replies d) (ad_broadcast d) true s (hashed b) in
            match r with
            | None => Done None
            | Some (s, Some e) => Done (Some (s, pm, Some ("failed to add block at height " +:+ fmt_d height +:+ ": " +:+ e)))
            | Some (s, None) =>
                let! pm := PeerManager.UpdateSyncProgress pm peer (i64 (height + 1)) endHeight in
                sync_loop draws peer startHeight endHeight (S i) blocks s pm
            end
      end
  end.

(** [stream] is the error of opening it or of sending the request, or what the decoder
    makes of the answer; [outputs] are the outputs of the node's pool. *)
Definition SyncBlocks (draws : nat → add_draw) (peer : string) (startHeight endHeight : Z) (outputs : list UTXO)
    (stream : string + option (list Block)) (s : Adder) (pm : PeerManager.t) : outcome (option (Adder * PeerManager.t * error)) :=
  match stream with
  | inl e => Done (Some (s, pm, Some e))
  | inr None => Done (Some (s, pm, Some "failed to receive blocks"))
  | inr (Some blocks) =>
      let s := mkAdder (a_bc s) (a_mempool s) (a_stakePool s) (by_transaction outputs) (a_consensus s) (a_validator s) in
      sync_loop draws peer startHeight endHeight 0 blocks s pm
  end.
End peering.
End Peering.
