(* ===== verification/P2pPeersFacts.v ===== *)
(** * Facts about peers and chains

    Connecting to the bootstrap nodes, the broadcast of a chain in batches, and what
    a node takes over when it synchronises blocks. *)

From Stdlib Require Import ZArith Lia.
From stdpp Require Import base gmap strings list sorting.
From S2P Require Import Prelude.
From S2P Require Import Float64.
From S2P Require Import Database.
From S2P Require Import P256.
From S2P Require Import Transaction.
From S2P Require Import Utxo.
From S2P Require Import Mempool.
From S2P Require Import Trie.
From S2P Require Import Stake.
From S2P Require Import Block.
From S2P Require Import BlockJson.
From S2P Require Import Chain.
From S2P Require Import ChainFacts.
From S2P Require Import ChainStore.
From S2P Require Import SyncFacts.
From S2P Require Import Peers.
From S2P Require Import Mining.
From S2P Require Import P2p.
From S2P Require Import Rpc.
From S2P Require Import RpcFacts.
From S2P Require Import P2pPeers.

(** ** Bootstrap nodes *)
Section bootstrap.
Context `{KV} `{ECDSA} `{GoImpl}.
Import Peering.

(** An attempt that finds or makes a connection, and one among [m] from [a] on. *)
Definition good (d : dial) : Prop := d = Already ∨ d = Dialled true.
Definition hits (dials : nat → dial) (a m : nat) : Prop := Exists (λ k, good (dials k)) (seq a m).

Lemma hits_S dials a m : hits dials a (S m) ↔ good (dials a) ∨ hits dials (S a) m.
Proof. apply Exists_cons. Qed.
Lemma good_cases d : good d ↔ match d with Already | Dialled true => True | _ => False end.
Proof. unfold good. destruct d as [|e|[]]; naive_solver. Qed.

Lemma dial_loop_spec addr dials : ∀ more attempt err boot connected,
  let '(_, boot', connected') := dial_loop more attempt addr dials (err, boot, connected) in
  (connected' = true ↔ connected = true ∨ (∃ id, addr = AddressOf id) ∧ hits dials attempt more) ∧
  (∀ p, p ∈ boot' ↔ p ∈ boot ∨ addr = AddressOf p ∧ hits dials attempt more).
Proof.
  induction more as [|more IH]; intros attempt err boot connected; cbn [dial_loop].
  { assert (¬ hits dials attempt 0) by (intros Hn; by apply Exists_nil in Hn). naive_solver. }
  pose proof (hits_S dials attempt more) as Hh. rewrite good_cases in Hh.
  destruct addr as [e|e|id]; [specialize (IH (S attempt) (Some e) boot connected)..|].
  1,2: destruct (dial_loop _ _ _ _ _) as [[err' boot'] connected']; destruct IH as [IHc IHb]; split; [rewrite IHc|intros p; rewrite IHb]; naive_solver.
  destruct (dials attempt) as [|e|[]].
  - specialize (IH (S attempt) err ({[id]} ∪ boot) true). destruct (dial_loop _ _ _ _ _) as [[err' boot'] connected'].
    destruct IH as [IHc IHb]. split; [rewrite IHc; naive_solver|]. intros p. rewrite IHb, elem_of_union, elem_of_singleton. naive_solver.
  - specialize (IH (S attempt) (Some e) boot connected). destruct (dial_loop _ _ _ _ _) as [[err' boot'] connected'].
    destruct IH as [IHc IHb]. split; [rewrite IHc; tauto|]. intros p. rewrite IHb. tauto.
  - split; [naive_solver|]. intros p. rewrite elem_of_union, elem_of_singleton. naive_solver.
  - specialize (IH (S attempt) err boot connected). destruct (dial_loop _ _ _ _ _) as [[err' boot'] connected'].
    destruct IH as [IHc IHb]. split; [rewrite IHc; tauto|]. intros p. rewrite IHb. tauto.
Qed.

(** The address number [i] that a node is reached at. *)
Definition reached_at (nodes : list address) (dials : nat → nat → dial) (p : string) : Prop :=
  ∃ i, nodes !! i = Some (AddressOf p) ∧ hits (dials i) 1 maxRetries.

Lemma dial_all dials : ∀ nodes i err boot connected,
  let '(_, boot', connected') := foldl (λ s ia, dial_loop maxRetries 1 ia.2 (dials ia.1) s) (err, boot, connected) (zip (seq i (length nodes)) nodes) in
  (connected' = true ↔ connected = true ∨ ∃ p, reached_at nodes (λ j, dials (i + j)%nat) p) ∧
  (∀ p, p ∈ boot' ↔ p ∈ boot ∨ reached_at nodes (λ j, dials (i + j)%nat) p).
Proof.
  induction nodes as [|a nodes IH]; intros i err boot connected; cbn [length seq zip zip_with foldl].
  { assert (∀ p, ¬ reached_at [] (λ j, dials (i + j)%nat) p) by (intros p (j & Hj & _); done). naive_solver. }
  cbn [fst snd]. pose proof (dial_loop_spec a (dials i) maxRetries 1 err boot connected) as Hd.
  destruct (dial_loop maxRetries 1 a (dials i) (err, boot, connected)) as [[err1 boot1] connected1]. destruct Hd as [Hc Hb].
  specialize (IH (S i) err1 boot1 connected1). destruct (foldl _ _ _) as [[err2 boot2] connected2]. destruct IH as [IHc IHb].
  assert (Hr : ∀ p, reached_at (a :: nodes) (λ j, dials (i + j)%nat) p ↔
    (a = AddressOf p ∧ hits (dials i) 1 maxRetries) ∨ reached_at nodes (λ j, dials (S i + j)%nat) p).
  { intros p. unfold reached_at. split.
    - intros ([|j] & Hj & Hh); cbn in Hj; [left; injection Hj as ->; by rewrite Nat.add_0_r in Hh|].
      right. exists j. split; [done|]. by rewrite Nat.add_succ_r in Hh.
    - intros [[-> Hh]|(j & Hj & Hh)]; [exists 0%nat; by rewrite Nat.add_0_r|]. exists (S j). split; [done|]. by rewrite Nat.add_succ_r. }
  split; [rewrite IHc, Hc|intros p; rewrite IHb, Hb, Hr; tauto]. setoid_rewrite Hr. naive_solver.
Qed.

(** Connecting to the bootstrap nodes succeeds exactly when one of the addresses leads
    to a peer that is or gets connected in one of five attempts; exactly these peers
    are added to the bootstrap nodes, and nothing else of the node changes. *)
Theorem ConnectToBootstrapNodes_spec nodes dials n :
  let '(e, n') := ConnectToBootstrapNodes nodes dials n in
  (e = None ↔ ∃ p, reached_at nodes dials p) ∧
  (∀ p, p ∈ Node.n_bootstrapNodes n' ↔ p ∈ Node.n_bootstrapNodes n ∨ reached_at nodes dials p) ∧
  n' = set_bootstrap n (Node.n_bootstrapNodes n').
Proof.
  unfold ConnectToBootstrapNodes. destruct nodes as [|a nodes].
  { assert (∀ p, ¬ reached_at [] dials p) by (intros p (j & Hj & _); done). split; [naive_solver|]. split; [naive_solver|]. by destruct n. }
  pose proof (dial_all dials (a :: nodes) 0 None (Node.n_bootstrapNodes n) false) as Hd.
  destruct (foldl _ _ _) as [[err boot] connected]. destruct Hd as [Hc Hb].
  destruct connected; (split; [|split; [exact Hb|done]]); 
    [split; [intros _; destruct (proj1 Hc eq_refl) as [Hf|Hr]; [discriminate Hf|exact Hr]|done]|].
  split; [done|]. intros Hr. discriminate (proj2 Hc (or_intror Hr)).
Qed.
End bootstrap.

(** ** The broadcast of a chain *)
Section broadcast.
Context `{KV} `{ECDSA} `{GoImpl}.
Import Peering.
Context (ord : child_order).

(** Heights inside the chain are read one after the other. *)
Lemma collect_below bc : numbered (Chain bc) → Z.of_nat (length (Chain bc)) < 2 ^ 62 →
  ∀ m fuel i bc' l, same_reads bc bc' → (m < fuel)%nat → (i + m ≤ length (Chain bc))%nat →
  ∃ bc'', for_loop fuel (λ h _, h <? Z.of_nat (i + m)) up (BlockchainAPI.collect ord (λ b, b)) (Z.of_nat i) (l, bc') =
    Done (Some (l ++ (read_out <$> take m (drop i (Chain bc))), bc'')) ∧ same_reads bc bc''.
Proof.
  intros Hn Hb m. induction m as [|m IH]; intros fuel i bc' l Hs Hf Hi.
  { exists bc'. rewrite for_loop_stop; [|lia|apply Z.ltb_ge; lia]. by rewrite take_0, app_nil_r. }
  destruct fuel as [|fuel]; [lia|]. destruct (lookup_lt_is_Some_2 (Chain bc) i) as [b Hbi]; [lia|].
  destruct (look ord bc bc' i b Hn Hs Hbi) as (bc1 & E & Hs1).
  destruct (IH fuel (S i) bc1 (l ++ [read_out b]) Hs1 ltac:(lia) ltac:(lia)) as (bc2 & E2 & Hs2).
  exists bc2. split; [|done]. rewrite <- Nat.add_succ_comm.
  rewrite (for_loop_continue _ _ _ _ _ _ (l ++ [read_out b], bc1)); [|apply Z.ltb_lt; lia|unfold BlockchainAPI.collect; by rewrite E].
  rewrite up_small by lia. replace (Z.of_nat i + 1) with (Z.of_nat (S i)) by lia. rewrite E2.
  rewrite (drop_S (Chain bc) b i Hbi). cbn [take]. by rewrite fmap_cons, <- app_assoc.
Qed.

(** The blocks that a peer gets from a list of messages, in their order. *)
Definition received (p : string) (out : list (string * ChainData)) : list Block :=
  concat (cd_Blocks ∘ snd <$> filter (λ m, m.1 = p) out).

Lemma received_app p out out' : received p (out ++ out') = received p out ++ received p out'.
Proof. unfold received. by rewrite filter_app, fmap_app, concat_app. Qed.

Lemma received_once p data l : NoDup l → p ∈ l → received p ((λ q, (q, data)) <$> l) = cd_Blocks data.
Proof.
  intros Hnd Hp. apply list_elem_of_split in Hp as (l1 & l2 & ->). apply NoDup_app in Hnd as (_ & Hd & Hnd).
  apply NoDup_cons in Hnd as [Hp2 _]. rewrite fmap_app, fmap_cons, received_app.
  assert (Hno : ∀ l, p ∉ l → received p ((λ q, (q, data)) <$> l) = []).
  { intros l Hl. unfold received. rewrite filter_unmatched; [done|]. apply Forall_forall. intros [q d] Hq.
    apply list_elem_of_fmap in Hq as (q' & E & Hq). injection E as -> ->. cbn. set_solver. }
  rewrite Hno by set_solver. unfold received. rewrite filter_cons_True by done. cbn.
  change (concat _) with (received p ((λ q, (q, data)) <$> l2)). by rewrite (Hno l2), app_nil_r.
Qed.

Context (ro : Z → range_order) (self : string) (reached : Z → string → bool) (n : Node.t).
Context (fair_orders : ∀ i, fair (ro i)) (unlocked : PeerManager.mutex (Node.n_peers n) = Unlocked).
Let bc := Node.n_bc n.
Let chain := Chain bc.
Context (Hnum : numbered chain) (Hlen : Z.of_nat (length chain) < 2 ^ 62).

Lemma connected_peers i : ∃ l, PeerManager.GetConnectedPeers (ro i) (Node.n_peers n) = Done l ∧ NoDup l ∧
  ∀ p, p ∈ l ↔ ∃ info, PeerManager.peers (Node.n_peers n) !! p = Some info ∧ PeerManager.available info.
Proof.
  unfold PeerManager.GetConnectedPeers, PeerManager.rlocked. rewrite unlocked. cbn [mutex_RLock obind].
  eexists. split; [done|]. split.
  - eapply sublist_NoDup; [|apply fmap_sublist, sublist_filter]. rewrite (range_perm _ _ (fair_orders i)). apply NoDup_fst_map_to_list.
  - intros p. rewrite list_elem_of_fmap. setoid_rewrite list_elem_of_filter. setoid_rewrite (range_perm _ _ (fair_orders i)). split.
    + intros ([k info] & -> & Ha & Hi). apply elem_of_map_to_list in Hi. eauto.
    + intros (info & Hi & Ha). exists (p, info). by rewrite elem_of_map_to_list.
Qed.

(** A message of the broadcast: to a connected peer, with at most a hundred blocks. *)
Definition proper (m : string * ChainData) : Prop :=
  (∃ info, PeerManager.peers (Node.n_peers n) !! m.1 = Some info ∧ PeerManager.available info) ∧ m.1 ≠ self ∧
  (length (cd_Blocks m.2) ≤ 100)%nat.

Lemma batches now height : (height < length chain)%nat → ∀ fuel i bc' out, same_reads bc bc' → (height - i < fuel)%nat →
  ∃ out' bc'', for_loop fuel (λ i _, i <? Z.of_nat height) (λ i, u64 (i + batchSize))
      (send_batch ord (Z.to_nat batchSize + 1) now ro self reached (Z.of_nat height) (Node.n_NetworkID n) (Node.n_peers n))
      (Z.of_nat i) (out, bc') = Done (Some (out ++ out', bc'')) ∧ same_reads bc bc'' ∧ Forall proper out' ∧
    ∀ p info, PeerManager.peers (Node.n_peers n) !! p = Some info → PeerManager.available info → p ≠ self →
      (∀ i, reached i p = true) → received p out' = read_out <$> take (height - i) (drop i chain).
Proof.
  intros Hh fuel. unfold batchSize. induction fuel as [|fuel IH]; intros i bc' out Hs Hf; [lia|].
  destruct (decide (height ≤ i)%nat) as [Hi|Hi].
  { exists [], bc'. rewrite for_loop_stop, app_nil_r; [|lia|apply Z.ltb_ge; lia]. split_and!; [done|done|constructor|].
    intros. by replace (height - i)%nat with 0%nat by lia. }
  set (m := Nat.min 100 (height - i)%nat).
  destruct (collect_below bc Hnum Hlen m 101 i bc' [] Hs ltac:(lia) ltac:(subst m; fold chain; lia)) as (bc1 & E1 & Hs1).
  destruct (connected_peers (Z.of_nat i)) as (l & El & Hnd & Hl).
  set (data := mkChainData (Z.of_nat height) (read_out <$> take m (drop i chain)) (unix now) (Node.n_NetworkID n)).
  set (msgs := (λ p, (p, data)) <$> filter (λ p, p ≠ self ∧ reached (Z.of_nat i) p = true) l).
  destruct (IH (i + 100)%nat bc1 (out ++ msgs) Hs1 ltac:(lia)) as (out' & bc2 & E2 & Hs2 & Hp2 & Hr2).
  exists (msgs ++ out'), bc2. split_and!; [|done| |].
  - rewrite (for_loop_continue _ _ _ _ _ _ (out ++ msgs, bc1)).
    + rewrite u64_small by (unfold is_u64; lia). replace (Z.of_nat i + 100) with (Z.of_nat (i + 100)) by lia.
      by rewrite E2, app_assoc.
    + apply Z.ltb_lt. lia.
    + unfold send_batch, batchSize. cbn [fst snd]. rewrite u64_small by (unfold is_u64; lia).
      replace (if Z.of_nat height <? Z.of_nat i + 100 then Z.of_nat height else Z.of_nat i + 100) with (Z.of_nat (i + m))
        by (subst m; destruct (Z.ltb_spec (Z.of_nat height) (Z.of_nat i + 100)); lia).
      change (Z.to_nat 100 + 1)%nat with 101%nat. rewrite E1. cbn [obind]. rewrite El. done.
  - apply Forall_app. split; [|done]. apply Forall_forall. intros [q d] Hq. apply list_elem_of_fmap in Hq as (q' & E & Hq).
    injection E as -> ->. apply list_elem_of_filter in Hq as ((Hself & _) & Hq). split; [by apply Hl|]. split; [done|].
    unfold data. cbn [snd cd_Blocks]. rewrite length_fmap, length_take. unfold m. lia.
  - intros p info Hp Ha Hself Hreach. rewrite received_app, (Hr2 p info) by done. unfold msgs. rewrite received_once.
    + unfold data. cbn [cd_Blocks]. rewrite <- fmap_app. f_equal. subst m.
      destruct (decide (height - i ≤ 100)%nat) as [Hs100|Hs100].
      * replace (height - (i + 100))%nat with 0%nat by lia. rewrite take_0, app_nil_r. f_equal. lia.
      * rewrite <- drop_drop. replace (Nat.min 100 (height - i)) with 100%nat by lia.
        replace (height - (i + 100))%nat with (height - i - 100)%nat by lia.
        rewrite (take_take_drop (drop i chain) 100 (height - i - 100)). f_equal. lia.
    + by apply NoDup_filter.
    + apply list_elem_of_filter. split; [by rewrite Hreach|]. apply Hl. eauto.
Qed.

(** The broadcast of a chain ends; each connected peer that is always reached gets, in
    batches of at most a hundred and in the order of the chain, every block exactly
    once, except the newest, which is sent to nobody. *)
Theorem BroadcastChain_spec now fuel : chain ≠ [] → (length chain ≤ fuel)%nat →
  ∃ out bc', BroadcastChain ord fuel now ro self reached n = Done (Some (out, Node.set_bc n bc')) ∧ same_reads bc bc' ∧
    Forall proper out ∧
    ∀ p info, PeerManager.peers (Node.n_peers n) !! p = Some info → PeerManager.available info → p ≠ self →
      (∀ i, reached i p = true) → received p out = read_out <$> take (length chain - 1) chain.
Proof.
  intros Hne Hf. assert (Hpos : (0 < length chain)%nat) by (destruct chain; [done|cbn; lia]).
  destruct (batches now (length chain - 1) ltac:(lia) fuel 0 bc [] (same_reads_refl bc) ltac:(lia)) as (out & bc' & E & Hs & Hp & Hr).
  exists out, bc'. split_and!; [|done|done|].
  - unfold BroadcastChain. fold bc. rewrite (height_numbered bc Hnum Hne). fold chain.
    replace (Z.of_nat (length chain) - 1) with (Z.of_nat (length chain - 1)) by lia. change 0 with (Z.of_nat 0) at 1. rewrite E. done.
  - intros p info H1' H2' H3' H4'. rewrite (Hr p info) by done. by rewrite drop_0, Nat.sub_0_r.
Qed.
End broadcast.

(** ** Synchronisation of blocks *)
Section sync.
Context `{KV} `{ECDSA} `{GoImpl}.
Import Peering.

Lemma addBlock_grows doc (bc bc' : Blockchain) b e : chain_ok (Chain bc) → addBlockWithoutValidation doc bc b = (bc', e) →
  chain_ok (Chain bc') ∧ ∃ l, same_blocks (Chain bc) l ∧ (Chain bc' = l ++ [hashed b] ∨ Chain bc' = l ∧ is_Some e).
Proof.
  intros Hok. unfold addBlockWithoutValidation. rewrite !header_hashed.
  destruct (negb _); [intros E; injection E as <- <-; split; [done|]; eexists; split; [apply same_blocks_refl|by eauto]|].
  destruct (Z.eqb_spec (BlockNumber (Header b)) (Z.of_nat (length (Chain bc)))) as [Hn|]; cbn [negb];
    [|intros E; injection E as <- <-; split; [done|]; eexists; split; [apply same_blocks_refl|by eauto]].
  pose proof (hash_tip (Chain bc)) as Hs. pose proof (chain_ok_same _ _ Hs Hok) as Hok1.
  unfold wrong_parent. rewrite header_hashed. fold (wrong_parent (Chain bc) b). destruct (wrong_parent (Chain bc) b) eqn:Hp.
  { intros E. injection E as <- <-. split; [done|]. exists (hash_last (Chain bc)). split; [done|]. by eauto. }
  assert (Hok2 : chain_ok (hash_last (Chain bc) ++ [hashed b])).
  { apply chain_ok_snoc; [done|by rewrite header_hashed, Hn, (Forall2_length _ _ _ Hs)|].
    intros q Hq. rewrite header_hashed. unfold hash_last in Hq. unfold wrong_parent in Hp.
    destruct (last (Chain bc)) as [x|] eqn:Hl; [|congruence]. rewrite last_snoc in Hq. injection Hq as <-. rewrite hash_hashed.
    by apply negb_false_iff, str_eqb_eq in Hp. }
  cbn [world]. destruct (w_db (world bc)) as [ldb|]; [destruct (store_block _ _ _ _) as [ldb' e']|];
    intros E; injection E as <- <-; (split; [done|]); exists (hash_last (Chain bc)); (split; [done|by left]).
Qed.

Lemma hashed_idemp b : hashed (hashed b) = hashed b.
Proof.
  unfold hashed, Blk.Hash. destruct (str_eqb (originalHash b) "") eqn:E; cbn [negb snd]; [|by rewrite E].
  cbn [originalHash set_hashes]. by destruct (str_eqb (Blk.CalculateHash b) "").
Qed.

(** What a received block has passed before it is added. *)
Definition sound_block (b : Block) : Prop := validateBlockStructure b = None ∧ hash_of_block b = block_hash b.

Lemma miner_adds o ro1 ro2 rnd fuel now now_ns tbl replies broadcast s b r : a_validator s = Some false →
  AddBlock o ro1 ro2 rnd fuel now now_ns tbl replies broadcast true s b = Done r →
  ∃ bc e, addBlockWithoutValidation block_document (a_bc s) b = (bc, e) ∧ r = Some (Mining.set_bc s bc, e).
Proof.
  intros Hv. unfold AddBlock. destruct (GetLatestBlock _ _); [|done|done]. cbn [obind]. rewrite Hv.
  destruct (addBlockWithoutValidation _ _ _) as [bc e]. intros E. injection E as <-. eauto.
Qed.

Lemma sync_loop_sound draws peer first last : ∀ blocks i s pm s' pm' e, a_validator s = Some false → chain_ok (Chain (a_bc s)) →
  sync_loop draws peer first last i blocks s pm = Done (Some (s', pm', e)) →
  chain_ok (Chain (a_bc s')) ∧ s' = Mining.set_bc s (a_bc s') ∧
  ∃ k l, Chain (a_bc s') = l ++ (hashed <$> take k blocks) ∧ same_blocks (Chain (a_bc s)) l ∧
    Forall sound_block (take k blocks) ∧ (e = None → k = length blocks).
Proof.
  induction blocks as [|b blocks IH]; intros i s pm s' pm' e Hv Hok; cbn [sync_loop].
  { intros E. injection E as <- <- <-. split; [done|]. split; [by destruct s|]. exists 0%nat, (Chain (a_bc s)). rewrite app_nil_r.
    split_and!; [done|apply same_blocks_refl|constructor|done]. }
  assert (Hstop : ∀ x, Done (Some (s, pm, Some x)) = Done (Some (s', pm', e)) → chain_ok (Chain (a_bc s')) ∧ s' = Mining.set_bc s (a_bc s') ∧
    ∃ k l, Chain (a_bc s') = l ++ (hashed <$> take k (b :: blocks)) ∧ same_blocks (Chain (a_bc s)) l ∧
      Forall sound_block (take k (b :: blocks)) ∧ (e = None → k = length (b :: blocks))).
  { intros x E. injection E as <- <- <-. split; [done|]. split; [by destruct s|]. exists 0%nat, (Chain (a_bc s)). rewrite app_nil_r.
    split_and!; [done|apply same_blocks_refl|constructor|done]. }
  destruct (validateBlockStructure b) as [x|] eqn:Hst; [apply Hstop|].
  destruct (str_eqb (hash_of_block b) (block_hash b)) eqn:Hh; cbn [negb]; [|apply Hstop]. clear Hstop. apply str_eqb_eq in Hh.
  destruct (AddBlock _ _ _ _ _ _ _ _ _ _ _ _ _) as [r| |] eqn:Ea; [|done|done]. cbn [obind].
  apply miner_adds in Ea as (bc & e1 & Ea & ->); [|done].
  destruct (addBlock_grows _ _ _ _ _ Hok Ea) as (Hok1 & l1 & Hs1 & Hg).
  rewrite hashed_idemp in Hg.
  destruct e1 as [x|].
  { intros E. injection E as <- <- <-. split; [done|]. split; [done|]. destruct Hg as [Hc|[Hc _]].
    - exists 1%nat, l1. cbn [take]. rewrite take_0. split_and!; [done|done|by repeat constructor|done].
    - exists 0%nat, l1. rewrite app_nil_r. split_and!; [done|done|constructor|done]. }
  destruct Hg as [Hc|[_ [? ?]]]; [|done].
  destruct (PeerManager.UpdateSyncProgress _ _ _ _) as [pm1| |]; [|done|done]. cbn [obind]. intros E.
  apply IH in E as (Hok2 & Hs' & k & l2 & Hc2 & Hs2 & Hf & He); [|done|done].
  split; [done|]. split; [by rewrite Hs'|]. cbn [Mining.set_bc a_bc] in *. rewrite Hc in Hs2.
  apply Forall2_app_inv_l in Hs2 as (l3 & l4 & Hs3 & Hs4 & ->).
  apply Forall2_cons_inv_l in Hs4 as (x & l5 & Hx & Hnil & ->). apply Forall2_nil_inv_l in Hnil as ->.
  assert (x = hashed b) as -> by (destruct Hx as [->| ->]; [done|apply hashed_idemp]).
  exists (S k), l3. cbn [take]. rewrite fmap_cons, Hc2, <- app_assoc. split; [done|].
  split; [by eapply same_blocks_trans|]. split; [by constructor|]. intros He'. cbn. by rewrite (He He').
Qed.

(** A node that does not validate takes over, in order, the first of the blocks that a
    peer sends, up to the first one that is malformed, does not have the hash it
    claims, or does not fit on the chain; the chain stays linked, its blocks stay, and
    without an error all the blocks were taken. *)
Theorem SyncBlocks_sound draws peer first last outputs blocks s pm s' pm' e :
  a_validator s = Some false → chain_ok (Chain (a_bc s)) →
  SyncBlocks draws peer first last outputs (inr (Some blocks)) s pm = Done (Some (s', pm', e)) →
  chain_ok (Chain (a_bc s')) ∧
  ∃ k l, Chain (a_bc s') = l ++ (hashed <$> take k blocks) ∧ same_blocks (Chain (a_bc s)) l ∧
    Forall sound_block (take k blocks) ∧ (e = None → k = length blocks).
Proof.
  intros Hv Hok E. unfold SyncBlocks in E. apply sync_loop_sound in E as (Hok' & _ & Hk); [|done|done]. done.
Qed.

(** A validator does not look at the blocks it receives: the same number of other
    sound blocks has the same effect, for it mines blocks of its own. *)
Lemma validator_ignores_block o ro1 ro2 rnd fuel now now_ns tbl replies broadcast s b b' : a_validator s = Some true →
  AddBlock o ro1 ro2 rnd fuel now now_ns tbl replies broadcast true s b =
  AddBlock o ro1 ro2 rnd fuel now now_ns tbl replies broadcast true s b'.
Proof. intros Hv. unfold AddBlock. by rewrite Hv. Qed.
End sync.
