(* ===== verification/Cli.v ===== *)
(** * The program ([src/main.go])

    The roles of a node and their start ([Module Startup]): how a miner finds a
    validator and takes over its state before it mines; the registration of a
    validator by a stake transaction ([Registration]); and the commands of the
    transaction node's shell ([Shell]). What the user types, what files hold and what
    the network delivers are arguments; printed text is left out. *)

From stdpp Require Import base gmap strings list.
From Stdlib Require Import ZArith Lia.
From S2P Require Import Prelude.
From S2P Require Import Float64.
From S2P Require Import Sha256.
From S2P Require Import Json.
From S2P Require Import Gas.
From S2P Require Import Database.
From S2P Require Import P256.
From S2P Require Import Crypto.
From S2P Require Import Transaction.
From S2P Require Import Wallet.
From S2P Require Import Utxo.
From S2P Require Import UtxoSync.
From S2P Require Import Mempool.
From S2P Require Import Trie.
From S2P Require Import Stake.
From S2P Require Import Block.
From S2P Require Import Chain.
From S2P Require Import ChainStore.
From S2P Require Import P2p.
From S2P Require Import Rpc.
From S2P Require Import Bootnode.

(** ** Roles and ports *)

Inductive NodeRole : Type :=
  UnknownRole | BootstrapRole | MinerRole | ValidatorRole | ObserverRole | TXNSRole | RPCRole.

Definition parseRole (role : string) : NodeRole :=
  let role := to_lower role in
  if str_eqb role "bootstrap" then BootstrapRole
  else if str_eqb role "miner" then MinerRole
  else if str_eqb role "validator" then ValidatorRole
  else if str_eqb role "observer" then ObserverRole
  else if str_eqb role "txns" then TXNSRole
  else if str_eqb role "rpc" then RPCRole
  else UnknownRole.

Definition getRoleName (role : NodeRole) : string :=
  match role with
  | BootstrapRole => "bootstrap"
  | MinerRole => "miner"
  | ValidatorRole => "validator"
  | ObserverRole => "observer"
  | TXNSRole => "txns"
  | RPCRole => "rpc"
  | UnknownRole => "unknown"
  end.

(** [fmt.Sscanf(s, "%d", &n)] for [n] that starts as 0: white space, a sign and
    digits; what follows is left. Without digits, and for a number that is out of
    range, [n] stays 0. *)
Fixpoint leading_digits (s : string) : string :=
  match s with
  | EmptyString => ""
  | String c s => let d := byte_of_ascii c - 48 in if (0 <=? d) && (d <=? 9) then String c (leading_digits s) else ""
  end.
Definition scan_d (s : string) : Z :=
  let s := trim_left s in
  let '(sign, s) := match s with
                    | String c r => if byte_of_ascii c =? 45 then (-1, r) else if byte_of_ascii c =? 43 then (1, r) else (1, s)
                    | EmptyString => (1, s)
                    end in
  let ds := leading_digits s in
  match (if str_eqb ds "" then None else digits ds 0) with
  | Some n => if (- 2 ^ 63 <=? sign * n) && (sign * n <? 2 ^ 63) then sign * n else 0
  | None => 0
  end.

Definition extractPort (addr : string) : Z :=
  match split_at ":" addr "" 0 with
  | [_; port] => scan_d port
  | _ => 50505
  end.

(** ** Stakes and transactions of a peer *)

(** [StakePool.SyncWithPeer]: [stream] is the error of the stream, of sending or of
    decoding, or the document, which may be [null]; [node] says whether the chain of
    the pool has a node. *)
Definition stakes_SyncWithPeer `{GoImpl} (ro : range_order) (node : bool) (stream : string + option (gmap string (option StakeInfo)))
    (sp : StakePool.t) : StakePool.t * error :=
  if negb node then (sp, Some "blockchain.Node is nil in StakePool.SyncWithPeer")
  else match stream with
  | inl e => (sp, Some e)
  | inr None => (sp, Some "received nil stake pool data from peer")
  | inr (Some peerStakes) => (StakePool.SyncWithPeer_merge ro sp peerStakes, None)
  end.

(** [Mempool.SyncWithPeer] *)
Definition mempool_SyncWithPeer (stream : string + list Transaction) (m : Mempool.t) : Mempool.t * error :=
  match stream with
  | inl e => (m, Some e)
  | inr peerTransactions => (Mempool.merge_peer m peerTransactions, None)
  end.

(** ** Starting a miner *)
Module Startup.
Section startup.
Context `{KV} `{ECDSA} `{GoImpl}.
Context (ro : nat → range_order) (ord : nat → child_order).

(** The id that the program takes for the transaction node's. *)
Definition TXNSNodeID : string := "12D3KooWPKEzhaR6NGzJNMQ3nDSbWpeD7bpmVYwxQvHcxUT3eWwu".

Definition maxRetries : nat := 5.
Definition maxPeerDiscoveryAttempts : nat := 4.

(** Five attempts to connect to the bootstrap nodes. *)
Definition connect (attempts : nat → error) : bool :=
  existsb (λ i, match attempts i with None => true | Some _ => false end) (seq 0 maxRetries).

(** The first peer that is neither a bootstrap node nor the transaction node, in the
    first of four rounds of discovery that has one. *)
Definition candidate (boot : string → bool) (peers : list string) : option string :=
  find (λ p, negb (boot p) && negb (str_eqb p TXNSNodeID)) peers.
Definition find_validator (boot : string → bool) (peers_at : nat → list string) : option string :=
  head (omap (λ i, candidate boot (peers_at i)) (seq 0 maxPeerDiscoveryAttempts)).

(** What a peer delivers: the stream of blocks, its stakes and its mempool, or the
    error of asking for them. *)
Record peer_state := mkPeerState {
  ps_blocks : string + list json;
  ps_stakes : string + option (gmap string (option StakeInfo));
  ps_mempool : string + list Transaction;
}.

(** Chain, stakes and mempool are taken over in this order, up to the first error.
    A pool of stakes is made if there is none. *)
Definition takeover (now : Z) (n : Node.t) (p : peer_state) : outcome (Node.t * error) :=
  let! (n, e) := Node.SyncWithPeer ro ord now n (ps_blocks p) in
  match e with
  | Some e => Done (n, Some ("blockchain sync failed: " +:+ e))
  | None =>
      let sp := default StakePool.NewStakePool (Node.n_stakePool n) in
      let '(sp, e) := stakes_SyncWithPeer (ro 2) true (ps_stakes p) sp in
      let n := Node.set_stakes n (Some sp) in
      match e with
      | Some e => Done (n, Some ("stake pool sync failed: " +:+ e))
      | None =>
          let '(m, e) := mempool_SyncWithPeer (ps_mempool p) (Node.n_mempool n) in
          let n := Node.set_mempool n m in
          Done (n, match e with Some e => Some ("mempool sync failed: " +:+ e) | None => None end)
      end
  end.

(** What a validator takes over from a peer picked at random before it stakes, and,
    without the mempool, after it is registered. Errors are logged only. *)
Definition refresh (mempool : bool) (now : Z) (pick : nat) (peers : list string) (peer : string → peer_state) (n : Node.t)
    : outcome Node.t :=
  match peers with
  | [] => Done n
  | c :: _ =>
      let p := peer (nth (pick mod length peers) peers c) in
      let! (n, _) := Node.SyncWithPeer ro ord now n (ps_blocks p) in
      match Node.n_stakePool n with
      | None => Panic "nil pointer dereference"
      | Some sp =>
          let n := Node.set_stakes n (Some (stakes_SyncWithPeer (ro 2) true (ps_stakes p) sp).1) in
          Done (if mempool then Node.set_mempool n (mempool_SyncWithPeer (ps_mempool p) (Node.n_mempool n)).1 else n)
      end
  end.

(** The transaction node and the RPC node: a peer that is not a bootstrap node is taken
    at random ([pick]) from those that are connected after the discovery, and its state
    is taken over; without such a peer the node goes on with its own state. *)
Definition follow (now : Z) (attempts : nat → error) (boot : string → bool) (pick : nat) (peers : list string)
    (peer : string → peer_state) (n : Node.t) : outcome (Node.t * error) :=
  if negb (connect attempts) then Done (n, Some "failed to connect to bootstrap nodes")
  else match filter (λ p, boot p = false) peers with
  | [] => Done (n, None)
  | c :: cs => takeover now n (peer (nth (pick mod length (c :: cs)) (c :: cs) c))
  end.

(** A validator on a new chain without peers: it is registered, which may fail
    without a consequence, and the chain gets its genesis block. *)
Definition genesis_validator (now : Z) (block_document : Block → option json) (address hostID : string) (stake : float64)
    (utxoSet : utxo_set) (sp : StakePool.t) (bc : Blockchain) : StakePool.t * Blockchain * error :=
  let '(sp, _) := StakePool.AddValidator now sp address stake hostID in
  let '(bc, e) := InitializeChain block_document now (Some address) utxoSet bc in
  (sp, bc, (λ e, "failed to initialize chain: " +:+ e) <$> e).

(** From the connection on; without an error the miner starts to mine. *)
Definition runMinerNode (now : Z) (attempts : nat → error) (boot : string → bool) (peers_at : nat → list string)
    (peer : string → peer_state) (n : Node.t) : outcome (Node.t * error) :=
  if negb (connect attempts) then Done (n, Some "failed to connect to bootstrap nodes")
  else match find_validator boot peers_at with
  | None => Done (n, Some "no validator peer found after 4 attempts")
  | Some p => takeover now n (peer p)
  end.
End startup.
End Startup.

(** A question to the user: the answer in any case, without the white space around it. *)
Definition confirms (answer : string) : bool :=
  let answer := to_lower (TrimSpace answer) in
  str_eqb answer "yes" || str_eqb answer "y".

(** ** Registering a validator *)
Module Registration.
Section registration.
Context `{KV} `{ECDSA} `{GoImpl}.

(** [availableBalance]: the unspent outputs of the list. *)
Definition available (us : list UTXO) : float64 :=
  foldl (λ b u, if utxo_Spent u then b else f64_add b (utxo_Amount u)) f64_zero us.

(** The two coordinates of a public key, padded to 32 bytes each unless both together
    have 64 bytes or more. *)
Definition publicKeyBytes (w : Wallet) : bytes :=
  let x := big_Bytes (pk_X (w_PublicKey w)) in
  let y := big_Bytes (pk_Y (w_PublicKey w)) in
  let pad := λ b, replicate (32 - length b) 0 ++ b in
  if (length (x ++ y) <? 64)%nat then pad x ++ pad y else x ++ y.

(** The stake of the configuration, raised to the minimum of the pool. *)
Definition adjusted (stake : float64) : float64 :=
  let minStake := f64_of_Z MinValidatorStake in
  if f64_gt minStake f64_zero && f64_lt stake minStake then minStake else stake.

(** The signed stake transaction: the outputs that are not spent are taken, the
    largest first, up to the stake ([select_loop]). The two checks of the balance read
    the same outputs; [answer] is the user's first one. *)
Definition stake_transaction (ro : range_order) (now : Z) (nonce : result Z) (w : Wallet) (pool : option UTXOPool)
    (stake : float64) (answer : string) : outcome (result Transaction) :=
  match pool with
  | None => Done (Err "UTXO pool is nil, cannot proceed with staking")
  | Some p =>
      let! us := GetUTXOsForAddress ro p (w_Address w) in
      if f64_lt (available us) stake then
        Done (Err ("insufficient balance for staking: have " +:+ fmt_f 4 (available us) +:+ ", need " +:+ fmt_f 4 stake))
      else if negb (confirms answer) then Done (Err "validator registration cancelled by user")
      else match Tx.NewStakeTransaction (unix now) (w_Address w) stake (publicKeyBytes w) with
      | Err e => Done (Err ("failed to create stake transaction: " +:+ e))
      | Ok tx =>
          if (length us =? 0)%nat then
            Done (Err ("no UTXOs found for address " +:+ w_Address w +:+ ", cannot stake tokens"))
          else
            let '(selected, amount) := select_loop stake (stable_sort (λ a b, f64_gt (utxo_Amount a) (utxo_Amount b)) us) [] f64_zero in
            let tx := foldl (λ tx u, Tx.AddInput tx (utxo_TransactionID u) (utxo_OutputIndex u) "") tx selected in
            let change := f64_sub amount stake in
            let tx := if f64_gt change (f64_ratio 1 10000) then Tx.AddChangeOutput tx change else tx in
            Done match SignMessage nonce (w_PrivateKey w) (Tx.Hash tx) with
                 | Err e => Err ("failed to sign stake transaction: failed to sign transaction: " +:+ e)
                 | Ok signature => Ok (Tx.set_signature tx signature (SenderPubKey tx))
                 end
      end
  end.

(** What an attempt finds: the transaction in a block, still in the mempool, or
    neither. [view i] is the node at the attempt number [i]. *)
Inductive status : Type := Confirmed | Waiting | Gone.

(** The lookup goes through the mempool and the blocks; only the second search, from
    block 1 up, confirms. *)
Definition check (ord : Z → child_order) (fuel : nat) (n : Node.t) (txid : string) : outcome (option status) :=
  let! (r, bc) := FindTransaction (ord 0) (Node.n_bc n) (Some (Mempool.Transactions (Node.n_mempool n))) txid in
  let! found :=
    match r with
    | Err _ => Done (Some false)
    | Ok _ =>
        let! f := TransactionAPI.find_up ord fuel (TransactionAPI.search txid) bc in
        Done ((λ f, match f.1 with Some _ => true | None => false end) <$> f)
    end in
  Done ((λ found : bool,
    if found then Confirmed
    else if existsb (λ tx, str_eqb (TransactionID tx) txid) (Mempool.GetTransactions (Node.n_mempool n)) then Waiting
    else Gone) <$> found).

(** Up to thirty attempts; a transaction that is gone ends them. *)
Fixpoint await (ord : Z → child_order) (fuel : nat) (view : nat → Node.t) (txid : string) (attempt more : nat) : outcome (option bool) :=
  match more with
  | O => Done (Some false)
  | S more =>
      let! s := check ord fuel (view attempt) txid in
      match s with
      | None => Done None
      | Some Confirmed => Done (Some true)
      | Some Waiting => await ord fuel view txid (S attempt) more
      | Some Gone => Done (Some false)
      end
  end.

(** From the transaction on: broadcast, wait and registration in the pool of stakes.
    The announcement to the network ([BroadcastNewValidator]) and [refresh] follow. *)
Definition register (ord : Z → child_order) (fuel : nat) (now : Z) (net : TransactionAPI.network) (view : nat → Node.t)
    (w : Wallet) (hostID : string) (stake : float64) (answer : string) (tx : Transaction) (sp : StakePool.t)
    : outcome (option (StakePool.t * error)) :=
  if negb (confirms answer) then Done (Some (sp, Some "transaction broadcast cancelled by user"))
  else match (Node.BroadcastTransaction (TransactionAPI.net_encoded net) (TransactionAPI.net_self net) (TransactionAPI.net_boot net)
                (TransactionAPI.net_reached net) (TransactionAPI.net_peers net) []).2 with
  | Some e => Done (Some (sp, Some ("failed to broadcast stake transaction: " +:+ e)))
  | None =>
      let! confirmed := await ord fuel view (TransactionID tx) 1 30 in
      Done ((λ confirmed : bool,
        if confirmed then
          match StakePool.AddValidator now sp (w_Address w) stake hostID with
          | (sp, Some e) => (sp, Some ("failed to register validator after confirmation: " +:+ e))
          | (sp, None) => (sp, None)
          end
        else (sp, Some "validator registration failed: stake transaction was not confirmed")) <$> confirmed)
  end.
End registration.
End Registration.

(** ** The shell of the transaction node *)

Inductive command : Type :=
  CreateWallet | ImportWallet | SendTx | Balance | GasInfo | ListPeers | Exit | Help.

(** A prefix is enough for the first four. *)
Definition parse_command (input : string) : command :=
  let input := TrimSpace input in
  if has_prefix input "create-wallet" then CreateWallet
  else if has_prefix input "import-wallet" then ImportWallet
  else if has_prefix input "send-tx" then SendTx
  else if has_prefix input "balance" then Balance
  else if str_eqb input "gas-info" then GasInfo
  else if str_eqb input "peers" then ListPeers
  else if str_eqb input "exit" then Exit
  else Help.

Module Shell.
Section shell.
Context `{KV} `{ECDSA} `{GoImpl}.

(** The recovered wallet, to be saved. *)
Definition handleImportWallet (wordlist : result (list string)) (mnemonic : string) : outcome (result Wallet) :=
  let mnemonic := TrimSpace mnemonic in
  if str_eqb mnemonic "" then Done (Err "Mnemonic phrase cannot be empty")
  else
    let words := length (fields mnemonic) in
    if negb (words =? 12)%nat && negb (words =? 24)%nat then
      Done (Err ("Invalid mnemonic: must have 12 or 24 words, got " +:+ fmt_d (Z.of_nat words)))
    else
      let! r := RecoverWalletFromMnemonic wordlist mnemonic in
      Done match r with Err e => Err ("Error recovering wallet: " +:+ e) | Ok w => Ok w end.

(** The balance and the outputs of an address. *)
Definition handleGetBalance (ro : range_order) (input : string) (pool : option UTXOPool)
    : outcome (result (float64 * list UTXO)) :=
  match fields input with
  | _ :: address :: _ =>
      if negb (ValidateAddress address) then Done (Err "Invalid address")
      else match pool with
      | None => Done (Err "UTXO pool not initialized")
      | Some p =>
          let! balance := Utxo.GetBalance ro p address in
          let! utxos := GetUTXOsForAddress ro p address in
          Done (Ok (balance, utxos))
      end
  | _ => Done (Err "Usage: balance [address]")
  end.

(** The prices and the costs of a plain transaction: low, normal, high. *)
Definition handleGasInfo (gasModel : option GasModel.t) : option (list (Z * float64)) :=
  match gasModel with
  | None => None
  | Some g =>
      let currentPrice := GasModel.GetCurrentGasPrice g in
      Some ((λ price, (price, ConvertGasToTokens (u64 (BaseTxGas * price))))
              <$> [currentPrice / 2; currentPrice; u64 (currentPrice * 2)])
  end.

(** The price and the limit of a payment, or the refusal of a fee above the maximum. *)
Definition gas_terms (gasModel : option GasModel.t) (fromAddress toAddress : string) : result (Z * Z) :=
  match gasModel with
  | Some g =>
      let txSize := Z.of_nat (String.length fromAddress + String.length toAddress + 16) in
      let estimate := EstimateGas g txSize PriorityNormal in
      if f64_gt (ConvertGasToTokens (er_TotalFee estimate)) MaxTotalFee then
        Err ("Calculated gas fee (" +:+ fmt_f 8 (ConvertGasToTokens (er_TotalFee estimate))
             +:+ " tokens) exceeds maximum allowed (" +:+ fmt_f 2 MaxTotalFee +:+ " tokens)")
      else Ok (GasModel.GetCurrentGasPrice g, BaseTxGas)
  | None =>
      if f64_gt (ConvertGasToTokens (u64 (DefaultGasLimit * DefaultGasPrice))) MaxTotalFee then
        Ok (f64_to_u64 (f64_div (f64_mul MaxTotalFee GasToTokenConversionFactor) (f64_of_Z DefaultGasLimit)), DefaultGasLimit)
      else Ok (DefaultGasPrice, DefaultGasLimit)
  end.

(** The inputs of a payment are chosen, it is signed, checked against the outputs of
    the pool and broadcast. *)
Definition send (ro : range_order) (nonce : result Z) (tbl : key_table) (net : TransactionAPI.network) (wallet : Wallet)
    (p : UTXOPool) (tx : Transaction) : outcome (result (Transaction * list string)) :=
  let! (tx, e) := SelectUTXOs ro tx (Some p) in
  match e with
  | Some e => Done (Err ("Error selecting UTXOs: " +:+ e))
  | None =>
      let! (_, tx, e) := SignTransaction nonce wallet tx in
      match e with
      | Some e => Done (Err ("Error signing transaction: " +:+ e))
      | None =>
          let! utxos := Node.GetUTXOs p in
          let! ok := Mempool.ValidateTransaction tbl tx utxos in
          if negb ok then Done (Err "Transaction validation failed")
          else Done match Node.BroadcastTransaction (TransactionAPI.net_encoded net) (TransactionAPI.net_self net) (TransactionAPI.net_boot net)
                            (TransactionAPI.net_reached net) (TransactionAPI.net_peers net) [] with
                    | (_, Some e) => Err ("Error broadcasting transaction: " +:+ e)
                    | (got, None) => Ok (tx, got)
                    end
      end
  end.

(** The checks of the height every ten seconds, for five minutes: [ticks] are the
    chains at the checks, [height] the last height that was seen. The number of the
    block that has the transaction. *)
Fixpoint monitorTransaction (ord : nat → child_order) (txID : string) (height : Z) (ticks : list Blockchain)
    : outcome (option Z) :=
  match ticks with
  | [] => Done None
  | bc :: ticks =>
      match utxoPool bc with
      | None => monitorTransaction ord txID height ticks
      | Some _ =>
          if GetHeight bc >? height then
            let! b := GetLatestBlock (ord (length ticks)) bc in
            match b with
            | None => Panic "nil pointer dereference"
            | Some b =>
                if existsb (λ tx, str_eqb (TransactionID tx) txID)
                     (Trie.GetAllTransactions (ord (length ticks)) (block_Transactions b))
                then Done (Some (BlockNumber (Header b)))
                else monitorTransaction ord txID (GetHeight bc) ticks
            end
          else monitorTransaction ord txID height ticks
      end
  end.

(** The transaction that is broadcast, with the peers that got it. [amount] is the
    number that [strconv.ParseFloat] reads, [load] the wallet's file, [tbl] the table
    of public keys. *)
Definition handleSendTransaction (ro : range_order) (now : Z) (nonce : result Z) (tbl : key_table)
    (ParseFloat : string → result float64) (load : string → result Wallet) (gasModel : option GasModel.t)
    (net : TransactionAPI.network) (input : string) (pool : option UTXOPool) : outcome (result (Transaction * list string)) :=
  match fields input with
  | _ :: fromAddress :: toAddress :: a :: _ =>
      match ParseFloat a with
      | Err e => Done (Err ("Invalid amount: " +:+ e))
      | Ok amount =>
          if f64_le amount f64_zero then Done (Err "Amount must be greater than 0")
          else if negb (ValidateAddress fromAddress) then Done (Err "Invalid sender address")
          else if negb (ValidateAddress toAddress) then Done (Err "Invalid receiver address")
          else match load fromAddress with
          | Err e => Done (Err ("Error loading wallet: " +:+ e))
          | Ok wallet =>
              match pool with
              | None => Done (Err "UTXO pool not initialized")
              | Some p =>
                  let! balance := Utxo.GetBalance ro p fromAddress in
                  if f64_lt balance amount then
                    Done (Err ("Insufficient balance. Available: " +:+ fmt_f 8 balance +:+ ", Required: " +:+ fmt_f 8 amount))
                  else match gas_terms gasModel fromAddress toAddress with
                  | Err e => Done (Err e)
                  | Ok (gasPrice, gasLimit) =>
                      let totalRequired := f64_add amount (ConvertGasToTokens (u64 (gasLimit * gasPrice))) in
                      if f64_lt balance totalRequired then
                        Done (Err ("Insufficient balance including gas fee. Available: " +:+ fmt_f 8 balance
                                   +:+ ", Required: " +:+ fmt_f 8 totalRequired))
                      else match Tx.NewTransaction (unix now) fromAddress toAddress amount gasPrice gasLimit with
                      | Err e => Done (Err ("Error creating transaction: " +:+ e))
                      | Ok tx => send ro nonce tbl net wallet p tx
                      end
                  end
              end
          end
      end
  | _ => Done (Err "Usage: send-tx [from] [to] [amount]")
  end.
End shell.
End Shell.
