(* ===== verification/CliFacts.v ===== *)
(** * Facts about the program ([Cli])

    The choice of the peer whose state a miner takes over, the payments of the shell,
    what the wait for a payment sees, and the registration of a validator. *)

From Stdlib Require Import ZArith Lia.
From stdpp Require Import base gmap strings list.
From S2P Require Import Prelude.
From S2P Require Import Float64.
From S2P Require Import Sha256.
From S2P Require Import Json.
From S2P Require Import Gas.
From S2P Require Import Database.
From S2P Require Import P256.
From S2P Require Import Crypto.
From S2P Require Import Transaction.
From S2P Require Import Wallet.
From S2P Require Import WalletFacts.
From S2P Require Import Utxo.
From S2P Require Import UtxoFacts.
From S2P Require Import UtxoSync.
From S2P Require Import UtxoSelect.
From S2P Require Import Mempool.
From S2P Require Import MempoolFacts.
From S2P Require Import Trie.
From S2P Require Import Stake.
From S2P Require Import Block.
From S2P Require Import Chain.
From S2P Require Import ChainStore.
From S2P Require Import P2p.
From S2P Require Import Rpc.
From S2P Require Import RpcTxFacts.
From S2P Require Import Cli.

(** ** Roles *)

(** The name of a role is read back as the role. *)
Theorem parseRole_getRoleName (r : NodeRole) : parseRole (getRoleName r) = r.
Proof. by destruct r. Qed.

(** ** The peer of a miner *)
Section starting.
Context `{KV} `{ECDSA} `{GoImpl}.

(** The peer is connected in one of the four rounds and is neither a bootstrap node
    nor the transaction node; without a peer no round has one. *)
Theorem find_validator_spec (boot : string → bool) (peers_at : nat → list string) :
  match Startup.find_validator boot peers_at with
  | Some p => boot p = false ∧ p ≠ Startup.TXNSNodeID ∧ ∃ i, (i < 4)%nat ∧ p ∈ peers_at i
  | None => ∀ i p, (i < 4)%nat → p ∈ peers_at i → boot p = true ∨ p = Startup.TXNSNodeID
  end.
Proof.
  unfold Startup.find_validator. destruct (head _) as [p|] eqn:E.
  - apply head_Some_elem_of, list_elem_of_omap in E as (i & Hi & Hc). apply elem_of_seq in Hi.
    unfold Startup.candidate in Hc. apply List.find_some in Hc as [Hp [Hb Ht]%andb_true_iff].
    rewrite negb_true_iff in Hb, Ht. apply str_eqb_neq in Ht. split_and!; [done..|].
    exists i. split; [unfold Startup.maxPeerDiscoveryAttempts in *; lia|by apply list_elem_of_In].
  - intros i p Hi Hp. apply head_None in E.
    destruct (Startup.candidate boot (peers_at i)) as [q|] eqn:Hc.
    + assert (q ∈ omap (λ i, Startup.candidate boot (peers_at i)) (seq 0 Startup.maxPeerDiscoveryAttempts)) as Hq.
      { apply list_elem_of_omap. exists i. split; [|done]. apply elem_of_seq. unfold Startup.maxPeerDiscoveryAttempts. lia. }
      rewrite E in Hq. by apply elem_of_nil in Hq.
    + unfold Startup.candidate in Hc. apply (List.find_none _ _ ) with (x := p) in Hc; [|by apply list_elem_of_In].
      apply andb_false_iff in Hc as [Hb|Ht]; [left; by apply negb_false_iff|right].
      apply negb_false_iff in Ht. by apply str_eqb_eq.
Qed.

(** A node that took over a peer's state without an error has its own stakes
    completed by the peer's and its own mempool by the peer's transactions; a failure
    to get the stakes leaves the mempool as it was. *)
Theorem takeover_spec (ro : nat → range_order) (ord : nat → child_order) (now : Z) (n n' : Node.t) (p : Startup.peer_state)
    (e : error) :
  Startup.takeover ro ord now n p = Done (n', e) →
  match e with
  | None => ∃ n1 stakes txs, Node.SyncWithPeer ro ord now n (Startup.ps_blocks p) = Done (n1, None) ∧
      Startup.ps_stakes p = inr (Some stakes) ∧ Startup.ps_mempool p = inr txs ∧
      Node.n_bc n' = Node.n_bc n1 ∧
      Node.n_stakePool n' = Some (StakePool.SyncWithPeer_merge (ro 2%nat) (default StakePool.NewStakePool (Node.n_stakePool n1)) stakes) ∧
      Node.n_mempool n' = Mempool.merge_peer (Node.n_mempool n1) txs
  | Some _ => ∃ n1 e1, Node.SyncWithPeer ro ord now n (Startup.ps_blocks p) = Done (n1, e1) ∧
      Node.n_bc n' = Node.n_bc n1 ∧ Node.n_mempool n' = Node.n_mempool n1
  end.
Proof.
  unfold Startup.takeover. intros E. apply obind_Done_inv in E as ([n1 e1] & E1 & E).
  destruct e1 as [e1|]; [injection E as <- <-; eauto 6|].
  unfold stakes_SyncWithPeer in E. cbn [negb] in E.
  destruct (Startup.ps_stakes p) as [es|[stakes|]] eqn:Es; [injection E as <- <-; eauto 6| |injection E as <- <-; eauto 6].
  unfold mempool_SyncWithPeer in E. destruct (Startup.ps_mempool p) as [em|txs] eqn:Em; injection E as <- <-; [eauto 6|].
  exists n1, stakes, txs. by split_and!.
Qed.
End starting.

(** ** Payments *)
Section paying.
Context `{KV} `{ECDSA} `{GoImpl}.

Lemma NewTransaction_fields now from to amount price limit tx :
  Tx.NewTransaction now from to amount price limit = Ok tx →
  Sender tx = from ∧ Receiver tx = to ∧ Amount tx = amount ∧ Inputs tx = [] ∧
  Outputs tx = [mkTransactionOutput to amount ""] ∧ TxType tx = TX_REGULAR ∧
  GasPrice tx = price ∧ f64_gt (GasFee tx) MaxTotalFee = false.
Proof.
  unfold Tx.NewTransaction. destruct (price <? MinGasPrice); [done|]. cbv zeta.
  destruct (f64_gt _ MaxTotalFee) eqn:Hf; [done|]. destruct (Tx.ValidateGas _); [done|].
  intros E. injection E as <-. by split_and!.
Qed.

Lemma ValidateTransaction_signed tbl tx us : Tx.is_system tx = false →
  Mempool.ValidateTransaction tbl tx us = Done true → Tx.VerifySignature tbl tx = Done true.
Proof.
  unfold Tx.is_system, Mempool.ValidateTransaction. intros -> E. destruct (Tx.ValidateGas tx); [done|].
  destruct (_ && _); [done|]. destruct (Mempool.input_sum _ _ _ _); [|done]. by destruct (f64_lt _ _).
Qed.

(** Signing changes the signature and the key only. *)
Lemma SignTransaction_shape nonce w tx w' tx' e : SignTransaction nonce w tx = Done (w', tx', e) →
  ∃ sig pk, tx' = Tx.set_signature tx sig pk.
Proof.
  unfold SignTransaction. intros E. apply obind_Done_inv in E as (w1 & _ & E).
  destruct (SignMessage _ _ _); injection E as <- <- <-; eauto.
Qed.

(** What [send] broadcasts. *)
Lemma send_spec ro nonce tbl net w p tx tx' got : TxType tx = TX_REGULAR →
  Shell.send ro nonce tbl net w p tx = Done (Ok (tx', got)) →
  let targets := filter (λ p, p ≠ TransactionAPI.net_self net ∧ IsPeerTXNSNode p = false ∧ TransactionAPI.net_boot net p = false)
                   (TransactionAPI.net_peers net) in
  ∃ sel sig pk,
    Forall (λ u, u ∈ filter (λ u, utxo_Owner u = Sender tx) (range ro (utxos p)).*2 ∧ utxo_Spent u = false) sel ∧
    f64_lt (amount_total sel) (f64_add (Amount tx) (GasFee tx)) = false ∧
    tx' = Tx.set_signature (Tx.set_io tx (Inputs tx ++ (input_of <$> sel))
            (Outputs tx ++ change_output (Sender tx) (f64_sub (amount_total sel) (f64_add (Amount tx) (GasFee tx))))) sig pk ∧
    Tx.VerifySignature tbl tx' = Done true ∧
    got = filter (λ p, TransactionAPI.net_reached net p = true) targets ∧ (targets = [] ∨ got ≠ []).
Proof.
  intros Hty E targets. unfold Shell.send in E. apply obind_Done_inv in E as ([tx1 e] & Es & E). destruct e; [done|].
  apply SelectUTXOs_inv in Es as (sel & Hf & Hn & _ & ->).
  apply obind_Done_inv in E as ([[w' tx2] e] & Esg & E). destruct e; [done|].
  apply SignTransaction_shape in Esg as (sig & pk & ->).
  apply obind_Done_inv in E as (us & _ & E). apply obind_Done_inv in E as (ok & Ev & E). destruct ok; [|done].
  cbn [negb] in E. destruct (Node.BroadcastTransaction _ _ _ _ _ _) as [got' e] eqn:Eb. destruct e; [done|]. injection E as <- <-.
  apply BroadcastTransaction_reached in Eb as [Hg Ht]. exists sel, sig, pk. split_and!; [done..| |done|done].
  apply ValidateTransaction_signed with us; [|done]. unfold Tx.is_system, Tx.IsCoinbase, Tx.IsValidatorReward.
  cbn [TxType Tx.set_signature Tx.set_io]. by rewrite Hty.
Qed.

(** C25 A payment that the shell reports as sent is the one of the command: it goes from
    the address of the command to the other one, both valid, for the amount that was
    typed and a fee within the limit; its inputs are unspent outputs of the sender that
    cover amount and fee, its outputs the payment and the change; its signature is
    valid, and it went to every peer that could be reached. *)
Theorem shell_payment (ro : range_order) (now : Z) (nonce : result Z) (tbl : key_table)
    (ParseFloat : string → result float64) (load : string → result Wallet) (gasModel : option GasModel.t)
    (net : TransactionAPI.network) (input : string) (p : UTXOPool) (tx : Transaction) (got : list string) :
  Shell.handleSendTransaction ro now nonce tbl ParseFloat load gasModel net input (Some p) = Done (Ok (tx, got)) →
  let targets := filter (λ p, p ≠ TransactionAPI.net_self net ∧ IsPeerTXNSNode p = false ∧ TransactionAPI.net_boot net p = false)
                   (TransactionAPI.net_peers net) in
  ∃ cmd from to a rest amount sel,
    fields input = cmd :: from :: to :: a :: rest ∧ ParseFloat a = Ok amount ∧ f64_le amount f64_zero = false ∧
    ValidateAddress from = true ∧ ValidateAddress to = true ∧
    Sender tx = from ∧ Receiver tx = to ∧ Amount tx = amount ∧ f64_gt (GasFee tx) MaxTotalFee = false ∧
    Inputs tx = input_of <$> sel ∧
    Forall (λ u, u ∈ filter (λ u, utxo_Owner u = from) (range ro (utxos p)).*2 ∧ utxo_Spent u = false) sel ∧
    f64_lt (amount_total sel) (f64_add amount (GasFee tx)) = false ∧
    Outputs tx = mkTransactionOutput to amount "" :: change_output from (f64_sub (amount_total sel) (f64_add amount (GasFee tx))) ∧
    Tx.VerifySignature tbl tx = Done true ∧
    got = filter (λ p, TransactionAPI.net_reached net p = true) targets ∧ (targets = [] ∨ got ≠ []).
Proof.
  unfold Shell.handleSendTransaction. destruct (fields input) as [|cmd [|from [|to [|a rest]]]]; [done..|].
  destruct (ParseFloat a) as [amount|] eqn:Ea; [|done]. destruct (f64_le amount f64_zero) eqn:Hpos; [done|].
  destruct (ValidateAddress from) eqn:Hf; [|done]. destruct (ValidateAddress to) eqn:Ht; [|done]. cbn [negb].
  destruct (load from) as [w|]; [|done]. intros E. apply obind_Done_inv in E as (balance & _ & E).
  destruct (f64_lt balance amount); [done|]. destruct (Shell.gas_terms _ _ _) as [[price limit]|]; [|done].
  destruct (f64_lt balance _); [done|]. destruct (Tx.NewTransaction _ _ _ _ _ _) as [tx0|] eqn:En; [|done].
  apply NewTransaction_fields in En as (<- & <- & <- & Hi & Ho & Hty & _ & Hfee).
  apply send_spec in E as (sel & sig & pk & Hsel & Hcov & -> & Hv & Hg & Hr); [|done].
  exists cmd, (Sender tx0), (Receiver tx0), a, rest, (Amount tx0), sel.
  rewrite Hi, Ho in *. by split_and!.
Qed.
End paying.

(** ** Waiting for a block *)
Section waiting.
Context `{KV} `{ECDSA} `{GoImpl}.

(** The transactions of the newest block of a chain in memory. *)
Definition newest_has (ord : child_order) (txID : string) (bc : Blockchain) : Prop :=
  ∃ b tx, last (Chain bc) = Some b ∧ tx ∈ Trie.GetAllTransactions ord (block_Transactions b) ∧ TransactionID tx = txID.

Lemma in_block_spec ord txID b :
  existsb (λ tx, str_eqb (TransactionID tx) txID) (Trie.GetAllTransactions ord (block_Transactions b)) = true ↔
  ∃ tx, tx ∈ Trie.GetAllTransactions ord (block_Transactions b) ∧ TransactionID tx = txID.
Proof.
  rewrite existsb_exists. split; intros (tx & Hin & Hid); exists tx; rewrite list_elem_of_In in *; rewrite str_eqb_eq in *; done.
Qed.

(** A payment that is in none of the blocks that are the newest one when the shell
    looks is never reported as confirmed, even when a block below them has it. *)
Theorem monitor_newest_only (ord : nat → child_order) (txID : string) (ticks : list Blockchain) (height : Z) :
  Forall (λ bc, Chain bc ≠ [] ∧ ∀ i, ¬ newest_has (ord i) txID bc) ticks →
  Shell.monitorTransaction ord txID height ticks = Done None.
Proof.
  intros Hf. revert height. induction Hf as [|bc ticks [Hne Hno] _ IH]; intros height; [done|]. cbn [Shell.monitorTransaction].
  destruct (utxoPool bc); [|apply IH]. destruct (GetHeight bc >? height); [|apply IH]. unfold GetLatestBlock.
  destruct (last (Chain bc)) as [b|] eqn:El; [|by apply last_None in El]. cbn [obind].
  destruct (existsb _ _) eqn:Ex; [|apply IH]. apply in_block_spec in Ex as (tx & ? & ?).
  destruct (Hno (length ticks)). by exists b, tx.
Qed.

(** A payment that is reported as confirmed is in the newest block at one of the
    checks, and the number is that block's. *)
Theorem monitor_sound (ord : nat → child_order) (txID : string) (ticks : list Blockchain) (height n : Z) :
  Forall (λ bc, Chain bc ≠ []) ticks →
  Shell.monitorTransaction ord txID height ticks = Done (Some n) →
  ∃ i bc b, bc ∈ ticks ∧ newest_has (ord i) txID bc ∧ last (Chain bc) = Some b ∧ BlockNumber (Header b) = n.
Proof.
  intros Hf. revert height. induction Hf as [|bc ticks Hne _ IH]; intros height E; [done|]. cbn [Shell.monitorTransaction] in E.
  assert (∀ h, Shell.monitorTransaction ord txID h ticks = Done (Some n) →
    ∃ i bc' b, bc' ∈ bc :: ticks ∧ newest_has (ord i) txID bc' ∧ last (Chain bc') = Some b ∧ BlockNumber (Header b) = n) as Hlater.
  { intros h (i & bc' & b & ? & ?)%IH. exists i, bc', b. split; [by apply elem_of_cons; right|done]. }
  destruct (utxoPool bc); [|by eapply Hlater]. destruct (GetHeight bc >? height); [|by eapply Hlater].
  unfold GetLatestBlock in E. destruct (last (Chain bc)) as [b|] eqn:El; [|by apply last_None in El]. cbn [obind] in E.
  destruct (existsb _ _) eqn:Ex; [|by eapply Hlater]. apply in_block_spec in Ex as (tx & ? & ?). injection E as <-.
  exists (length ticks), bc, b. split_and!; [by apply elem_of_cons; left| |done|done]. by exists b, tx.
Qed.

(** ** Registration *)

Lemma check_gone ord fuel n txid e bc' : txid ≠ "" →
  FindTransaction (ord 0) (Node.n_bc n) (Some (Mempool.Transactions (Node.n_mempool n))) txid = Done (Err e, bc') →
  Registration.check ord fuel n txid = Done (Some Registration.Gone).
Proof.
  intros Hid E. unfold Registration.check. rewrite E. cbn [obind fmap option_fmap option_map].
  unfold FindTransaction in E. rewrite (proj2 (str_eqb_neq _ _) Hid) in E. unfold Mempool.GetTransactions.
  destruct (existsb _ _) eqn:Ex; [|done]. apply existsb_exists in Ex as (tx & Hin & Hx).
  destruct (find _ _) as [t|] eqn:Ef; [done|]. cbn [default] in Ef.
  by rewrite (List.find_none _ _ Ef tx Hin) in Hx.
Qed.

(** A stake transaction that is neither in the node's own mempool nor in a block at
    the first look, right after it was broadcast, ends the registration: the validator
    is not registered, however soon a block would have it. A broadcast does not put the
    transaction into the sender's mempool. *)
Theorem registration_gives_up (ord : Z → child_order) (fuel : nat) (now : Z) (net : TransactionAPI.network) (view : nat → Node.t)
    (w : Wallet) (hostID answer e : string) (stake : float64) (tx : Transaction) (sp : StakePool.t) (got : list string) (bc' : Blockchain) :
  confirms answer = true → TransactionID tx ≠ "" →
  Node.BroadcastTransaction (TransactionAPI.net_encoded net) (TransactionAPI.net_self net) (TransactionAPI.net_boot net) (TransactionAPI.net_reached net)
    (TransactionAPI.net_peers net) [] = (got, None) →
  FindTransaction (ord 0) (Node.n_bc (view 1%nat)) (Some (Mempool.Transactions (Node.n_mempool (view 1%nat)))) (TransactionID tx)
    = Done (Err e, bc') →
  Registration.register ord fuel now net view w hostID stake answer tx sp =
    Done (Some (sp, Some "validator registration failed: stake transaction was not confirmed")).
Proof.
  intros Hc Hid Eb Ef. unfold Registration.register. rewrite Hc. cbn [negb]. rewrite Eb. cbn [snd Registration.await].
  by rewrite (check_gone ord fuel (view 1%nat) _ e bc' Hid Ef).
Qed.

Lemma check_confirmed ord fuel n txid : Registration.check ord fuel n txid = Done (Some Registration.Confirmed) →
  ∃ r bc f, FindTransaction (ord 0) (Node.n_bc n) (Some (Mempool.Transactions (Node.n_mempool n))) txid = Done (Ok r, bc) ∧
    TransactionAPI.find_up ord fuel (TransactionAPI.search txid) bc = Done (Some f) ∧ is_Some f.1.
Proof.
  unfold Registration.check. intros E. apply obind_Done_inv in E as ([r bc] & Ef & E).
  destruct r as [t|]; cbn [obind] in E.
  - apply obind_Done_inv in E as (found & Eu & E). apply obind_Done_inv in Eu as (f & Eup & Eu). injection Eu as <-.
    destruct f as [f|]; [|done]. exists t, bc, f. split_and!; [done..|]. cbn [fmap option_fmap option_map] in E.
    destruct f.1; [eauto|]. by destruct (existsb _ _).
  - cbn [fmap option_fmap option_map] in E. by destruct (existsb _ _).
Qed.

Lemma await_confirmed ord fuel view txid more : ∀ attempt,
  Registration.await ord fuel view txid attempt more = Done (Some true) →
  ∃ i, (attempt ≤ i < attempt + more)%nat ∧ Registration.check ord fuel (view i) txid = Done (Some Registration.Confirmed).
Proof.
  induction more as [|more IH]; intros attempt E; [done|]. cbn [Registration.await] in E.
  apply obind_Done_inv in E as (s & Es & E). destruct s as [[]|]; try done.
  - exists attempt. split; [lia|done].
  - destruct (IH _ E) as (i & ? & ?). exists i. split; [lia|done].
Qed.

(** A validator is registered only after a search of the node's blocks at one of the
    thirty attempts has found the stake transaction. *)
Theorem registered_is_confirmed (ord : Z → child_order) (fuel : nat) (now : Z) (net : TransactionAPI.network) (view : nat → Node.t)
    (w : Wallet) (hostID answer : string) (stake : float64) (tx : Transaction) (sp sp' : StakePool.t) :
  Registration.register ord fuel now net view w hostID stake answer tx sp = Done (Some (sp', None)) →
  StakePool.AddValidator now sp (w_Address w) stake hostID = (sp', None) ∧
  ∃ i r bc b t bc', (1 ≤ i ≤ 30)%nat ∧
    FindTransaction (ord 0) (Node.n_bc (view i)) (Some (Mempool.Transactions (Node.n_mempool (view i)))) (TransactionID tx) = Done (Ok r, bc) ∧
    TransactionAPI.find_up ord fuel (TransactionAPI.search (TransactionID tx)) bc = Done (Some (Some (t, b), bc')).
Proof.
  unfold Registration.register. destruct (confirms answer); [|done]. cbn [negb].
  destruct (Node.BroadcastTransaction _ _ _ _ _ _) as [got [e|]]; cbn [snd]; [done|]. intros E.
  apply obind_Done_inv in E as (c & Ea & E). destruct c as [[]|]; cbn [fmap option_fmap option_map] in E; try done.
  split; [destruct (StakePool.AddValidator _ _ _ _ _) as [sp1 [e|]]; [done|by injection E as <-]|].
  apply await_confirmed in Ea as (i & Hi & (r & bc & [[[t b]|] bc'] & Ef & Eu & [? Hs])%check_confirmed); [|done].
  exists i, r, bc, b, t, bc'. split_and!; [lia..|done|done].
Qed.
End waiting.

(** ** Concrete instances *)

(** The payer has outputs of 10.005 and of 5. *)
Definition payer_wallet : option Wallet := match wallet_of toy_key "abandon" with Done w => Some w | _ => None end.
Definition payer_load (_ : string) : result Wallet := match payer_wallet with Some w => Ok w | None => Err "no wallet" end.
Definition rich_set : utxo_set :=
  {[ "c1-0" := mkUTXO "c1" 0 (f64_ratio 10005 1000) payer false 1 0 ""; "c2-0" := mkUTXO "c2" 0 (f64_of_Z 5) payer false 1 0 "" ]}.
Definition rich_pool : UTXOPool := mkUTXOPool rich_set Unlocked "" "" 0 None [] [] false.
Definition typed (s : string) : result float64 :=
  if str_eqb s "10" then Ok (f64_of_Z 10) else if str_eqb s "9" then Ok (f64_of_Z 9) else Err "invalid syntax".
Definition two_peers : TransactionAPI.network := TransactionAPI.mkNetwork None "self" (λ p, str_eqb p "boot") (λ _, true) ["boot"; "peer"].

Definition pay (amount : string) : outcome (result (Transaction * list string)) :=
  Shell.handleSendTransaction (λ l, l) 0 (Ok (2 ^ 254)) ∅ typed payer_load None two_peers
    ("send-tx " +:+ payer +:+ " " +:+ payer +:+ " " +:+ amount) (Some rich_pool).

Lemma shell_payment_witness : ∃ tx, pay "9" = Done (Ok (tx, ["peer"])) ∧ Amount tx = f64_of_Z 9 ∧ Tx.VerifySignature ∅ tx = Done true.
Proof.
  assert (match pay "9" with Done (Ok (_, ["peer"])) => true | _ => false end = true) as H by (vm_compute; reflexivity).
  destruct (pay "9") as [[[tx got]|]| |] eqn:E; [|discriminate..].
  pose proof (shell_payment _ _ _ _ _ _ _ _ _ _ _ _ E) as (cmd & from & to & a & rest & amount & sel & Hf & Ha & _ & _ & _ & _ & _ & Hm & _ & _ & _ & _ & _ & Hv & Hg & _).
  exists tx. rewrite Hg. split_and!; [reflexivity| |exact Hv].
  assert (fields ("send-tx " +:+ payer +:+ " " +:+ payer +:+ " 9") = ["send-tx"; payer; payer; "9"]) as Hf' by (vm_compute; reflexivity).
  change (fields ("send-tx " +:+ payer +:+ " " +:+ payer +:+ " 9") = cmd :: from :: to :: a :: rest) in Hf.
  rewrite Hf' in Hf. injection Hf as _ _ _ <- _. injection Ha as <-. exact Hm.
Defined.

(** The outputs are selected for the fee, but the check asks for twice the fee: ten
    tokens cannot be paid although fifteen are there, since the first output covers
    them with the fee and not with its double. *)
Theorem shell_refuses_affordable : pay "10" = Done (Err "Transaction validation failed").
Proof. vm_compute. reflexivity. Qed.

Definition plain_wallet : Wallet := mkWallet toy_key (sk_PublicKey toy_key) payer [] [] "".

Lemma registration_gives_up_witness :
  Registration.register same_child 2 0 two_peers (λ _, demo_node) plain_wallet "self" (f64_of_Z 5) " Yes" (toy_tx "s") StakePool.NewStakePool
  = Done (Some (StakePool.NewStakePool, Some "validator registration failed: stake transaction was not confirmed")).
Proof.
  assert (match FindTransaction (same_child 0) (Node.n_bc demo_node) (Some (Mempool.Transactions (Node.n_mempool demo_node))) "t" with
          | Done (Err _, _) => true | _ => false end = true) as H by (vm_compute; reflexivity).
  destruct (FindTransaction (same_child 0) (Node.n_bc demo_node) (Some (Mempool.Transactions (Node.n_mempool demo_node))) "t")
    as [[[r|e] bc']| |] eqn:E; [discriminate| |discriminate..].
  apply (registration_gives_up same_child 2 0 two_peers (λ _, demo_node) plain_wallet "self" " Yes" e (f64_of_Z 5) (toy_tx "s")
           StakePool.NewStakePool ["peer"] bc'); [vm_compute; reflexivity|discriminate|vm_compute; reflexivity|exact E].
Defined.
